(** * The AI provider fallback pipeline of the unified API route handler

    A shallow embedding of the four AI routes of the catch-all [GET] handler
    (ai/search, ai/recommendations, ai/analysis, ai/modifications): request
    validation, the credential check, the sequential provider chain, the
    extraction of JSON from a provider's text, and the rule-based fallback.

    JavaScript strings are sequences of UTF-16 code units, the values that
    [JSON.parse] returns are an inductive type, and everything the handler
    reaches over the network (the text-generation providers, the recipe API)
    is a component of an explicit [World] whose answers the handler consumes.
    Every outbound call is recorded in a log, so that "is not called" is a
    statement about that log.

    Outside the model: the prompt texts (they only travel to the providers,
    whose answers the [World] gives), the [X-Response-Time] header (wall
    clock), the CORS preflight answer (for [OPTIONS] requests only) and the
    serialisation of the response body. *)

From Stdlib Require Import List NArith ZArith QArith Qround Qabs Qpower Bool
  String Ascii Lia Lqa.
Import ListNotations.
Close Scope Q_scope.

(* ================================================================== *)
(** ** JavaScript strings *)
(* ================================================================== *)

Section JsStrings.
Local Open Scope N_scope.

(** A string is its list of UTF-16 code units. *)
Definition jsstring := list N.

(** String literals of the source, written as Rocq strings. *)
Definition js (s : string) : jsstring :=
  map N_of_ascii (list_ascii_of_string s).

Fixpoint str_eqb (a b : jsstring) : bool :=
  match a, b with
  | [], [] => true
  | x :: a', y :: b' => (x =? y) && str_eqb a' b'
  | _, _ => false
  end.

(** [s.length] *)
Definition str_length (s : jsstring) : Z := Z.of_nat (List.length s).

(** [!s] is false exactly for the non-empty strings. *)
Definition str_truthy (s : jsstring) : bool :=
  match s with [] => false | _ :: _ => true end.

(** [s || d] for a value [s] that is a string, [null] or [undefined] *)
Definition str_or (s : option jsstring) (d : jsstring) : jsstring :=
  match s with
  | Some t => if str_truthy t then t else d
  | None => d
  end.

(** The code units matched by [\s] in a regular expression; these are also
    the ones [String.prototype.trim] strips (WhiteSpace and LineTerminator). *)
Definition is_js_whitespace (c : N) : bool :=
  existsb (N.eqb c)
    [9; 10; 11; 12; 13; 32; 160; 5760; 8232; 8233; 8239; 8287; 12288; 65279]
  || ((8192 <=? c) && (c <=? 8202)).

Fixpoint trimStart (s : jsstring) : jsstring :=
  match s with
  | [] => []
  | c :: r => if is_js_whitespace c then trimStart r else s
  end.

Definition trimEnd (s : jsstring) : jsstring := rev (trimStart (rev s)).

(** [s.trim()] *)
Definition trim (s : jsstring) : jsstring := trimEnd (trimStart s).

(** [s] starts with [p]; on success the remainder after [p]. *)
Fixpoint strip_prefix (p s : jsstring) : option jsstring :=
  match p, s with
  | [], _ => Some s
  | x :: p', y :: s' => if x =? y then strip_prefix p' s' else None
  | _ :: _, [] => None
  end.

(** First occurrence of [p] in [s]: the text before it and the text after. *)
Fixpoint find_sub (p s : jsstring) : option (jsstring * jsstring) :=
  match strip_prefix p s with
  | Some after => Some ([], after)
  | None =>
      match s with
      | [] => None
      | c :: r =>
          match find_sub p r with
          | Some (before, after) => Some (c :: before, after)
          | None => None
          end
      end
  end.

End JsStrings.

(* ================================================================== *)
(** ** JavaScript values *)
(* ================================================================== *)

(** The values the handler manipulates: what [JSON.parse] returns, plus
    [NaN], which [parseInt] can produce.  A finite number is the rational it
    denotes; [JSON.parse] rounds every literal to binary64 ([binary64]
    below), which gives zero for a literal too small and an infinity for one
    too large.  The sign of a zero is not kept: nothing the handler does
    tells the two zeros apart.  An object is its list of own properties in
    insertion order, which is the order of [Object.keys] for the property
    names met here (none of them is an array index). *)
#[warnings="-register-all"]
Inductive Value : Type :=
| JNull
| JBool (b : bool)
| JNum (q : Q)
| JNaN
| JInf (negative : bool)
| JStr (s : jsstring)
| JArr (items : list Value)
| JObj (fields : list (jsstring * Value)).

Definition JInt (z : Z) : Value := JNum (inject_Z z).

(** ToBoolean: [null], [false], [0], [NaN] and the empty string are falsy. *)
Definition truthy (v : Value) : bool :=
  match v with
  | JNull => false
  | JBool b => b
  | JNum q => negb (Qnum q =? 0)%Z
  | JNaN => false
  | JInf _ => true
  | JStr s => str_truthy s
  | JArr _ => true
  | JObj _ => true
  end.

Fixpoint lookup (k : jsstring) (fields : list (jsstring * Value)) : option Value :=
  match fields with
  | [] => None
  | (k', v) :: rest => if str_eqb k k' then Some v else lookup k rest
  end.

(** [v.k] for the property names the handler reads: a property of an object,
    [undefined] (here [None]) on every other value. *)
Definition get_prop (v : Value) (k : string) : option Value :=
  match v with
  | JObj fields => lookup (js k) fields
  | _ => None
  end.

(** [o[k] = v]: overwrite in place or append. *)
Fixpoint obj_set (fields : list (jsstring * Value)) (k : jsstring) (v : Value)
  : list (jsstring * Value) :=
  match fields with
  | [] => [(k, v)]
  | (k', v') :: rest =>
      if str_eqb k k' then (k', v) :: rest else (k', v') :: obj_set rest k v
  end.

(** [Object.keys(o)] *)
Definition keys (v : Value) : list jsstring :=
  match v with
  | JObj fields => map fst fields
  | _ => []
  end.

Definition is_object (v : Value) : bool :=
  match v with JObj _ => true | _ => false end.

(** [a > b] on numbers. *)
Definition Qgtb (a b : Q) : bool :=
  (Qnum b * QDen a <? Qnum a * QDen b)%Z.

(* ================================================================== *)
(** ** The Number value of a real number *)
(* ================================================================== *)

(** [2^k] for an integer [k] *)
Definition pow2 (k : Z) : Q := Qpower (inject_Z 2) k.

(** The nearest integer, the even one of two that are equally near. *)
Definition round_half_even (q : Q) : Z :=
  let f := Qfloor q in
  match Qcompare (Qminus q (inject_Z f)) (Qmake 1 2) with
  | Lt => f
  | Gt => (f + 1)%Z
  | Eq => if Z.even f then f else (f + 1)%Z
  end.

(** The binary64 numbers around a positive [q] are the multiples of [2^e]:
    [e] is such that [q / 2^e] lies between [2^52] and [2^53] for a normal
    number, and is -1074 for a subnormal one. *)
Definition binary64_exponent (q : Q) : Z :=
  let k := (Z.log2 (Qnum q) - Z.log2 (Zpos (Qden q)))%Z in
  let k := if Qle_bool (pow2 k) q then k else (k - 1)%Z in
  Z.max (k - 52) (-1074).

(** The Number value of a real number: the nearest binary64 number, with
    ties to the even significand; an infinity when that is beyond the largest
    binary64 number. *)
Definition binary64 (q : Q) : Value :=
  let a := Qabs q in
  let e := binary64_exponent a in
  let r := Qmult (inject_Z (round_half_even (Qdiv a (pow2 e)))) (pow2 e) in
  if (Qnum q =? 0)%Z then JNum (inject_Z 0)
  else if Qle_bool (pow2 1024) r then JInf (Qnum q <? 0)%Z
  else JNum (Qred (if (Qnum q <? 0)%Z then Qopp r else r)).

(* ================================================================== *)
(** ** [JSON.parse] *)
(* ================================================================== *)

Section JsonParse.
Local Open Scope N_scope.

Definition is_json_ws (c : N) : bool := existsb (N.eqb c) [9; 10; 13; 32].

Fixpoint skip_ws (s : jsstring) : jsstring :=
  match s with
  | [] => []
  | c :: r => if is_json_ws c then skip_ws r else s
  end.

Definition digit_val (c : N) : option Z :=
  if (48 <=? c) && (c <=? 57) then Some (Z.of_N (c - 48)) else None.

Definition hex_val (c : N) : option N :=
  if (48 <=? c) && (c <=? 57) then Some (c - 48)
  else if (97 <=? c) && (c <=? 102) then Some (c - 87)
  else if (65 <=? c) && (c <=? 70) then Some (c - 55)
  else None.

(** Reads a maximal run of decimal digits: its value appended to [acc], the
    number of digits read, and the rest. *)
Fixpoint read_digits (s : jsstring) (acc : Z) (count : nat)
  : Z * nat * jsstring :=
  match s with
  | [] => (acc, count, [])
  | c :: r =>
      match digit_val c with
      | Some d => read_digits r (10 * acc + d)%Z (S count)
      | None => (acc, count, s)
      end
  end.

(** The number [m * 10^e]. *)
Definition decimal (m e : Z) : Q :=
  if (0 <=? e)%Z then inject_Z (m * 10 ^ e)%Z
  else Qred (Qmake m (Z.to_pos (10 ^ (- e))%Z)).

(** A JSON number literal: an optional minus sign, an integer part without
    leading zeros, an optional fraction, an optional exponent.  The result
    is the real number the literal denotes; [parse_value] rounds it. *)
Definition parse_number (s : jsstring) : option (Q * jsstring) :=
  let '(neg, s1) :=
    match s with
    | c :: r => if c =? 45 then (true, r) else (false, s)
    | [] => (false, s)
    end in
  let int_part :=
    match s1 with
    | c :: r =>
        if c =? 48 then Some (0%Z, r)
        else match digit_val c with
             | Some _ => let '(m, _, r') := read_digits s1 0%Z O in Some (m, r')
             | None => None
             end
    | [] => None
    end in
  match int_part with
  | None => None
  | Some (m, s2) =>
      let frac :=
        match s2 with
        | c :: r =>
            if c =? 46 then
              let '(m', n, r') := read_digits r m O in
              match n with O => None | S _ => Some (m', Z.of_nat n, r') end
            else Some (m, 0%Z, s2)
        | [] => Some (m, 0%Z, s2)
        end in
      match frac with
      | None => None
      | Some (m3, fd, s3) =>
          let expo :=
            match s3 with
            | c :: r =>
                if (c =? 101) || (c =? 69) then
                  let '(eneg, r1) :=
                    match r with
                    | d :: r' =>
                        if d =? 45 then (true, r')
                        else if d =? 43 then (false, r')
                        else (false, r)
                    | [] => (false, r)
                    end in
                  let '(e, n, r2) := read_digits r1 0%Z O in
                  match n with
                  | O => None
                  | S _ => Some ((if eneg then - e else e)%Z, r2)
                  end
                else Some (0%Z, s3)
            | [] => Some (0%Z, s3)
            end in
          match expo with
          | None => None
          | Some (e, s4) =>
              Some (decimal (if neg then - m3 else m3)%Z (e - fd)%Z, s4)
          end
      end
  end.

(** The characters of a string literal after its opening quote, up to and
    including the closing quote.  [acc] holds the decoded text reversed. *)
Fixpoint parse_string_chars (s : jsstring) (acc : jsstring)
  : option (jsstring * jsstring) :=
  match s with
  | [] => None
  | c :: r =>
      if c =? 34 then Some (rev acc, r)
      else if c =? 92 then
        match r with
        | [] => None
        | e :: r1 =>
            if e =? 34 then parse_string_chars r1 (34 :: acc)
            else if e =? 92 then parse_string_chars r1 (92 :: acc)
            else if e =? 47 then parse_string_chars r1 (47 :: acc)
            else if e =? 98 then parse_string_chars r1 (8 :: acc)
            else if e =? 102 then parse_string_chars r1 (12 :: acc)
            else if e =? 110 then parse_string_chars r1 (10 :: acc)
            else if e =? 114 then parse_string_chars r1 (13 :: acc)
            else if e =? 116 then parse_string_chars r1 (9 :: acc)
            else if e =? 117 then
              match r1 with
              | h1 :: h2 :: h3 :: h4 :: r2 =>
                  match hex_val h1, hex_val h2, hex_val h3, hex_val h4 with
                  | Some a, Some b, Some c', Some d =>
                      parse_string_chars r2
                        (((a * 16 + b) * 16 + c') * 16 + d :: acc)
                  | _, _, _, _ => None
                  end
              | _ => None
              end
            else None
        end
      else if c <? 32 then None
      else parse_string_chars r (c :: acc)
  end.

(** Recursive descent on the JSON grammar.  [fuel] bounds the nesting of the
    calls; [JSON_parse] below supplies more than any input can use. *)
Fixpoint parse_value (fuel : nat) (s : jsstring) : option (Value * jsstring) :=
  match fuel with
  | O => None
  | S fuel' =>
      match skip_ws s with
      | [] => None
      | c :: r =>
          if c =? 123 then
            match skip_ws r with
            | c' :: r' =>
                if c' =? 125 then Some (JObj [], r')
                else parse_members fuel' r []
            | [] => None
            end
          else if c =? 91 then
            match skip_ws r with
            | c' :: r' =>
                if c' =? 93 then Some (JArr [], r')
                else parse_elements fuel' r []
            | [] => None
            end
          else if c =? 34 then
            match parse_string_chars r [] with
            | Some (str, r') => Some (JStr str, r')
            | None => None
            end
          else
            match strip_prefix (js "true") (c :: r) with
            | Some r' => Some (JBool true, r')
            | None =>
                match strip_prefix (js "false") (c :: r) with
                | Some r' => Some (JBool false, r')
                | None =>
                    match strip_prefix (js "null") (c :: r) with
                    | Some r' => Some (JNull, r')
                    | None =>
                        match parse_number (c :: r) with
                        | Some (q, r') => Some (binary64 q, r')
                        | None => None
                        end
                    end
                end
            end
      end
  end

with parse_elements (fuel : nat) (s : jsstring) (acc : list Value)
  : option (Value * jsstring) :=
  match fuel with
  | O => None
  | S fuel' =>
      match parse_value fuel' s with
      | None => None
      | Some (v, r) =>
          match skip_ws r with
          | c :: r' =>
              if c =? 44 then parse_elements fuel' r' (v :: acc)
              else if c =? 93 then Some (JArr (rev (v :: acc)), r')
              else None
          | [] => None
          end
      end
  end

with parse_members (fuel : nat) (s : jsstring) (acc : list (jsstring * Value))
  : option (Value * jsstring) :=
  match fuel with
  | O => None
  | S fuel' =>
      match skip_ws s with
      | c :: r =>
          if c =? 34 then
            match parse_string_chars r [] with
            | None => None
            | Some (k, r1) =>
                match skip_ws r1 with
                | c1 :: r2 =>
                    if c1 =? 58 then
                      match parse_value fuel' r2 with
                      | None => None
                      | Some (v, r3) =>
                          match skip_ws r3 with
                          | c3 :: r4 =>
                              if c3 =? 44 then
                                parse_members fuel' r4 (obj_set acc k v)
                              else if c3 =? 125 then
                                Some (JObj (obj_set acc k v), r4)
                              else None
                          | [] => None
                          end
                      end
                    else None
                | [] => None
                end
            end
          else None
      | [] => None
      end
  end.

(** [JSON.parse(text)]: [None] stands for the thrown [SyntaxError]. *)
Definition JSON_parse (text : jsstring) : option Value :=
  match parse_value (2 * List.length text + 2) text with
  | Some (v, r) => match skip_ws r with [] => Some v | _ :: _ => None end
  | None => None
  end.

End JsonParse.

(* ================================================================== *)
(** ** The two regular expressions and the extraction of JSON from text *)
(* ================================================================== *)

Section Extraction.
Local Open Scope N_scope.

(** The source's JSON texts contain double quotes; in this file they are
    written with an apostrophe, which [jsq] turns into the double quote. *)
Definition jsq (s : string) : jsstring :=
  map (fun c => if c =? 39 then 34 else c) (js s).

(** What [text.match(re)] returns for a regular expression without the [g]
    flag: the leftmost match [m[0]] and its first capture group [m[1]]
    ([None] for [undefined], when the expression has no group). *)
Record RegExpMatch := mkMatch { whole : jsstring; group1 : option jsstring }.

Fixpoint from_first_brace (s : jsstring) : option jsstring :=
  match s with
  | [] => None
  | c :: r => if c =? 123 then Some r else from_first_brace r
  end.

Fixpoint to_last_brace (s : jsstring) : option jsstring :=
  match s with
  | [] => None
  | c :: r =>
      match to_last_brace r with
      | Some t => Some (c :: t)
      | None => if c =? 125 then Some [c] else None
      end
  end.

(** [text.match(/{[\s\S]*}/)]: the class [[\s\S]] is any code unit and the
    star is greedy, so the leftmost match runs from the first opening brace
    to the last closing brace after it. *)
Definition match_brace (text : jsstring) : option RegExpMatch :=
  match from_first_brace text with
  | None => None
  | Some r =>
      match to_last_brace r with
      | Some t => Some (mkMatch (123 :: t) None)
      | None => None
      end
  end.

(** The maximal run of [\s] at the start of [s], and what follows it. *)
Fixpoint span_whitespace (s : jsstring) : jsstring * jsstring :=
  match s with
  | [] => ([], [])
  | c :: r =>
      if is_js_whitespace c
      then let '(ws, rest) := span_whitespace r in (c :: ws, rest)
      else ([], s)
  end.

Definition fence_open : jsstring := js "```json".
Definition fence_close : jsstring := js "```".

(** [text.match(/```json\s*([\s\S]*?)\s*```/)]: the match starts at the first
    opening fence; the greedy [\s*] takes all the white space after it; the
    lazy group then stops at the shortest text that is followed by optional
    white space and a closing fence, that is, at the first closing fence with
    the white space before it left out of the group. *)
Definition match_fence (text : jsstring) : option RegExpMatch :=
  match find_sub fence_open text with
  | None => None
  | Some (_, after) =>
      let '(ws, body) := span_whitespace after in
      match find_sub fence_close body with
      | None => None
      | Some (inner, _) =>
          Some (mkMatch (fence_open ++ ws ++ inner ++ fence_close)
                        (Some (trimEnd inner)))
      end
  end.

(** [jsonMatch[1] || jsonMatch[0]] *)
Definition group1_or_whole (m : RegExpMatch) : jsstring :=
  match group1 m with
  | Some g => if str_truthy g then g else whole m
  | None => whole m
  end.

(** [a || b] on match results ([null] when there is no match). *)
Definition or_match (a b : option RegExpMatch) : option RegExpMatch :=
  match a with Some m => Some m | None => b end.

(** The OpenRouter branches of ai/search:
<<
  try { searchParams = JSON.parse(aiContent); }
  catch {
    const jsonMatch = aiContent.match(/{[\s\S]*}/);
    if (jsonMatch) searchParams = JSON.parse(jsonMatch[0]);
  }
>>
    [Some v]: [v] is assigned.  [None]: nothing is assigned (no match, or the
    second [JSON.parse] throws into the enclosing [catch]). *)
Definition extract_direct_then_brace (aiContent : jsstring) : option Value :=
  match JSON_parse aiContent with
  | Some v => Some v
  | None =>
      match match_brace aiContent with
      | Some jsonMatch => JSON_parse (whole jsonMatch)
      | None => None
      end
  end.

(** Every other provider branch of the four routes:
<<
  try {
    const jsonMatch = aiContent.match(/```json\s*([\s\S]*?)\s*```/) ||
                      aiContent.match(/{[\s\S]*}/);
    data = JSON.parse(jsonMatch ? jsonMatch[1] || jsonMatch[0] : aiContent);
  } catch { }
>> *)
Definition extract_regex_then_raw (aiContent : jsstring) : option Value :=
  let jsonMatch := or_match (match_fence aiContent) (match_brace aiContent) in
  JSON_parse (match jsonMatch with
              | Some m => group1_or_whole m
              | None => aiContent
              end).

End Extraction.

(* ================================================================== *)
(** ** [Number(s)] and [parseInt(s, 10)] on strings *)
(* ================================================================== *)

Section StringToNumber.
Local Open Scope N_scope.

Definition is_digit (c : N) : bool := (48 <=? c) && (c <=? 57).
Definition is_hex_digit (c : N) : bool :=
  match hex_val c with Some _ => true | None => false end.
Definition is_octal_digit (c : N) : bool := (48 <=? c) && (c <=? 55).
Definition is_binary_digit (c : N) : bool := (c =? 48) || (c =? 49).

Definition nonempty_all (p : N -> bool) (s : jsstring) : bool :=
  str_truthy s && forallb p s.

(** [0x], [0o], [0b] followed by digits of that base. *)
Definition is_non_decimal_literal (s : jsstring) : bool :=
  match s with
  | z :: x :: r =>
      (z =? 48) &&
      (  ((x =? 120) || (x =? 88)) && nonempty_all is_hex_digit r
      || ((x =? 111) || (x =? 79)) && nonempty_all is_octal_digit r
      || ((x =? 98) || (x =? 66)) && nonempty_all is_binary_digit r)
  | _ => false
  end.

(** An optional exponent part that ends the string. *)
Definition is_exponent_opt (s : jsstring) : bool :=
  match s with
  | [] => true
  | c :: r =>
      ((c =? 101) || (c =? 69)) &&
      match r with
      | d :: r' =>
          if (d =? 43) || (d =? 45) then nonempty_all is_digit r'
          else nonempty_all is_digit r
      | [] => false
      end
  end.

(** A signed decimal literal: [Infinity], or digits with an optional
    fraction (digits before or after the dot), then an optional exponent. *)
Definition is_decimal_literal (s : jsstring) : bool :=
  let unsigned :=
    match s with
    | c :: r => if (c =? 43) || (c =? 45) then r else s
    | [] => s
    end in
  str_eqb unsigned (js "Infinity") ||
  let '(_, n1, s1) := read_digits unsigned 0%Z O in
  match s1 with
  | c :: r =>
      if c =? 46 then
        let '(_, n2, s2) := read_digits r 0%Z O in
        match n1, n2 with
        | O, O => false
        | _, _ => is_exponent_opt s2
        end
      else match n1 with O => false | S _ => is_exponent_opt s1 end
  | [] => match n1 with O => false | S _ => true end
  end.

(** [isNaN(Number(s))] for a string [s]: the trimmed text is neither empty
    nor a numeric literal. *)
Definition Number_isNaN (s : jsstring) : bool :=
  let t := trim s in
  match t with
  | [] => false
  | _ :: _ => negb (is_non_decimal_literal t || is_decimal_literal t)
  end.

(** [parseInt(s, 10)] *)
Definition parseInt10 (s : jsstring) : Value :=
  let t := trimStart s in
  let '(neg, t1) :=
    match t with
    | c :: r =>
        if c =? 45 then (true, r)
        else if c =? 43 then (false, r)
        else (false, t)
    | [] => (false, t)
    end in
  let '(m, n, _) := read_digits t1 0%Z O in
  match n with
  | O => JNaN
  | S _ => JInt (if neg then - m else m)%Z
  end.

End StringToNumber.

(* ================================================================== *)
(** ** Environment, collaborators and the call log *)
(* ================================================================== *)

(** [process.env]: a variable is absent or holds a string. *)
Record Env := mkEnv {
  OPENROUTER_API_KEY : option jsstring;
  GOOGLE_GEMINI_API_KEY : option jsstring;
  GROQ_LLAMA_API_KEY : option jsstring;
  HUGGING_FACE_INFERENCE_API_KEY : option jsstring
}.

(** Truthiness of [process.env.X]: present and not empty. *)
Definition configured (key : option jsstring) : bool :=
  match key with
  | Some s => str_truthy s
  | None => false
  end.

(** The four outbound text-generation calls, in the order of the source:
    Claude and GPT through OpenRouter, then Gemini, then Groq. *)
Inductive Provider := Claude | GPT | Gemini | Groq.

(** What [await response.json()] and the vendor's field path give:
    [choices?.[0]?.message?.content] for OpenRouter and Groq,
    [candidates?.[0]?.content?.parts?.[0]?.text] for Gemini.  The body is
    unreadable when [json()] rejects; otherwise the path leads to a text, or
    to nothing ([undefined]). *)
Inductive Body :=
| BodyUnreadable
| BodyText (content : option jsstring).

(** What [await fetch(...)] gives: a rejected promise, or a response with
    its [ok] flag (status in the 2xx range) and its body. *)
Inductive FetchOutcome :=
| NetworkError
| HttpResponse (ok : bool) (body : Body).

(** A call of an imported function: it returns or it throws; the thrown
    value carries a message when it is an [Error]. *)
Inductive Outcome (A : Type) :=
| Returned (a : A)
| Threw (message : option jsstring).
Arguments Returned {A} a.
Arguments Threw {A} message.

(** The fields of a recipe record ([RecipeInformation], declared outside the
    sources at hand) that the fallbacks read, each optional; the other fields
    only feed the prompt text. *)
Record RecipeInfo := mkRecipe {
  healthScore : option Q;
  veryHealthy : option bool;
  glutenFree : option bool;
  dairyFree : option bool;
  readyInMinutes : option Q;
  instructions : option jsstring
}.

(** The value [searchRecipes] resolves to. *)
Record SearchResponse := mkSearchResponse {
  results : option (list Value);
  totalResults : option Q;
  offset : option Q;
  number : option Q
}.

Definition Options := list (jsstring * Value).

(** Everything outside the handler.  Each provider is asked at most once per
    request, so its behaviour is the outcome of that one call. *)
Record World := mkWorld {
  fetch : Provider -> FetchOutcome;
  getRecipeInformation : jsstring -> Outcome (option RecipeInfo);
  searchRecipes : jsstring -> Z -> option Options -> Outcome SearchResponse
}.

(** The outbound calls of one request, oldest first. *)
Inductive Call :=
| CallProvider (p : Provider)
| CallRecipeInformation (recipeId : jsstring)
| CallSearchRecipes (term : jsstring) (page : Z) (options : option Options).

(* ================================================================== *)
(** ** The provider chain *)
(* ================================================================== *)

(** The variable that receives the structured data ([searchParams],
    [aiResponseData], [analysisData], [modificationData]) and the calls made
    so far. *)
Record ChainState := mkChain { data : Value; calls : list Call }.

Definition chain_start : ChainState := mkChain JNull [].

(** [content || "{}"] when the response is [ok] and its body is readable;
    in every other case the provider block assigns nothing. *)
Definition provider_text (o : FetchOutcome) : option jsstring :=
  match o with
  | HttpResponse true (BodyText content) =>
      Some (str_or content (js "{}"))
  | _ => None
  end.

(** One provider block: the call is issued, and the variable is assigned
    only when the response is [ok] and the extraction yields a value. *)
Definition attempt (extract : jsstring -> option Value)
  (w : World) (p : Provider) (st : ChainState) : ChainState :=
  let issued := calls st ++ [CallProvider p] in
  match provider_text (fetch w p) with
  | Some aiContent =>
      match extract aiContent with
      | Some v => mkChain v issued
      | None => mkChain (data st) issued
      end
  | None => mkChain (data st) issued
  end.

(** ai/search: Claude and GPT parse directly, then by the brace expression;
    Gemini and Groq use the two expressions first. *)
Definition search_chain (env : Env) (w : World) : ChainState :=
  let st := chain_start in
  let st :=
    if configured (OPENROUTER_API_KEY env) then
      let st := attempt extract_direct_then_brace w Claude st in
      if negb (truthy (data st)) && configured (OPENROUTER_API_KEY env)
      then attempt extract_direct_then_brace w GPT st
      else st
    else st in
  let st :=
    if negb (truthy (data st)) && configured (GOOGLE_GEMINI_API_KEY env)
    then attempt extract_regex_then_raw w Gemini st
    else st in
  if negb (truthy (data st)) && configured (GROQ_LLAMA_API_KEY env)
  then attempt extract_regex_then_raw w Groq st
  else st.

(** ai/recommendations *)
Definition recommendations_chain (env : Env) (w : World) : ChainState :=
  let st := chain_start in
  let st :=
    if configured (OPENROUTER_API_KEY env) && negb (truthy (data st)) then
      let st := attempt extract_regex_then_raw w Claude st in
      if negb (truthy (data st)) && configured (OPENROUTER_API_KEY env)
      then attempt extract_regex_then_raw w GPT st
      else st
    else st in
  let st :=
    if negb (truthy (data st)) && configured (GOOGLE_GEMINI_API_KEY env)
    then attempt extract_regex_then_raw w Gemini st
    else st in
  if negb (truthy (data st)) && configured (GROQ_LLAMA_API_KEY env)
  then attempt extract_regex_then_raw w Groq st
  else st.

(** ai/analysis: no Groq block, and no block for Hugging Face, whose key
    only counts in the credential check. *)
Definition analysis_chain (env : Env) (w : World) : ChainState :=
  let st := chain_start in
  let st :=
    if configured (OPENROUTER_API_KEY env) && negb (truthy (data st)) then
      let st := attempt extract_regex_then_raw w Claude st in
      if negb (truthy (data st)) && configured (OPENROUTER_API_KEY env)
      then attempt extract_regex_then_raw w GPT st
      else st
    else st in
  if negb (truthy (data st)) && configured (GOOGLE_GEMINI_API_KEY env)
  then attempt extract_regex_then_raw w Gemini st
  else st.

(** ai/modifications *)
Definition modifications_chain (env : Env) (w : World) : ChainState :=
  let st := chain_start in
  let st :=
    if configured (OPENROUTER_API_KEY env) && negb (truthy (data st)) then
      let st := attempt extract_regex_then_raw w Claude st in
      if negb (truthy (data st)) && configured (OPENROUTER_API_KEY env)
      then attempt extract_regex_then_raw w GPT st
      else st
    else st in
  if negb (truthy (data st)) && configured (GOOGLE_GEMINI_API_KEY env)
  then attempt extract_regex_then_raw w Gemini st
  else st.

(* ================================================================== *)
(** ** Requests, responses and the rule-based fallbacks *)
(* ================================================================== *)

(** The query string of the request, as [request.nextUrl.searchParams]. *)
Record Request := mkRequest { nextUrl_searchParams : list (jsstring * jsstring) }.

(** [searchParams.get(name)]: the first value under that name, or [null]. *)
Definition param (req : Request) (name : string) : option jsstring :=
  match find (fun kv => str_eqb (fst kv) (js name)) (nextUrl_searchParams req) with
  | Some kv => Some (snd kv)
  | None => None
  end.

Record Response := mkResponse { status : Z; body : Value }.

(** Modelled from the spec: [jsonResponse] is imported from
    [lib/api-utils-nextjs], which is not among the sources; it answers with
    the given JSON body and the given status, and with status 200 when the
    handler passes no status. *)
Definition jsonResponse (body : Value) (status : option Z) : Response :=
  mkResponse (match status with Some s => s | None => 200%Z end) body.

(** An object literal. *)
Definition obj (fields : list (string * Value)) : Value :=
  JObj (map (fun kv => (js (fst kv), snd kv)) fields).

Definition JText (s : string) : Value := JStr (js s).

(** [s?.trim()] as a condition, and its value when truthy. *)
Definition trimmed (s : option jsstring) : option jsstring :=
  match s with
  | Some t => if str_truthy (trim t) then Some (trim t) else None
  | None => None
  end.

(** Truthiness of an optional number and of an optional boolean field. *)
Definition num_truthy (n : option Q) : bool :=
  match n with Some q => negb (Qnum q =? 0)%Z | None => false end.

Definition flag (b : option bool) : bool :=
  match b with Some true => true | _ => false end.

(** [n && n > bound] on an optional number *)
Definition truthy_and_above (n : option Q) (bound : Z) : bool :=
  match n with
  | Some q => negb (Qnum q =? 0)%Z && Qgtb q (inject_Z bound)
  | None => false
  end.

(** [n || d] on an optional number *)
Definition num_or (n : option Q) (d : Q) : Q :=
  match n with
  | Some q => if negb (Qnum q =? 0)%Z then q else d
  | None => d
  end.

(** [error instanceof Error ? error.message : "Unknown error"] *)
Definition error_message (message : option jsstring) : Value :=
  JStr (match message with Some m => m | None => js "Unknown error" end).

(** The schema the analysis prompt asks the provider for (top-level keys). *)
Definition analysis_schema_keys : list jsstring :=
  map js ["healthScore"; "nutritionAnalysis"; "ingredientSubstitutions";
          "allergens"; "cookingDifficulty"; "timeValidation"]%string.

(** The schemas the two modification prompts ask for. *)
Definition modification_schema_keys (modificationType : jsstring) : list jsstring :=
  if str_eqb modificationType (js "dietary")
  then map js ["modifiedIngredients"; "modifiedInstructions"; "explanation"]%string
  else map js ["simplifiedIngredients"; "simplifiedInstructions"; "tips"]%string.

(** ai/search: [{ searchTerm: query.trim() }] *)
Definition search_fallback (query : jsstring) : Value :=
  obj [("searchTerm", JStr (trim query))]%string.

(** ai/recommendations: the literal with [searchTerm] and [number], then one
    key for each truthy request parameter. *)
Definition recommendations_fallback
  (query : jsstring) (ingredients diet cuisine maxTime excludeIngredients : option jsstring)
  : Value :=
  let searchTerm :=
    if str_truthy (trim query) then trim query
    else match trimmed ingredients with
         | Some t => t
         | None => js "recipes"
         end in
  let o := [(js "searchTerm", JStr searchTerm); (js "number", JInt 10)] in
  let o := match diet with
           | Some d => if str_truthy d then obj_set o (js "diet") (JStr d) else o
           | None => o
           end in
  let o := match cuisine with
           | Some c => if str_truthy c then obj_set o (js "cuisine") (JStr c) else o
           | None => o
           end in
  let o := match maxTime with
           | Some m =>
               if str_truthy m then obj_set o (js "maxReadyTime") (parseInt10 m) else o
           | None => o
           end in
  let o := match ingredients with
           | Some i =>
               if str_truthy i then obj_set o (js "includeIngredients") (JStr i) else o
           | None => o
           end in
  let o := match excludeIngredients with
           | Some e =>
               if str_truthy e then obj_set o (js "excludeIngredients") (JStr e) else o
           | None => o
           end in
  JObj o.

Definition allergen_entry (name : string) : Value :=
  obj [("allergen", JText name); ("severity", JText "medium")]%string.

(** ai/analysis: built from the recipe's own fields. *)
Definition analysis_fallback (recipeInfo : RecipeInfo) : Value :=
  obj [
    ("healthScore",
      obj [("score", JNum (num_or (healthScore recipeInfo) (inject_Z 50)));
           ("explanation", JText "Health score based on recipe nutritional data")]);
    ("nutritionAnalysis",
      obj [("summary", JText "Nutritional analysis based on available recipe data");
           ("strengths",
             if flag (veryHealthy recipeInfo)
             then JArr [JText "Recipe is marked as very healthy"]
             else JArr []);
           ("concerns", JArr [])]);
    ("allergens",
      JArr ((if negb (flag (glutenFree recipeInfo)) then [allergen_entry "gluten"] else [])
            ++ (if negb (flag (dairyFree recipeInfo)) then [allergen_entry "dairy"] else [])));
    ("cookingDifficulty",
      obj [("level",
             if truthy_and_above (readyInMinutes recipeInfo) 60 then JText "advanced"
             else if truthy_and_above (readyInMinutes recipeInfo) 30 then JText "intermediate"
             else JText "beginner");
           ("explanation", JText "Difficulty estimated based on cooking time");
           ("tips", JArr [])])
  ]%string.

(** ai/modifications: one literal per modification type. *)
Definition modifications_fallback (modificationType : jsstring) (recipeInfo : RecipeInfo)
  : Value :=
  if str_eqb modificationType (js "dietary") then
    obj [("modifiedIngredients", JArr []);
         ("modifiedInstructions", JStr (str_or (instructions recipeInfo) []));
         ("explanation",
           JText "Dietary conversion not available. Please check recipe ingredients manually.")
        ]%string
  else
    obj [("simplifiedIngredients", JArr []);
         ("simplifiedInstructions", JStr (str_or (instructions recipeInfo) []));
         ("tips", JArr [JText "Follow the original recipe instructions carefully."])
        ]%string.

(* ================================================================== *)
(** ** The four route handlers *)
(* ================================================================== *)

Definition opt_truthy (s : option jsstring) : bool :=
  match s with Some t => str_truthy t | None => false end.

Definition error_body (error : string) : Value := obj [("error", JText error)]%string.

Definition failure_body (error : string) (message : option jsstring) : Value :=
  obj [("error", JText error); ("message", error_message message)]%string.

(** [if (typeof src.k === "string") options.k = src.k] *)
Definition copy_if_string (src : Value) (k : string) (options : Options) : Options :=
  match get_prop src k with
  | Some (JStr s) => obj_set options (js k) (JStr s)
  | _ => options
  end.

(** [if (typeof src.k === "number") options.k = src.k] *)
Definition copy_if_number (src : Value) (k : string) (options : Options) : Options :=
  match get_prop src k with
  | Some (JNum q) => obj_set options (js k) (JNum q)
  | Some JNaN => obj_set options (js k) JNaN
  | Some (JInf negative) => obj_set options (js k) (JInf negative)
  | _ => options
  end.

(** The six optional search options copied from the structured data. *)
Definition copy_search_options (src : Value) (options : Options) : Options :=
  let options := copy_if_string src "diet" options in
  let options := copy_if_string src "cuisine" options in
  let options := copy_if_number src "maxReadyTime" options in
  let options := copy_if_string src "type" options in
  let options := copy_if_string src "excludeIngredients" options in
  copy_if_string src "includeIngredients" options.

(** [typeof src.searchTerm === "string" ? src.searchTerm : null], when truthy *)
Definition search_term_of (src : Value) : option jsstring :=
  match get_prop src "searchTerm" with
  | Some (JStr s) => if str_truthy s then Some s else None
  | _ => None
  end.

(** [Object.keys(options).length > 0 ? options : undefined] *)
Definition options_or_undefined (options : Options) : option Options :=
  match options with [] => None | _ :: _ => Some options end.

Definition list_or_empty (l : option (list Value)) : list Value :=
  match l with Some x => x | None => [] end.

(** [list.slice(0, n)] for a number [n]: a finite [n] is truncated and
    counts from the end when negative; [NaN] counts as zero. *)
Definition slice_to (l : list Value) (n : Value) : list Value :=
  match n with
  | JNum n =>
      let k := Z.quot (Qnum n) (Zpos (Qden n)) in
      let len := Z.of_nat (List.length l) in
      let stop := if (k <? 0)%Z then Z.max (len + k) 0 else Z.min k len in
      firstn (Z.to_nat stop) l
  | JInf false => l
  | _ => []
  end.

(** *** ai/search *)

(** The structured data after the chain and the simple fallback. *)
Definition search_params (query : jsstring) (st : ChainState) : Value :=
  if negb (truthy (data st)) then search_fallback query else data st.

Definition search_success_body (query : jsstring) (searchParams : Value)
  (r : SearchResponse) : Value :=
  obj [("results", JArr (list_or_empty (results r)));
       ("totalResults", JNum (num_or (totalResults r) 0));
       ("offset", JNum (num_or (offset r) 0));
       ("number", JNum (num_or (number r) 0));
       ("aiOptimized", JBool true);
       ("originalQuery", JStr (trim query));
       ("searchParams", searchParams)]%string.

(** The [try] block of the route with its [catch]. *)
Definition search_try (query : jsstring) (env : Env) (w : World)
  : Response * list Call :=
  let st := search_chain env w in
  let searchParams := search_params query st in
  let searchOptions := copy_search_options searchParams [] in
  let term := match search_term_of searchParams with
              | Some t => t
              | None => trim query
              end in
  let options := options_or_undefined searchOptions in
  let log := calls st ++ [CallSearchRecipes term 1 options] in
  match searchRecipes w term 1%Z options with
  | Returned r => (jsonResponse (search_success_body query searchParams r) None, log)
  | Threw message =>
      (jsonResponse (failure_body "AI search failed" message) (Some 500%Z), log)
  end.

Definition ai_search (req : Request) (env : Env) (w : World) : Response * list Call :=
  let query := param req "query" in
  if negb (opt_truthy query) || (str_length (trim (str_or query [])) <? 3)%Z then
    (jsonResponse (error_body "Query must be at least 3 characters") (Some 400%Z), [])
  else if negb (configured (OPENROUTER_API_KEY env))
          && negb (configured (GOOGLE_GEMINI_API_KEY env))
          && negb (configured (GROQ_LLAMA_API_KEY env)) then
    (jsonResponse
       (error_body "No AI API keys configured (OpenRouter, Gemini, or Groq required)")
       (Some 500%Z), [])
  else search_try (str_or query []) env w.

(** *** ai/recommendations *)

(** The [POST] branch that reads the body is inside the [GET] handler and is
    taken by no request routed to it; the parameters are the query string's. *)
Record RecommendationInput := mkRecInput {
  rec_query : jsstring;
  rec_ingredients : option jsstring;
  rec_diet : option jsstring;
  rec_cuisine : option jsstring;
  rec_maxTime : option jsstring;
  rec_excludeIngredients : option jsstring
}.

Definition recommendation_input (req : Request) : RecommendationInput :=
  mkRecInput (str_or (param req "query") [])
             (param req "ingredients") (param req "diet") (param req "cuisine")
             (param req "maxTime") (param req "excludeIngredients").

Definition dquote : jsstring := [34%N].
Definition newline : jsstring := [10%N].

Definition context_line (label : string) (value : option jsstring) (tail : string)
  : jsstring :=
  match trimmed value with
  | Some t => js label ++ t ++ js tail ++ newline
  | None => []
  end.

Definition recommendationContext (i : RecommendationInput) : jsstring :=
  (if str_truthy (trim (rec_query i))
   then js "User request: " ++ dquote ++ trim (rec_query i) ++ dquote ++ newline
   else [])
  ++ context_line "Available ingredients: " (rec_ingredients i) ""
  ++ context_line "Dietary preference: " (rec_diet i) ""
  ++ context_line "Cuisine preference: " (rec_cuisine i) ""
  ++ context_line "Maximum cooking time: " (rec_maxTime i) " minutes"
  ++ context_line "Exclude ingredients: " (rec_excludeIngredients i) "".

(** The structured data after the chain and the simple fallback. *)
Definition recommendation_params (i : RecommendationInput) (st : ChainState) : Value :=
  if negb (truthy (data st))
  then recommendations_fallback (rec_query i) (rec_ingredients i) (rec_diet i)
         (rec_cuisine i) (rec_maxTime i) (rec_excludeIngredients i)
  else data st.

(** [(typeof aiResponseData.number === 'number' ? aiResponseData.number
    : null) || 10] *)
Definition recommendation_number (aiResponseData : Value) : Value :=
  match get_prop aiResponseData "number" with
  | Some (JNum q) => JNum (num_or (Some q) (inject_Z 10))
  | Some (JInf negative) => JInf negative
  | _ => JInt 10
  end.

Definition recommendation_term (i : RecommendationInput) (aiResponseData : Value)
  : jsstring :=
  match search_term_of aiResponseData with
  | Some t => t
  | None =>
      if str_truthy (trim (rec_query i)) then trim (rec_query i)
      else match trimmed (rec_ingredients i) with
           | Some t => t
           | None => js "recipes"
           end
  end.

Definition recommendation_reason (i : RecommendationInput) : jsstring :=
  if str_truthy (trim (rec_query i))
  then js "Recommended based on: " ++ dquote ++ trim (rec_query i) ++ dquote
  else match trimmed (rec_ingredients i) with
       | Some t => js "Recommended based on available ingredients: " ++ t
       | None => js "Personalized recommendations for you"
       end.

Definition recommendation_base_options : Options :=
  [(js "fillIngredients", JBool true);
   (js "addRecipeInformation", JBool true);
   (js "addRecipeNutrition", JBool true)].

Definition recommendations_success_body (i : RecommendationInput)
  (aiResponseData : Value) (r : SearchResponse) : Value :=
  obj [("recipes",
         JArr (slice_to (list_or_empty (results r))
                        (recommendation_number aiResponseData)));
       ("reason", JStr (recommendation_reason i));
       ("context", JStr (trim (recommendationContext i)))]%string.

(** The [try] block of the route with its [catch]. *)
Definition recommendations_try (i : RecommendationInput) (env : Env) (w : World)
  : Response * list Call :=
  let st := recommendations_chain env w in
  let aiResponseData := recommendation_params i st in
  let searchOptions := copy_search_options aiResponseData recommendation_base_options in
  let term := recommendation_term i aiResponseData in
  let options := options_or_undefined searchOptions in
  let log := calls st ++ [CallSearchRecipes term 1 options] in
  match searchRecipes w term 1%Z options with
  | Returned r =>
      (jsonResponse (recommendations_success_body i aiResponseData r) None, log)
  | Threw message =>
      (jsonResponse (failure_body "AI recommendations failed" message) (Some 500%Z),
       log)
  end.

Definition ai_recommendations (req : Request) (env : Env) (w : World)
  : Response * list Call :=
  let i := recommendation_input req in
  if negb (str_truthy (trim (rec_query i)))
     && negb (match trimmed (rec_ingredients i) with Some _ => true | None => false end)
  then
    (jsonResponse (error_body "Either query or ingredients parameter is required")
       (Some 400%Z), [])
  else if negb (configured (OPENROUTER_API_KEY env))
          && negb (configured (GOOGLE_GEMINI_API_KEY env))
          && negb (configured (GROQ_LLAMA_API_KEY env)) then
    (jsonResponse
       (error_body "No AI API keys configured (OpenRouter, Gemini, or Groq required)")
       (Some 500%Z), [])
  else recommendations_try i env w.

(** *** ai/analysis *)

Definition analysis_data (recipeInfo : RecipeInfo) (st : ChainState) : Value :=
  if negb (truthy (data st)) then analysis_fallback recipeInfo else data st.

(** The [try] block of the route with its [catch]. *)
Definition analysis_try (recipeId : jsstring) (env : Env) (w : World)
  : Response * list Call :=
  match getRecipeInformation w recipeId with
  | Threw message =>
      (jsonResponse (failure_body "AI analysis failed" message) (Some 500%Z),
       [CallRecipeInformation recipeId])
  | Returned None =>
      (jsonResponse (error_body "Recipe not found") (Some 404%Z),
       [CallRecipeInformation recipeId])
  | Returned (Some recipeInfo) =>
      let st := analysis_chain env w in
      (jsonResponse (analysis_data recipeInfo st) None,
       CallRecipeInformation recipeId :: calls st)
  end.

Definition ai_analysis (req : Request) (env : Env) (w : World) : Response * list Call :=
  let recipeId := param req "recipeId" in
  if negb (opt_truthy recipeId) || Number_isNaN (str_or recipeId []) then
    (jsonResponse (error_body "Valid recipeId parameter is required") (Some 400%Z), [])
  else if negb (configured (OPENROUTER_API_KEY env))
          && negb (configured (GOOGLE_GEMINI_API_KEY env))
          && negb (configured (HUGGING_FACE_INFERENCE_API_KEY env)) then
    (jsonResponse
       (error_body "No AI API keys configured (OpenRouter, Gemini, or Hugging Face required)")
       (Some 500%Z), [])
  else analysis_try (str_or recipeId []) env w.

(** *** ai/modifications *)

Definition modification_data (modificationType : jsstring) (recipeInfo : RecipeInfo)
  (st : ChainState) : Value :=
  if negb (truthy (data st)) then modifications_fallback modificationType recipeInfo
  else data st.

(** [["dietary", "simplify"].includes(modificationType)] *)
Definition is_modification_type (t : jsstring) : bool :=
  str_eqb t (js "dietary") || str_eqb t (js "simplify").

(** The [try] block of the route with its [catch]. *)
Definition modifications_try (recipeId modificationType : jsstring)
  (env : Env) (w : World) : Response * list Call :=
  match getRecipeInformation w recipeId with
  | Threw message =>
      (jsonResponse (failure_body "AI modification failed" message) (Some 500%Z),
       [CallRecipeInformation recipeId])
  | Returned None =>
      (jsonResponse (error_body "Recipe not found") (Some 404%Z),
       [CallRecipeInformation recipeId])
  | Returned (Some recipeInfo) =>
      let st := modifications_chain env w in
      (jsonResponse (modification_data modificationType recipeInfo st) None,
       CallRecipeInformation recipeId :: calls st)
  end.

Definition ai_modifications (req : Request) (env : Env) (w : World)
  : Response * list Call :=
  let recipeId := param req "recipeId" in
  let modificationType := param req "type" in
  if negb (opt_truthy recipeId) || Number_isNaN (str_or recipeId []) then
    (jsonResponse (error_body "Valid recipeId parameter is required") (Some 400%Z), [])
  else if negb (opt_truthy modificationType)
          || negb (is_modification_type (str_or modificationType [])) then
    (jsonResponse (error_body "Valid type parameter required (dietary or simplify)")
       (Some 400%Z), [])
  else if negb (configured (OPENROUTER_API_KEY env))
          && negb (configured (GOOGLE_GEMINI_API_KEY env))
          && negb (configured (HUGGING_FACE_INFERENCE_API_KEY env)) then
    (jsonResponse
       (error_body "No AI API keys configured (OpenRouter, Gemini, or Hugging Face required)")
       (Some 500%Z), [])
  else modifications_try (str_or recipeId []) (str_or modificationType []) env w.

(** *** The four routes together *)

Inductive Endpoint := AiSearch | AiRecommendations | AiAnalysis | AiModifications.

(** The [GET] handler on the paths [ai/search], [ai/recommendations],
    [ai/analysis] and [ai/modifications]: the answer and the outbound calls
    made on the way. *)
Definition GET (ep : Endpoint) (req : Request) (env : Env) (w : World)
  : Response * list Call :=
  match ep with
  | AiSearch => ai_search req env w
  | AiRecommendations => ai_recommendations req env w
  | AiAnalysis => ai_analysis req env w
  | AiModifications => ai_modifications req env w
  end.

(* ================================================================== *)
(** ** The chain as a list of provider blocks *)
(* ================================================================== *)

(** The extraction code of each provider block. *)
Definition extractor (ep : Endpoint) (p : Provider) : jsstring -> option Value :=
  match ep, p with
  | AiSearch, Claude => extract_direct_then_brace
  | AiSearch, GPT => extract_direct_then_brace
  | _, _ => extract_regex_then_raw
  end.

Definition chain (ep : Endpoint) (env : Env) (w : World) : ChainState :=
  match ep with
  | AiSearch => search_chain env w
  | AiRecommendations => recommendations_chain env w
  | AiAnalysis => analysis_chain env w
  | AiModifications => modifications_chain env w
  end.

(** The provider blocks of a route whose credential is configured, in the
    order of the source. *)
Definition provider_chain (ep : Endpoint) (env : Env) : list Provider :=
  (if configured (OPENROUTER_API_KEY env) then [Claude; GPT] else [])
  ++ (if configured (GOOGLE_GEMINI_API_KEY env) then [Gemini] else [])
  ++ match ep with
     | AiSearch | AiRecommendations =>
         if configured (GROQ_LLAMA_API_KEY env) then [Groq] else []
     | AiAnalysis | AiModifications => []
     end.

(** What the block of provider [p] assigns when it runs: [None] when the
    call fails, the response is not [ok], the body is unreadable or the
    extraction throws. *)
Definition attempt_value (ep : Endpoint) (w : World) (p : Provider) : option Value :=
  match provider_text (fetch w p) with
  | Some aiContent => extractor ep p aiContent
  | None => None
  end.

(** The guard of the next block lets it run: nothing was assigned, or a
    falsy value was. *)
Definition accepted (x : option Value) : bool :=
  match x with
  | Some v => truthy v
  | None => false
  end.

(** Every configured provider of the route leaves the variable falsy. *)
Definition exhausted (ep : Endpoint) (env : Env) (w : World) : Prop :=
  Forall (fun p => accepted (attempt_value ep w p) = false) (provider_chain ep env).

(** A block runs only while the variable is falsy. *)
Fixpoint run_blocks (ep : Endpoint) (w : World) (ps : list Provider) (st : ChainState)
  : ChainState :=
  match ps with
  | [] => st
  | p :: rest =>
      run_blocks ep w rest
        (if negb (truthy (data st)) then attempt (extractor ep p) w p st else st)
  end.

(** The parameter validation of each route, as a predicate on the request. *)
Definition valid_request (ep : Endpoint) (req : Request) : bool :=
  match ep with
  | AiSearch =>
      match param req "query" with
      | Some query => (3 <=? str_length (trim query))%Z
      | None => false
      end
  | AiRecommendations =>
      str_truthy (trim (str_or (param req "query") []))
      || match param req "ingredients" with
         | Some i => str_truthy (trim i)
         | None => false
         end
  | AiAnalysis =>
      match param req "recipeId" with
      | Some id => str_truthy id && negb (Number_isNaN id)
      | None => false
      end
  | AiModifications =>
      match param req "recipeId", param req "type" with
      | Some id, Some t =>
          str_truthy id && negb (Number_isNaN id) && is_modification_type t
      | _, _ => false
      end
  end.

(** The credential check of each route: at least one of its three keys. *)
Definition credential_check (ep : Endpoint) (env : Env) : bool :=
  configured (OPENROUTER_API_KEY env)
  || configured (GOOGLE_GEMINI_API_KEY env)
  || match ep with
     | AiSearch | AiRecommendations => configured (GROQ_LLAMA_API_KEY env)
     | AiAnalysis | AiModifications => configured (HUGGING_FACE_INFERENCE_API_KEY env)
     end.

(** No credential of any provider is configured. *)
Definition no_credentials (env : Env) : Prop :=
  configured (OPENROUTER_API_KEY env) = false
  /\ configured (GOOGLE_GEMINI_API_KEY env) = false
  /\ configured (GROQ_LLAMA_API_KEY env) = false
  /\ configured (HUGGING_FACE_INFERENCE_API_KEY env) = false.

Definition config_error (ep : Endpoint) : Value :=
  match ep with
  | AiSearch | AiRecommendations =>
      error_body "No AI API keys configured (OpenRouter, Gemini, or Groq required)"
  | AiAnalysis | AiModifications =>
      error_body "No AI API keys configured (OpenRouter, Gemini, or Hugging Face required)"
  end.

(** [v.a.b...] *)
Fixpoint get_path (v : Value) (path : list string) : option Value :=
  match path with
  | [] => Some v
  | k :: rest =>
      match get_prop v k with
      | Some v' => get_path v' rest
      | None => None
      end
  end.

(** Two worlds whose recipe API behaves the same; the providers may differ. *)
Definition same_recipe_api (w1 w2 : World) : Prop :=
  getRecipeInformation w1 = getRecipeInformation w2
  /\ searchRecipes w1 = searchRecipes w2.

(* ================================================================== *)
(** ** The extraction order written in the specification *)
(* ================================================================== *)

Definition strategy_direct (text : jsstring) : option Value := JSON_parse text.

Definition strategy_fence (text : jsstring) : option Value :=
  match match_fence text with
  | Some m => match group1 m with Some g => JSON_parse g | None => None end
  | None => None
  end.

Definition strategy_brace (text : jsstring) : option Value :=
  match match_brace text with
  | Some m => JSON_parse (whole m)
  | None => None
  end.

Fixpoint first_success (strategies : list (jsstring -> option Value)) (text : jsstring)
  : option Value :=
  match strategies with
  | [] => None
  | s :: rest =>
      match s text with
      | Some v => Some v
      | None => first_success rest text
      end
  end.

(** The Response Extractor as the specification words it: direct parse,
    then the fenced block, then the brace span; the first success wins. *)
Definition spec_extract (text : jsstring) : option Value :=
  first_success [strategy_direct; strategy_fence; strategy_brace] text.

(** The 400 body of each route's parameter validation. *)
Definition validation_error (ep : Endpoint) (req : Request) : Value :=
  match ep with
  | AiSearch => error_body "Query must be at least 3 characters"
  | AiRecommendations => error_body "Either query or ingredients parameter is required"
  | AiAnalysis => error_body "Valid recipeId parameter is required"
  | AiModifications =>
      if negb (opt_truthy (param req "recipeId"))
         || Number_isNaN (str_or (param req "recipeId") [])
      then error_body "Valid recipeId parameter is required"
      else error_body "Valid type parameter required (dietary or simplify)"
  end.

(** The [try] block of each route on the request's parameters. *)
Definition try_block (ep : Endpoint) (req : Request) (env : Env) (w : World)
  : Response * list Call :=
  match ep with
  | AiSearch => search_try (str_or (param req "query") []) env w
  | AiRecommendations => recommendations_try (recommendation_input req) env w
  | AiAnalysis => analysis_try (str_or (param req "recipeId") []) env w
  | AiModifications =>
      modifications_try (str_or (param req "recipeId") [])
                        (str_or (param req "type") []) env w
  end.

(** What the handler answers in degraded mode, from the fallback alone, when
    the route's own recipe API call returns (a recipe). *)
Definition degraded_answer (ep : Endpoint) (req : Request) (w : World)
  : option Response :=
  match ep with
  | AiSearch =>
      let query := str_or (param req "query") [] in
      match searchRecipes w (trim query) 1%Z None with
      | Returned r =>
          Some (jsonResponse (search_success_body query (search_fallback query) r) None)
      | Threw _ => None
      end
  | AiRecommendations =>
      let i := recommendation_input req in
      let fallback :=
        recommendations_fallback (rec_query i) (rec_ingredients i) (rec_diet i)
          (rec_cuisine i) (rec_maxTime i) (rec_excludeIngredients i) in
      match searchRecipes w (recommendation_term i fallback) 1%Z
              (options_or_undefined
                 (copy_search_options fallback recommendation_base_options)) with
      | Returned r => Some (jsonResponse (recommendations_success_body i fallback r) None)
      | Threw _ => None
      end
  | AiAnalysis =>
      match getRecipeInformation w (str_or (param req "recipeId") []) with
      | Returned (Some recipeInfo) =>
          Some (jsonResponse (analysis_fallback recipeInfo) None)
      | _ => None
      end
  | AiModifications =>
      match getRecipeInformation w (str_or (param req "recipeId") []) with
      | Returned (Some recipeInfo) =>
          Some (jsonResponse
                  (modifications_fallback (str_or (param req "type") []) recipeInfo)
                  None)
      | _ => None
      end
  end.

(* ================================================================== *)
(** ** Sample requests, environments and worlds *)
(* ================================================================== *)

Definition request_of (params : list (string * string)) : Request :=
  mkRequest (map (fun kv => (js (fst kv), js (snd kv))) params).

Definition env_all : Env :=
  mkEnv (Some (js "or-key")) (Some (js "gemini-key")) (Some (js "groq-key"))
        (Some (js "hf-key")).

Definition env_none : Env := mkEnv None None None None.

Definition sample_recipe : RecipeInfo :=
  mkRecipe (Some 0%Q) None (Some false) (Some false) (Some 75%Q) None.

Definition sample_results : SearchResponse :=
  mkSearchResponse (Some [JInt 1; JInt 2]) (Some 2%Q) None (Some 2%Q).

Definition ok_text (text : jsstring) : FetchOutcome :=
  HttpResponse true (BodyText (Some text)).

(** A world given by its four provider outcomes; the recipe API answers
    with [sample_recipe] and [sample_results]. *)
Definition world_of (claude gpt gemini groq : FetchOutcome) : World :=
  mkWorld (fun p => match p with
                    | Claude => claude
                    | GPT => gpt
                    | Gemini => gemini
                    | Groq => groq
                    end)
          (fun _ => Returned (Some sample_recipe))
          (fun _ _ _ => Returned sample_results).

(** Every provider is unreachable. *)
Definition world_down : World :=
  world_of NetworkError NetworkError NetworkError NetworkError.

(** Every provider is unreachable and the recipe search throws. *)
Definition world_search_fails : World :=
  mkWorld (fun _ => NetworkError)
          (fun _ => Returned (Some sample_recipe))
          (fun _ _ _ => Threw (Some (js "quota exceeded"))).

(** Claude answers with a number too small for binary64, GPT with an
    object. *)
Definition world_tiny_number : World :=
  world_of (ok_text (js "1e-400")) (ok_text (jsq "{'searchTerm':'pasta'}"))
           NetworkError NetworkError.

(** Every provider answers, none usefully: a 500, an unreadable body, prose
    without JSON, and the JSON text [null]. *)
Definition world_useless : World :=
  world_of (HttpResponse false BodyUnreadable)
           (HttpResponse true BodyUnreadable)
           (ok_text (js "Sorry, I cannot help with that."))
           (ok_text (js "null")).

(** Claude answers [null], GPT answers [42], Gemini answers an object. *)
Definition world_null_42_object : World :=
  world_of (ok_text (js "null")) (ok_text (js "42"))
           (ok_text (jsq "{'searchTerm':'pasta'}")) NetworkError.

(** Claude is unreachable, GPT answers 503, Gemini answers a fenced object. *)
Definition world_gemini_answers : World :=
  world_of NetworkError (HttpResponse false (BodyText None))
           (ok_text (jsq "Here you go: ```json {'searchTerm':'vegan curry','number':5} ```"))
           (ok_text (jsq "{'searchTerm':'unused'}")).

(** Claude answers with an object that has the six keys the analysis
    prompt asks for. *)
Definition world_full_analysis : World :=
  world_of
    (ok_text (jsq "{'healthScore':{'score':80},'nutritionAnalysis':{},'ingredientSubstitutions':[],'allergens':[],'cookingDifficulty':{},'timeValidation':{'estimatedTime':40}}"))
    NetworkError NetworkError NetworkError.

(** The texts on which the extraction code and the specified order part. *)
Definition text_broken_fence : jsstring := jsq "```json not json ``` {'a':1}".
Definition text_array_of_objects : jsstring := jsq "[{'a':1},{'b':2}]".
Definition text_fence_then_braces : jsstring := jsq "```json {'a':1} ``` or {'b':2}".

(** The top-level keys of the 200 answers of ai/search and
    ai/recommendations. *)
Definition search_answer_keys : list jsstring :=
  map js ["results"; "totalResults"; "offset"; "number"; "aiOptimized";
          "originalQuery"; "searchParams"]%string.

Definition recommendations_answer_keys : list jsstring :=
  map js ["recipes"; "reason"; "context"]%string.

(** The top-level keys of the analysis fallback. *)
Definition analysis_fallback_keys : list jsstring :=
  map js ["healthScore"; "nutritionAnalysis"; "allergens"; "cookingDifficulty"]%string.

(* ================================================================== *)
(** ** Vocabulary for the properties of the AI routes *)
(* ================================================================== *)

(** The environment variable that the block of a provider is guarded by. *)
Definition provider_key (p : Provider) (env : Env) : option jsstring :=
  match p with
  | Claude | GPT => OPENROUTER_API_KEY env
  | Gemini => GOOGLE_GEMINI_API_KEY env
  | Groq => GROQ_LLAMA_API_KEY env
  end.

(** The option names the AI routes copy from the structured data. *)
Definition copied_option_names : list jsstring :=
  map js ["diet"; "cuisine"; "maxReadyTime"; "type"; "excludeIngredients";
          "includeIngredients"]%string.

(** [typeof v === "string"] and [typeof v === "number"] *)
Definition is_string (v : Value) : bool :=
  match v with JStr _ => true | _ => false end.

Definition is_number (v : Value) : bool :=
  match v with JNum _ | JNaN | JInf _ => true | _ => false end.

Definition is_provider_call (c : Call) : bool :=
  match c with CallProvider _ => true | _ => false end.

(** No code unit of [s] is a backtick. *)
Definition no_backtick (s : jsstring) : bool :=
  forallb (fun c => negb (N.eqb c 96)) s.

(** No code unit of [s] is an opening brace, or a closing brace. *)
Definition no_open_brace (s : jsstring) : bool :=
  forallb (fun c => negb (N.eqb c 123)) s.

Definition no_close_brace (s : jsstring) : bool :=
  forallb (fun c => negb (N.eqb c 125)) s.

(** The four stages of [parse_number], named: sign, integer part, fraction,
    exponent. *)
Definition number_sign (s : jsstring) : bool * jsstring :=
  match s with
  | c :: r => if N.eqb c 45 then (true, r) else (false, s)
  | [] => (false, s)
  end.

Definition number_int (s1 : jsstring) : option (Z * jsstring) :=
  match s1 with
  | c :: r =>
      if N.eqb c 48 then Some (0%Z, r)
      else match digit_val c with
           | Some _ => let '(m, _, r') := read_digits s1 0%Z O in Some (m, r')
           | None => None
           end
  | [] => None
  end.

Definition number_frac (m : Z) (s2 : jsstring) : option (Z * Z * jsstring) :=
  match s2 with
  | c :: r =>
      if N.eqb c 46 then
        let '(m', n, r') := read_digits r m O in
        match n with O => None | S _ => Some (m', Z.of_nat n, r') end
      else Some (m, 0%Z, s2)
  | [] => Some (m, 0%Z, s2)
  end.

Definition number_exp (s3 : jsstring) : option (Z * jsstring) :=
  match s3 with
  | c :: r =>
      if (N.eqb c 101 || N.eqb c 69)%bool then
        let '(eneg, r1) :=
          match r with
          | d :: r' =>
              if N.eqb d 45 then (true, r')
              else if N.eqb d 43 then (false, r')
              else (false, r)
          | [] => (false, r)
          end in
        let '(e, n, r2) := read_digits r1 0%Z O in
        match n with
        | O => None
        | S _ => Some ((if eneg then - e else e)%Z, r2)
        end
      else Some (0%Z, s3)
  | [] => Some (0%Z, s3)
  end.

(** Two texts start with the same code unit, or are both empty. *)
Definition same_head (a b : jsstring) : Prop := hd_error a = hd_error b.

(* ================================================================== *)
(** ** Integers as decimal text, and [parseInt] without a radix *)
(* ================================================================== *)

(** The decimal digits of [n], most significant first, put before [acc]. *)
Fixpoint digits_before (fuel : nat) (n : Z) (acc : jsstring) : jsstring :=
  match fuel with
  | O => acc
  | S fuel' =>
      let acc' := (48 + Z.to_N (n mod 10))%N :: acc in
      if (n <? 10)%Z then acc' else digits_before fuel' (n / 10)%Z acc'
  end.

(** [Number.MAX_SAFE_INTEGER] *)
Definition MAX_SAFE_INTEGER : Z := 2 ^ 53 - 1.

(** [n.toString()] and [`${n}`] for a safe integer [n], of magnitude at most
    [MAX_SAFE_INTEGER]: every such integer is a Number value, and JavaScript
    writes all its decimal digits.  (Beyond, not every integer is a Number
    value, the digits written are the shortest that identify the number, and
    from [10^21] on the text has an exponent; the ids and sizes that the
    handler turns into text are far below.)  A number has at most as many
    decimal as binary digits, which bounds the recursion. *)
Definition Number_toString (n : Z) : jsstring :=
  let digits m := digits_before (S (Z.to_nat (Z.log2 m))) m [] in
  if (n <? 0)%Z then 45%N :: digits (- n)%Z else digits n.

Fixpoint read_hex_digits (s : jsstring) (acc : Z) (count : nat) : Z * nat :=
  match s with
  | [] => (acc, count)
  | c :: r =>
      match hex_val c with
      | Some d => read_hex_digits r (16 * acc + Z.of_N d)%Z (S count)
      | None => (acc, count)
      end
  end.

(** [parseInt(s)]: without a radix the text is read in base 16 when, after
    white space and sign, it starts with [0x] or [0X], and in base 10
    otherwise. *)
Definition parseInt (s : jsstring) : Value :=
  let t := trimStart s in
  let '(neg, t1) :=
    match t with
    | c :: r =>
        if (c =? 45)%N then (true, r)
        else if (c =? 43)%N then (false, r)
        else (false, t)
    | [] => (false, t)
    end in
  match t1 with
  | z :: x :: r =>
      if ((z =? 48) && ((x =? 120) || (x =? 88)))%N then
        let '(m, n) := read_hex_digits r 0%Z O in
        match n with
        | O => JNaN
        | S _ => JInt (if neg then - m else m)%Z
        end
      else parseInt10 s
  | _ => parseInt10 s
  end.

(* ================================================================== *)
(** ** The recipe and wine routes of [GET] *)
(* ================================================================== *)

Module Routes.

(** A thrown value as the [catch] blocks look at it: an [Error] with its
    message, or some other value; either may carry a [code], and a value
    that is no [Error] may still carry a [message] string. *)
Inductive Thrown :=
| AnError (message : jsstring) (code : option Value)
| NotAnError (message : option jsstring) (code : option Value).

(** An awaited call returns or throws. *)
Inductive Result (A : Type) :=
| Ok (a : A)
| Throws (e : Thrown).
Arguments Ok {A} a.
Arguments Throws {A} e.

(** What [requireAuth(request)] resolves to: a response to send back, or
    the id of the user. *)
Inductive Auth :=
| Denied (response : Response)
| Granted (userId : jsstring).

(** Everything these routes call: [requireAuth] of [lib/api-utils-nextjs],
    the [favouriteRecipes] table behind [prisma] (the [recipeId] column is an
    [INTEGER]), the functions of [lib/recipe-api], and the built-in
    [parseFloat], whose reading of a text into a double is left to the
    caller of the model.  Numbers are passed as JavaScript values, since the
    handler can pass [NaN]. *)
Record Collaborators := mkCollaborators {
  requireAuth : Result Auth;
  favouriteRecipes_findMany : jsstring -> Result (list Z);
  searchRecipes : jsstring -> Value -> option Options -> Result Value;
  autocompleteRecipes : jsstring -> Value -> Result Value;
  getRecipeInformation : jsstring -> Value -> Result Value;
  getSimilarRecipes : jsstring -> Value -> Result Value;
  getRecipeSummary : jsstring -> Result Value;
  getFavouriteRecipesByIDs : list jsstring -> Result Value;
  getDishPairingForWine : jsstring -> Result Value;
  getWinePairing : jsstring -> option Value -> Result Value;
  parseFloat : jsstring -> Value
}.

(** The calls of one request, oldest first, with their arguments. *)
Inductive Call :=
| RequireAuth
| FindManyFavourites (userId : jsstring)
| SearchRecipes (searchTerm : jsstring) (page : Value) (options : option Options)
| AutocompleteRecipes (query : jsstring) (number : Value)
| GetRecipeInformation (recipeId : jsstring) (options : Value)
| GetSimilarRecipes (recipeId : jsstring) (number : Value)
| GetRecipeSummary (recipeId : jsstring)
| GetFavouriteRecipesByIDs (recipeIds : list jsstring)
| GetDishPairingForWine (wine : jsstring)
| GetWinePairing (food : jsstring) (maxPrice : option Value).

(** What the collaborators answer to a call. *)
Definition thrown_by (c : Collaborators) (call : Call) : option Thrown :=
  let thrown {A} (r : Result A) :=
    match r with Ok _ => None | Throws e => Some e end in
  match call with
  | RequireAuth => thrown (requireAuth c)
  | FindManyFavourites userId => thrown (favouriteRecipes_findMany c userId)
  | SearchRecipes searchTerm page options =>
      thrown (searchRecipes c searchTerm page options)
  | AutocompleteRecipes query number => thrown (autocompleteRecipes c query number)
  | GetRecipeInformation recipeId options =>
      thrown (getRecipeInformation c recipeId options)
  | GetSimilarRecipes recipeId number => thrown (getSimilarRecipes c recipeId number)
  | GetRecipeSummary recipeId => thrown (getRecipeSummary c recipeId)
  | GetFavouriteRecipesByIDs recipeIds => thrown (getFavouriteRecipesByIDs c recipeIds)
  | GetDishPairingForWine wine => thrown (getDishPairingForWine c wine)
  | GetWinePairing food maxPrice => thrown (getWinePairing c food maxPrice)
  end.

(** *** [parseSearchOptions] *)

(** [if (searchParams.get(k) === "true") options.k = true] *)
Definition set_flag (req : Request) (k : string) (options : Options) : Options :=
  match param req k with
  | Some v => if str_eqb v (js "true") then obj_set options (js k) (JBool true)
              else options
  | None => options
  end.

Definition stringOptions : list string :=
  ["cuisine"; "excludeCuisine"; "diet"; "intolerances"; "equipment";
   "includeIngredients"; "excludeIngredients"; "type"; "sort"; "author";
   "tags"; "titleMatch"]%string.

Definition numberOptions : list string :=
  ["maxReadyTime"; "minServings"; "maxServings"; "minCalories";
   "maxCalories"; "minProtein"; "maxProtein"; "minCarbs"; "maxCarbs";
   "minFat"; "maxFat"; "minAlcohol"; "maxAlcohol"; "minCaffeine";
   "maxCaffeine"; "minCopper"; "maxCopper"; "minCalcium"; "maxCalcium";
   "minCholine"; "maxCholine"; "minCholesterol"; "maxCholesterol";
   "minFluoride"; "maxFluoride"; "minSaturatedFat"; "maxSaturatedFat";
   "minVitaminA"; "maxVitaminA"; "minVitaminC"; "maxVitaminC"; "minVitaminD";
   "maxVitaminD"; "minVitaminE"; "maxVitaminE"; "minVitaminK"; "maxVitaminK";
   "minVitaminB1"; "maxVitaminB1"; "minVitaminB2"; "maxVitaminB2";
   "minVitaminB5"; "maxVitaminB5"; "minVitaminB3"; "maxVitaminB3";
   "minVitaminB6"; "maxVitaminB6"; "minVitaminB12"; "maxVitaminB12";
   "minFiber"; "maxFiber"; "minFolate"; "maxFolate"; "minFolicAcid";
   "maxFolicAcid"; "minIodine"; "maxIodine"; "minIron"; "maxIron";
   "minMagnesium"; "maxMagnesium"; "minManganese"; "maxManganese";
   "minPhosphorus"; "maxPhosphorus"; "minPotassium"; "maxPotassium";
   "minSelenium"; "maxSelenium"; "minSodium"; "maxSodium"; "minSugar";
   "maxSugar"; "minZinc"; "maxZinc"; "recipeBoxId"]%string.

(** The body of [stringOptions.forEach] *)
Definition set_string (req : Request) (options : Options) (key : string) : Options :=
  match param req key with
  | Some value =>
      if str_truthy value then obj_set options (js key) (JStr value) else options
  | None => options
  end.

(** The body of [numberOptions.forEach] *)
Definition set_number (req : Request) (options : Options) (key : string) : Options :=
  match param req key with
  | Some value =>
      if str_truthy value then
        match parseInt10 value with
        | JNaN => options
        | num => obj_set options (js key) num
        end
      else options
  | None => options
  end.

(** The function ends with [Object.fromEntries] of the entries whose value
    is not [undefined]; no property is ever set to [undefined], and no
    option name is an array index, so this returns the properties as they
    were set, in the order they were first set. *)
Definition parseSearchOptions (req : Request) : Options :=
  let options := [] in
  let options := set_flag req "fillIngredients" options in
  let options := set_flag req "addRecipeInformation" options in
  let options := set_flag req "addRecipeInstructions" options in
  let options := set_flag req "addRecipeNutrition" options in
  let options := set_flag req "instructionsRequired" options in
  let options := set_flag req "ignorePantry" options in
  let options := fold_left (set_string req) stringOptions options in
  let options :=
    match param req "sortDirection" with
    | Some sortDir =>
        if str_eqb sortDir (js "asc") || str_eqb sortDir (js "desc")
        then obj_set options (js "sortDirection") (JStr sortDir)
        else options
    | None => options
    end in
  fold_left (set_number req) numberOptions options.

(** *** Numbers in conditions *)

(** [isNaN(n)], [n < k], [n > k] and [n <= k] for a number [n] and an integer
    literal [k]; every comparison with [NaN] is false, and an infinity
    compares by its sign. *)
Definition isNaN (n : Value) : bool :=
  match n with JNaN => true | _ => false end.

Definition lt (n : Value) (k : Z) : bool :=
  match n with
  | JNum q => Qgtb (inject_Z k) q
  | JInf negative => negative
  | _ => false
  end.

Definition gt (n : Value) (k : Z) : bool :=
  match n with
  | JNum q => Qgtb q (inject_Z k)
  | JInf negative => negb negative
  | _ => false
  end.

Definition le (n : Value) (k : Z) : bool :=
  match n with
  | JNum q => negb (Qgtb q (inject_Z k))
  | JInf negative => negative
  | _ => false
  end.

(** [s.includes(p)] *)
Definition includes (s p : jsstring) : bool :=
  match find_sub p s with Some _ => true | None => false end.

(** [l.join(sep)] *)
Fixpoint join (sep : jsstring) (l : list jsstring) : jsstring :=
  match l with
  | [] => []
  | [x] => x
  | x :: r => x ++ sep ++ join sep r
  end.

(** *** The routes *)

(** [jsonResponse(await f(...))]: the response header with the elapsed time
    is left out, [Response] holding the status and the body only. *)
Definition respond (r : Result Value) : Result Response :=
  match r with
  | Ok results => Ok (jsonResponse results None)
  | Throws e => Throws e
  end.

Definition bad_request (error : string) : Result Response * list Call :=
  (Ok (jsonResponse (error_body error) (Some 400%Z)), []).

(** recipes/search *)
Definition recipes_search (req : Request) (c : Collaborators)
  : Result Response * list Call :=
  let searchTerm := str_or (param req "searchTerm") [] in
  let page := parseInt10 (str_or (param req "page") (js "0")) in
  let searchOptions := parseSearchOptions req in
  let options := options_or_undefined searchOptions in
  (respond (searchRecipes c searchTerm page options),
   [SearchRecipes searchTerm page options]).

(** recipes/autocomplete *)
Definition recipes_autocomplete (req : Request) (c : Collaborators)
  : Result Response * list Call :=
  let query := param req "query" in
  let number := parseInt10 (str_or (param req "number") (js "10")) in
  if negb (opt_truthy query) || (str_length (trim (str_or query [])) <? 2)%Z
  then bad_request "Query must be at least 2 characters"
  else if isNaN number || lt number 1 || gt number 25
  then bad_request "Number must be between 1 and 25"
  else (respond (autocompleteRecipes c (trim (str_or query [])) number),
        [AutocompleteRecipes (trim (str_or query [])) number]).

(** [error?.code === 402 || error?.message?.includes("points limit") ||
    error?.message?.includes("daily limit")] *)
Definition isApiLimitError (e : Thrown) : bool :=
  let '(message, code) :=
    match e with
    | AnError m code => (Some m, code)
    | NotAnError m code => (m, code)
    end in
  match code with
  | Some (JNum q) => Qeq_bool q (inject_Z 402)
  | _ => false
  end
  || match message with
     | Some m => includes m (js "points limit") || includes m (js "daily limit")
     | None => false
     end.

(** The entry that stands for a favourite whose details are unavailable. *)
Definition placeholder (id : jsstring) : Value :=
  obj [("id", parseInt id);
       ("title", JStr (js "Recipe #" ++ id
                       ++ js " (Details unavailable - API limit reached)")%list);
       ("image", JNull);
       ("_apiUnavailable", JBool true)]%string.

(** recipes/favourite *)
Definition recipes_favourite (c : Collaborators) : Result Response * list Call :=
  match requireAuth c with
  | Throws e => (Throws e, [RequireAuth])
  | Ok (Denied response) => (Ok response, [RequireAuth])
  | Ok (Granted userId) =>
      match favouriteRecipes_findMany c userId with
      | Throws e => (Throws e, [RequireAuth; FindManyFavourites userId])
      | Ok recipes =>
          let recipeIds := map Number_toString recipes in
          match recipeIds with
          | [] =>
              (Ok (jsonResponse (obj [("results", JArr [])]%string) None),
               [RequireAuth; FindManyFavourites userId])
          | _ :: _ =>
              (match getFavouriteRecipesByIDs c recipeIds with
               | Ok favourites => Ok (jsonResponse favourites None)
               | Throws apiError =>
                   if isApiLimitError apiError then
                     Ok (jsonResponse
                           (obj [("results", JArr (map placeholder recipeIds));
                                 ("_message",
                                  JText "Your favourites are saved, but recipe details are temporarily unavailable due to API daily limit.")]%string)
                           None)
                   else Throws apiError
               end,
               [RequireAuth; FindManyFavourites userId;
                GetFavouriteRecipesByIDs recipeIds])
          end
      end
  end.

(** [isNaN(recipeIdNum) || recipeIdNum <= 0] *)
Definition invalid_recipe_id (recipeId : jsstring) : bool :=
  let recipeIdNum := parseInt10 recipeId in
  isNaN recipeIdNum || le recipeIdNum 0.

(** [searchParams.get(k) === "true"] *)
Definition is_true (req : Request) (k : string) : bool :=
  match param req k with
  | Some v => str_eqb v (js "true")
  | None => false
  end.

(** recipes/[id]/information *)
Definition recipe_information (recipeId : jsstring) (req : Request)
  (c : Collaborators) : Result Response * list Call :=
  if invalid_recipe_id recipeId then bad_request "Invalid recipe ID"
  else
    let options :=
      obj [("includeNutrition", JBool (is_true req "includeNutrition"));
           ("addWinePairing", JBool (is_true req "addWinePairing"));
           ("addTasteData", JBool (is_true req "addTasteData"))]%string in
    (respond (getRecipeInformation c recipeId options),
     [GetRecipeInformation recipeId options]).

(** recipes/[id]/similar *)
Definition recipe_similar (recipeId : jsstring) (req : Request)
  (c : Collaborators) : Result Response * list Call :=
  if invalid_recipe_id recipeId then bad_request "Invalid recipe ID"
  else
    let number := parseInt10 (str_or (param req "number") (js "10")) in
    if isNaN number || lt number 1 || gt number 100
    then bad_request "Number must be between 1 and 100"
    else (respond (getSimilarRecipes c recipeId number),
          [GetSimilarRecipes recipeId number]).

(** recipes/[id]/summary *)
Definition recipe_summary (recipeId : jsstring) (c : Collaborators)
  : Result Response * list Call :=
  if invalid_recipe_id recipeId then bad_request "Invalid recipe ID"
  else (respond (getRecipeSummary c recipeId), [GetRecipeSummary recipeId]).

(** food/wine/dishes *)
Definition wine_dishes (req : Request) (c : Collaborators)
  : Result Response * list Call :=
  let wine := param req "wine" in
  if negb (opt_truthy wine) || (str_length (trim (str_or wine [])) =? 0)%Z
  then bad_request "Wine type is required"
  else (match getDishPairingForWine c (str_or wine []) with
        | Ok results => Ok (jsonResponse results None)
        | Throws e => Throws e
        end,
        [GetDishPairingForWine (str_or wine [])]).

(** food/wine/pairing *)
Definition wine_pairing (req : Request) (c : Collaborators)
  : Result Response * list Call :=
  let food := param req "food" in
  let maxPrice :=
    match param req "maxPrice" with
    | Some s => if str_truthy s then Some (parseFloat c s) else None
    | None => None
    end in
  if negb (opt_truthy food) || (str_length (trim (str_or food [])) =? 0)%Z
  then bad_request "Food name is required"
  else if (str_length (trim (str_or food [])) >? 100)%Z
  then bad_request "Food name must be less than 100 characters"
  else if match maxPrice with
          | Some p => isNaN p || lt p 0
          | None => false
          end
  then bad_request "maxPrice must be a positive number"
  else (respond (getWinePairing c (trim (str_or food [])) maxPrice),
        [GetWinePairing (trim (str_or food [])) maxPrice]).

(** *** The dispatch on the path *)

(** [path[i] === name], [path[i]] as a condition, and
    [/^\d+$/.test(path[i])]: one or more ASCII digits and nothing else. *)
Definition seg_is (path : list jsstring) (i : nat) (name : string) : bool :=
  match nth_error path i with
  | Some s => str_eqb s (js name)
  | None => false
  end.

Definition seg_truthy (path : list jsstring) (i : nat) : bool :=
  match nth_error path i with
  | Some s => str_truthy s
  | None => false
  end.

Definition is_digits (s : jsstring) : bool :=
  str_truthy s
  && forallb (fun ch => match digit_val ch with Some _ => true | None => false end) s.

Definition seg_digits (path : list jsstring) (i : nat) : bool :=
  match nth_error path i with
  | Some s => is_digits s
  | None => false
  end.

(** The routes of [GET], in the order of their [if] statements. *)
Inductive Route :=
| Root | RecipesSearch | RecipesAutocomplete | Ai (ep : Endpoint)
| RecipesFavourite | RecipeInformation | RecipeSimilar | RecipeSummary
| RecipesImages | RecipesNotes | Collections | CollectionById | CollectionItems
| WineDishes | WinePairing | MealPlan | ShoppingList | NotFound.

Definition route_of (path : list jsstring) : Route :=
  let len := List.length path in
  if Nat.eqb len 0 then Root
  else if seg_is path 0 "recipes" && seg_is path 1 "search" then RecipesSearch
  else if seg_is path 0 "recipes" && seg_is path 1 "autocomplete"
  then RecipesAutocomplete
  else if seg_is path 0 "ai" && seg_is path 1 "search" then Ai AiSearch
  else if seg_is path 0 "ai" && seg_is path 1 "recommendations"
  then Ai AiRecommendations
  else if seg_is path 0 "ai" && seg_is path 1 "analysis" then Ai AiAnalysis
  else if seg_is path 0 "ai" && seg_is path 1 "modifications"
  then Ai AiModifications
  else if seg_is path 0 "recipes" && seg_is path 1 "favourite"
  then RecipesFavourite
  else if seg_is path 0 "recipes" && seg_truthy path 1 && seg_digits path 1
          && seg_is path 2 "information"
  then RecipeInformation
  else if seg_is path 0 "recipes" && seg_truthy path 1 && seg_digits path 1
          && seg_is path 2 "similar"
  then RecipeSimilar
  else if seg_is path 0 "recipes" && seg_truthy path 1 && seg_digits path 1
          && seg_is path 2 "summary"
  then RecipeSummary
  else if seg_is path 0 "recipes" && seg_is path 1 "images" then RecipesImages
  else if seg_is path 0 "recipes" && seg_is path 1 "notes" then RecipesNotes
  else if seg_is path 0 "collections" && Nat.eqb len 1 then Collections
  else if seg_is path 0 "collections" && seg_truthy path 1 && Nat.eqb len 2
  then CollectionById
  else if seg_is path 0 "collections" && seg_truthy path 1
          && seg_is path 2 "items" && Nat.eqb len 3
  then CollectionItems
  else if seg_is path 0 "food" && seg_is path 1 "wine" && seg_is path 2 "dishes"
  then WineDishes
  else if seg_is path 0 "food" && seg_is path 1 "wine" && seg_is path 2 "pairing"
  then WinePairing
  else if seg_is path 0 "meal-plan" && Nat.eqb len 1 then MealPlan
  else if seg_is path 0 "shopping-list" && Nat.eqb len 1 then ShoppingList
  else NotFound.

(** *** The handler *)

(** [error instanceof Error ? error.message : "Unknown error"] *)
Definition errorMessage (error : Thrown) : jsstring :=
  match error with
  | AnError message _ => message
  | NotAnError _ _ => js "Unknown error"
  end.

Definition statusCode (errorMessage : jsstring) : Z :=
  if includes errorMessage (js "limit") || includes errorMessage (js "402")
  then 402%Z else 500%Z.

(** The [catch] block around all routes; [NextResponse.json(body, { status })]
    answers with that body and that status. *)
Definition catch_all (path : list jsstring) (error : Thrown) : Response :=
  mkResponse (statusCode (errorMessage error))
    (obj [("error", JText "Internal server error");
          ("message", JStr (errorMessage error));
          ("path", JStr (join (js "/") path))]%string).

(** [GET] on the routes above and on the paths no route takes.  [None]: the
    path belongs to a route that is not part of this section (the root page,
    the four AI routes, and the routes that only read the database). *)
Definition GET (path : list jsstring) (req : Request) (c : Collaborators)
  : option (Response * list Call) :=
  let run (r : Result Response * list Call) :=
    Some (match fst r with
          | Ok response => response
          | Throws error => catch_all path error
          end, snd r) in
  match route_of path with
  | RecipesSearch => run (recipes_search req c)
  | RecipesAutocomplete => run (recipes_autocomplete req c)
  | RecipesFavourite => run (recipes_favourite c)
  | RecipeInformation => run (recipe_information (nth 1 path []) req c)
  | RecipeSimilar => run (recipe_similar (nth 1 path []) req c)
  | RecipeSummary => run (recipe_summary (nth 1 path []) c)
  | WineDishes => run (wine_dishes req c)
  | WinePairing => run (wine_pairing req c)
  | NotFound => Some (jsonResponse (error_body "Not found") (Some 404%Z), [])
  | _ => None
  end.

End Routes.

(** *** Vocabulary of the statements about the routes *)

(** The value of a run of decimal digits read after [acc]. *)
Definition digits_value (s : jsstring) (acc : Z) : Z :=
  fold_left (fun a c => 10 * a + Z.of_N (c - 48))%Z s acc.

(** The three routes under recipes/[id], the second segments that other
    routes take, and the recipe id a call is made with. *)
Definition id_actions : list string := ["information"; "similar"; "summary"]%string.

Definition reserved_segments : list string :=
  ["search"; "autocomplete"; "favourite"; "images"; "notes"]%string.

Definition call_recipeId (call : Routes.Call) : option jsstring :=
  match call with
  | Routes.GetRecipeInformation recipeId _
  | Routes.GetSimilarRecipes recipeId _
  | Routes.GetRecipeSummary recipeId => Some recipeId
  | _ => None
  end.




(** The last call of a request. *)
Definition last_call (calls : list Routes.Call) : option Routes.Call :=
  match rev calls with
  | call :: _ => Some call
  | [] => None
  end.

(** The status the outer [catch] gives a thrown value. *)
Definition thrown_status (e : Routes.Thrown) : Z :=
  match e with
  | Routes.AnError message _ =>
      if Routes.includes message (js "limit") || Routes.includes message (js "402")
      then 402%Z else 500%Z
  | Routes.NotAnError _ _ => 500%Z
  end.

(** Collaborators for the examples: a signed-in user with the given
    favourites, a recipe API that answers every call the same way, and a
    [parseFloat] that reads nothing. *)
Definition sample_collaborators (favourites : list Z)
  (answer : Routes.Result Value) : Routes.Collaborators :=
  Routes.mkCollaborators
    (Routes.Ok (Routes.Granted (js "user-1")))
    (fun _ => Routes.Ok favourites)
    (fun _ _ _ => answer) (fun _ _ => answer) (fun _ _ => answer)
    (fun _ _ => answer) (fun _ => answer) (fun _ => answer) (fun _ => answer)
    (fun _ _ => answer) (fun _ => JNaN).

(* ================================================================== *)
(** ** Upload presets *)
(* ================================================================== *)

(** [x.toFixed(2)] for a number that is the exact quotient [q], below
    [10^21] in magnitude: the nearest multiple of one hundredth, the larger
    one of two equally near, written with two decimals. *)
Definition toFixed2 (q : Q) : jsstring :=
  let magnitude (a : Z) (d : Z) :=
    let n := ((200 * a + d) / (2 * d))%Z in
    (Number_toString (n / 100)
     ++ 46%N :: (48 + Z.to_N ((n mod 100) / 10))%N
     :: (48 + Z.to_N (n mod 10))%N :: [])%list in
  if (Qnum q <? 0)%Z then 45%N :: magnitude (- Qnum q)%Z (QDen q)
  else magnitude (Qnum q) (QDen q).

Module Presets.

(** The optional fields of a transformation; each is absent or holds a
    number or a text. *)
Record ImageTransformation := mkTransformation {
  width : option Value;
  height : option Value;
  crop : option Value;
  quality : option Value;
  format : option Value;
  gravity : option Value;
  radius : option Value;
  effect : option Value;
  overlay : option Value;
  background : option Value
}.

(** A preset with its category.  [maxFileSize] is in megabytes; it is a
    whole number in every preset of this module, and the texts built from it
    are modelled for whole numbers. *)
Record UploadPreset := mkPreset {
  id : jsstring;
  name : jsstring;
  description : option jsstring;
  category : jsstring;
  mode : jsstring;
  folder : jsstring;
  allowedFormats : list jsstring;
  maxFileSize : Z;
  transformations : option ImageTransformation;
  overwrite : option bool;
  useFilename : option bool;
  uniqueFilename : option bool;
  useFilenameAsDisplayName : option bool;
  useAssetFolderAsPublicIdPrefix : option bool;
  tags : option (list jsstring);
  context : option (list (jsstring * jsstring));
  eager : option (list ImageTransformation);
  default : option bool;
  lastUpdated : option jsstring
}.

Definition recipe_main : UploadPreset :=
  mkPreset (js "recipe_main") (js "Recipe Main Image")
    (Some (js "Main recipe image for cards and headers"))
    (js "recipe") (js "unsigned") (js "recipe-app/recipes/main")
    (map js ["image/jpeg"; "image/png"; "image/webp"]%string)
    5
    (Some (mkTransformation
         (Some (JInt 800)) (Some (JInt 600)) (Some (JText "fill")) (Some (JText "auto"))
         None (Some (JText "auto")) None None None None))
    (Some false) (Some true) (Some true)
    (Some true) (Some false)
    (Some (map js ["recipe"; "main"]%string))
    None None (Some true) None.

Definition recipe_thumbnail : UploadPreset :=
  mkPreset (js "recipe_thumbnail") (js "Recipe Thumbnail")
    (Some (js "Small thumbnail for recipe cards"))
    (js "recipe") (js "unsigned") (js "recipe-app/recipes/thumbnails")
    (map js ["image/jpeg"; "image/png"; "image/webp"]%string)
    2
    (Some (mkTransformation
         (Some (JInt 312)) (Some (JInt 231)) (Some (JText "fill")) (Some (JInt 80))
         None (Some (JText "auto")) None None None None))
    (Some false) (Some true) (Some true)
    None None
    (Some (map js ["recipe"; "thumbnail"]%string))
    None None None None.

Definition recipe_gallery : UploadPreset :=
  mkPreset (js "recipe_gallery") (js "Recipe Gallery Image")
    (Some (js "Full-size gallery images for recipe detail pages"))
    (js "gallery") (js "unsigned") (js "recipe-app/recipes/gallery")
    (map js ["image/jpeg"; "image/png"; "image/webp"]%string)
    10
    (Some (mkTransformation
         (Some (JInt 1200)) (Some (JInt 800)) (Some (JText "limit")) (Some (JText "auto"))
         None None None None None None))
    (Some false) (Some true) (Some true)
    None None
    (Some (map js ["recipe"; "gallery"]%string))
    None None None None.

Definition recipe_step : UploadPreset :=
  mkPreset (js "recipe_step") (js "Recipe Step Image")
    (Some (js "Step-by-step cooking instruction images"))
    (js "step-by-step") (js "unsigned") (js "recipe-app/recipes/steps")
    (map js ["image/jpeg"; "image/png"; "image/webp"]%string)
    5
    (Some (mkTransformation
         (Some (JInt 600)) (Some (JInt 400)) (Some (JText "fill")) (Some (JInt 85))
         None (Some (JText "auto")) None None None None))
    (Some false) (Some true) (Some true)
    None None
    (Some (map js ["recipe"; "step"]%string))
    None None None None.

Definition recipe_ingredient : UploadPreset :=
  mkPreset (js "recipe_ingredient") (js "Ingredient Image")
    (Some (js "Custom ingredient photos"))
    (js "ingredient") (js "unsigned") (js "recipe-app/ingredients")
    (map js ["image/jpeg"; "image/png"; "image/webp"]%string)
    3
    (Some (mkTransformation
         (Some (JInt 400)) (Some (JInt 400)) (Some (JText "fill")) (Some (JInt 85))
         None (Some (JText "auto")) None None None None))
    (Some false) (Some true) (Some true)
    None None
    (Some (map js ["ingredient"]%string))
    None None None None.

Definition profile_avatar : UploadPreset :=
  mkPreset (js "profile_avatar") (js "Profile Avatar")
    (Some (js "User profile picture"))
    (js "profile") (js "signed") (js "recipe-app/profiles/avatars")
    (map js ["image/jpeg"; "image/png"; "image/webp"]%string)
    2
    (Some (mkTransformation
         (Some (JInt 200)) (Some (JInt 200)) (Some (JText "fill")) (Some (JInt 90))
         None (Some (JText "face")) (Some (JText "max")) None None None))
    (Some true) (Some false) (Some true)
    (Some false) None
    (Some (map js ["profile"; "avatar"]%string))
    None None None None.

Definition profile_cover : UploadPreset :=
  mkPreset (js "profile_cover") (js "Profile Cover")
    (Some (js "User profile cover image"))
    (js "profile") (js "signed") (js "recipe-app/profiles/covers")
    (map js ["image/jpeg"; "image/png"; "image/webp"]%string)
    5
    (Some (mkTransformation
         (Some (JInt 1200)) (Some (JInt 400)) (Some (JText "fill")) (Some (JText "auto"))
         None (Some (JText "auto")) None None None None))
    (Some true) (Some false) (Some true)
    None None
    (Some (map js ["profile"; "cover"]%string))
    None None None None.

Definition custom_high_quality : UploadPreset :=
  mkPreset (js "custom_high_quality") (js "Custom High Quality")
    (Some (js "High quality image with no compression"))
    (js "custom") (js "unsigned") (js "recipe-app/custom")
    (map js ["image/jpeg"; "image/png"; "image/webp"]%string)
    20
    (Some (mkTransformation
         None None None (Some (JInt 100))
         None None None None None None))
    (Some false) (Some true) (Some true)
    None None
    (Some (map js ["custom"]%string))
    None None None None.

Definition UPLOAD_PRESETS : list UploadPreset :=
  [recipe_main;
   recipe_thumbnail;
   recipe_gallery;
   recipe_step;
   recipe_ingredient;
   profile_avatar;
   profile_cover;
   custom_high_quality].

(** [UPLOAD_PRESETS.find((preset) => preset.id === id)] *)
Definition getPresetById (id0 : jsstring) : option UploadPreset :=
  find (fun preset => str_eqb (id preset) id0) UPLOAD_PRESETS.

Definition getPresetsByCategory (category0 : jsstring) : list UploadPreset :=
  filter (fun preset => str_eqb (category preset) category0) UPLOAD_PRESETS.

Definition getDefaultPreset : option UploadPreset :=
  find (fun preset => match default preset with Some true => true | _ => false end)
    UPLOAD_PRESETS.

(** [getPresetById("recipe_main") || UPLOAD_PRESETS[0]] *)
Definition getRecipePreset : option UploadPreset :=
  match getPresetById (js "recipe_main") with
  | Some preset => Some preset
  | None => hd_error UPLOAD_PRESETS
  end.

Definition getProfilePreset : option UploadPreset :=
  match getPresetById (js "profile_avatar") with
  | Some preset => Some preset
  | None => hd_error UPLOAD_PRESETS
  end.

(** [b ?? d] *)
Definition or_default (b : option bool) (d : bool) : bool :=
  match b with Some x => x | None => d end.

(** [if (t.k) options.k = t.k] *)
Definition set_if_truthy (k : string) (v : option Value) (options : Options)
  : Options :=
  match v with
  | Some x => if truthy x then obj_set options (js k) x else options
  | None => options
  end.

(** One entry of [options.eager] *)
Definition eagerOpts (t : ImageTransformation) : Value :=
  let eagerOpts := [] in
  let eagerOpts := set_if_truthy "width" (width t) eagerOpts in
  let eagerOpts := set_if_truthy "height" (height t) eagerOpts in
  let eagerOpts := set_if_truthy "crop" (crop t) eagerOpts in
  let eagerOpts := set_if_truthy "quality" (quality t) eagerOpts in
  let eagerOpts := set_if_truthy "format" (format t) eagerOpts in
  JObj eagerOpts.

Definition presetToCloudinaryOptions (preset : UploadPreset)
  (userId : option jsstring) : Options :=
  let options :=
    [(js "folder", JStr (folder preset));
     (js "overwrite", JBool (or_default (overwrite preset) false));
     (js "use_filename", JBool (or_default (useFilename preset) false));
     (js "unique_filename", JBool (or_default (uniqueFilename preset) true));
     (js "use_filename_as_display_name",
      JBool (or_default (useFilenameAsDisplayName preset) false));
     (js "use_asset_folder_as_public_id_prefix",
      JBool (or_default (useAssetFolderAsPublicIdPrefix preset) false))] in
  let options :=
    match transformations preset with
    | Some transform =>
        let options := set_if_truthy "width" (width transform) options in
        let options := set_if_truthy "height" (height transform) options in
        let options := set_if_truthy "crop" (crop transform) options in
        let options := set_if_truthy "quality" (quality transform) options in
        let options := set_if_truthy "format" (format transform) options in
        let options := set_if_truthy "gravity" (gravity transform) options in
        let options := set_if_truthy "radius" (radius transform) options in
        let options := set_if_truthy "effect" (effect transform) options in
        let options := set_if_truthy "overlay" (overlay transform) options in
        set_if_truthy "background" (background transform) options
    | None => options
    end in
  let options :=
    match eager preset with
    | Some (t :: ts) => obj_set options (js "eager") (JArr (map eagerOpts (t :: ts)))
    | _ => options
    end in
  let options :=
    match tags preset with
    | Some (t :: ts) =>
        obj_set options (js "tags") (JStr (Routes.join (js ",") (t :: ts)))
    | _ => options
    end in
  let options :=
    match context preset with
    | Some entries =>
        obj_set options (js "context")
          (JStr (Routes.join (js "|")
                   (map (fun kv => (fst kv ++ js "=" ++ snd kv)%list) entries)))
    | None => options
    end in
  if opt_truthy userId && str_truthy (folder preset)
  then obj_set options (js "folder")
         (JStr (folder preset ++ js "/" ++ str_or userId [])%list)
  else options.

(** [preset?.name || presetId] *)
Definition getPresetDisplayName (presetId : jsstring) : jsstring :=
  match getPresetById presetId with
  | Some preset => if str_truthy (name preset) then name preset else presetId
  | None => presetId
  end.

(** [recipeId] is a whole number. *)
Definition generateUploadFolder (preset : UploadPreset) (userId : option jsstring)
  (recipeId : option Z) : jsstring :=
  let folder := folder preset in
  let folder :=
    if opt_truthy userId then (folder ++ js "/" ++ str_or userId [])%list
    else folder in
  match recipeId with
  | Some n =>
      if negb (n =? 0)%Z then (folder ++ js "/" ++ Number_toString n)%list
      else folder
  | None => folder
  end.

End Presets.

(* ================================================================== *)
(** ** [POST] on the path upload *)
(* ================================================================== *)

Module Upload.

(** What the handler reads of the request: the body text ([request.text()]
    may reject) and the content-length header. *)
Record PostRequest := mkPostRequest {
  text : Routes.Result jsstring;
  content_length : option jsstring
}.

(** What [cloudinary.uploader.upload] resolves to, as far as the handler
    reads it; each field may be missing. *)
Record UploadApiResponse := mkUploaded {
  secure_url : option Value;
  public_id : option Value;
  width : option Value;
  height : option Value;
  format : option Value;
  bytes : option Value;
  eager : option Value
}.

(** [requireAuth], the upload call, the text JavaScript gives a number
    inside a template, and the message of the [TypeError] that destructuring
    [null] throws (its wording is the engine's). *)
Record Collaborators := mkCollaborators {
  requireAuth : Routes.Result Routes.Auth;
  cloudinary_uploader_upload : jsstring -> Options -> Routes.Result UploadApiResponse;
  numberText : Q -> jsstring;
  destructuring_null_message : jsstring
}.

Inductive Call :=
| RequireAuth
| CloudinaryUpload (file : jsstring) (options : Options).

(** [s.split(sep)] for a separator of one code unit *)
Fixpoint split (sep : N) (s : jsstring) : list jsstring :=
  match s with
  | [] => [[]]
  | c :: r =>
      if (c =? sep)%N then [] :: split sep r
      else match split sep r with
           | x :: xs => (c :: x) :: xs
           | [] => [[c]]
           end
  end.

(** The start of [POST]: the body is read and parsed before any route.  The
    outcome is a response, or the body the routes see. *)
Inductive Prologue :=
| Reply (response : Response)
| Parsed (body : Value).

Definition parse_body (req : PostRequest) : Prologue :=
  let failed :=
    if opt_truthy (content_length req)
       && negb (str_eqb (str_or (content_length req) []) (js "0"))
    then Reply (jsonResponse (error_body "Invalid JSON in request body") (Some 400%Z))
    else Parsed (JObj []) in
  match text req with
  | Routes.Throws _ => failed
  | Routes.Ok bodyText =>
      if (str_length bodyText >? 10 * 1024 * 1024)%Z then
        Reply (mkResponse 413
                 (error_body "Request body too large. Maximum size is 10MB"))
      else if str_truthy bodyText then
        match JSON_parse bodyText with
        | Some body => Parsed body
        | None => failed
        end
      else Parsed (JObj [])
  end.

(** [imageData.includes(",") ? imageData.split(",")[1] : imageData] *)
Definition base64Data (imageData : jsstring) : jsstring :=
  if Routes.includes imageData (js ",") then nth 1 (split 44 imageData) []
  else imageData.

(** [(base64Data.length * 3) / 4] *)
Definition imageSizeBytes (imageData : jsstring) : Q :=
  Qmake (str_length (base64Data imageData) * 3) 4.

Definition maxSizeBytes : Q := inject_Z (10 * 1024 * 1024).

(** [imageSizeBytes / 1024 / 1024], which is also
    [imageSizeBytes / (1024 * 1024)] *)
Definition fileSizeMB (imageData : jsstring) : Q :=
  Qmake (str_length (base64Data imageData) * 3) (4 * 1024 * 1024).

(** [imageData.includes("data:image/") ? imageData.split(";")[0].split("/")[1]
    : "jpeg"], as it appears inside the template: a missing element reads
    [undefined]. *)
Definition imageFormat (imageData : jsstring) : jsstring :=
  if Routes.includes imageData (js "data:image/") then
    match nth_error (split 47 (nth 0 (split 59 imageData) [])) 1 with
    | Some f => f
    | None => js "undefined"
    end
  else js "jpeg".

Definition reject (error : jsstring) : Routes.Result Response * list Call :=
  (Routes.Ok (jsonResponse (JObj [(js "error", JStr error)]) (Some 400%Z)),
   [RequireAuth]).

(** An object literal whose [undefined] properties are left out, as they
    are when the response is serialized. *)
Definition obj_defined (fields : list (string * option Value)) : Value :=
  JObj (flat_map (fun kv => match snd kv with
                            | Some v => [(js (fst kv), v)]
                            | None => []
                            end) fields).

(** [folder && (typeof folder !== "string" || folder.length > 200)] *)
Definition folder_invalid (folder : option Value) : bool :=
  match folder with
  | Some (JStr f) => str_truthy f && (str_length f >? 200)%Z
  | Some v => truthy v
  | None => false
  end.

(** [presetId && typeof presetId !== "string"] *)
Definition presetId_invalid (presetId : option Value) : bool :=
  match presetId with
  | Some (JStr _) => false
  | Some v => truthy v
  | None => false
  end.

(** The options without a preset: the folder of the body when it is a
    non-empty string, the user's folder otherwise. *)
Definition plain_options (userId : jsstring) (folder : option Value) : Options :=
  [(js "folder",
    JStr (match folder with
          | Some (JStr f) =>
              if str_truthy f then f else (js "recipe-app/" ++ userId)%list
          | _ => (js "recipe-app/" ++ userId)%list
          end))].

(** The options of a preset; the folder is replaced when the body holds a
    [recipeId] that is a number and truthy. *)
Definition preset_options (c : Collaborators) (preset : Presets.UploadPreset)
  (userId : jsstring) (recipeId : option Value) : Options :=
  let uploadOptions := Presets.presetToCloudinaryOptions preset (Some userId) in
  match recipeId with
  | Some (JNum q) =>
      if truthy (JNum q)
      then obj_set uploadOptions (js "folder")
             (JStr (Presets.folder preset ++ js "/" ++ userId
                    ++ js "/" ++ numberText c q)%list)
      else uploadOptions
  | Some (JInf negative) =>
      obj_set uploadOptions (js "folder")
        (JStr (Presets.folder preset ++ js "/" ++ userId ++ js "/"
               ++ (if negative then js "-Infinity" else js "Infinity"))%list)
  | _ => uploadOptions
  end.

(** The upload itself and the answer built from its result. *)
Definition send (c : Collaborators) (imageData : jsstring) (uploadOptions : Options)
  : Routes.Result Response * list Call :=
  let file := (js "data:image/" ++ imageFormat imageData ++ js ";base64,"
               ++ base64Data imageData)%list in
  (match cloudinary_uploader_upload c file uploadOptions with
   | Routes.Ok uploadResult =>
       Routes.Ok
         (jsonResponse
            (obj_defined [("imageUrl", secure_url uploadResult);
                          ("publicId", public_id uploadResult);
                          ("width", width uploadResult);
                          ("height", height uploadResult);
                          ("format", format uploadResult);
                          ("bytes", bytes uploadResult);
                          ("eager", eager uploadResult)]%string)
            None)
   | Routes.Throws e => Routes.Throws e
   end,
   [RequireAuth; CloudinaryUpload file uploadOptions]).

(** The upload route, after [requireAuth] gave [userId]. *)
Definition upload_as (userId : jsstring) (body : Value) (c : Collaborators)
  : Routes.Result Response * list Call :=
  let imageData := get_prop body "imageData" in
  let folder := get_prop body "folder" in
  let presetId := get_prop body "presetId" in
  let recipeId := get_prop body "recipeId" in
  match imageData with
  | None => reject (js "Image data is required")
  | Some imageData =>
  if negb (truthy imageData) then reject (js "Image data is required")
  else
  match imageData with
  | JStr imageData =>
    if Qgtb (imageSizeBytes imageData) maxSizeBytes then
      reject (js "Image size exceeds maximum of 10MB. Current size: "
              ++ toFixed2 (fileSizeMB imageData) ++ js "MB")%list
    else if folder_invalid folder
    then reject (js "Folder name must be a string less than 200 characters")
    else if presetId_invalid presetId
    then reject (js "Preset ID must be a string")
    else
      match presetId with
      | Some (JStr presetId) =>
          if str_truthy presetId then
            match Presets.getPresetById presetId with
            | None =>
                reject (jsq "Upload preset '" ++ presetId ++ jsq "' not found")%list
            | Some preset =>
                if Qgtb (fileSizeMB imageData) (inject_Z (Presets.maxFileSize preset))
                then reject (js "Image size " ++ toFixed2 (fileSizeMB imageData)
                             ++ js "MB exceeds preset maximum of "
                             ++ Number_toString (Presets.maxFileSize preset)
                             ++ js "MB")%list
                else send c imageData (preset_options c preset userId recipeId)
            end
          else send c imageData (plain_options userId folder)
      | _ => send c imageData (plain_options userId folder)
      end
  | _ => reject (js "Image data must be a string")
  end
  end.

(** The upload route: [const { imageData, ... } = body] throws when the
    body is [null]. *)
Definition upload (body : Value) (c : Collaborators)
  : Routes.Result Response * list Call :=
  match requireAuth c with
  | Routes.Throws e => (Routes.Throws e, [RequireAuth])
  | Routes.Ok (Routes.Denied response) => (Routes.Ok response, [RequireAuth])
  | Routes.Ok (Routes.Granted userId) =>
      match body with
      | JNull =>
          (Routes.Throws (Routes.AnError (destructuring_null_message c) None),
           [RequireAuth])
      | _ => upload_as userId body c
      end
  end.

(** The [catch] block of [POST]: always 500. *)
Definition catch_all (path : list jsstring) (error : Routes.Thrown) : Response :=
  mkResponse 500
    (obj [("error", JText "Internal server error");
          ("message", JStr (Routes.errorMessage error));
          ("path", JStr (Routes.join (js "/") path))]%string).

(** [POST] on the path [upload]. *)
Definition POST_upload (req : PostRequest) (c : Collaborators)
  : Response * list Call :=
  match parse_body req with
  | Reply response => (response, [])
  | Parsed body =>
      let r := upload body c in
      (match fst r with
       | Routes.Ok response => response
       | Routes.Throws error => catch_all [js "upload"] error
       end, snd r)
  end.

End Upload.

(** *** Vocabulary of the statements about uploads *)

(** The text of the upload route's own size error. *)
Definition too_large_text (x : jsstring) : jsstring :=
  (js "Image size exceeds maximum of 10MB. Current size: " ++ x)%list.

(** The names [presetToCloudinaryOptions] can set: the six it always sets,
    the ten of a transformation, and three more. *)
Definition base_option_names : list string :=
  ["folder"; "overwrite"; "use_filename"; "unique_filename";
   "use_filename_as_display_name"; "use_asset_folder_as_public_id_prefix"]%string.

Definition transformation_names : list string :=
  ["width"; "height"; "crop"; "quality"; "format"; "gravity"; "radius";
   "effect"; "overlay"; "background"]%string.

Definition cloudinary_option_names : list string :=
  base_option_names ++ transformation_names ++ ["eager"; "tags"; "context"]%string.

(** What every step of [presetToCloudinaryOptions] keeps: distinct names,
    the six fixed names first, only known names, the folder, and no falsy
    value under a transformation name. *)
Definition options_shape (folder : Value) (options : Options) : Prop :=
  NoDup (map fst options)
  /\ firstn 6 (map fst options) = map js base_option_names
  /\ incl (map fst options) (map js cloudinary_option_names)
  /\ lookup (js "folder") options = Some folder
  /\ forall k v, In (k, v) options -> In k (map js transformation_names) ->
                 truthy v = true.

(** Examples: a signed-in user whose upload succeeds, a JSON body with a
    small image for the gallery preset of recipe 5, and a preset without a
    folder and with a transformation of width zero. *)
Definition sample_uploader : Upload.Collaborators :=
  Upload.mkCollaborators
    (Routes.Ok (Routes.Granted (js "user-1")))
    (fun _ _ =>
       Routes.Ok (Upload.mkUploaded (Some (JText "https://res.example/a.png"))
                    (Some (JText "a")) None None None None None))
    (fun q => Number_toString (Qnum q))
    (js "Cannot destructure property of null").

Definition sample_upload : Upload.PostRequest :=
  Upload.mkPostRequest
    (Routes.Ok (jsq "{'imageData':'data:image/png;base64,AAAA','presetId':'recipe_gallery','recipeId':5}"))
    None.

Definition bare_preset : Presets.UploadPreset :=
  Presets.mkPreset (js "bare") (js "Bare") None (js "custom") (js "unsigned") []
    [js "image/png"] 1
    (Some (Presets.mkTransformation (Some (JInt 0)) (Some (JInt 300)) None None
             None None None None None None))
    None None None None None None None None None None.

(* ================================================================== *)
(** ** [POST] on the path email/share *)
(* ================================================================== *)

Module Share.

(** *** Regular expressions that are tested against a whole text *)

(** The expressions built from classes of code units by sequence,
    alternative and repetition. *)
Inductive Regex :=
| Eps
| Void
| Class (p : N -> bool)
| Seq (a b : Regex)
| Alt (a b : Regex)
| Star (a : Regex).

(** The texts an expression matches. *)
Inductive matches : Regex -> jsstring -> Prop :=
| MEps : matches Eps []
| MClass p c : p c = true -> matches (Class p) [c]
| MSeq a b s t : matches a s -> matches b t -> matches (Seq a b) (s ++ t)
| MAltL a b s : matches a s -> matches (Alt a b) s
| MAltR a b s : matches b s -> matches (Alt a b) s
| MStar0 a : matches (Star a) []
| MStarS a s t : matches a s -> matches (Star a) t -> matches (Star a) (s ++ t).

(** [a+] *)
Definition Plus (a : Regex) : Regex := Seq a (Star a).

Fixpoint nullable (r : Regex) : bool :=
  match r with
  | Eps => true
  | Void => false
  | Class _ => false
  | Seq a b => nullable a && nullable b
  | Alt a b => nullable a || nullable b
  | Star _ => true
  end.

(** What is left of [r] to match once [c] has been read. *)
Fixpoint deriv (c : N) (r : Regex) : Regex :=
  match r with
  | Eps => Void
  | Void => Void
  | Class p => if p c then Eps else Void
  | Seq a b =>
      if nullable a then Alt (Seq (deriv c a) b) (deriv c b)
      else Seq (deriv c a) b
  | Alt a b => Alt (deriv c a) (deriv c b)
  | Star a => Seq (deriv c a) (Star a)
  end.

(** [/^r$/.test(s)]: without the [m] flag the two anchors are the ends of
    the text, so the whole text has to match. *)
Definition test (r : Regex) (s : jsstring) : bool :=
  nullable (fold_left (fun r c => deriv c r) s r).

(** [[^\s@]] *)
Definition not_space_or_at (c : N) : bool :=
  negb (is_js_whitespace c || (c =? 64)%N).

(** The expression of the route: one or more [[^\s@]], an at sign, one or
    more [[^\s@]], a dot, one or more [[^\s@]]. *)
Definition emailRegex : Regex :=
  Seq (Plus (Class not_space_or_at))
    (Seq (Class (N.eqb 64))
       (Seq (Plus (Class not_space_or_at))
          (Seq (Class (N.eqb 46)) (Plus (Class not_space_or_at))))).

(** *** [escapeHtml] *)

(** [s.replace(/c/g, r)] for an expression that is one code unit *)
Fixpoint replace_all (c : N) (r : jsstring) (s : jsstring) : jsstring :=
  match s with
  | [] => []
  | x :: t => ((if (x =? c)%N then r else [x]) ++ replace_all c r t)%list
  end.

(** The five replacements, in the order of the source: the ampersand, the
    two angle brackets, the double quote (code unit 34) and the apostrophe. *)
Definition escapeHtml (str : jsstring) : jsstring :=
  replace_all 39 (js "&#039;")
    (replace_all 34 (js "&quot;")
       (replace_all 62 (js "&gt;")
          (replace_all 60 (js "&lt;")
             (replace_all 38 (js "&amp;") str)))).

(** *** The route *)

(** [process.env], as far as the route reads it for the delivery. *)
Record Env := mkEnv {
  RESEND_TOKEN : option jsstring;
  BREVO_API_KEY : option jsstring
}.

(** A call of an email service: [fetch] rejects, or answers with its [ok]
    flag; the [message] of the error body is read only when [ok] is false
    (reading it throws when [json()] rejects or gives [null]), and is a text,
    or falsy ([None]); a truthy message that is no text is outside the
    model. *)
Inductive Delivery :=
| FetchRejects (e : Routes.Thrown)
| FetchAnswers (ok : bool) (message : Routes.Result (option jsstring)).

(** [requireAuth], the [name] that the route decodes from the payload of the
    bearer token ([None] when there is no such token or the name is falsy),
    the two services, and the message of the [TypeError] that destructuring
    [null] throws. *)
Record Collaborators := mkCollaborators {
  requireAuth : Routes.Result Routes.Auth;
  userName : option Value;
  resend : Delivery;
  brevo : Delivery;
  destructuring_null_message : jsstring
}.

Inductive Call := RequireAuth | Resend | Brevo.

(** The state of the delivery: [emailSent] and [errorMessage]. *)
Record Sending := mkSending { emailSent : bool; errorMessage : jsstring }.

(** One [try] block: the state after calling a service. *)
Definition attempt (d : Delivery) (fallback : string) (st : Sending) : Sending :=
  match d with
  | FetchAnswers true _ => mkSending true (errorMessage st)
  | FetchAnswers false (Routes.Ok message) =>
      mkSending (emailSent st) (str_or message (js fallback))
  | FetchAnswers false (Routes.Throws (Routes.AnError message _))
  | FetchRejects (Routes.AnError message _) =>
      mkSending (emailSent st) message
  | FetchAnswers false (Routes.Throws (Routes.NotAnError _ _))
  | FetchRejects (Routes.NotAnError _ _) =>
      mkSending (emailSent st) (js fallback)
  end.

(** The delivery: Resend when its token is set, then Brevo when nothing was
    sent and its key is set. *)
Definition deliver (env : Env) (c : Collaborators) : Sending * list Call :=
  let st := mkSending false [] in
  let '(st, calls) :=
    if configured (RESEND_TOKEN env)
    then (attempt (resend c) "Resend API error" st, [Resend])
    else (st, []) in
  if negb (emailSent st) && configured (BREVO_API_KEY env)
  then (attempt (brevo c) "Brevo API error" st, (calls ++ [Brevo])%list)
  else (st, calls).

(** [!v] for a property that may be missing *)
Definition missing (v : option Value) : bool :=
  match v with
  | Some x => negb (truthy x)
  | None => true
  end.

(** [senderName || userName || 'Recipe Spoonacular'] *)
Definition senderDisplayName (body : Value) (c : Collaborators) : Value :=
  match get_prop body "senderName" with
  | Some v => if truthy v then v
              else match userName c with
                   | Some u => u
                   | None => JText "Recipe Spoonacular"
                   end
  | None => match userName c with
            | Some u => u
            | None => JText "Recipe Spoonacular"
            end
  end.

(** The values that the templates of the route turn into text without
    running code of the value: everything but objects and arrays. *)
Definition printable (v : Value) : bool :=
  match v with
  | JObj _ | JArr _ => false
  | _ => true
  end.

(** The subject, the link, the page and the sender line put [recipeId],
    [recipeTitle], a truthy [recipeImage] and the sender's name into
    templates. *)
Definition renders (body : Value) (c : Collaborators) : bool :=
  match get_prop body "recipeId", get_prop body "recipeTitle" with
  | Some recipeId, Some recipeTitle =>
      printable recipeId && printable recipeTitle
      && match get_prop body "recipeImage" with
         | Some recipeImage => negb (truthy recipeImage) || printable recipeImage
         | None => true
         end
      && printable (senderDisplayName body c)
  | _, _ => false
  end.

(** The route, after the body was parsed.  The texts of the subject and of
    the page do not decide what is called or answered and are left out; a
    request whose templates would have to turn an object or an array into
    text is outside the model ([None]). *)
Definition share (body : Value) (env : Env) (c : Collaborators)
  : option (Response * list Call) :=
  match requireAuth c with
  | Routes.Throws e =>
      Some (Upload.catch_all [js "email"; js "share"] e, [RequireAuth])
  | Routes.Ok (Routes.Denied response) => Some (response, [RequireAuth])
  | Routes.Ok (Routes.Granted _) =>
      if match body with JNull => true | _ => false end
      then Some (Upload.catch_all [js "email"; js "share"]
                   (Routes.AnError (destructuring_null_message c) None),
                 [RequireAuth])
      else
      if missing (get_prop body "recipeId") || missing (get_prop body "recipeTitle")
         || missing (get_prop body "recipientEmail")
      then Some (jsonResponse
                   (error_body "Recipe ID, title, and recipient email are required")
                   (Some 400%Z), [RequireAuth])
      else if match get_prop body "recipientEmail" with
              | Some (JStr recipientEmail) => negb (test emailRegex recipientEmail)
              | _ => true
              end
      then Some (jsonResponse (error_body "Invalid email format") (Some 400%Z),
                 [RequireAuth])
      else if negb (renders body c) then None
      else
        let '(st, calls) := deliver env c in
        Some
          (if emailSent st
           then jsonResponse
                  (obj [("success", JBool true);
                        ("message", JText "Recipe shared successfully via email")]%string)
                  None
           else jsonResponse
                  (JObj [(js "error",
                          JStr (js "Failed to send email: "
                                ++ (if str_truthy (errorMessage st) then errorMessage st
                                    else js "No email service configured"))%list)])
                  (Some 500%Z),
           RequireAuth :: calls)
  end.

(** [POST] on the path [email/share]. *)
Definition POST_email_share (req : Upload.PostRequest) (env : Env)
  (c : Collaborators) : option (Response * list Call) :=
  match Upload.parse_body req with
  | Upload.Reply response => Some (response, [])
  | Upload.Parsed body => share body env c
  end.

End Share.

(** *** Vocabulary of the statements about email/share *)

(** What [escapeHtml] puts for one code unit. *)
Definition escape_unit (c : N) : jsstring :=
  if (c =? 38)%N then js "&amp;"
  else if (c =? 60)%N then js "&lt;"
  else if (c =? 62)%N then js "&gt;"
  else if (c =? 34)%N then js "&quot;"
  else if (c =? 39)%N then js "&#039;"
  else [c].

(** The angle brackets, the double quote and the apostrophe. *)
Definition is_markup (c : N) : bool :=
  (c =? 60)%N || (c =? 62)%N || (c =? 34)%N || (c =? 39)%N.

(** A service answered with its [ok] flag set. *)
Definition answered_ok (d : Share.Delivery) : bool :=
  match d with
  | Share.FetchAnswers true _ => true
  | _ => false
  end.

(** The body passes the two checks of the route. *)
Definition valid_share (body : Value) : bool :=
  negb (Share.missing (get_prop body "recipeId")
        || Share.missing (get_prop body "recipeTitle")
        || Share.missing (get_prop body "recipientEmail"))
  && match get_prop body "recipientEmail" with
     | Some (JStr recipientEmail) => Share.test Share.emailRegex recipientEmail
     | _ => false
     end.

(** Examples: services that both refuse, and a well-formed body. *)
Definition sample_mailer (resend brevo : Share.Delivery) : Share.Collaborators :=
  Share.mkCollaborators (Routes.Ok (Routes.Granted (js "user-1"))) None
    resend brevo
    (js "Cannot destructure property of null").

Definition sample_share : Value :=
  obj [("recipeId", JInt 716429); ("recipeTitle", JText "Soup <hot>");
       ("recipientEmail", JText "cook@example.org")]%string.

(* ================================================================== *)
(** ** Basic facts *)
(* ================================================================== *)

(** A rounded number is a finite number or an infinity. *)
Lemma binary64_cases q :
  (exists r, binary64 q = JNum r) \/ (exists negative, binary64 q = JInf negative).
Proof.
  unfold binary64. destruct (Qnum q =? 0)%Z; [left; eexists; reflexivity|].
  destruct (Qle_bool _ _); [right|left]; eexists; reflexivity.
Qed.

Lemma binary64_is_number q : is_number (binary64 q) = true.
Proof. destruct (binary64_cases q) as [[r ->]|[n ->]]; reflexivity. Qed.

(** *** Rounding to binary64 *)

Lemma pow2_pos k : (0 < pow2 k)%Q.
Proof. apply Qpower_0_lt. reflexivity. Qed.

Lemma pow2_Z k : (0 <= k)%Z -> (pow2 k == inject_Z (2 ^ k))%Q.
Proof. intros H. unfold pow2. now rewrite Zpower_Qpower. Qed.

Lemma pow2_add a b : (pow2 (a + b) == pow2 a * pow2 b)%Q.
Proof. apply Qpower_plus. discriminate. Qed.

Lemma pow2_le a b : (a <= b)%Z -> (pow2 a <= pow2 b)%Q.
Proof. intros H. apply Qpower_le_compat_l; [exact H|discriminate]. Qed.

Lemma pow2_lt a b : (a < b)%Z -> (pow2 a < pow2 b)%Q.
Proof. intros H. apply Qpower_lt_compat_l; [exact H|reflexivity]. Qed.

Lemma pow2_half k : (pow2 (k - 1) == (1 # 2) * pow2 k)%Q.
Proof.
  replace (k - 1)%Z with (-1 + k)%Z by lia. rewrite pow2_add. reflexivity.
Qed.

Lemma round_half_even_integer z : round_half_even (inject_Z z) = z.
Proof.
  unfold round_half_even. rewrite Qfloor_Z.
  replace (Qcompare (Qminus (inject_Z z) (inject_Z z)) (Qmake 1 2)) with Lt;
    [reflexivity|].
  symmetry. apply Qlt_alt.
  setoid_replace (Qminus (inject_Z z) (inject_Z z)) with (inject_Z 0) by ring.
  reflexivity.
Qed.

Lemma round_half_even_comp x y : (x == y)%Q -> round_half_even x = round_half_even y.
Proof.
  intros H. unfold round_half_even.
  rewrite (Qfloor_comp _ _ H).
  replace (Qcompare (Qminus x (inject_Z (Qfloor y))) (Qmake 1 2))
    with (Qcompare (Qminus y (inject_Z (Qfloor y))) (Qmake 1 2)); [reflexivity|].
  apply Qcompare_comp; [|reflexivity]. now rewrite H.
Qed.

(** A number that is not negative rounds to zero exactly when it is at most
    one half. *)
Lemma round_half_even_zero x :
  (0 <= x)%Q -> (round_half_even x = 0%Z <-> (x <= 1 # 2)%Q).
Proof.
  intros Hx. unfold round_half_even.
  pose proof (Qfloor_le x) as Hlo. pose proof (Qlt_floor x) as Hhi.
  rewrite inject_Z_plus in Hhi.
  assert (Hf : (0 <= Qfloor x)%Z).
  { change 0%Z with (Qfloor (inject_Z 0)). apply Qfloor_resp_le. exact Hx. }
  assert (Hz : forall z, (inject_Z z <= 0)%Q -> (z <= 0)%Z).
  { intros z H. change 0%Q with (inject_Z 0) in H. now rewrite <- Zle_Qle in H. }
  assert (Hz1 : forall z, (inject_Z z < 1)%Q -> (z < 1)%Z).
  { intros z H. change 1%Q with (inject_Z 1) in H. now rewrite <- Zlt_Qlt in H. }
  destruct (Qcompare (Qminus x (inject_Z (Qfloor x))) (Qmake 1 2)) eqn:E.
  - apply Qeq_alt in E.
    destruct (Z.even (Qfloor x)) eqn:Ev.
    + split.
      * intros H0. rewrite H0 in E. change (inject_Z 0) with 0%Q in E. lra.
      * intros Hle. assert (Qfloor x <= 0)%Z by (apply Hz; lra). lia.
    + split; [lia|]. intros Hle.
      assert (Qfloor x <= 0)%Z by (apply Hz; lra).
      assert (E0 : Qfloor x = 0%Z) by lia. rewrite E0 in Ev. discriminate.
  - apply Qlt_alt in E. split.
    + intros H0. rewrite H0 in E. change (inject_Z 0) with 0%Q in E. lra.
    + intros Hle. assert (Qfloor x < 1)%Z by (apply Hz1; lra). lia.
  - apply Qgt_alt in E. split; [lia|].
    intros Hle. exfalso.
    assert (H : (0 <= inject_Z (Qfloor x))%Q)
      by (change 0%Q with (inject_Z 0); now rewrite <- Zle_Qle).
    lra.
Qed.

Lemma binary64_exponent_min a : (-1074 <= binary64_exponent a)%Z.
Proof. unfold binary64_exponent. apply Z.le_max_r. Qed.

(** Above the subnormal numbers the exponent leaves 53 bits before the
    point. *)
Lemma binary64_exponent_normal a :
  (0 < a)%Q ->
  binary64_exponent a = (-1074)%Z \/ (pow2 (binary64_exponent a + 52) <= a)%Q.
Proof.
  intros Ha. unfold binary64_exponent.
  set (k0 := (Z.log2 (Qnum a) - Z.log2 (Z.pos (Qden a)))%Z).
  assert (Hk : (pow2 (if Qle_bool (pow2 k0) a then k0 else k0 - 1) <= a)%Q).
  { destruct (Qle_bool (pow2 k0) a) eqn:E; [now apply Qle_bool_iff|].
    destruct a as [n d]. unfold Qlt in Ha. cbn in Ha. cbn [Qnum Qden] in k0.
    assert (Hn : (0 < n)%Z) by lia.
    pose proof (Z.log2_spec n Hn) as [Hn1 _].
    pose proof (Z.log2_spec (Z.pos d) (Pos2Z.is_pos d)) as [_ Hd2].
    pose proof (Z.log2_nonneg n) as Hln.
    pose proof (Z.log2_nonneg (Z.pos d)) as Hld.
    replace (k0 - 1)%Z with (Z.log2 n + - Z.succ (Z.log2 (Z.pos d)))%Z
      by (unfold k0; lia).
    rewrite pow2_add. unfold pow2 at 2. rewrite Qpower_opp.
    fold (pow2 (Z.succ (Z.log2 (Z.pos d)))).
    rewrite !pow2_Z by lia.
    set (x := (2 ^ Z.log2 n)%Z) in *. set (y := (2 ^ Z.succ (Z.log2 (Z.pos d)))%Z) in *.
    assert (Hy : (0 < y)%Z) by lia.
    unfold Qle, Qmult, Qinv, inject_Z. cbn [Qnum Qden].
    destruct y as [|py|py]; try lia. cbn [Qnum Qden].
    rewrite Z.mul_1_r, Pos.mul_1_l. nia. }
  destruct (Z.max_spec (((if Qle_bool (pow2 k0) a then k0 else k0 - 1) - 52)) (-1074))
    as [[_ ->]|[_ ->]]; [now left|right].
  now replace ((if Qle_bool (pow2 k0) a then k0 else k0 - 1) - 52 + 52)%Z
    with (if Qle_bool (pow2 k0) a then k0 else (k0 - 1)%Z) by lia.
Qed.

Lemma Qabs_pos q : Qnum q <> 0%Z -> (0 < Qabs q)%Q.
Proof.
  intros H. destruct q as [n d]. unfold Qabs, Qlt. cbn. cbn in H. lia.
Qed.

Lemma Qnum_Qred_zero q : Qnum (Qred q) = 0%Z <-> (q == 0)%Q.
Proof.
  split.
  - intros H. rewrite <- (Qred_correct q). unfold Qeq. rewrite H. reflexivity.
  - intros H. rewrite (Qred_complete _ _ H). reflexivity.
Qed.

(** The rounded magnitude is zero exactly when the magnitude is at most
    [2^-1075], half the smallest binary64 number. *)
Lemma rounded_zero a :
  (0 < a)%Q ->
  round_half_even (Qdiv a (pow2 (binary64_exponent a))) = 0%Z
  <-> (a <= pow2 (-1075))%Q.
Proof.
  intros Ha. set (e := binary64_exponent a).
  assert (Hpe : (0 < pow2 e)%Q) by apply pow2_pos.
  assert (Hdiv : (0 <= a / pow2 e)%Q).
  { apply Qle_shift_div_l; [exact Hpe|]. rewrite Qmult_0_l. now apply Qlt_le_weak. }
  rewrite (round_half_even_zero _ Hdiv).
  assert (Hiff : (a / pow2 e <= 1 # 2)%Q <-> (a <= pow2 (e - 1))%Q).
  { rewrite pow2_half. split; intros H.
    - apply (Qmult_le_r _ _ (pow2 e) Hpe) in H.
      setoid_replace (a / pow2 e * pow2 e)%Q with a in H; [exact H|].
      field. intros K. rewrite K in Hpe. discriminate.
    - apply Qle_shift_div_r; [exact Hpe|exact H]. }
  rewrite Hiff. clear Hiff Hdiv.
  pose proof (binary64_exponent_min a) as Hmin. fold e in Hmin.
  split; intros H.
  - destruct (binary64_exponent_normal a Ha) as [E|E]; fold e in E.
    + now rewrite E in H.
    + exfalso. apply (Qlt_irrefl a).
      apply Qle_lt_trans with (pow2 (e - 1)); [exact H|].
      apply Qlt_le_trans with (pow2 (e + 52)); [apply pow2_lt; lia|exact E].
  - apply Qle_trans with (pow2 (-1075)); [exact H|apply pow2_le; lia].
Qed.

(** A number is truthy after rounding exactly when its magnitude is above
    [2^-1075]: a smaller one is read as zero. *)
Lemma binary64_truthy q :
  truthy (binary64 q) = true <-> (pow2 (-1075) < Qabs q)%Q.
Proof.
  unfold binary64.
  destruct (Z.eqb_spec (Qnum q) 0) as [Hz|Hnz].
  - cbn. split; [discriminate|]. intros H. exfalso.
    assert (E : (Qabs q == 0)%Q).
    { destruct q as [n d]. cbn in Hz. subst n. reflexivity. }
    rewrite E in H. apply (Qlt_irrefl 0).
    apply Qlt_trans with (pow2 (-1075)); [apply pow2_pos|exact H].
  - pose proof (Qabs_pos q Hnz) as Ha.
    pose proof (rounded_zero (Qabs q) Ha) as Hzero.
    set (e := binary64_exponent (Qabs q)) in *.
    set (m := round_half_even (Qdiv (Qabs q) (pow2 e))) in *.
    assert (Hpe : (0 < pow2 e)%Q) by apply pow2_pos.
    assert (Hr : (inject_Z m * pow2 e == 0)%Q <-> m = 0%Z).
    { split.
      - intros H. apply Qmult_integral in H as [H|H].
        + unfold Qeq in H. cbn in H. lia.
        + rewrite H in Hpe. discriminate.
      - intros ->. ring. }
    assert (Hgoal : m <> 0%Z <-> (pow2 (-1075) < Qabs q)%Q).
    { rewrite Hzero. split.
      - intros H. apply Qnot_le_lt. exact H.
      - intros H K. apply (Qlt_irrefl (pow2 (-1075))).
        now apply Qlt_le_trans with (Qabs q). }
    destruct (Qle_bool (pow2 1024) (Qmult (inject_Z m) (pow2 e))) eqn:Eo.
    + cbn [truthy]. split; [intros _|reflexivity].
      apply Hgoal. intros ->. apply Qle_bool_iff in Eo.
      rewrite Qmult_0_l in Eo.
      apply (Qlt_irrefl 0). apply Qlt_le_trans with (pow2 1024); [apply pow2_pos|exact Eo].
    + cbn [truthy]. rewrite <- Hgoal, negb_true_iff, Z.eqb_neq, Qnum_Qred_zero.
      rewrite <- Hr.
      destruct (Qnum q <? 0)%Z; [|reflexivity].
      split; intros H K; apply H.
      * rewrite K. reflexivity.
      * rewrite <- (Qopp_involutive (inject_Z m * pow2 e)), K. reflexivity.
Qed.

(** Every integer of magnitude below [2^53] is a binary64 number. *)
Lemma binary64_safe_integer n :
  (Z.abs n < 2 ^ 53)%Z -> binary64 (inject_Z n) = JInt n.
Proof.
  intros Hn. unfold binary64, JInt. cbn [Qnum inject_Z].
  destruct (Z.eqb_spec n 0) as [->|Hnz]; [reflexivity|].
  assert (Ha : Qabs (inject_Z n) = inject_Z (Z.abs n)) by reflexivity.
  rewrite Ha.
  assert (Hpos : (0 < Z.abs n)%Z) by lia.
  pose proof (Z.log2_nonneg (Z.abs n)) as Hl.
  assert (Hlog : (Z.log2 (Z.abs n) < 53)%Z) by (apply Z.log2_lt_pow2; lia).
  assert (He : binary64_exponent (inject_Z (Z.abs n)) = (Z.log2 (Z.abs n) - 52)%Z).
  { unfold binary64_exponent. cbn [Qnum Qden inject_Z].
    change (Z.log2 1) with 0%Z. rewrite Z.sub_0_r.
    assert (Hle : Qle_bool (pow2 (Z.log2 (Z.abs n))) (inject_Z (Z.abs n)) = true).
    { apply Qle_bool_iff. rewrite pow2_Z by lia. rewrite <- Zle_Qle.
      apply Z.log2_spec. exact Hpos. }
    rewrite Hle. lia. }
  rewrite He.
  set (e := (Z.log2 (Z.abs n) - 52)%Z).
  assert (He0 : (0 <= - e)%Z) by (unfold e; lia).
  assert (Hinv : (pow2 e * pow2 (- e) == 1)%Q).
  { rewrite <- pow2_add. replace (e + - e)%Z with 0%Z by lia. reflexivity. }
  assert (Hpe : ~ (pow2 e == 0)%Q).
  { intros K. pose proof (pow2_pos e) as P. rewrite K in P. discriminate. }
  assert (Hscale : (inject_Z (Z.abs n) / pow2 e
                    == inject_Z (Z.abs n * 2 ^ (- e)))%Q).
  { rewrite inject_Z_mult, <- (pow2_Z (- e) He0).
    apply (Qmult_inj_r _ _ (pow2 e) Hpe).
    setoid_replace (inject_Z (Z.abs n) / pow2 e * pow2 e)%Q
      with (inject_Z (Z.abs n)) by (field; exact Hpe).
    rewrite <- Qmult_assoc, (Qmult_comm (pow2 (- e))), Hinv. ring. }
  rewrite (round_half_even_comp _ _ Hscale), round_half_even_integer.
  assert (Hr : (inject_Z (Z.abs n * 2 ^ (- e)) * pow2 e == inject_Z (Z.abs n))%Q).
  { rewrite inject_Z_mult, <- (pow2_Z (- e) He0).
    rewrite <- Qmult_assoc, (Qmult_comm (pow2 (- e))), Hinv. ring. }
  assert (Hover : Qle_bool (pow2 1024)
                    (Qmult (inject_Z (Z.abs n * 2 ^ (- e))) (pow2 e)) = false).
  { apply not_true_is_false. intros H. apply Qle_bool_iff in H.
    rewrite Hr, pow2_Z in H by lia. rewrite <- Zle_Qle in H.
    assert ((2 ^ 53 < 2 ^ 1024)%Z) by (apply Z.pow_lt_mono_r; lia). lia. }
  rewrite Hover. f_equal.
  assert (Hred : forall x z, (x == inject_Z z)%Q -> Qred x = inject_Z z).
  { intros x z H. rewrite (Qred_complete _ _ H).
    unfold Qred, inject_Z.
    pose proof (Z.ggcd_gcd z 1) as Hg.
    pose proof (Z.ggcd_correct_divisors z 1) as Hd.
    destruct (Z.ggcd z 1) as [g [aa bb]]. cbn [fst] in Hg.
    rewrite Z.gcd_1_r in Hg. subst g. destruct Hd as [Ha' Hb'].
    rewrite Z.mul_1_l in Ha', Hb'. now subst aa bb. }
  apply Hred.
  destruct (Z.ltb_spec n 0).
  - rewrite Hr. unfold Qeq. cbn. lia.
  - rewrite Hr. unfold Qeq. cbn. lia.
Qed.

Lemma str_eqb_refl (s : jsstring) : str_eqb s s = true.
Proof.
  induction s as [|c s IH]; simpl; [reflexivity|].
  now rewrite N.eqb_refl, IH.
Qed.

Lemma str_eqb_eq (a b : jsstring) : str_eqb a b = true <-> a = b.
Proof.
  split.
  - revert b; induction a as [|x a IH]; intros [|y b] H; simpl in H;
      try discriminate; [reflexivity|].
    apply andb_true_iff in H as [Hxy Hab].
    apply N.eqb_eq in Hxy. f_equal; auto.
  - intros ->. apply str_eqb_refl.
Qed.

(** A block assigns [v] exactly when the response is ok, its body is
    readable, and the block's extraction code yields [v] on the text (the
    text [{}] when the path leads to nothing or to the empty string). *)
Lemma attempt_value_spec ep w p v :
  attempt_value ep w p = Some v <->
  exists content,
    fetch w p = HttpResponse true (BodyText content)
    /\ extractor ep p (str_or content (js "{}")) = Some v.
Proof.
  unfold attempt_value, provider_text. split.
  - destruct (fetch w p) as [|[|] [|content]]; try discriminate.
    intros H. now exists content.
  - intros [content [-> H]]. exact H.
Qed.

Lemma attempt_unfold ep w p st :
  attempt (extractor ep p) w p st
  = mkChain (match attempt_value ep w p with Some v => v | None => data st end)
            (calls st ++ [CallProvider p]).
Proof.
  unfold attempt, attempt_value.
  destruct (provider_text (fetch w p)) as [t|]; [|reflexivity].
  destruct (extractor ep p t); reflexivity.
Qed.

(** Each handler's nested conditionals run the configured blocks in order. *)
Lemma chain_run_blocks ep env w :
  chain ep env w = run_blocks ep w (provider_chain ep env) chain_start.
Proof.
  destruct ep; unfold chain, provider_chain, search_chain, recommendations_chain,
    analysis_chain, modifications_chain;
    destruct (configured (OPENROUTER_API_KEY env));
    destruct (configured (GOOGLE_GEMINI_API_KEY env));
    try destruct (configured (GROQ_LLAMA_API_KEY env));
    cbn [app run_blocks chain_start data truthy negb andb];
    rewrite ?andb_true_r, ?andb_false_r; reflexivity.
Qed.

Lemma run_blocks_settled ep w ps st :
  truthy (data st) = true -> run_blocks ep w ps st = st.
Proof.
  revert st; induction ps as [|p ps IH]; intros st H; simpl; [reflexivity|].
  rewrite H; simpl. now apply IH.
Qed.

Lemma run_blocks_rejected ep w ps : forall st,
  Forall (fun p => accepted (attempt_value ep w p) = false) ps ->
  truthy (data st) = false ->
  truthy (data (run_blocks ep w ps st)) = false
  /\ calls (run_blocks ep w ps st) = calls st ++ map CallProvider ps.
Proof.
  induction ps as [|p ps IH]; intros st Hall Hst; simpl.
  - now rewrite app_nil_r.
  - inversion Hall as [|? ? Hp Hps]; subst.
    rewrite Hst; simpl. rewrite attempt_unfold.
    destruct (IH (mkChain (match attempt_value ep w p with
                           | Some v => v | None => data st end)
                          (calls st ++ [CallProvider p])) Hps) as [Hd Hc].
    + simpl. unfold accepted in Hp.
      destruct (attempt_value ep w p); [exact Hp | exact Hst].
    + split; [exact Hd|]. rewrite Hc. simpl. now rewrite <- app_assoc.
Qed.

Lemma run_blocks_first ep w pre k post v : forall st,
  Forall (fun p => accepted (attempt_value ep w p) = false) pre ->
  truthy (data st) = false ->
  attempt_value ep w k = Some v ->
  truthy v = true ->
  run_blocks ep w (pre ++ k :: post) st
  = mkChain v (calls st ++ map CallProvider (pre ++ [k])).
Proof.
  induction pre as [|p pre IH]; intros st Hall Hst Hk Hv; simpl.
  - rewrite Hst; simpl. rewrite attempt_unfold, Hk.
    now apply run_blocks_settled.
  - inversion Hall as [|? ? Hp Hps]; subst.
    rewrite Hst; simpl. rewrite attempt_unfold.
    rewrite IH; try assumption.
    + simpl. now rewrite <- app_assoc.
    + simpl. unfold accepted in Hp.
      destruct (attempt_value ep w p); [exact Hp | exact Hst].
Qed.

Lemma provider_chain_NoDup ep env : NoDup (provider_chain ep env).
Proof.
  unfold provider_chain.
  destruct ep;
    destruct (configured (OPENROUTER_API_KEY env));
    destruct (configured (GOOGLE_GEMINI_API_KEY env));
    try destruct (configured (GROQ_LLAMA_API_KEY env));
    simpl; repeat constructor; simpl; intuition discriminate.
Qed.

(** Under exhaustion the variable is still falsy after the chain, and every
    configured block has run once. *)
Lemma chain_exhausted ep env w :
  exhausted ep env w ->
  truthy (data (chain ep env w)) = false
  /\ calls (chain ep env w) = map CallProvider (provider_chain ep env).
Proof.
  intros H. rewrite chain_run_blocks.
  now apply (run_blocks_rejected ep w (provider_chain ep env) chain_start).
Qed.

(* ================================================================== *)
(** ** The provider chain: first accepted result wins *)
(* ================================================================== *)

(** A JSON object is truthy, so an extracted object always stops the chain. *)
Lemma object_truthy v : is_object v = true -> truthy v = true.
Proof. destruct v; simpl; intros H; try discriminate; reflexivity. Qed.

(** C1, as stated, fails: in ai/search with every key configured, Claude
    answers 200 with the text [null] and GPT answers 200 with the text [42].
    Both texts are valid JSON and neither is an object; Gemini would answer
    with the object [{searchTerm: "pasta"}].  The text [null] does not stop
    the chain (GPT is called after it), the number 42 does, and the result is
    42: not the JSON of the first provider that returned valid JSON, and not
    the JSON of the first provider that returned a JSON object, which is
    never called. *)
Lemma chain_first_object_not_returned :
  let st := chain AiSearch env_all world_null_42_object in
  provider_chain AiSearch env_all = [Claude; GPT; Gemini; Groq]
  /\ attempt_value AiSearch world_null_42_object Claude = Some JNull
  /\ attempt_value AiSearch world_null_42_object GPT = Some (JInt 42)
  /\ attempt_value AiSearch world_null_42_object Gemini
     = Some (obj [("searchTerm", JText "pasta")]%string)
  /\ data st = JInt 42
  /\ data st <> obj [("searchTerm", JText "pasta")]%string
  /\ data st <> JNull
  /\ calls st = [CallProvider Claude; CallProvider GPT].
Proof.
  repeat split; try reflexivity; vm_compute; discriminate.
Qed.

(** C1, amended: if provider [k] is the first configured provider of the
    route whose response is ok and whose extracted JSON value is truthy (any
    object or array, [true], a non-zero number, a non-empty string), then the
    chain's result is that value, the providers called are exactly those up
    to [k], no provider after [k] is called, and no fallback replaces the
    value. *)
Theorem first_accepted_provider_wins ep env w pre k post v :
  provider_chain ep env = pre ++ k :: post ->
  Forall (fun p => accepted (attempt_value ep w p) = false) pre ->
  attempt_value ep w k = Some v ->
  truthy v = true ->
  chain ep env w = mkChain v (map CallProvider (pre ++ [k]))
  /\ (forall p, In p post -> ~ In (CallProvider p) (calls (chain ep env w)))
  /\ (forall query, search_params query (chain ep env w) = v)
  /\ (forall i, recommendation_params i (chain ep env w) = v)
  /\ (forall recipeInfo, analysis_data recipeInfo (chain ep env w) = v)
  /\ (forall t recipeInfo, modification_data t recipeInfo (chain ep env w) = v).
Proof.
  intros Hchain Hpre Hk Hv.
  assert (E : chain ep env w = mkChain v (map CallProvider (pre ++ [k]))).
  { rewrite chain_run_blocks, Hchain.
    now rewrite (run_blocks_first ep w pre k post v chain_start Hpre eq_refl Hk Hv). }
  split; [exact E|].
  split.
  - intros p Hp Hin. rewrite E in Hin. simpl in Hin.
    apply in_map_iff in Hin as [p' [Heq Hin]].
    injection Heq as ->.
    pose proof (provider_chain_NoDup ep env) as Hnd.
    rewrite Hchain in Hnd.
    replace (pre ++ k :: post) with ((pre ++ [k]) ++ post) in Hnd
      by (now rewrite <- app_assoc).
    revert Hnd Hin Hp. generalize (pre ++ [k]) as l.
    induction l as [|x l IH]; intros Hnd Hin Hp; [contradiction|].
    simpl in Hnd. inversion Hnd as [|? ? Hx Hl]; subst.
    destruct Hin as [->|Hin].
    + apply Hx. apply in_or_app. now right.
    + now apply IH.
  - unfold search_params, recommendation_params, analysis_data, modification_data.
    rewrite E; simpl; rewrite Hv; simpl. repeat split; reflexivity.
Qed.

(** The theorem at a concrete chain: Claude unreachable, GPT answering 503,
    Gemini answering a fenced object; Groq is configured and never called. *)
Lemma first_accepted_provider_wins_witness :
  let v := obj [("searchTerm", JText "vegan curry"); ("number", JInt 5)]%string in
  provider_chain AiRecommendations env_all = [Claude; GPT] ++ Gemini :: [Groq]
  /\ Forall (fun p => accepted (attempt_value AiRecommendations world_gemini_answers p)
                      = false) [Claude; GPT]
  /\ attempt_value AiRecommendations world_gemini_answers Gemini = Some v
  /\ truthy v = true
  /\ chain AiRecommendations env_all world_gemini_answers
     = mkChain v [CallProvider Claude; CallProvider GPT; CallProvider Gemini]
  /\ ~ In (CallProvider Groq) (calls (chain AiRecommendations env_all world_gemini_answers)).
Proof.
  intros v.
  assert (H1 : provider_chain AiRecommendations env_all = [Claude; GPT] ++ Gemini :: [Groq])
    by reflexivity.
  assert (H2 : Forall (fun p => accepted (attempt_value AiRecommendations
                                            world_gemini_answers p) = false)
                      [Claude; GPT])
    by (repeat constructor).
  assert (H3 : attempt_value AiRecommendations world_gemini_answers Gemini = Some v)
    by (vm_compute; reflexivity).
  assert (H4 : truthy v = true) by reflexivity.
  destruct (first_accepted_provider_wins AiRecommendations env_all world_gemini_answers
              [Claude; GPT] Gemini [Groq] v H1 H2 H3 H4) as [E [Hpost _]].
  split; [exact H1|]. split; [exact H2|]. split; [exact H3|].
  split; [exact H4|]. split; [exact E|].
  apply Hpost. simpl. now left.
Defined.

(** A number literal too small for binary64 is read as zero, which is falsy:
    it does not stop the chain, and the next provider is asked. *)
Lemma underflow_does_not_stop_chain :
  attempt_value AiSearch world_tiny_number Claude = Some (JInt 0)
  /\ chain AiSearch env_all world_tiny_number
     = mkChain (obj [("searchTerm", JText "pasta")]%string)
         [CallProvider Claude; CallProvider GPT].
Proof. split; vm_compute; reflexivity. Qed.

(* ================================================================== *)
(** ** The handler: validation, credential check, try block *)
(* ================================================================== *)

Lemma trim_nil : trim [] = [].
Proof. reflexivity. Qed.

Lemma search_guard req :
  negb (opt_truthy (param req "query"))
  || (str_length (trim (str_or (param req "query") [])) <? 3)%Z
  = negb (valid_request AiSearch req).
Proof.
  unfold valid_request.
  destruct (param req "query") as [[|c q]|]; try reflexivity.
  cbn [opt_truthy str_truthy negb orb str_or].
  generalize (str_length (trim (c :: q))); intros n.
  destruct (Z.ltb_spec n 3), (Z.leb_spec 3 n); simpl; try reflexivity; lia.
Qed.

Lemma recommendations_guard req :
  negb (str_truthy (trim (rec_query (recommendation_input req))))
  && negb (match trimmed (rec_ingredients (recommendation_input req)) with
           | Some _ => true
           | None => false
           end)
  = negb (valid_request AiRecommendations req).
Proof.
  unfold valid_request, recommendation_input, trimmed; cbn [rec_query rec_ingredients].
  destruct (str_truthy (trim (str_or (param req "query") []))); simpl; [reflexivity|].
  destruct (param req "ingredients") as [i|]; [|reflexivity].
  destruct (str_truthy (trim i)); reflexivity.
Qed.

Lemma analysis_guard req :
  negb (opt_truthy (param req "recipeId"))
  || Number_isNaN (str_or (param req "recipeId") [])
  = negb (valid_request AiAnalysis req).
Proof.
  unfold valid_request.
  destruct (param req "recipeId") as [[|c q]|]; try reflexivity.
  cbn [opt_truthy str_truthy negb orb andb str_or].
  now rewrite negb_involutive.
Qed.

Lemma credential_guard ep env :
  negb (configured (OPENROUTER_API_KEY env))
  && negb (configured (GOOGLE_GEMINI_API_KEY env))
  && negb (match ep with
           | AiSearch | AiRecommendations => configured (GROQ_LLAMA_API_KEY env)
           | AiAnalysis | AiModifications =>
               configured (HUGGING_FACE_INFERENCE_API_KEY env)
           end)
  = negb (credential_check ep env).
Proof.
  unfold credential_check.
  destruct (configured (OPENROUTER_API_KEY env)),
           (configured (GOOGLE_GEMINI_API_KEY env)); simpl; try reflexivity.
Qed.

(** Every route has the same three stages, in this order. *)
Lemma GET_stages ep req env w :
  GET ep req env w
  = if negb (valid_request ep req)
    then (jsonResponse (validation_error ep req) (Some 400%Z), [])
    else if negb (credential_check ep env)
    then (jsonResponse (config_error ep) (Some 500%Z), [])
    else try_block ep req env w.
Proof.
  destruct ep; unfold GET.
  - unfold ai_search. rewrite search_guard, (credential_guard AiSearch). reflexivity.
  - unfold ai_recommendations.
    rewrite recommendations_guard, (credential_guard AiRecommendations). reflexivity.
  - unfold ai_analysis. rewrite analysis_guard, (credential_guard AiAnalysis). reflexivity.
  - unfold ai_modifications.
    rewrite (credential_guard AiModifications).
    unfold validation_error, valid_request, try_block.
    destruct (param req "type") as [t|];
      destruct (param req "recipeId") as [[|c q]|]; try reflexivity;
      cbn [opt_truthy str_truthy negb orb andb str_or];
      destruct (Number_isNaN (c :: q)); try reflexivity.
    destruct t as [|c' t]; [reflexivity|].
    cbn [opt_truthy str_truthy negb orb andb str_or].
    destruct (is_modification_type (c' :: t)); reflexivity.
Qed.

Lemma no_credentials_check ep env :
  no_credentials env -> credential_check ep env = false.
Proof.
  intros (H1 & H2 & H3 & H4). unfold credential_check.
  rewrite H1, H2. destruct ep; simpl; assumption.
Qed.

(** C3, as stated, fails: with no key configured, an ai/search request whose
    query is shorter than three characters is answered 400 by the parameter
    validation, which comes before the credential check; it is not answered
    with the 500 configuration error. *)
Lemma short_query_without_keys_is_400 :
  no_credentials env_none
  /\ GET AiSearch (request_of [("query", "ab")]%string) env_none world_down
     = (jsonResponse (error_body "Query must be at least 3 characters") (Some 400%Z), [])
  /\ status (fst (GET AiSearch (request_of [("query", "ab")]%string) env_none world_down))
     <> 500%Z.
Proof.
  split; [repeat split|].
  split; [reflexivity|]. vm_compute. discriminate.
Qed.

(** C3, amended: when no provider credential is configured, no request to an
    AI route causes any outbound call (no provider call and no recipe API
    call); a request that passes the route's parameter validation is answered
    with the 500 configuration error, and a request that fails it with 400. *)
Theorem no_credentials_no_calls ep req env w :
  no_credentials env ->
  snd (GET ep req env w) = []
  /\ (valid_request ep req = true ->
      fst (GET ep req env w) = jsonResponse (config_error ep) (Some 500%Z)
      /\ status (fst (GET ep req env w)) = 500%Z)
  /\ (valid_request ep req = false -> status (fst (GET ep req env w)) = 400%Z).
Proof.
  intros Hno. rewrite GET_stages, (no_credentials_check ep env Hno).
  destruct (valid_request ep req); simpl.
  - repeat split; try reflexivity. discriminate.
  - repeat split; try reflexivity; discriminate.
Qed.

(** The theorem at an ai/analysis request with a numeric recipe id. *)
Lemma no_credentials_no_calls_witness :
  no_credentials env_none
  /\ snd (GET AiAnalysis (request_of [("recipeId", "716429")]%string) env_none world_down)
     = []
  /\ fst (GET AiAnalysis (request_of [("recipeId", "716429")]%string) env_none world_down)
     = jsonResponse (config_error AiAnalysis) (Some 500%Z).
Proof.
  assert (Hno : no_credentials env_none) by (repeat split).
  destruct (no_credentials_no_calls AiAnalysis
              (request_of [("recipeId", "716429")]%string) env_none world_down Hno)
    as [Hcalls [Hvalid _]].
  split; [exact Hno|]. split; [exact Hcalls|].
  apply Hvalid. reflexivity.
Defined.

(* ================================================================== *)
(** ** Total exhaustion: the degraded mode *)
(* ================================================================== *)

Lemma search_fallback_term query :
  match search_term_of (search_fallback query) with
  | Some t => t
  | None => trim query
  end = trim query.
Proof.
  unfold search_term_of, search_fallback.
  change (get_prop (obj [("searchTerm"%string, JStr (trim query))]) "searchTerm")
    with (Some (JStr (trim query))).
  destruct (trim query); reflexivity.
Qed.

Lemma search_fallback_options query :
  copy_search_options (search_fallback query) [] = [].
Proof. reflexivity. Qed.

(** With a valid request, a credential and every configured provider
    rejected, the handler answers what the fallback alone determines. *)
Lemma degraded_mode ep req env w resp :
  valid_request ep req = true ->
  credential_check ep env = true ->
  exhausted ep env w ->
  degraded_answer ep req w = Some resp ->
  fst (GET ep req env w) = resp.
Proof.
  intros Hvalid Hcred Hex Hans.
  rewrite GET_stages, Hvalid, Hcred; cbn [negb].
  destruct (chain_exhausted ep env w Hex) as [Hd _].
  destruct ep; unfold try_block, degraded_answer, chain in *.
  - unfold search_try, search_params; cbv zeta. rewrite Hd; cbn [negb].
    rewrite search_fallback_term, search_fallback_options; cbn [options_or_undefined].
    destruct (searchRecipes w _ 1%Z None); [|discriminate].
    now injection Hans as <-.
  - unfold recommendations_try, recommendation_params; cbv zeta. rewrite Hd; cbn [negb].
    cbv zeta in Hans.
    destruct (searchRecipes w _ 1%Z _); [|discriminate].
    now injection Hans as <-.
  - unfold analysis_try, analysis_data.
    destruct (getRecipeInformation w _) as [[recipeInfo|]|]; try discriminate.
    cbv zeta. rewrite Hd; cbn [negb]. now injection Hans as <-.
  - unfold modifications_try, modification_data.
    destruct (getRecipeInformation w _) as [[recipeInfo|]|]; try discriminate.
    cbv zeta. rewrite Hd; cbn [negb]. now injection Hans as <-.
Qed.

Lemma degraded_answer_status ep req w resp :
  degraded_answer ep req w = Some resp -> status resp = 200%Z.
Proof.
  destruct ep; unfold degraded_answer; cbv zeta.
  - destruct (searchRecipes w _ 1%Z None); [|discriminate].
    now intros [= <-].
  - destruct (searchRecipes w _ 1%Z _); [|discriminate].
    now intros [= <-].
  - destruct (getRecipeInformation w _) as [[recipeInfo|]|]; try discriminate.
    now intros [= <-].
  - destruct (getRecipeInformation w _) as [[recipeInfo|]|]; try discriminate.
    now intros [= <-].
Qed.

(** C2, as stated, fails: an ai/search request with a valid query while no
    provider is configured (so every provider of the chain is unconfigured)
    is answered 500 by the credential check, not 200 with a fallback. *)
Lemma search_unconfigured_is_500 :
  valid_request AiSearch (request_of [("query", "pasta dinner")]%string) = true
  /\ provider_chain AiSearch env_none = []
  /\ exhausted AiSearch env_none world_down
  /\ GET AiSearch (request_of [("query", "pasta dinner")]%string) env_none world_down
     = (jsonResponse (config_error AiSearch) (Some 500%Z), [])
  /\ status (fst (GET AiSearch (request_of [("query", "pasta dinner")]%string)
                    env_none world_down)) <> 200%Z.
Proof.
  split; [reflexivity|]. split; [reflexivity|].
  split; [constructor|]. split; [reflexivity|].
  vm_compute. discriminate.
Qed.

(** C2, amended: for a request that passes the route's validation, when at
    least one credential of the route's check is configured, every configured
    provider of the chain is rejected and the route's recipe API call returns
    (for analysis and modifications: returns a recipe), the handler answers
    200 with the result built from the fallback alone.  (With no credential
    the answer is the 500 configuration error.) *)
Theorem exhaustion_with_credential_falls_back ep req env w resp :
  valid_request ep req = true ->
  credential_check ep env = true ->
  exhausted ep env w ->
  degraded_answer ep req w = Some resp ->
  fst (GET ep req env w) = resp /\ status (fst (GET ep req env w)) = 200%Z.
Proof.
  intros Hvalid Hcred Hex Hans.
  rewrite (degraded_mode ep req env w resp Hvalid Hcred Hex Hans).
  split; [reflexivity|]. exact (degraded_answer_status ep req w resp Hans).
Qed.

(** The theorem at an ai/analysis request, all keys configured, all providers
    unreachable. *)
Lemma exhaustion_with_credential_falls_back_witness :
  let req := request_of [("recipeId", "716429")]%string in
  valid_request AiAnalysis req = true
  /\ credential_check AiAnalysis env_all = true
  /\ exhausted AiAnalysis env_all world_down
  /\ fst (GET AiAnalysis req env_all world_down)
     = jsonResponse (analysis_fallback sample_recipe) None
  /\ status (fst (GET AiAnalysis req env_all world_down)) = 200%Z.
Proof.
  intros req.
  assert (H1 : valid_request AiAnalysis req = true) by reflexivity.
  assert (H2 : credential_check AiAnalysis env_all = true) by reflexivity.
  assert (H3 : exhausted AiAnalysis env_all world_down) by (repeat constructor).
  assert (H4 : degraded_answer AiAnalysis req world_down
               = Some (jsonResponse (analysis_fallback sample_recipe) None))
    by reflexivity.
  destruct (exhaustion_with_credential_falls_back AiAnalysis req env_all world_down
              _ H1 H2 H3 H4) as [E S].
  split; [exact H1|]. split; [exact H2|]. split; [exact H3|].
  split; [exact E|exact S].
Defined.

(* ================================================================== *)
(** ** Determinism of the degraded mode *)
(* ================================================================== *)

(** C8: two runs on the same request and environment in which every
    configured provider is rejected give the same answer (and issue the same
    calls), however differently the providers failed in the two runs: the
    fallback depends only on the request and on what the recipe API
    returned. *)
Theorem exhausted_runs_agree ep req env w1 w2 :
  same_recipe_api w1 w2 ->
  exhausted ep env w1 ->
  exhausted ep env w2 ->
  GET ep req env w1 = GET ep req env w2.
Proof.
  intros [Hrecipe Hsearch] Hex1 Hex2.
  rewrite !GET_stages.
  destruct (valid_request ep req); [|reflexivity].
  destruct (credential_check ep env); [|reflexivity].
  cbn [negb].
  destruct (chain_exhausted ep env w1 Hex1) as [Hd1 Hc1].
  destruct (chain_exhausted ep env w2 Hex2) as [Hd2 Hc2].
  destruct ep; unfold try_block, chain in *.
  - unfold search_try, search_params; cbv zeta.
    now rewrite Hd1, Hd2, Hc1, Hc2, Hsearch.
  - unfold recommendations_try, recommendation_params; cbv zeta.
    now rewrite Hd1, Hd2, Hc1, Hc2, Hsearch.
  - unfold analysis_try, analysis_data; cbv zeta.
    now rewrite Hd1, Hd2, Hc1, Hc2, Hrecipe.
  - unfold modifications_try, modification_data; cbv zeta.
    now rewrite Hd1, Hd2, Hc1, Hc2, Hrecipe.
Qed.

(** The theorem at two worlds that fail in different ways: every provider
    unreachable, and every provider answering uselessly. *)
Lemma exhausted_runs_agree_witness :
  let req := request_of [("recipeId", "716429"); ("type", "simplify")]%string in
  same_recipe_api world_down world_useless
  /\ exhausted AiModifications env_all world_down
  /\ exhausted AiModifications env_all world_useless
  /\ GET AiModifications req env_all world_down
     = GET AiModifications req env_all world_useless.
Proof.
  intros req.
  assert (H1 : same_recipe_api world_down world_useless) by (split; reflexivity).
  assert (H2 : exhausted AiModifications env_all world_down) by (repeat constructor).
  assert (H3 : exhausted AiModifications env_all world_useless) by (repeat constructor).
  split; [exact H1|]. split; [exact H2|]. split; [exact H3|].
  exact (exhausted_runs_agree AiModifications req env_all world_down world_useless
           H1 H2 H3).
Defined.

(* ================================================================== *)
(** ** ai/search: the [aiOptimized] flag *)
(* ================================================================== *)

(** C9: every 200 answer of ai/search carries [aiOptimized: true]; this
    includes the answers whose search parameters are the simple fallback
    [{searchTerm: query.trim()}] because every provider was rejected. *)
Theorem search_200_is_aiOptimized req env w :
  status (fst (GET AiSearch req env w)) = 200%Z ->
  get_prop (body (fst (GET AiSearch req env w))) "aiOptimized" = Some (JBool true)
  /\ (exhausted AiSearch env w ->
      get_prop (body (fst (GET AiSearch req env w))) "searchParams"
      = Some (obj [("searchTerm", JStr (trim (str_or (param req "query") [])))]%string)).
Proof.
  rewrite GET_stages.
  destruct (valid_request AiSearch req); [|discriminate].
  destruct (credential_check AiSearch env); [|discriminate].
  cbn [negb]. unfold try_block, search_try; cbv zeta.
  destruct (searchRecipes w _ 1%Z _) as [r|m]; [|discriminate].
  intros _. split; [reflexivity|].
  intros Hex. destruct (chain_exhausted AiSearch env w Hex) as [Hd _].
  unfold chain in Hd. unfold search_params. rewrite Hd. reflexivity.
Qed.

(** The theorem at a request answered in degraded mode. *)
Lemma search_200_is_aiOptimized_witness :
  let req := request_of [("query", "  pasta dinner ")]%string in
  status (fst (GET AiSearch req env_all world_down)) = 200%Z
  /\ exhausted AiSearch env_all world_down
  /\ get_prop (body (fst (GET AiSearch req env_all world_down))) "aiOptimized"
     = Some (JBool true)
  /\ get_prop (body (fst (GET AiSearch req env_all world_down))) "searchParams"
     = Some (obj [("searchTerm", JText "pasta dinner")]%string).
Proof.
  intros req.
  assert (H1 : status (fst (GET AiSearch req env_all world_down)) = 200%Z)
    by reflexivity.
  assert (H2 : exhausted AiSearch env_all world_down) by (repeat constructor).
  destruct (search_200_is_aiOptimized req env_all world_down H1) as [Hflag Hparams].
  split; [exact H1|]. split; [exact H2|]. split; [exact Hflag|].
  exact (Hparams H2).
Defined.

(* ================================================================== *)
(** ** ai/analysis: the fallback's rules *)
(* ================================================================== *)

Lemma above_bound r (bound : Z) :
  (0 <= bound)%Z -> (inject_Z bound < r)%Q -> truthy_and_above (Some r) bound = true.
Proof.
  intros Hb Hlt. unfold truthy_and_above, Qgtb.
  unfold Qlt in Hlt. simpl in *.
  apply andb_true_iff; split.
  - apply negb_true_iff, Z.eqb_neq. pose proof (Pos2Z.is_pos (Qden r)). nia.
  - apply Z.ltb_lt. exact Hlt.
Qed.

(** When the handler of ai/analysis has fetched recipe [id], the request was
    valid, a credential was configured, and [id] is the request's recipe id. *)
Lemma analysis_fetched req env w id :
  exhausted AiAnalysis env w ->
  In (CallRecipeInformation id) (snd (GET AiAnalysis req env w)) ->
  valid_request AiAnalysis req = true
  /\ credential_check AiAnalysis env = true
  /\ str_or (param req "recipeId") [] = id.
Proof.
  intros Hex. rewrite GET_stages.
  destruct (valid_request AiAnalysis req); [|intros []].
  destruct (credential_check AiAnalysis env); [|intros []].
  cbn [negb]. unfold try_block, analysis_try.
  assert (Hlog : forall l,
            In (CallRecipeInformation id)
               (CallRecipeInformation (str_or (param req "recipeId") []) :: l) ->
            (forall c, In c l -> exists p, c = CallProvider p) ->
            str_or (param req "recipeId") [] = id).
  { intros l [H|H] Hl; [now injection H|].
    destruct (Hl _ H) as [p Hp]. discriminate. }
  intros Hin. repeat split.
  destruct (getRecipeInformation w _) as [[recipeInfo|]|];
    cbn [snd] in Hin.
  - apply (Hlog _ Hin). intros c Hc.
    destruct (chain_exhausted AiAnalysis env w Hex) as [_ Hcalls].
    unfold chain in Hcalls. rewrite Hcalls in Hc.
    apply in_map_iff in Hc as [p [Hp _]]. now exists p.
  - apply (Hlog _ Hin). intros c [].
  - apply (Hlog _ Hin). intros c [].
Qed.

(** The degraded answer of ai/analysis for the recipe that was fetched. *)
Lemma analysis_answer req env w id recipeInfo :
  In (CallRecipeInformation id) (snd (GET AiAnalysis req env w)) ->
  getRecipeInformation w id = Returned (Some recipeInfo) ->
  exhausted AiAnalysis env w ->
  fst (GET AiAnalysis req env w) = jsonResponse (analysis_fallback recipeInfo) None.
Proof.
  intros Hin Hrecipe Hex.
  destruct (analysis_fetched req env w id Hex Hin) as [Hvalid [Hcred Hid]].
  apply degraded_mode; try assumption.
  unfold degraded_answer. now rewrite Hid, Hrecipe.
Qed.

(** C4: for every ai/analysis request whose fetched recipe has
    [glutenFree: false], [dairyFree: false] and [readyInMinutes: 75], and for
    which every configured provider fails, the answer is 200, its [allergens]
    are exactly the two entries gluten and dairy, each of severity medium, and
    its [cookingDifficulty.level] is "advanced". *)
Theorem analysis_fallback_gluten_dairy_advanced req env w id recipeInfo r :
  In (CallRecipeInformation id) (snd (GET AiAnalysis req env w)) ->
  getRecipeInformation w id = Returned (Some recipeInfo) ->
  glutenFree recipeInfo = Some false ->
  dairyFree recipeInfo = Some false ->
  readyInMinutes recipeInfo = Some r ->
  (r == 75)%Q ->
  exhausted AiAnalysis env w ->
  let answer := fst (GET AiAnalysis req env w) in
  status answer = 200%Z
  /\ get_prop (body answer) "allergens"
     = Some (JArr [obj [("allergen", JText "gluten"); ("severity", JText "medium")];
                   obj [("allergen", JText "dairy"); ("severity", JText "medium")]]%string)
  /\ get_path (body answer) ["cookingDifficulty"; "level"]%string
     = Some (JText "advanced").
Proof.
  intros Hin Hrecipe Hg Hd Hr Hr75 Hex answer.
  subst answer.
  rewrite (analysis_answer req env w id recipeInfo Hin Hrecipe Hex).
  split; [reflexivity|].
  assert (Hadv : truthy_and_above (readyInMinutes recipeInfo) 60 = true).
  { rewrite Hr. apply above_bound; [lia|]. rewrite Hr75. reflexivity. }
  split.
  - cbn [body jsonResponse]. unfold analysis_fallback. rewrite Hg, Hd. reflexivity.
  - cbn [body jsonResponse]. unfold analysis_fallback. rewrite Hadv. reflexivity.
Qed.

(** The theorem at [sample_recipe], with only the Gemini key configured and
    Gemini answering prose. *)
Lemma analysis_fallback_gluten_dairy_advanced_witness :
  let req := request_of [("recipeId", "716429")]%string in
  let env := mkEnv None (Some (js "gemini-key")) None None in
  let answer := fst (GET AiAnalysis req env world_useless) in
  In (CallRecipeInformation (js "716429")) (snd (GET AiAnalysis req env world_useless))
  /\ exhausted AiAnalysis env world_useless
  /\ status answer = 200%Z
  /\ get_prop (body answer) "allergens"
     = Some (JArr [obj [("allergen", JText "gluten"); ("severity", JText "medium")];
                   obj [("allergen", JText "dairy"); ("severity", JText "medium")]]%string)
  /\ get_path (body answer) ["cookingDifficulty"; "level"]%string
     = Some (JText "advanced").
Proof.
  intros req env answer.
  assert (Hin : In (CallRecipeInformation (js "716429"))
                   (snd (GET AiAnalysis req env world_useless)))
    by (left; reflexivity).
  assert (Hex : exhausted AiAnalysis env world_useless) by (repeat constructor).
  split; [exact Hin|]. split; [exact Hex|].
  apply (analysis_fallback_gluten_dairy_advanced req env world_useless
           (js "716429") sample_recipe 75%Q Hin);
    try reflexivity; exact Hex.
Defined.

(** The fallback's score, for any recipe: [recipeInfo.healthScore || 50]. *)
Lemma analysis_fallback_score recipeInfo :
  get_path (analysis_fallback recipeInfo) ["healthScore"; "score"]%string
  = Some (JNum (num_or (healthScore recipeInfo) (inject_Z 50))).
Proof. reflexivity. Qed.

(** C10: the analysis fallback reports the score [healthScore || 50]: for a
    recipe whose health score is missing or is 0 it reports 50, in the
    fallback object and in the handler's degraded answer; only a non-zero
    score of the recipe is reported as it is. *)
Theorem fallback_health_score_default recipeInfo :
  get_path (analysis_fallback recipeInfo) ["healthScore"; "score"]%string
  = Some (JNum (num_or (healthScore recipeInfo) (inject_Z 50)))
  /\ ((healthScore recipeInfo = None
       \/ exists q, healthScore recipeInfo = Some q /\ (q == 0)%Q) ->
      get_path (analysis_fallback recipeInfo) ["healthScore"; "score"]%string
      = Some (JInt 50)
      /\ forall req env w id,
           In (CallRecipeInformation id) (snd (GET AiAnalysis req env w)) ->
           getRecipeInformation w id = Returned (Some recipeInfo) ->
           exhausted AiAnalysis env w ->
           get_path (body (fst (GET AiAnalysis req env w))) ["healthScore"; "score"]%string
           = Some (JInt 50))
  /\ (forall q, healthScore recipeInfo = Some q -> ~ (q == 0)%Q ->
      get_path (analysis_fallback recipeInfo) ["healthScore"; "score"]%string
      = Some (JNum q)).
Proof.
  split; [apply analysis_fallback_score|]. split.
  - intros H.
    assert (E : num_or (healthScore recipeInfo) (inject_Z 50) = inject_Z 50).
    { destruct H as [->|[q [-> Hq]]]; [reflexivity|].
      unfold num_or. unfold Qeq in Hq. simpl in Hq.
      replace (Qnum q =? 0)%Z with true; [reflexivity|].
      symmetry. apply Z.eqb_eq. lia. }
    split.
    + rewrite analysis_fallback_score, E. reflexivity.
    + intros req env w id Hin Hrecipe Hex.
      rewrite (analysis_answer req env w id recipeInfo Hin Hrecipe Hex).
      cbn [body jsonResponse]. rewrite analysis_fallback_score, E. reflexivity.
  - intros q Hq Hnz. rewrite analysis_fallback_score, Hq. unfold num_or.
    replace (Qnum q =? 0)%Z with false; [reflexivity|].
    symmetry. apply Z.eqb_neq. intros Hz. apply Hnz.
    unfold Qeq. simpl. rewrite Hz. reflexivity.
Qed.

(** The theorem at [sample_recipe], whose own health score is 0. *)
Lemma fallback_health_score_default_witness :
  healthScore sample_recipe = Some 0%Q
  /\ get_path (analysis_fallback sample_recipe) ["healthScore"; "score"]%string
     = Some (JInt 50)
  /\ get_path (body (fst (GET AiAnalysis (request_of [("recipeId", "716429")]%string)
                            env_all world_down)))
              ["healthScore"; "score"]%string
     = Some (JInt 50).
Proof.
  destruct (fallback_health_score_default sample_recipe) as [_ [H _]].
  assert (H0 : healthScore sample_recipe = None
               \/ exists q, healthScore sample_recipe = Some q /\ (q == 0)%Q).
  { right. exists 0%Q. split; reflexivity. }
  destruct (H H0) as [Hscore Hanswer].
  split; [reflexivity|]. split; [exact Hscore|].
  apply (Hanswer (request_of [("recipeId", "716429")]%string) env_all world_down
           (js "716429")).
  - left; reflexivity.
  - reflexivity.
  - repeat constructor.
Defined.

(* ================================================================== *)
(** ** ai/recommendations: the fallback parameters *)
(* ================================================================== *)

Lemma slice_to_10 (l : list Value) : slice_to l (JInt 10) = firstn 10 l.
Proof.
  unfold slice_to, JInt. cbn [Qnum Qden inject_Z].
  change (Z.quot 10 1) with 10%Z. cbn [Z.ltb Z.compare].
  destruct (Z.min_spec 10 (Z.of_nat (List.length l))) as [[Hlt ->]|[Hle ->]].
  - reflexivity.
  - rewrite Nat2Z.id. rewrite firstn_all.
    symmetry. apply firstn_all2. lia.
Qed.

(** C5, as stated, fails: with the input [{query: "quick vegan dinner"}] and
    no provider configured, the route answers 500 with the configuration
    error; no fallback parameters are built and no search is made. *)
Lemma recommendations_unconfigured_is_500 :
  let req := request_of [("query", "quick vegan dinner")]%string in
  provider_chain AiRecommendations env_none = []
  /\ GET AiRecommendations req env_none world_down
     = (jsonResponse
          (error_body "No AI API keys configured (OpenRouter, Gemini, or Groq required)")
          (Some 500%Z), [])
  /\ body (fst (GET AiRecommendations req env_none world_down))
     <> obj [("searchTerm", JText "quick vegan dinner"); ("number", JInt 10)]%string.
Proof.
  split; [reflexivity|]. split; [reflexivity|]. vm_compute. discriminate.
Qed.

(** C5, amended: for the input [{query: "quick vegan dinner"}], when at least
    one credential of the route's check is configured and every configured
    provider is rejected, the structured parameters are
    [{searchTerm: "quick vegan dinner", number: 10}] with no [diet] and no
    [cuisine] key; they are not the response body: the handler searches with
    that term and answers with the first ten recipes found, a reason and the
    context.  (With no provider configured the answer is the 500
    configuration error.) *)
Theorem quick_vegan_dinner_fallback req env w :
  nextUrl_searchParams req = [(js "query", js "quick vegan dinner")] ->
  credential_check AiRecommendations env = true ->
  exhausted AiRecommendations env w ->
  let aiResponseData :=
    recommendation_params (recommendation_input req) (chain AiRecommendations env w) in
  aiResponseData = obj [("searchTerm", JText "quick vegan dinner"); ("number", JInt 10)]%string
  /\ get_prop aiResponseData "diet" = None
  /\ get_prop aiResponseData "cuisine" = None
  /\ snd (GET AiRecommendations req env w)
     = map CallProvider (provider_chain AiRecommendations env)
       ++ [CallSearchRecipes (js "quick vegan dinner") 1 (Some recommendation_base_options)]
  /\ (forall r,
        searchRecipes w (js "quick vegan dinner") 1%Z (Some recommendation_base_options)
        = Returned r ->
        fst (GET AiRecommendations req env w)
        = jsonResponse
            (obj [("recipes", JArr (firstn 10 (list_or_empty (results r))));
                  ("reason",
                    JStr (js "Recommended based on: " ++ dquote
                          ++ js "quick vegan dinner" ++ dquote)%list);
                  ("context",
                    JStr (js "User request: " ++ dquote
                          ++ js "quick vegan dinner" ++ dquote)%list)]%string)
            None).
Proof.
  intros Hreq Hcred Hex aiResponseData.
  destruct req as [ps]; cbn [nextUrl_searchParams] in Hreq; subst ps.
  set (req := mkRequest [(js "query", js "quick vegan dinner")]) in *.
  destruct (chain_exhausted AiRecommendations env w Hex) as [Hd Hc].
  assert (Hdata : aiResponseData
                  = obj [("searchTerm", JText "quick vegan dinner");
                         ("number", JInt 10)]%string).
  { subst aiResponseData. unfold recommendation_params. rewrite Hd. reflexivity. }
  assert (Hvalid : valid_request AiRecommendations req = true) by reflexivity.
  split; [exact Hdata|].
  split; [rewrite Hdata; reflexivity|].
  split; [rewrite Hdata; reflexivity|].
  split.
  - rewrite GET_stages, Hvalid, Hcred; cbn [negb].
    unfold try_block, recommendations_try, recommendation_params; cbv zeta.
    unfold chain in Hd, Hc. rewrite Hd, Hc; cbn [negb].
    change (recommendations_fallback _ _ _ _ _ _)
      with (obj [("searchTerm", JText "quick vegan dinner"); ("number", JInt 10)]%string).
    change (recommendation_term (recommendation_input req)
              (obj [("searchTerm", JText "quick vegan dinner"); ("number", JInt 10)]%string))
      with (js "quick vegan dinner").
    change (options_or_undefined
              (copy_search_options
                 (obj [("searchTerm", JText "quick vegan dinner"); ("number", JInt 10)]%string)
                 recommendation_base_options))
      with (Some recommendation_base_options).
    destruct (searchRecipes w _ 1%Z _); reflexivity.
  - intros r Hr.
    apply degraded_mode; try assumption.
    unfold degraded_answer; cbv zeta.
    change (recommendations_fallback _ _ _ _ _ _)
      with (obj [("searchTerm", JText "quick vegan dinner"); ("number", JInt 10)]%string).
    change (recommendation_term (recommendation_input req)
              (obj [("searchTerm", JText "quick vegan dinner"); ("number", JInt 10)]%string))
      with (js "quick vegan dinner").
    change (options_or_undefined
              (copy_search_options
                 (obj [("searchTerm", JText "quick vegan dinner"); ("number", JInt 10)]%string)
                 recommendation_base_options))
      with (Some recommendation_base_options).
    rewrite Hr. unfold recommendations_success_body.
    change (recommendation_number
              (obj [("searchTerm", JText "quick vegan dinner"); ("number", JInt 10)]%string))
      with (JInt 10).
    rewrite slice_to_10. reflexivity.
Qed.

(** The theorem with only the Groq key configured and Groq answering [null]. *)
Lemma quick_vegan_dinner_fallback_witness :
  let req := request_of [("query", "quick vegan dinner")]%string in
  let env := mkEnv None None (Some (js "groq-key")) None in
  credential_check AiRecommendations env = true
  /\ exhausted AiRecommendations env world_useless
  /\ recommendation_params (recommendation_input req)
       (chain AiRecommendations env world_useless)
     = obj [("searchTerm", JText "quick vegan dinner"); ("number", JInt 10)]%string
  /\ snd (GET AiRecommendations req env world_useless)
     = [CallProvider Groq;
        CallSearchRecipes (js "quick vegan dinner") 1 (Some recommendation_base_options)].
Proof.
  intros req env.
  assert (H1 : nextUrl_searchParams req = [(js "query", js "quick vegan dinner")])
    by reflexivity.
  assert (H2 : credential_check AiRecommendations env = true) by reflexivity.
  assert (H3 : exhausted AiRecommendations env world_useless) by (repeat constructor).
  destruct (quick_vegan_dinner_fallback req env world_useless H1 H2 H3)
    as [Hdata [_ [_ [Hcalls _]]]].
  split; [exact H2|]. split; [exact H3|]. split; [exact Hdata|exact Hcalls].
Defined.

(* ================================================================== *)
(** ** The extraction code against the specified order *)
(* ================================================================== *)

(** C6, as stated, fails on three texts.  A fenced block that does not parse,
    followed by an object: the specified order falls through to the brace
    span and finds the object, the regex-first code parses the fence
    interior only and fails.  An array of objects: the specified order
    parses it directly, the regex-first code parses the brace span inside it
    and fails.  A fenced object followed by a second object: the specified
    order takes the fence interior, the OpenRouter code of ai/search has no
    fence strategy, parses the span from the first to the last brace and
    fails. *)
Lemma extraction_order_differs :
  spec_extract text_broken_fence = Some (obj [("a", JInt 1)]%string)
  /\ extract_regex_then_raw text_broken_fence = None
  /\ spec_extract text_array_of_objects
     = Some (JArr [obj [("a", JInt 1)]; obj [("b", JInt 2)]]%string)
  /\ extract_regex_then_raw text_array_of_objects = None
  /\ spec_extract text_fence_then_braces = Some (obj [("a", JInt 1)]%string)
  /\ extract_direct_then_brace text_fence_then_braces = None.
Proof.
  repeat split; vm_compute; reflexivity.
Qed.


(* ================================================================== *)
(** ** Top-level keys of provider and fallback results *)
(* ================================================================== *)

(** C7, as stated, fails: the analysis prompt asks for six top-level keys,
    and the analysis fallback has four of them: [ingredientSubstitutions]
    and [timeValidation] are absent.  The same request is answered 200 with
    six keys when Claude supplies them and with four in degraded mode. *)
Lemma analysis_fallback_lacks_schema_keys :
  let req := request_of [("recipeId", "716429")]%string in
  In (js "ingredientSubstitutions") analysis_schema_keys
  /\ In (js "timeValidation") analysis_schema_keys
  /\ get_prop (analysis_fallback sample_recipe) "ingredientSubstitutions" = None
  /\ get_prop (analysis_fallback sample_recipe) "timeValidation" = None
  /\ status (fst (GET AiAnalysis req env_all world_full_analysis)) = 200%Z
  /\ keys (body (fst (GET AiAnalysis req env_all world_full_analysis)))
     = analysis_schema_keys
  /\ status (fst (GET AiAnalysis req env_all world_down)) = 200%Z
  /\ keys (body (fst (GET AiAnalysis req env_all world_down)))
     = analysis_fallback_keys
  /\ analysis_fallback_keys <> analysis_schema_keys.
Proof.
  intros req.
  split; [simpl; tauto|]. split; [simpl; tauto|].
  repeat (split; [vm_compute; reflexivity|]).
  vm_compute. discriminate.
Qed.

(** C7, amended: every 200 answer of ai/search has the same seven top-level
    keys and every 200 answer of ai/recommendations the same three, on the
    provider path and on the fallback path alike.  The modification fallback
    has exactly the three keys the prompt of its type asks for.  The analysis
    fallback has exactly four keys, [healthScore], [nutritionAnalysis],
    [allergens] and [cookingDifficulty], all among the six the prompt asks
    for; it has no [ingredientSubstitutions] and no [timeValidation]. *)
Theorem fallback_top_level_keys :
  (forall recipeInfo,
     keys (analysis_fallback recipeInfo) = analysis_fallback_keys
     /\ incl (keys (analysis_fallback recipeInfo)) analysis_schema_keys
     /\ get_prop (analysis_fallback recipeInfo) "ingredientSubstitutions" = None
     /\ get_prop (analysis_fallback recipeInfo) "timeValidation" = None)
  /\ (forall modificationType recipeInfo,
        keys (modifications_fallback modificationType recipeInfo)
        = modification_schema_keys modificationType)
  /\ (forall req env w,
        status (fst (GET AiSearch req env w)) = 200%Z ->
        keys (body (fst (GET AiSearch req env w))) = search_answer_keys)
  /\ (forall req env w,
        status (fst (GET AiRecommendations req env w)) = 200%Z ->
        keys (body (fst (GET AiRecommendations req env w)))
        = recommendations_answer_keys).
Proof.
  split; [|split; [|split]].
  - intros recipeInfo. split; [reflexivity|].
    split; [|split; reflexivity].
    change (keys (analysis_fallback recipeInfo)) with analysis_fallback_keys.
    intros k Hk. unfold analysis_fallback_keys, analysis_schema_keys in *.
    cbn [map In] in *. tauto.
  - intros t recipeInfo. unfold modifications_fallback, modification_schema_keys.
    destruct (str_eqb t (js "dietary")); reflexivity.
  - intros req env w. rewrite GET_stages.
    destruct (valid_request AiSearch req); [|discriminate].
    destruct (credential_check AiSearch env); [|discriminate].
    cbn [negb]. unfold try_block, search_try; cbv zeta.
    destruct (searchRecipes w _ 1%Z _); [|discriminate].
    reflexivity.
  - intros req env w. rewrite GET_stages.
    destruct (valid_request AiRecommendations req); [|discriminate].
    destruct (credential_check AiRecommendations env); [|discriminate].
    cbn [negb]. unfold try_block, recommendations_try; cbv zeta.
    destruct (searchRecipes w _ 1%Z _); [|discriminate].
    reflexivity.
Qed.

(** The theorem at two ai/search runs of one request: Gemini supplying the
    parameters, and every provider unreachable. *)
Lemma fallback_top_level_keys_witness :
  let req := request_of [("query", "vegan curry")]%string in
  status (fst (GET AiSearch req env_all world_gemini_answers)) = 200%Z
  /\ status (fst (GET AiSearch req env_all world_down)) = 200%Z
  /\ keys (body (fst (GET AiSearch req env_all world_gemini_answers)))
     = search_answer_keys
  /\ keys (body (fst (GET AiSearch req env_all world_down))) = search_answer_keys.
Proof.
  intros req.
  assert (H1 : status (fst (GET AiSearch req env_all world_gemini_answers)) = 200%Z)
    by reflexivity.
  assert (H2 : status (fst (GET AiSearch req env_all world_down)) = 200%Z)
    by reflexivity.
  destruct fallback_top_level_keys as [_ [_ [Hsearch _]]].
  split; [exact H1|]. split; [exact H2|].
  split; [exact (Hsearch req env_all world_gemini_answers H1)
         |exact (Hsearch req env_all world_down H2)].
Defined.

(* ================================================================== *)
(** ** Further properties of the provider chain *)
(* ================================================================== *)

Lemma run_blocks_calls_prefix ep w ps : forall st,
  exists k, calls (run_blocks ep w ps st)
            = calls st ++ map CallProvider (firstn k ps).
Proof.
  induction ps as [|p ps IH]; intros st.
  - exists O. simpl. now rewrite app_nil_r.
  - simpl. destruct (truthy (data st)) eqn:Ht; simpl.
    + exists O. rewrite run_blocks_settled by exact Ht. simpl. now rewrite app_nil_r.
    + destruct (IH (attempt (extractor ep p) w p st)) as [k Hk].
      exists (S k). rewrite Hk, attempt_unfold. simpl. now rewrite <- app_assoc.
Qed.

Lemma chain_calls_prefix ep env w :
  exists k, calls (chain ep env w)
            = map CallProvider (firstn k (provider_chain ep env)).
Proof.
  rewrite chain_run_blocks.
  destruct (run_blocks_calls_prefix ep w (provider_chain ep env) chain_start) as [k Hk].
  now exists k.
Qed.

Lemma provider_chain_configured ep env p :
  In p (provider_chain ep env) -> configured (provider_key p env) = true.
Proof.
  unfold provider_chain, provider_key.
  destruct ep;
    destruct (configured (OPENROUTER_API_KEY env)) eqn:Ho;
    destruct (configured (GOOGLE_GEMINI_API_KEY env)) eqn:Hg;
    try destruct (configured (GROQ_LLAMA_API_KEY env)) eqn:Hq;
    simpl; intros H;
    repeat (destruct H as [<-|H]; [assumption|]); contradiction.
Qed.

Lemma provider_chain_no_groq ep env :
  ep = AiAnalysis \/ ep = AiModifications -> ~ In Groq (provider_chain ep env).
Proof.
  unfold provider_chain.
  intros [-> | ->];
    destruct (configured (OPENROUTER_API_KEY env));
    destruct (configured (GOOGLE_GEMINI_API_KEY env));
    simpl; intuition discriminate.
Qed.

Lemma NoDup_firstn {A} (l : list A) k : NoDup l -> NoDup (firstn k l).
Proof.
  revert k; induction l as [|x l IH]; intros [|k] H; simpl; try constructor.
  - inversion H as [|? ? Hx Hl]; subst.
    intros Hin. apply Hx. revert Hin. clear.
    revert k; induction l as [|y l IH]; intros [|k]; simpl; try tauto.
    intros [->|Hin]; [now left|right; eauto].
  - inversion H; subst. now apply IH.
Qed.

Lemma In_firstn {A} (l : list A) k x : In x (firstn k l) -> In x l.
Proof.
  revert k; induction l as [|y l IH]; intros [|k]; simpl; try tauto.
  intros [->|H]; [now left|right; eauto].
Qed.

Lemma NoDup_map_CallProvider l : NoDup l -> NoDup (map CallProvider l).
Proof.
  induction 1 as [|p l Hp Hl IH]; simpl; constructor; [|exact IH].
  intros Hin. apply in_map_iff in Hin as [q [Hq Hin]].
  injection Hq as ->. contradiction.
Qed.

Lemma search_term_of_nonempty src t : search_term_of src = Some t -> t <> [].
Proof.
  unfold search_term_of.
  destruct (get_prop src "searchTerm") as [v|]; [|discriminate].
  destruct v as [| | | | |s| |]; try discriminate.
  destruct s as [|c s]; cbn [str_truthy]; [discriminate|].
  intros [= <-]. discriminate.
Qed.

Lemma valid_search_query req :
  valid_request AiSearch req = true -> trim (str_or (param req "query") []) <> [].
Proof.
  unfold valid_request.
  destruct (param req "query") as [query|]; [|discriminate].
  destruct query as [|c query]; [discriminate|].
  cbn [str_or str_truthy]. intros H E. rewrite E in H. discriminate.
Qed.

Lemma recommendation_term_nonempty i src : recommendation_term i src <> [].
Proof.
  unfold recommendation_term.
  destruct (search_term_of src) as [t|] eqn:E.
  - exact (search_term_of_nonempty src t E).
  - destruct (trim (rec_query i)) as [|c query] eqn:Eq; cbn [str_truthy].
    + unfold trimmed. destruct (rec_ingredients i) as [ing|]; [|discriminate].
      destruct (trim ing) as [|c ing'] eqn:Ei; cbn [str_truthy]; discriminate.
    + discriminate.
Qed.

(** The calls of a request: those of the chain, before or after the one
    call of the recipe API, when the try block is reached. *)
Lemma GET_calls ep req env w :
  snd (GET ep req env w) = []
  \/ (exists term options,
        (ep = AiSearch \/ ep = AiRecommendations)
        /\ snd (GET ep req env w)
           = calls (chain ep env w) ++ [CallSearchRecipes term 1 options]
        /\ term <> [])
  \/ ((ep = AiAnalysis \/ ep = AiModifications)
      /\ (snd (GET ep req env w)
          = [CallRecipeInformation (str_or (param req "recipeId") [])]
          \/ snd (GET ep req env w)
             = CallRecipeInformation (str_or (param req "recipeId") [])
               :: calls (chain ep env w))).
Proof.
  rewrite GET_stages.
  destruct (valid_request ep req) eqn:Hvalid; [|now left].
  destruct (credential_check ep env); [|now left].
  cbn [negb]. right.
  destruct ep; unfold try_block, chain.
  - left. unfold search_try; cbv zeta.
    match goal with
    | |- context [CallSearchRecipes ?t 1 ?o] => exists t, o
    end.
    split; [now left|]. split.
    + destruct (searchRecipes w _ 1%Z _); reflexivity.
    + destruct (search_term_of _) as [t|] eqn:E.
      * exact (search_term_of_nonempty _ t E).
      * exact (valid_search_query req Hvalid).
  - left. unfold recommendations_try; cbv zeta.
    match goal with
    | |- context [CallSearchRecipes ?t 1 ?o] => exists t, o
    end.
    split; [now right|]. split.
    + destruct (searchRecipes w _ 1%Z _); reflexivity.
    + apply recommendation_term_nonempty.
  - right. split; [now left|]. unfold analysis_try.
    destruct (getRecipeInformation w _) as [[r|]|]; cbn [snd]; auto.
  - right. split; [now right|]. unfold modifications_try.
    destruct (getRecipeInformation w _) as [[r|]|]; cbn [snd]; auto.
Qed.

(** X1: whatever the providers answer, the handler calls providers in the
    fixed priority order without skipping one and without calling one twice:
    the provider calls of a request are an initial part of the route's
    configured chain.  So a provider whose key is not configured is never
    called, Groq is never called by ai/analysis or ai/modifications, and no
    request makes more than four provider calls. *)
Theorem provider_calls_follow_priority ep req env w :
  (exists k, filter is_provider_call (snd (GET ep req env w))
             = map CallProvider (firstn k (provider_chain ep env)))
  /\ NoDup (snd (GET ep req env w))
  /\ (forall p, In (CallProvider p) (snd (GET ep req env w)) ->
      configured (provider_key p env) = true
      /\ (p = Groq -> ep = AiSearch \/ ep = AiRecommendations))
  /\ (List.length (filter is_provider_call (snd (GET ep req env w))) <= 4)%nat.
Proof.
  destruct (chain_calls_prefix ep env w) as [k Hk].
  assert (Hfilter : forall l, filter is_provider_call (map CallProvider l)
                              = map CallProvider l).
  { induction l as [|x l IH]; simpl; [reflexivity|now rewrite IH]. }
  assert (Hnd : NoDup (map CallProvider (firstn k (provider_chain ep env)))).
  { apply NoDup_map_CallProvider, NoDup_firstn, provider_chain_NoDup. }
  assert (Hfresh : forall c, is_provider_call c = false ->
            ~ In c (map CallProvider (firstn k (provider_chain ep env)))).
  { intros c Hc Hin. apply in_map_iff in Hin as [p [<- _]]. discriminate. }
  assert (Hprefix : exists k', filter is_provider_call (snd (GET ep req env w))
                               = map CallProvider (firstn k' (provider_chain ep env))
                    /\ NoDup (snd (GET ep req env w))).
  { destruct (GET_calls ep req env w)
      as [E | [[term [options [_ [E _]]]] | [_ [E | E]]]]; rewrite E.
    - exists O. split; [reflexivity|constructor].
    - exists k. rewrite Hk, filter_app, Hfilter. simpl. rewrite app_nil_r.
      split; [reflexivity|].
      apply NoDup_app; [exact Hnd|repeat constructor; intros []|].
      intros c Hc [<-|[]]. revert Hc. now apply Hfresh.
    - exists O. split; [reflexivity|]. repeat constructor. intros [].
    - exists k. rewrite Hk. cbn [filter is_provider_call]. rewrite Hfilter.
      split; [reflexivity|].
      constructor; [now apply Hfresh|exact Hnd]. }
  destruct Hprefix as [k' [Hk' Hnd']].
  split; [now exists k'|]. split; [exact Hnd'|].
  assert (Hin : forall p, In (CallProvider p) (snd (GET ep req env w)) ->
                          In p (provider_chain ep env)).
  { intros p Hp.
    assert (Hp' : In (CallProvider p) (filter is_provider_call (snd (GET ep req env w))))
      by (apply filter_In; split; [exact Hp|reflexivity]).
    rewrite Hk' in Hp'. apply in_map_iff in Hp' as [q [Hq Hq']].
    injection Hq as ->. now apply In_firstn in Hq'. }
  split.
  - intros p Hp. split.
    + apply (provider_chain_configured ep env p), Hin, Hp.
    + intros ->. destruct ep; auto;
        exfalso; apply (provider_chain_no_groq _ env) with (2 := Hin _ Hp); auto.
  - rewrite Hk', length_map.
    transitivity (List.length (provider_chain ep env)).
    + rewrite length_firstn. apply Nat.le_min_r.
    + unfold provider_chain.
      destruct ep;
        destruct (configured (OPENROUTER_API_KEY env));
        destruct (configured (GOOGLE_GEMINI_API_KEY env));
        try destruct (configured (GROQ_LLAMA_API_KEY env)); simpl; lia.
Qed.

(** The theorem at a run where Gemini answers after two failures. *)
Lemma provider_calls_follow_priority_witness :
  let req := request_of [("query", "vegan curry")]%string in
  In (CallProvider Gemini) (snd (GET AiSearch req env_all world_gemini_answers))
  /\ configured (provider_key Gemini env_all) = true
  /\ ~ In (CallProvider Groq) (snd (GET AiSearch req env_all world_gemini_answers)).
Proof.
  intros req.
  assert (Hin : In (CallProvider Gemini)
                   (snd (GET AiSearch req env_all world_gemini_answers)))
    by (right; right; left; reflexivity).
  destruct (provider_calls_follow_priority AiSearch req env_all world_gemini_answers)
    as [_ [_ [Hconf _]]].
  split; [exact Hin|]. split; [exact (proj1 (Hconf Gemini Hin))|].
  vm_compute. intuition discriminate.
Defined.

(** X2: a 2xx answer that carries no text (the field path leads to nothing,
    or to the empty string) is read as the text [{}]: the first configured
    provider answering so stops the chain with the empty object, no later
    provider is called and the fallback is not used; ai/analysis then answers
    200 with the empty object. *)
Theorem empty_content_is_empty_object ep env w content :
  configured (OPENROUTER_API_KEY env) = true ->
  fetch w Claude = HttpResponse true (BodyText content) ->
  str_or content [] = [] ->
  chain ep env w = mkChain (JObj []) [CallProvider Claude]
  /\ (forall req recipeInfo,
        valid_request AiAnalysis req = true ->
        ep = AiAnalysis ->
        getRecipeInformation w (str_or (param req "recipeId") [])
        = Returned (Some recipeInfo) ->
        fst (GET AiAnalysis req env w) = jsonResponse (JObj []) None).
Proof.
  intros Hor Hfetch Hcontent.
  assert (Hv : attempt_value ep w Claude = Some (JObj [])).
  { unfold attempt_value, provider_text. rewrite Hfetch.
    replace (str_or content (js "{}")) with (js "{}").
    - destruct ep; reflexivity.
    - destruct content as [[|c s]|]; try reflexivity. discriminate. }
  assert (E : chain ep env w = mkChain (JObj []) [CallProvider Claude]).
  { rewrite chain_run_blocks.
    assert (Hpc : exists post, provider_chain ep env = [] ++ Claude :: post).
    { unfold provider_chain. rewrite Hor. simpl. eauto. }
    destruct Hpc as [post ->].
    now rewrite (run_blocks_first ep w [] Claude post (JObj []) chain_start
                   (Forall_nil _) eq_refl Hv eq_refl). }
  split; [exact E|].
  intros req recipeInfo Hvalid -> Hrecipe.
  rewrite GET_stages, Hvalid. unfold credential_check. rewrite Hor.
  cbn [negb orb]. unfold try_block, analysis_try. rewrite Hrecipe.
  unfold analysis_data. unfold chain in E. rewrite E. reflexivity.
Qed.

(** The theorem at a world where Claude answers 200 without content. *)
Lemma empty_content_is_empty_object_witness :
  let w := world_of (HttpResponse true (BodyText None))
                    NetworkError NetworkError NetworkError in
  chain AiAnalysis env_all w = mkChain (JObj []) [CallProvider Claude]
  /\ fst (GET AiAnalysis (request_of [("recipeId", "716429")]%string) env_all w)
     = jsonResponse (JObj []) None.
Proof.
  intros w.
  destruct (empty_content_is_empty_object AiAnalysis env_all w None
              eq_refl eq_refl eq_refl) as [E H].
  split; [exact E|].
  exact (H (request_of [("recipeId", "716429")]%string) sample_recipe
           eq_refl eq_refl eq_refl).
Defined.

(** X3: the Hugging Face key passes the credential check of ai/analysis and
    ai/modifications, but no block calls Hugging Face: when it is the only
    key configured, a valid request makes no provider call at all and is
    answered from the fallback. *)
Theorem hugging_face_key_alone ep req env w resp :
  ep = AiAnalysis \/ ep = AiModifications ->
  configured (OPENROUTER_API_KEY env) = false ->
  configured (GOOGLE_GEMINI_API_KEY env) = false ->
  configured (HUGGING_FACE_INFERENCE_API_KEY env) = true ->
  valid_request ep req = true ->
  degraded_answer ep req w = Some resp ->
  GET ep req env w
  = (resp, [CallRecipeInformation (str_or (param req "recipeId") [])]).
Proof.
  intros Hep Hor Hg Hhf Hvalid Hans.
  assert (Hcred : credential_check ep env = true).
  { unfold credential_check. rewrite Hor, Hg.
    destruct Hep as [-> | ->]; exact Hhf. }
  assert (Hnil : provider_chain ep env = []).
  { unfold provider_chain. rewrite Hor, Hg. destruct Hep as [-> | ->]; reflexivity. }
  assert (Hex : exhausted ep env w) by (unfold exhausted; rewrite Hnil; constructor).
  rewrite (surjective_pairing (GET ep req env w)).
  rewrite (degraded_mode ep req env w resp Hvalid Hcred Hex Hans).
  f_equal.
  destruct (chain_exhausted ep env w Hex) as [_ Hc]. rewrite Hnil in Hc.
  rewrite GET_stages, Hvalid, Hcred. cbn [negb].
  destruct Hep as [-> | ->]; unfold try_block, degraded_answer, chain in *.
  - unfold analysis_try.
    destruct (getRecipeInformation w _) as [[r|]|]; try discriminate.
    cbn [snd]. now rewrite Hc.
  - unfold modifications_try.
    destruct (getRecipeInformation w _) as [[r|]|]; try discriminate.
    cbn [snd]. now rewrite Hc.
Qed.

(** The theorem at an ai/modifications request. *)
Lemma hugging_face_key_alone_witness :
  let req := request_of [("recipeId", "716429"); ("type", "dietary")]%string in
  let env := mkEnv None None None (Some (js "hf-key")) in
  GET AiModifications req env world_gemini_answers
  = (jsonResponse (modifications_fallback (js "dietary") sample_recipe) None,
     [CallRecipeInformation (js "716429")]).
Proof.
  intros req env.
  exact (hugging_face_key_alone AiModifications req env world_gemini_answers _
           (or_intror eq_refl) eq_refl eq_refl eq_refl eq_refl eq_refl).
Defined.

(** X4: an AI route answers 400 exactly when the request fails the route's
    parameter validation, whatever the keys and the providers; it answers 404
    only in ai/analysis and ai/modifications, when the recipe lookup, the
    only call made, returned no recipe; it answers 500 only without a
    credential, or when the recipe API call that the handler itself made
    threw: the recipe search that ends the log of ai/search and
    ai/recommendations, or the recipe lookup that is the whole log of
    ai/analysis and ai/modifications; every other answer is 200.  No AI
    route answers with another status, and no outcome of a provider call
    gives an error status. *)
Theorem ai_status_codes ep req env w :
  let s := status (fst (GET ep req env w)) in
  let id := str_or (param req "recipeId") [] in
  (s = 200 \/ s = 400 \/ s = 404 \/ s = 500)%Z
  /\ (s = 400%Z <-> valid_request ep req = false)
  /\ (s = 404%Z ->
      (ep = AiAnalysis \/ ep = AiModifications)
      /\ snd (GET ep req env w) = [CallRecipeInformation id]
      /\ getRecipeInformation w id = Returned None)
  /\ (s = 500%Z ->
      credential_check ep env = false
      \/ (exists before term options m,
            (ep = AiSearch \/ ep = AiRecommendations)
            /\ snd (GET ep req env w) = before ++ [CallSearchRecipes term 1 options]
            /\ Forall (fun c => is_provider_call c = true) before
            /\ searchRecipes w term 1%Z options = Threw m)
      \/ (exists m,
            (ep = AiAnalysis \/ ep = AiModifications)
            /\ snd (GET ep req env w) = [CallRecipeInformation id]
            /\ getRecipeInformation w id = Threw m)).
Proof.
  intros s id; subst s id. rewrite GET_stages.
  destruct (valid_request ep req).
  2:{ cbn. repeat split; auto; try discriminate. }
  destruct (credential_check ep env).
  2:{ cbn. repeat split; auto; try discriminate. }
  cbn [negb].
  assert (Hprov : forall e, Forall (fun c => is_provider_call c = true)
                              (calls (chain e env w))).
  { intros e. rewrite chain_run_blocks.
    apply Forall_forall. intros c Hc.
    destruct (run_blocks_calls_prefix e w (provider_chain e env) chain_start)
      as [k Hk].
    rewrite Hk in Hc. cbn [calls chain_start app] in Hc.
    apply in_map_iff in Hc as [p [<- _]]. reflexivity. }
  destruct ep; unfold try_block.
  - unfold search_try; cbv zeta.
    destruct (searchRecipes w _ 1%Z _) as [r|m] eqn:E; cbn;
      repeat split; auto; try discriminate.
    intros _. right; left. do 4 eexists.
    split; [now left|]. split; [reflexivity|]. split; [exact (Hprov AiSearch)|exact E].
  - unfold recommendations_try; cbv zeta.
    destruct (searchRecipes w _ 1%Z _) as [r|m] eqn:E; cbn;
      repeat split; auto; try discriminate.
    intros _. right; left. do 4 eexists.
    split; [now right|]. split; [reflexivity|].
    split; [exact (Hprov AiRecommendations)|exact E].
  - unfold analysis_try.
    destruct (getRecipeInformation w _) as [[r|]|m] eqn:E; cbn;
      repeat split; auto; try discriminate.
    intros _. right; right. exists m. repeat split; auto.
  - unfold modifications_try.
    destruct (getRecipeInformation w _) as [[r|]|m] eqn:E; cbn;
      repeat split; auto; try discriminate.
    intros _. right; right. exists m. repeat split; auto.
Qed.

(** The theorem at a request that passes the validation, with every key
    configured, every provider unreachable and a recipe search that throws. *)
Lemma ai_status_codes_witness :
  let req := request_of [("query", "pasta")]%string in
  status (fst (GET AiSearch req env_all world_search_fails)) = 500%Z
  /\ exists before term options m,
       snd (GET AiSearch req env_all world_search_fails)
       = before ++ [CallSearchRecipes term 1 options]
       /\ searchRecipes world_search_fails term 1%Z options = Threw m.
Proof.
  intros req.
  assert (Hs : status (fst (GET AiSearch req env_all world_search_fails)) = 500%Z)
    by (vm_compute; reflexivity).
  split; [exact Hs|].
  destruct (proj2 (proj2 (proj2 (ai_status_codes AiSearch req env_all
                                   world_search_fails))) Hs)
    as [H|[[before [term [options [m [_ [H1 [_ H2]]]]]]]|[m [[H|H] _]]]];
    try discriminate H.
  exists before, term, options, m. split; [exact H1|exact H2].
Defined.

(* ================================================================== *)
(** ** What the AI routes ask of the recipe search *)
(* ================================================================== *)

Lemma obj_set_In fields k v k' v' :
  In (k, v) (obj_set fields k' v') -> In (k, v) fields \/ (k = k' /\ v = v').
Proof.
  induction fields as [|[k0 v0] rest IH]; simpl.
  - intros [[= <- <-]|[]]. now right.
  - destruct (str_eqb k' k0) eqn:E.
    + apply str_eqb_eq in E. subst k0.
      intros [[= <- <-]|H]; [now right|left; now right].
    + intros [H|H]; [left; now left|].
      destruct (IH H) as [H'|H']; [left; now right|now right].
Qed.

Lemma copy_if_string_In src name options k v :
  In (k, v) (copy_if_string src name options) ->
  In (k, v) options
  \/ (k = js name /\ is_string v = true /\ get_prop src name = Some v).
Proof.
  unfold copy_if_string.
  destruct (get_prop src name) as [[| | | | |s| |]|] eqn:E; auto.
  intros H. destruct (obj_set_In _ _ _ _ _ H) as [H'|[-> ->]]; auto.
Qed.

Lemma copy_if_number_In src name options k v :
  In (k, v) (copy_if_number src name options) ->
  In (k, v) options
  \/ (k = js name /\ is_number v = true /\ get_prop src name = Some v).
Proof.
  unfold copy_if_number.
  destruct (get_prop src name) as [[| | | | |s| |]|] eqn:E; auto;
    intros H; destruct (obj_set_In _ _ _ _ _ H) as [H'|[-> ->]]; auto.
Qed.

Lemma copy_search_options_In src base k v :
  In (k, v) (copy_search_options src base) ->
  In (k, v) base
  \/ (In k copied_option_names
      /\ (is_string v = true \/ is_number v = true)
      /\ exists name, k = js name /\ get_prop src name = Some v).
Proof.
  unfold copy_search_options. intros H.
  repeat match type of H with
  | In _ (copy_if_string _ ?n _) =>
      apply copy_if_string_In in H as [H|[-> [Ht Hp]]];
      [|right; split; [simpl; tauto|split; [now left|now exists n]]]
  | In _ (copy_if_number _ ?n _) =>
      apply copy_if_number_In in H as [H|[-> [Ht Hp]]];
      [|right; split; [simpl; tauto|split; [now right|now exists n]]]
  end.
  now left.
Qed.

(** The one recipe search of ai/search and ai/recommendations, as logged. *)
Lemma GET_search_call ep req env w term page options :
  In (CallSearchRecipes term page options) (snd (GET ep req env w)) ->
  exists src base,
    (ep = AiSearch /\ base = [] \/ ep = AiRecommendations /\ base = recommendation_base_options)
    /\ options = options_or_undefined (copy_search_options src base)
    /\ page = 1%Z
    /\ term <> []
    /\ snd (GET ep req env w)
       = calls (chain ep env w) ++ [CallSearchRecipes term page options].
Proof.
  rewrite GET_stages.
  destruct (valid_request ep req) eqn:Hvalid; [|intros []].
  destruct (credential_check ep env); [|intros []].
  cbn [negb].
  destruct (chain_calls_prefix ep env w) as [k Hk].
  assert (Hlast : forall c,
            In (CallSearchRecipes term page options) (calls (chain ep env w) ++ [c]) ->
            c = CallSearchRecipes term page options).
  { intros c Hin. apply in_app_or in Hin as [Hin|[->|[]]]; [|reflexivity].
    rewrite Hk in Hin. apply in_map_iff in Hin as [p [Hp _]]. discriminate. }
  destruct ep; unfold try_block, chain in *.
  - unfold search_try; cbv zeta.
    set (src := search_params _ _).
    assert (Hterm : match search_term_of src with
                    | Some t => t
                    | None => trim (str_or (param req "query") [])
                    end <> []).
    { destruct (search_term_of src) as [t|] eqn:E.
      - exact (search_term_of_nonempty src t E).
      - exact (valid_search_query req Hvalid). }
    intros Hin. exists src, [].
    destruct (searchRecipes w _ 1%Z _); cbn [snd] in Hin |- *;
      pose proof (Hlast _ Hin) as Hc; injection Hc as <- <- <-;
      repeat split; auto.
  - unfold recommendations_try; cbv zeta.
    set (src := recommendation_params _ _).
    intros Hin. exists src, recommendation_base_options.
    destruct (searchRecipes w _ 1%Z _); cbn [snd] in Hin |- *;
      pose proof (Hlast _ Hin) as Hc; injection Hc as <- <- <-;
      repeat split; auto; apply recommendation_term_nonempty.
  - unfold analysis_try.
    destruct (getRecipeInformation w _) as [[r|]|]; cbn [snd];
      intros [Hin|Hin]; try discriminate; try contradiction.
    rewrite Hk in Hin. apply in_map_iff in Hin as [p [Hp _]]. discriminate.
  - unfold modifications_try.
    destruct (getRecipeInformation w _) as [[r|]|]; cbn [snd];
      intros [Hin|Hin]; try discriminate; try contradiction.
    rewrite Hk in Hin. apply in_map_iff in Hin as [p [Hp _]]. discriminate.
Qed.

(** X5: whatever JSON a provider returned, the recipe search of an AI route
    is made after all provider calls, on page 1, with a non-empty term, and
    the options passed to it hold nothing but the route's own three flags
    (ai/recommendations) and the six whitelisted names ([diet], [cuisine],
    [maxReadyTime], [type], [excludeIngredients], [includeIngredients]), each
    copied from the structured data only when it is a string there (a number
    for [maxReadyTime]).  Other keys of the provider's object never reach the
    recipe API. *)
Theorem recipe_search_is_whitelisted ep req env w term page options :
  In (CallSearchRecipes term page options) (snd (GET ep req env w)) ->
  page = 1%Z
  /\ term <> []
  /\ snd (GET ep req env w)
     = calls (chain ep env w) ++ [CallSearchRecipes term page options]
  /\ forall opts k v,
       options = Some opts -> In (k, v) opts ->
       (ep = AiRecommendations /\ In (k, v) recommendation_base_options)
       \/ (In k copied_option_names
           /\ (if str_eqb k (js "maxReadyTime") then is_number v else is_string v)
              = true).
Proof.
  intros Hin.
  destruct (GET_search_call ep req env w term page options Hin)
    as [src [base [Hbase [Hopt [Hpage [Hterm Hlog]]]]]].
  repeat split; try assumption.
  intros opts k v -> Hkv.
  assert (Hkv' : In (k, v) (copy_search_options src base)).
  { unfold options_or_undefined in Hopt.
    destruct (copy_search_options src base); [discriminate|].
    now injection Hopt as <-. }
  unfold copy_search_options in Hkv'.
  repeat match type of Hkv' with
  | In _ (copy_if_string _ ?n _) =>
      apply copy_if_string_In in Hkv' as [Hkv'|[-> [Ht _]]];
      [|right; split; [simpl; tauto|exact Ht]]
  | In _ (copy_if_number _ ?n _) =>
      apply copy_if_number_In in Hkv' as [Hkv'|[-> [Ht _]]];
      [|right; split; [simpl; tauto|exact Ht]]
  end.
  destruct Hbase as [[-> ->]|[-> ->]]; [contradiction|].
  left. now split.
Qed.

(** The theorem at a run where Gemini supplies the parameters. *)
Lemma recipe_search_is_whitelisted_witness :
  let req := request_of [("query", "vegan curry")]%string in
  In (CallSearchRecipes (js "vegan curry") 1 None)
     (snd (GET AiSearch req env_all world_gemini_answers))
  /\ snd (GET AiSearch req env_all world_gemini_answers)
     = calls (chain AiSearch env_all world_gemini_answers)
       ++ [CallSearchRecipes (js "vegan curry") 1 None].
Proof.
  intros req.
  assert (Hin : In (CallSearchRecipes (js "vegan curry") 1 None)
                   (snd (GET AiSearch req env_all world_gemini_answers)))
    by (do 3 right; left; reflexivity).
  destruct (recipe_search_is_whitelisted AiSearch req env_all world_gemini_answers
              _ _ _ Hin) as [_ [_ [Hlog _]]].
  split; [exact Hin|exact Hlog].
Defined.


(* ================================================================== *)
(** ** What the two regular expressions select *)
(* ================================================================== *)

Lemma from_first_brace_app pre r :
  no_open_brace pre = true ->
  from_first_brace (pre ++ 123%N :: r) = Some r.
Proof.
  induction pre as [|c pre IH]; simpl; [reflexivity|].
  intros H. apply andb_true_iff in H as [Hc Hpre].
  apply negb_true_iff in Hc. rewrite Hc. now apply IH.
Qed.

Lemma to_last_brace_none post :
  no_close_brace post = true -> to_last_brace post = None.
Proof.
  induction post as [|c post IH]; simpl; [reflexivity|].
  intros H. apply andb_true_iff in H as [Hc Hpost].
  apply negb_true_iff in Hc. now rewrite (IH Hpost), Hc.
Qed.

Lemma to_last_brace_app mid post :
  no_close_brace post = true ->
  to_last_brace (mid ++ 125%N :: post) = Some (mid ++ [125%N]).
Proof.
  intros Hpost. induction mid as [|c mid IH]; simpl.
  - now rewrite (to_last_brace_none post Hpost).
  - now rewrite IH.
Qed.

Lemma from_first_brace_inv text r :
  from_first_brace text = Some r ->
  exists pre, text = pre ++ 123%N :: r /\ no_open_brace pre = true.
Proof.
  revert r; induction text as [|c text IH]; simpl; intros r; [discriminate|].
  destruct (N.eqb c 123) eqn:E.
  - intros [= <-]. apply N.eqb_eq in E. subst c. now exists [].
  - intros H. destruct (IH r H) as [pre [-> Hpre]].
    exists (c :: pre). split; [reflexivity|]. simpl. now rewrite E.
Qed.

Lemma to_last_brace_inv s t :
  to_last_brace s = Some t ->
  exists mid post, s = mid ++ 125%N :: post /\ t = mid ++ [125%N]
                   /\ no_close_brace post = true.
Proof.
  revert t; induction s as [|c s IH]; simpl; intros t; [discriminate|].
  destruct (to_last_brace s) as [t'|] eqn:E.
  - intros [= <-]. destruct (IH t' eq_refl) as [mid [post [-> [-> Hpost]]]].
    now exists (c :: mid), post.
  - destruct (N.eqb c 125) eqn:Ec; [|discriminate].
    intros [= <-]. apply N.eqb_eq in Ec. subst c.
    exists [], s. repeat split.
    clear IH. induction s as [|d s IH]; [reflexivity|].
    simpl in E. destruct (to_last_brace s); [discriminate|].
    destruct (N.eqb d 125) eqn:Ed; [discriminate|].
    simpl. rewrite Ed. now apply IH.
Qed.

(** X6: the brace expression [/{[\s\S]*}/] selects the span from the first
    opening brace of the text to the last closing brace after it, whatever
    lies between: a text with two objects separated by prose yields one span
    covering both.  It selects nothing exactly when no closing brace follows
    the first opening brace. *)
Theorem brace_span_first_to_last :
  (forall pre mid post,
     no_open_brace pre = true -> no_close_brace post = true ->
     match_brace (pre ++ [123%N] ++ mid ++ [125%N] ++ post)
     = Some (mkMatch ([123%N] ++ mid ++ [125%N]) None))
  /\ (forall text m,
        match_brace text = Some m ->
        exists pre mid post,
          text = pre ++ [123%N] ++ mid ++ [125%N] ++ post
          /\ no_open_brace pre = true /\ no_close_brace post = true
          /\ m = mkMatch ([123%N] ++ mid ++ [125%N]) None)
  /\ (forall pre post,
        no_open_brace pre = true -> no_close_brace post = true ->
        match_brace (pre ++ post) = None
        /\ match_brace (pre ++ [123%N] ++ post) = None).
Proof.
  split; [|split].
  - intros pre mid post Hpre Hpost. unfold match_brace. simpl.
    rewrite (from_first_brace_app pre _ Hpre).
    now rewrite (to_last_brace_app mid post Hpost).
  - intros text m. unfold match_brace.
    destruct (from_first_brace text) as [r|] eqn:E1; [|discriminate].
    destruct (to_last_brace r) as [t|] eqn:E2; [|discriminate].
    intros [= <-].
    destruct (from_first_brace_inv text r E1) as [pre [-> Hpre]].
    destruct (to_last_brace_inv r t E2) as [mid [post [-> [-> Hpost]]]].
    exists pre, mid, post. repeat split; assumption.
  - intros pre post Hpre Hpost. unfold match_brace. split.
    + destruct (from_first_brace (pre ++ post)) as [r|] eqn:E; [|reflexivity].
      destruct (from_first_brace_inv _ r E) as [pre' [Heq Hpre']].
      assert (Hsuffix : exists x, post = x ++ r).
      { clear E Hpost. revert pre' Heq Hpre'.
        induction pre as [|c pre IH]; intros pre' Heq Hpre'.
        - exists (pre' ++ [123%N]). simpl in Heq. rewrite Heq.
          now rewrite <- app_assoc.
        - simpl in Hpre. apply andb_true_iff in Hpre as [Hc Hpre].
          destruct pre' as [|c' pre']; simpl in Heq.
          + injection Heq as -> _. discriminate.
          + injection Heq as -> Heq. simpl in Hpre'.
            apply andb_true_iff in Hpre' as [_ Hpre'].
            exact (IH Hpre pre' Heq Hpre'). }
      destruct Hsuffix as [x ->].
      rewrite to_last_brace_none; [reflexivity|].
      unfold no_close_brace in *. rewrite forallb_app in Hpost.
      now apply andb_true_iff in Hpost as [_ Hr].
    + simpl. rewrite (from_first_brace_app pre post Hpre).
      now rewrite (to_last_brace_none post Hpost).
Qed.

(** The theorem at a text with two objects. *)
Lemma brace_span_first_to_last_witness :
  match_brace (jsq "First {'a':1} then {'b':2}.")
  = Some (mkMatch (jsq "{'a':1} then {'b':2}") None)
  /\ JSON_parse (jsq "{'a':1} then {'b':2}") = None.
Proof.
  destruct brace_span_first_to_last as [H _].
  split; [|reflexivity].
  exact (H (js "First ") (jsq "'a':1} then {'b':2") (js ".") eq_refl eq_refl).
Defined.

Lemma strip_prefix_app p rest : strip_prefix p (p ++ rest) = Some rest.
Proof.
  induction p as [|c p IH]; simpl; [reflexivity|].
  now rewrite N.eqb_refl.
Qed.

Lemma find_sub_skip q p pre rest :
  forallb (fun c => negb (N.eqb c q)) pre = true ->
  find_sub (q :: p) (pre ++ (q :: p) ++ rest) = Some (pre, rest).
Proof.
  induction pre as [|c pre IH]; intros Hpre.
  - simpl app. destruct (q :: p ++ rest) eqn:E; [discriminate|].
    unfold find_sub. fold find_sub.
    change (q :: p ++ rest) with ((q :: p) ++ rest) in E. rewrite <- E.
    now rewrite strip_prefix_app.
  - simpl in Hpre. apply andb_true_iff in Hpre as [Hc Hpre].
    apply negb_true_iff in Hc.
    change ((c :: pre) ++ (q :: p) ++ rest) with (c :: (pre ++ (q :: p) ++ rest)).
    cbn [find_sub strip_prefix]. rewrite N.eqb_sym, Hc.
    now rewrite (IH Hpre).
Qed.

Lemma trimStart_app_stop t c x :
  is_js_whitespace c = false -> trimStart (t ++ c :: x) = trimStart t ++ c :: x.
Proof.
  intros Hc. induction t as [|d t IH]; simpl.
  - now rewrite Hc.
  - destruct (is_js_whitespace d); [exact IH|reflexivity].
Qed.

Lemma span_whitespace_trimStart s :
  snd (span_whitespace s) = trimStart s
  /\ fst (span_whitespace s) ++ trimStart s = s.
Proof.
  induction s as [|c s [IH1 IH2]]; simpl; [now split|].
  destruct (is_js_whitespace c).
  - destruct (span_whitespace s) as [ws rest]. simpl in *.
    split; [exact IH1|now rewrite IH2].
  - now split.
Qed.

Lemma trimStart_no_backtick t : no_backtick t = true -> no_backtick (trimStart t) = true.
Proof.
  induction t as [|c t IH]; simpl; [reflexivity|].
  intros H. destruct (is_js_whitespace c).
  - apply andb_true_iff in H as [_ H]. now apply IH.
  - exact H.
Qed.

(** After an opening fence, text without backticks and a closing fence, the
    fence expression matches and captures the trimmed text. *)
Lemma match_fence_block pre t post :
  no_backtick pre = true ->
  no_backtick t = true ->
  match_fence (pre ++ fence_open ++ t ++ fence_close ++ post)
  = Some (mkMatch (fence_open ++ t ++ fence_close) (Some (trim t))).
Proof.
  intros Hpre Ht. unfold match_fence.
  assert (F1 : find_sub fence_open (pre ++ fence_open ++ t ++ fence_close ++ post)
               = Some (pre, t ++ fence_close ++ post))
    by exact (find_sub_skip 96%N (js "``json") pre (t ++ fence_close ++ post) Hpre).
  rewrite F1.
  destruct (span_whitespace_trimStart (t ++ fence_close ++ post)) as [H1 H2].
  destruct (span_whitespace (t ++ fence_close ++ post)) as [ws body].
  cbn [fst snd] in H1, H2. subst body.
  assert (F2 : trimStart (t ++ fence_close ++ post)
               = trimStart t ++ fence_close ++ post)
    by exact (trimStart_app_stop t 96%N (js "``" ++ post) eq_refl).
  rewrite F2 in *.
  assert (F3 : find_sub fence_close (trimStart t ++ fence_close ++ post)
               = Some (trimStart t, post))
    by exact (find_sub_skip 96%N (js "``") (trimStart t) post
                (trimStart_no_backtick t Ht)).
  rewrite F3.
  assert (E : ws ++ trimStart t = t).
  { apply (app_inv_tail (fence_close ++ post)). now rewrite <- app_assoc. }
  unfold trim. now rewrite (app_assoc ws), E.
Qed.


(* ================================================================== *)
(** ** [JSON.parse] reads a value without looking past it *)
(* ================================================================== *)

Lemma parse_number_stages s :
  parse_number s
  = let '(neg, s1) := number_sign s in
    match number_int s1 with
    | None => None
    | Some (m, s2) =>
        match number_frac m s2 with
        | None => None
        | Some (m3, fd, s3) =>
            match number_exp s3 with
            | None => None
            | Some (e, s4) =>
                Some (decimal (if neg then - m3 else m3)%Z (e - fd)%Z, s4)
            end
        end
    end.
Proof. reflexivity. Qed.

Lemma same_head_app x a b : same_head a b -> same_head (x ++ a) (x ++ b).
Proof. destruct x; simpl; [auto|reflexivity]. Qed.

Lemma same_head_refl a : same_head a a.
Proof. reflexivity. Qed.

Lemma read_digits_length s : forall acc n m k r,
  read_digits s acc n = (m, k, r) -> (List.length r <= List.length s)%nat.
Proof.
  induction s as [|y s IH]; intros acc n m k r; simpl.
  - intros [= <- <- <-]. auto.
  - destruct (digit_val y); [|intros [= <- <- <-]; auto].
    intros H. apply IH in H. lia.
Qed.

Lemma read_digits_local s : forall acc n m k r,
  read_digits s acc n = (m, k, r) ->
  exists c, s = c ++ r
            /\ forall r', same_head r r' -> read_digits (c ++ r') acc n = (m, k, r').
Proof.
  induction s as [|ch s IH]; intros acc n m k r; simpl.
  - intros [= <- <- <-]. exists []. split; [reflexivity|].
    intros [|x r'] H; [reflexivity|discriminate].
  - destruct (digit_val ch) as [d|] eqn:E.
    + intros H. destruct (IH _ _ _ _ _ H) as [c [-> Hc]].
      exists (ch :: c). split; [reflexivity|].
      intros r' Hr'. simpl. rewrite E. now apply Hc.
    + intros [= <- <- <-]. exists []. split; [reflexivity|].
      intros [|x r'] H; [discriminate|].
      injection H as <-. simpl. now rewrite E.
Qed.

Lemma number_sign_local s neg s1 :
  number_sign s = (neg, s1) ->
  exists c, s = c ++ s1
            /\ forall r', same_head s1 r' -> number_sign (c ++ r') = (neg, r').
Proof.
  unfold number_sign. destruct s as [|ch s].
  - intros [= <- <-]. exists []. split; [reflexivity|].
    intros [|x r'] H; [reflexivity|discriminate].
  - destruct (N.eqb ch 45) eqn:E.
    + intros [= <- <-]. exists [ch]. split; [reflexivity|].
      intros r' _. simpl. now rewrite E.
    + intros [= <- <-]. exists []. split; [reflexivity|].
      intros [|x r'] H; [discriminate|].
      injection H as <-. simpl. now rewrite E.
Qed.

Lemma number_int_local s1 m s2 :
  number_int s1 = Some (m, s2) ->
  exists c, s1 = c ++ s2 /\ c <> []
            /\ (exists ch c', c = ch :: c' /\ digit_val ch <> None)
            /\ forall r', same_head s2 r' -> number_int (c ++ r') = Some (m, r').
Proof.
  unfold number_int. destruct s1 as [|ch s].
  - discriminate.
  - destruct (N.eqb ch 48) eqn:E.
    + intros [= <- <-]. exists [ch]. repeat split; try discriminate.
      * exists ch, []. split; [reflexivity|].
        apply N.eqb_eq in E. subst ch. discriminate.
      * intros r' _. simpl. now rewrite E.
    + destruct (digit_val ch) as [d|] eqn:Ed; [|discriminate].
      destruct (read_digits (ch :: s) 0%Z O) as [[m' k] r] eqn:Er.
      intros [= <- <-].
      destruct (read_digits_local _ _ _ _ _ _ Er) as [c [Hc Hloc]].
      assert (Hne : exists c', c = ch :: c').
      { destruct c as [|x c'].
        - simpl in Hc. subst r. simpl in Er. rewrite Ed in Er.
          exfalso. apply read_digits_length in Er. simpl in Er. lia.
        - injection Hc as -> _. now exists c'. }
      destruct Hne as [c' ->].
      exists (ch :: c'). repeat split; try assumption; try discriminate.
      * exists ch, c'. split; [reflexivity|]. now rewrite Ed.
      * intros r' Hr'. cbn [app]. rewrite E, Ed.
        change (ch :: c' ++ r') with ((ch :: c') ++ r').
        now rewrite (Hloc r' Hr').
Qed.

Lemma number_frac_local m s2 m3 fd s3 :
  number_frac m s2 = Some (m3, fd, s3) ->
  exists c, s2 = c ++ s3
            /\ forall r', same_head s3 r' -> number_frac m (c ++ r') = Some (m3, fd, r').
Proof.
  unfold number_frac. destruct s2 as [|ch s].
  - intros [= <- <- <-]. exists []. split; [reflexivity|].
    intros [|x r'] H; [reflexivity|discriminate].
  - destruct (N.eqb ch 46) eqn:E.
    + destruct (read_digits s m O) as [[m' n] r] eqn:Er.
      destruct n as [|n]; [discriminate|].
      intros [= <- <- <-].
      destruct (read_digits_local _ _ _ _ _ _ Er) as [c [-> Hloc]].
      exists (ch :: c). split; [reflexivity|].
      intros r' Hr'. cbn [app]. rewrite E. now rewrite (Hloc r' Hr').
    + intros [= <- <- <-]. exists []. split; [reflexivity|].
      intros [|x r'] H; [discriminate|].
      injection H as <-. simpl. now rewrite E.
Qed.

Lemma number_exp_local s3 e s4 :
  number_exp s3 = Some (e, s4) ->
  exists c, s3 = c ++ s4
            /\ forall r', same_head s4 r' -> number_exp (c ++ r') = Some (e, r').
Proof.
  unfold number_exp. destruct s3 as [|ch s].
  - intros [= <- <-]. exists []. split; [reflexivity|].
    intros [|x r'] H; [reflexivity|discriminate].
  - destruct (N.eqb ch 101 || N.eqb ch 69)%bool eqn:E.
    + destruct s as [|d s].
      * simpl. discriminate.
      * destruct (N.eqb d 45) eqn:E1; [|destruct (N.eqb d 43) eqn:E2].
        -- destruct (read_digits s 0%Z O) as [[e' n] r] eqn:Er.
           destruct n as [|n]; [discriminate|].
           intros [= <- <-].
           destruct (read_digits_local _ _ _ _ _ _ Er) as [c [-> Hloc]].
           exists (ch :: d :: c). split; [reflexivity|].
           intros r' Hr'. cbn [app]. rewrite E, E1. now rewrite (Hloc r' Hr').
        -- destruct (read_digits s 0%Z O) as [[e' n] r] eqn:Er.
           destruct n as [|n]; [discriminate|].
           intros [= <- <-].
           destruct (read_digits_local _ _ _ _ _ _ Er) as [c [-> Hloc]].
           exists (ch :: d :: c). split; [reflexivity|].
           intros r' Hr'. cbn [app]. rewrite E, E1, E2. now rewrite (Hloc r' Hr').
        -- destruct (read_digits (d :: s) 0%Z O) as [[e' n] r] eqn:Er.
           destruct n as [|n]; [discriminate|].
           intros [= <- <-].
           destruct (read_digits_local _ _ _ _ _ _ Er) as [c [Hc Hloc]].
           destruct c as [|x c].
           { exfalso. simpl in Hc. subst r. simpl in Er.
             destruct (digit_val d) eqn:Ed; [|discriminate].
             apply read_digits_length in Er. simpl in Er. lia. }
           injection Hc as <- ->.
           exists (ch :: d :: c). split; [reflexivity|].
           intros r' Hr'. cbn [app]. rewrite E, E1, E2.
           change (d :: c ++ r') with ((d :: c) ++ r').
           now rewrite (Hloc r' Hr').
    + intros [= <- <-]. exists []. split; [reflexivity|].
      intros [|x r'] H; [discriminate|].
      injection H as <-. simpl. now rewrite E.
Qed.

(** A number literal is read the same way before any two continuations
    that start alike. *)
Lemma parse_number_local s q r :
  parse_number s = Some (q, r) ->
  exists c, s = c ++ r
            /\ (exists ch c', c = ch :: c' /\ (ch = 45%N \/ digit_val ch <> None))
            /\ forall r', same_head r r' -> parse_number (c ++ r') = Some (q, r').
Proof.
  rewrite parse_number_stages.
  destruct (number_sign s) as [neg s1] eqn:E0.
  destruct (number_int s1) as [[m s2]|] eqn:E1; [|discriminate].
  destruct (number_frac m s2) as [[[m3 fd] s3]|] eqn:E2; [|discriminate].
  destruct (number_exp s3) as [[e s4]|] eqn:E3; [|discriminate].
  intros [= <- <-].
  destruct (number_sign_local _ _ _ E0) as [c0 [-> H0]].
  destruct (number_int_local _ _ _ E1) as [c1 [-> [Hne [[ch [c1' [-> Hd]]] H1]]]].
  destruct (number_frac_local _ _ _ _ _ E2) as [c2 [-> H2]].
  destruct (number_exp_local _ _ _ E3) as [c3 [-> H3]].
  exists (c0 ++ (ch :: c1') ++ c2 ++ c3). split; [now rewrite <- !app_assoc|].
  split.
  - destruct c0 as [|x c0]; [exists ch; eexists; split; [reflexivity|now right]|].
    exists x. eexists. split; [reflexivity|].
    unfold number_sign in E0. cbn [app] in E0.
    destruct (N.eqb x 45) eqn:Ex.
    + left. now apply N.eqb_eq.
    + injection E0 as _ _ E0.
      exfalso. apply (f_equal (@List.length N)) in E0.
      rewrite !length_app in E0. cbn [List.length] in E0.
      rewrite !length_app in E0. lia.
  - intros r' Hr'. rewrite parse_number_stages.
    replace ((c0 ++ (ch :: c1') ++ c2 ++ c3) ++ r')
      with (c0 ++ ((ch :: c1') ++ (c2 ++ (c3 ++ r'))))
      by (now rewrite <- !app_assoc).
    rewrite (H0 ((ch :: c1') ++ c2 ++ c3 ++ r')) by reflexivity.
    rewrite (H1 (c2 ++ c3 ++ r'))
      by (apply same_head_app, same_head_app, Hr').
    rewrite (H2 (c3 ++ r')) by (apply same_head_app, Hr').
    now rewrite (H3 r' Hr').
Qed.

Ltac replay_tests :=
  repeat match goal with
         | E : N.eqb _ _ = _ |- _ => rewrite E; clear E
         | E : N.ltb _ _ = _ |- _ => rewrite E; clear E
         end.

(** A string literal is read up to its closing quote, whatever follows. *)
Lemma parse_string_chars_local n : forall s acc str r,
  (List.length s <= n)%nat ->
  parse_string_chars s acc = Some (str, r) ->
  exists c, s = c ++ r /\ c <> []
            /\ forall r', parse_string_chars (c ++ r') acc = Some (str, r').
Proof.
  induction n as [|n IH]; intros s acc str r Hlen H.
  - destruct s; [discriminate|simpl in Hlen; lia].
  - destruct s as [|c s]; [discriminate|].
    cbn [parse_string_chars] in H. cbn [List.length] in Hlen.
    destruct (N.eqb c 34) eqn:E34.
    { injection H as <- <-. exists [c]. repeat split; [discriminate|].
      intros r'. cbn [app parse_string_chars]. now rewrite E34. }
    destruct (N.eqb c 92) eqn:E92.
    + destruct s as [|e s1]; [discriminate|]. cbn [List.length] in Hlen.
      assert (Hesc : forall k,
                parse_string_chars s1 (k :: acc) = Some (str, r) ->
                exists c', s1 = c' ++ r
                           /\ forall r', parse_string_chars (c' ++ r') (k :: acc)
                                         = Some (str, r')).
      { intros k Hk. destruct (IH s1 (k :: acc) str r ltac:(lia) Hk)
          as [c' [-> [_ Hloc]]]. now exists c'. }
      destruct (N.eqb e 34) eqn:Ea;
        [destruct (Hesc _ H) as [c' [-> Hloc]]; exists (c :: e :: c');
         repeat split; [discriminate|];
         intros r'; cbn [app parse_string_chars]; replay_tests; apply Hloc|].
      destruct (N.eqb e 92) eqn:Eb;
        [destruct (Hesc _ H) as [c' [-> Hloc]]; exists (c :: e :: c');
         repeat split; [discriminate|];
         intros r'; cbn [app parse_string_chars]; replay_tests; apply Hloc|].
      destruct (N.eqb e 47) eqn:Ec;
        [destruct (Hesc _ H) as [c' [-> Hloc]]; exists (c :: e :: c');
         repeat split; [discriminate|];
         intros r'; cbn [app parse_string_chars]; replay_tests; apply Hloc|].
      destruct (N.eqb e 98) eqn:Ed;
        [destruct (Hesc _ H) as [c' [-> Hloc]]; exists (c :: e :: c');
         repeat split; [discriminate|];
         intros r'; cbn [app parse_string_chars]; replay_tests; apply Hloc|].
      destruct (N.eqb e 102) eqn:Ee;
        [destruct (Hesc _ H) as [c' [-> Hloc]]; exists (c :: e :: c');
         repeat split; [discriminate|];
         intros r'; cbn [app parse_string_chars]; replay_tests; apply Hloc|].
      destruct (N.eqb e 110) eqn:Ef;
        [destruct (Hesc _ H) as [c' [-> Hloc]]; exists (c :: e :: c');
         repeat split; [discriminate|];
         intros r'; cbn [app parse_string_chars]; replay_tests; apply Hloc|].
      destruct (N.eqb e 114) eqn:Eg;
        [destruct (Hesc _ H) as [c' [-> Hloc]]; exists (c :: e :: c');
         repeat split; [discriminate|];
         intros r'; cbn [app parse_string_chars]; replay_tests; apply Hloc|].
      destruct (N.eqb e 116) eqn:Eh;
        [destruct (Hesc _ H) as [c' [-> Hloc]]; exists (c :: e :: c');
         repeat split; [discriminate|];
         intros r'; cbn [app parse_string_chars]; replay_tests; apply Hloc|].
      destruct (N.eqb e 117) eqn:Ei; [|discriminate].
      destruct s1 as [|h1 [|h2 [|h3 [|h4 s2]]]]; try discriminate.
      destruct (hex_val h1) as [a|] eqn:H1; [|discriminate].
      destruct (hex_val h2) as [b|] eqn:H2; [|discriminate].
      destruct (hex_val h3) as [c3|] eqn:H3; [|discriminate].
      destruct (hex_val h4) as [d|] eqn:H4; [|discriminate].
      cbn [List.length] in Hlen.
      destruct (IH s2 _ str r ltac:(lia) H) as [c' [-> [_ Hloc]]].
      exists (c :: e :: h1 :: h2 :: h3 :: h4 :: c').
      repeat split; [discriminate|].
      intros r'. cbn [app parse_string_chars]. replay_tests.
      rewrite H1, H2, H3, H4. apply Hloc.
    + destruct (N.ltb c 32) eqn:Elt; [discriminate|].
      destruct (IH s _ str r ltac:(lia) H) as [c' [-> [_ Hloc]]].
      exists (c :: c'). repeat split; [discriminate|].
      intros r'. cbn [app parse_string_chars]. replay_tests. apply Hloc.
Qed.

Lemma skip_ws_split s :
  exists ws, s = ws ++ skip_ws s /\ forallb is_json_ws ws = true.
Proof.
  induction s as [|c s [ws [IH1 IH2]]]; simpl.
  - now exists [].
  - destruct (is_json_ws c) eqn:E.
    + exists (c :: ws). simpl. rewrite E, IH2. split; [now rewrite <- IH1|reflexivity].
    + now exists [].
Qed.

Lemma skip_ws_app_ws ws s :
  forallb is_json_ws ws = true -> skip_ws (ws ++ s) = skip_ws s.
Proof.
  induction ws as [|c ws IH]; simpl; [reflexivity|].
  intros H. apply andb_true_iff in H as [Hc Hws]. rewrite Hc. now apply IH.
Qed.

Lemma skip_ws_head s c r : skip_ws s = c :: r -> is_json_ws c = false.
Proof.
  induction s as [|d s IH]; simpl; [discriminate|].
  destruct (is_json_ws d) eqn:E; [exact IH|].
  now intros [= <- <-].
Qed.

Lemma skip_ws_stop c r : is_json_ws c = false -> skip_ws (c :: r) = c :: r.
Proof. intros H. simpl. now rewrite H. Qed.

Lemma skip_ws_app c x : skip_ws c <> [] -> skip_ws (c ++ x) = skip_ws c ++ x.
Proof.
  induction c as [|d c IH]; simpl; [contradiction|].
  destruct (is_json_ws d); [exact IH|reflexivity].
Qed.

Lemma skip_ws_length s : (List.length (skip_ws s) <= List.length s)%nat.
Proof.
  induction s as [|c s IH]; simpl; [lia|].
  destruct (is_json_ws c); simpl; lia.
Qed.

Lemma skip_ws_nil s : skip_ws s = [] -> forallb is_json_ws s = true.
Proof.
  induction s as [|c s IH]; simpl; [reflexivity|].
  destruct (is_json_ws c); [exact IH|discriminate].
Qed.

Lemma strip_prefix_inv p : forall s r, strip_prefix p s = Some r -> s = p ++ r.
Proof.
  induction p as [|x p IH]; intros s r; simpl.
  - now intros [= ->].
  - destruct s as [|y s]; [discriminate|].
    destruct (N.eqb x y) eqn:E; [|discriminate].
    apply N.eqb_eq in E. subst y. intros H. now rewrite (IH s r H).
Qed.

Lemma keyword_not_number ch y :
  ch = 45%N \/ digit_val ch <> None ->
  strip_prefix (js "true") (ch :: y) = None
  /\ strip_prefix (js "false") (ch :: y) = None
  /\ strip_prefix (js "null") (ch :: y) = None.
Proof.
  intros H.
  assert (Hs : (ch <= 57)%N).
  { destruct H as [->|H]; [discriminate|].
    unfold digit_val in H.
    destruct ((48 <=? ch)%N && (ch <=? 57)%N)%bool eqn:E; [|contradiction].
    apply andb_true_iff in E as [_ E]. now apply N.leb_le. }
  assert (E1 : N.eqb 116 ch = false) by (apply N.eqb_neq; lia).
  assert (E2 : N.eqb 102 ch = false) by (apply N.eqb_neq; lia).
  assert (E3 : N.eqb 110 ch = false) by (apply N.eqb_neq; lia).
  repeat split.
  - change (js "true") with (116%N :: js "rue"). cbn [strip_prefix]. now rewrite E1.
  - change (js "false") with (102%N :: js "alse"). cbn [strip_prefix]. now rewrite E2.
  - change (js "null") with (110%N :: js "ull"). cbn [strip_prefix]. now rewrite E3.
Qed.


(** Every parser function reads a prefix [c] of its input and returns the
    rest untouched; the same prefix before any other rest gives the same
    value, with fuel twice the length of the prefix (a number also needs the
    next code unit to be the same, since it ends where the digits end); and a
    parsed object starts at an opening and ends at a closing brace. *)
Lemma parse_local f :
  (forall s v r, parse_value f s = Some (v, r) ->
     exists c, s = c ++ r /\ skip_ws c <> []
       /\ (is_object v = true ->
           (exists x, skip_ws c = 123%N :: x) /\ exists c0, c = c0 ++ [125%N])
       /\ forall f' r',
            (2 * List.length (skip_ws c) <= f' + 1)%nat ->
            is_number v = false \/ same_head r r' ->
            parse_value f' (c ++ r') = Some (v, r'))
  /\ (forall s acc v r, parse_elements f s acc = Some (v, r) ->
     exists c, s = c ++ r /\ skip_ws c <> [] /\ is_object v = false
       /\ forall f' r',
            (2 * List.length c <= f')%nat ->
            parse_elements f' (c ++ r') acc = Some (v, r'))
  /\ (forall s acc v r, parse_members f s acc = Some (v, r) ->
     exists c, s = c ++ r /\ skip_ws c <> [] /\ (exists c0, c = c0 ++ [125%N])
       /\ forall f' r',
            (2 * List.length c <= f')%nat ->
            parse_members f' (c ++ r') acc = Some (v, r')).
Proof.
  induction f as [|f [IHV [IHE IHM]]].
  { repeat split; intros; discriminate. }
  split; [|split].
  - (* value *)
    intros s v r H. cbn [parse_value] in H.
    destruct (skip_ws s) as [|ch r0] eqn:Es; [discriminate|].
    destruct (skip_ws_split s) as [ws [Hs Hws]]. rewrite Es in Hs.
    pose proof (skip_ws_head _ _ _ Es) as Hch.
    destruct (N.eqb ch 123) eqn:E123.
    + destruct (skip_ws r0) as [|c' r0'] eqn:Er0; [discriminate|].
      destruct (skip_ws_split r0) as [ws2 [Hr0 Hws2]]. rewrite Er0 in Hr0.
      pose proof (skip_ws_head _ _ _ Er0) as Hc'.
      destruct (N.eqb c' 125) eqn:E125.
      * injection H as <- <-.
        exists (ws ++ ch :: ws2 ++ [c']).
        assert (Hskip : forall x, skip_ws ((ws ++ ch :: ws2 ++ [c']) ++ x)
                                  = ch :: ws2 ++ c' :: x).
        { intros x. rewrite <- app_assoc. cbn [app]. rewrite <- app_assoc. cbn [app].
          rewrite (skip_ws_app_ws ws _ Hws). now apply skip_ws_stop. }
        split; [rewrite Hs, Hr0; rewrite <- app_assoc; cbn [app];
                now rewrite <- app_assoc|].
        split; [specialize (Hskip []); rewrite app_nil_r in Hskip;
                rewrite Hskip; discriminate|].
        split.
        { intros _. apply N.eqb_eq in E123, E125. subst ch c'. split.
          - specialize (Hskip []). rewrite app_nil_r in Hskip. rewrite Hskip. eauto.
          - exists (ws ++ 123%N :: ws2). rewrite <- app_assoc. reflexivity. }
        intros f' r' Hf _.
        destruct f' as [|f''].
        { specialize (Hskip []). rewrite app_nil_r in Hskip. rewrite Hskip in Hf.
          cbn [List.length] in Hf. lia. }
        cbn [parse_value]. rewrite Hskip, E123.
        rewrite (skip_ws_app_ws ws2 _ Hws2), (skip_ws_stop _ _ Hc'), E125.
        reflexivity.
      * destruct (IHM _ _ _ _ H) as [c2 [Hc2 [Hne2 [[c0 Hc0] Hloc]]]].
        assert (Hhead : exists y, skip_ws c2 = c' :: y).
        { rewrite Hc2, (skip_ws_app c2 r Hne2) in Er0.
          destruct (skip_ws c2) as [|z y]; [contradiction|].
          injection Er0 as -> _. eauto. }
        destruct Hhead as [y Hy].
        exists (ws ++ ch :: c2).
        assert (Hskip : forall x, skip_ws ((ws ++ ch :: c2) ++ x) = ch :: c2 ++ x).
        { intros x. rewrite <- app_assoc. cbn [app].
          rewrite (skip_ws_app_ws ws _ Hws). now apply skip_ws_stop. }
        split; [rewrite Hs, Hc2; rewrite <- app_assoc; reflexivity|].
        split; [specialize (Hskip []); rewrite !app_nil_r in Hskip;
                rewrite Hskip; discriminate|].
        split.
        { intros _. apply N.eqb_eq in E123. subst ch. split.
          - specialize (Hskip []). rewrite !app_nil_r in Hskip. rewrite Hskip. eauto.
          - exists (ws ++ 123%N :: c0). rewrite Hc0, <- app_assoc. reflexivity. }
        intros f' r' Hf _.
        pose proof (Hskip []) as Hskip0. rewrite !app_nil_r in Hskip0.
        rewrite Hskip0 in Hf. cbn [List.length] in Hf.
        destruct f' as [|f'']; [lia|].
        cbn [parse_value]. rewrite Hskip, E123.
        rewrite (skip_ws_app c2 r' Hne2), Hy. cbn [app]. rewrite E125.
        apply Hloc. lia.
    + destruct (N.eqb ch 91) eqn:E91.
      * destruct (skip_ws r0) as [|c' r0'] eqn:Er0; [discriminate|].
        destruct (skip_ws_split r0) as [ws2 [Hr0 Hws2]]. rewrite Er0 in Hr0.
        pose proof (skip_ws_head _ _ _ Er0) as Hc'.
        destruct (N.eqb c' 93) eqn:E93.
        -- injection H as <- <-.
           exists (ws ++ ch :: ws2 ++ [c']).
           assert (Hskip : forall x, skip_ws ((ws ++ ch :: ws2 ++ [c']) ++ x)
                                     = ch :: ws2 ++ c' :: x).
           { intros x. rewrite <- app_assoc. cbn [app]. rewrite <- app_assoc. cbn [app].
             rewrite (skip_ws_app_ws ws _ Hws). now apply skip_ws_stop. }
           split; [rewrite Hs, Hr0; rewrite <- app_assoc; cbn [app];
                   now rewrite <- app_assoc|].
           split; [specialize (Hskip []); rewrite app_nil_r in Hskip;
                   rewrite Hskip; discriminate|].
           split; [discriminate|].
           intros f' r' Hf _.
           destruct f' as [|f''].
           { specialize (Hskip []). rewrite app_nil_r in Hskip. rewrite Hskip in Hf.
             cbn [List.length] in Hf. lia. }
           cbn [parse_value]. rewrite Hskip, E123, E91.
           rewrite (skip_ws_app_ws ws2 _ Hws2), (skip_ws_stop _ _ Hc'), E93.
           reflexivity.
        -- destruct (IHE _ _ _ _ H) as [c2 [Hc2 [Hne2 [Hobj Hloc]]]].
           assert (Hhead : exists y, skip_ws c2 = c' :: y).
           { rewrite Hc2, (skip_ws_app c2 r Hne2) in Er0.
             destruct (skip_ws c2) as [|z y]; [contradiction|].
             injection Er0 as -> _. eauto. }
           destruct Hhead as [y Hy].
           exists (ws ++ ch :: c2).
           assert (Hskip : forall x, skip_ws ((ws ++ ch :: c2) ++ x) = ch :: c2 ++ x).
           { intros x. rewrite <- app_assoc. cbn [app].
             rewrite (skip_ws_app_ws ws _ Hws). now apply skip_ws_stop. }
           split; [rewrite Hs, Hc2; rewrite <- app_assoc; reflexivity|].
           split; [specialize (Hskip []); rewrite !app_nil_r in Hskip;
                   rewrite Hskip; discriminate|].
           split; [rewrite Hobj; discriminate|].
           intros f' r' Hf _.
           pose proof (Hskip []) as Hskip0. rewrite !app_nil_r in Hskip0.
           rewrite Hskip0 in Hf. cbn [List.length] in Hf.
           destruct f' as [|f'']; [lia|].
           cbn [parse_value]. rewrite Hskip, E123, E91.
           rewrite (skip_ws_app c2 r' Hne2), Hy. cbn [app]. rewrite E93.
           apply Hloc. lia.
      * destruct (N.eqb ch 34) eqn:E34.
        -- destruct (parse_string_chars r0 []) as [[str rs]|] eqn:Estr; [|discriminate].
           injection H as <- <-.
           destruct (parse_string_chars_local _ _ _ _ _ (Nat.le_refl _) Estr)
             as [cs [Hcs [_ Hloc]]].
           exists (ws ++ ch :: cs).
           assert (Hskip : forall x, skip_ws ((ws ++ ch :: cs) ++ x) = ch :: cs ++ x).
           { intros x. rewrite <- app_assoc. cbn [app].
             rewrite (skip_ws_app_ws ws _ Hws). now apply skip_ws_stop. }
           split; [rewrite Hs, Hcs; rewrite <- app_assoc; reflexivity|].
           split; [specialize (Hskip []); rewrite !app_nil_r in Hskip;
                   rewrite Hskip; discriminate|].
           split; [discriminate|].
           intros f' r' Hf _.
           destruct f' as [|f''].
           { specialize (Hskip []). rewrite !app_nil_r in Hskip. rewrite Hskip in Hf.
             cbn [List.length] in Hf. lia. }
           cbn [parse_value]. rewrite Hskip, E123, E91, E34.
           now rewrite Hloc.
        -- assert (Hkw : forall kw val,
                     strip_prefix kw (ch :: r0) = Some r ->
                     kw <> [] ->
                     (forall x f'', parse_value (S f'') (kw ++ x) = Some (val, x)) ->
                     is_object val = false ->
                     exists c, s = c ++ r /\ skip_ws c <> []
                       /\ (is_object val = true ->
                           (exists x, skip_ws c = 123%N :: x)
                           /\ exists c0, c = c0 ++ [125%N])
                       /\ forall f' r',
                            (2 * List.length (skip_ws c) <= f' + 1)%nat ->
                            is_number val = false \/ same_head r r' ->
                            parse_value f' (c ++ r') = Some (val, r')).
           { intros kw val Hkw Hne Hparse Hobj.
             apply strip_prefix_inv in Hkw.
             assert (Hkws : skip_ws kw = kw).
             { destruct kw as [|k0 kw']; [contradiction|].
               injection Hkw as <- _. now apply skip_ws_stop. }
             exists (ws ++ kw).
             split; [rewrite Hs, Hkw; now rewrite <- app_assoc|].
             split; [rewrite (skip_ws_app_ws ws _ Hws), Hkws; exact Hne|].
             split; [rewrite Hobj; discriminate|].
             intros f' r' Hf _.
             rewrite (skip_ws_app_ws ws _ Hws), Hkws in Hf.
             destruct f' as [|f''].
             { destruct kw; [contradiction|]. cbn [List.length] in Hf. lia. }
             rewrite <- app_assoc.
             transitivity (parse_value (S f'') (kw ++ r')); [|apply Hparse].
             cbn [parse_value]. now rewrite (skip_ws_app_ws ws _ Hws). }
           destruct (strip_prefix (js "true") (ch :: r0)) as [rt|] eqn:Et.
           { injection H as <- <-.
             apply (Hkw (js "true") (JBool true) Et); [discriminate|reflexivity|reflexivity]. }
           destruct (strip_prefix (js "false") (ch :: r0)) as [rf|] eqn:Ef.
           { injection H as <- <-.
             apply (Hkw (js "false") (JBool false) Ef); [discriminate|reflexivity|reflexivity]. }
           destruct (strip_prefix (js "null") (ch :: r0)) as [rn|] eqn:En.
           { injection H as <- <-.
             apply (Hkw (js "null") JNull En); [discriminate|reflexivity|reflexivity]. }
           clear Hkw.
           destruct (parse_number (ch :: r0)) as [[q rq]|] eqn:Eq; [|discriminate].
           injection H as <- <-.
           assert (Hq : is_object (binary64 q) = false)
             by (destruct (binary64_cases q) as [[x ->]|[x ->]]; reflexivity).
           pose proof (binary64_is_number q) as Hq'.
           destruct (parse_number_local _ _ _ Eq)
             as [c [Hc [[ch' [c' [-> Hd]]] Hloc]]].
           injection Hc as <- Hc.
           exists (ws ++ ch :: c').
           assert (Hskip : forall x, skip_ws ((ws ++ ch :: c') ++ x) = ch :: c' ++ x).
           { intros x. rewrite <- app_assoc. cbn [app].
             rewrite (skip_ws_app_ws ws _ Hws). now apply skip_ws_stop. }
           split; [rewrite Hs, Hc; rewrite <- app_assoc; reflexivity|].
           split; [specialize (Hskip []); rewrite !app_nil_r in Hskip;
                   rewrite Hskip; discriminate|].
           split; [rewrite Hq; discriminate|].
           intros f' r' Hf [Hnum|Hsame]; [congruence|].
           destruct f' as [|f''].
           { specialize (Hskip []). rewrite !app_nil_r in Hskip. rewrite Hskip in Hf.
             cbn [List.length] in Hf. lia. }
           cbn [parse_value]. rewrite Hskip, E123, E91, E34.
           destruct (keyword_not_number ch (c' ++ r') Hd) as [K1 [K2 K3]].
           rewrite K1, K2, K3.
           change (ch :: c' ++ r') with ((ch :: c') ++ r').
           now rewrite (Hloc r' Hsame).
  - (* elements *)
    intros s acc v r H. cbn [parse_elements] in H.
    destruct (parse_value f s) as [[v1 r1]|] eqn:Ev; [|discriminate].
    destruct (IHV _ _ _ Ev) as [c1 [Hc1 [Hne1 [_ HlocV]]]].
    destruct (skip_ws r1) as [|ch r2] eqn:Er1; [discriminate|].
    destruct (skip_ws_split r1) as [ws [Hr1 Hws]]. rewrite Er1 in Hr1.
    pose proof (skip_ws_head _ _ _ Er1) as Hch.
    pose proof (skip_ws_length c1) as Hlen1.
    assert (Hpos1 : (1 <= List.length (skip_ws c1))%nat)
      by (destruct (skip_ws c1); [contradiction|cbn [List.length]; lia]).
    destruct (N.eqb ch 44) eqn:E44.
    + destruct (IHE _ _ _ _ H) as [c2 [Hc2 [Hne2 [Hobj HlocE]]]].
      exists (c1 ++ ws ++ ch :: c2).
      split; [rewrite Hc1, Hr1, Hc2;
              repeat (rewrite <- ?app_assoc; cbn [app]); reflexivity|].
      split; [rewrite (skip_ws_app c1 _ Hne1);
              destruct (skip_ws c1); [contradiction|discriminate]|].
      split; [exact Hobj|].
      intros f' r' Hf.
      rewrite !length_app in Hf. cbn [List.length] in Hf.
      destruct f' as [|f'']; [lia|].
      cbn [parse_elements].
      replace ((c1 ++ ws ++ ch :: c2) ++ r') with (c1 ++ (ws ++ ch :: c2 ++ r'))
        by (repeat (rewrite <- ?app_assoc; cbn [app]); reflexivity).
      rewrite (HlocV f'' (ws ++ ch :: c2 ++ r')).
      * rewrite (skip_ws_app_ws ws _ Hws), (skip_ws_stop _ _ Hch), E44.
        apply HlocE. lia.
      * lia.
      * right. rewrite Hr1. apply same_head_app. reflexivity.
    + destruct (N.eqb ch 93) eqn:E93; [|discriminate].
      injection H as <- <-.
      exists (c1 ++ ws ++ [ch]).
      split; [rewrite Hc1, Hr1; rewrite <- !app_assoc; cbn [app]; reflexivity|].
      split; [rewrite (skip_ws_app c1 _ Hne1);
              destruct (skip_ws c1); [contradiction|discriminate]|].
      split; [reflexivity|].
      intros f' r' Hf.
      rewrite !length_app in Hf. cbn [List.length] in Hf.
      destruct f' as [|f'']; [lia|].
      cbn [parse_elements].
      replace ((c1 ++ ws ++ [ch]) ++ r') with (c1 ++ (ws ++ ch :: r'))
        by (rewrite <- !app_assoc; cbn [app]; reflexivity).
      rewrite (HlocV f'' (ws ++ ch :: r')).
      * now rewrite (skip_ws_app_ws ws _ Hws), (skip_ws_stop _ _ Hch), E44, E93.
      * lia.
      * right. rewrite Hr1. apply same_head_app. reflexivity.
  - (* members *)
    intros s acc v r H. cbn [parse_members] in H.
    destruct (skip_ws s) as [|ch r0] eqn:Es; [discriminate|].
    destruct (skip_ws_split s) as [ws [Hs Hws]]. rewrite Es in Hs.
    pose proof (skip_ws_head _ _ _ Es) as Hch.
    destruct (N.eqb ch 34) eqn:E34; [|discriminate].
    destruct (parse_string_chars r0 []) as [[k r1]|] eqn:Ek; [|discriminate].
    destruct (parse_string_chars_local _ _ _ _ _ (Nat.le_refl _) Ek)
      as [ck [Hck [_ HlocK]]].
    destruct (skip_ws r1) as [|c1 r2] eqn:Er1; [discriminate|].
    destruct (skip_ws_split r1) as [ws1 [Hr1 Hws1]]. rewrite Er1 in Hr1.
    pose proof (skip_ws_head _ _ _ Er1) as Hc1.
    destruct (N.eqb c1 58) eqn:E58; [|discriminate].
    destruct (parse_value f r2) as [[v1 r3]|] eqn:Ev; [|discriminate].
    destruct (IHV _ _ _ Ev) as [cv [Hcv [Hnev [_ HlocV]]]].
    destruct (skip_ws r3) as [|c3 r4] eqn:Er3; [discriminate|].
    destruct (skip_ws_split r3) as [ws3 [Hr3 Hws3]]. rewrite Er3 in Hr3.
    pose proof (skip_ws_head _ _ _ Er3) as Hc3.
    pose proof (skip_ws_length cv) as Hlenv.
    assert (Hskip : forall x, skip_ws (ws ++ ch :: x) = ch :: x).
    { intros x. rewrite (skip_ws_app_ws ws _ Hws). now apply skip_ws_stop. }
    destruct (N.eqb c3 44) eqn:E44.
    + destruct (IHM _ _ _ _ H) as [cm [Hcm [Hnem [[c0 Hc0] HlocM]]]].
      exists (ws ++ ch :: ck ++ ws1 ++ c1 :: cv ++ ws3 ++ c3 :: cm).
      split; [rewrite Hs, Hck, Hr1, Hcv, Hr3, Hcm;
              repeat (rewrite <- ?app_assoc; cbn [app]); reflexivity|].
      split; [rewrite Hskip; discriminate|].
      split.
      { exists (ws ++ ch :: ck ++ ws1 ++ c1 :: cv ++ ws3 ++ c3 :: c0).
        rewrite Hc0. repeat (rewrite <- ?app_assoc; cbn [app]). reflexivity. }
      intros f' r' Hf.
      repeat (rewrite ?length_app in Hf; cbn [List.length] in Hf).
      destruct f' as [|f'']; [lia|].
      cbn [parse_members].
      replace ((ws ++ ch :: ck ++ ws1 ++ c1 :: cv ++ ws3 ++ c3 :: cm) ++ r')
        with (ws ++ ch :: (ck ++ (ws1 ++ c1 :: (cv ++ (ws3 ++ c3 :: (cm ++ r'))))))
        by (repeat (rewrite <- ?app_assoc; cbn [app]); reflexivity).
      rewrite Hskip, E34, HlocK.
      rewrite (skip_ws_app_ws ws1 _ Hws1), (skip_ws_stop _ _ Hc1), E58.
      rewrite (HlocV f'' (ws3 ++ c3 :: cm ++ r')).
      * rewrite (skip_ws_app_ws ws3 _ Hws3), (skip_ws_stop _ _ Hc3), E44.
        apply HlocM. lia.
      * lia.
      * right. rewrite Hr3. apply same_head_app. reflexivity.
    + destruct (N.eqb c3 125) eqn:E125; [|discriminate].
      injection H as <- <-.
      exists (ws ++ ch :: ck ++ ws1 ++ c1 :: cv ++ ws3 ++ [c3]).
      split; [rewrite Hs, Hck, Hr1, Hcv, Hr3;
              repeat (rewrite <- ?app_assoc; cbn [app]); reflexivity|].
      split; [rewrite Hskip; discriminate|].
      split.
      { exists (ws ++ ch :: ck ++ ws1 ++ c1 :: cv ++ ws3).
        apply N.eqb_eq in E125. subst c3.
        repeat (rewrite <- ?app_assoc; cbn [app]). reflexivity. }
      intros f' r' Hf.
      repeat (rewrite ?length_app in Hf; cbn [List.length] in Hf).
      destruct f' as [|f'']; [lia|].
      cbn [parse_members].
      replace ((ws ++ ch :: ck ++ ws1 ++ c1 :: cv ++ ws3 ++ [c3]) ++ r')
        with (ws ++ ch :: (ck ++ (ws1 ++ c1 :: (cv ++ (ws3 ++ c3 :: r')))))
        by (repeat (rewrite <- ?app_assoc; cbn [app]); reflexivity).
      rewrite Hskip, E34, HlocK.
      rewrite (skip_ws_app_ws ws1 _ Hws1), (skip_ws_stop _ _ Hc1), E58.
      rewrite (HlocV f'' (ws3 ++ c3 :: r')).
      * now rewrite (skip_ws_app_ws ws3 _ Hws3), (skip_ws_stop _ _ Hc3), E44, E125.
      * lia.
      * right. rewrite Hr3. apply same_head_app. reflexivity.
Qed.

Lemma parse_value_skip_ws f ws s :
  forallb is_json_ws ws = true -> parse_value f (ws ++ s) = parse_value f s.
Proof.
  intros H. destruct f as [|f]; [reflexivity|].
  cbn [parse_value]. now rewrite (skip_ws_app_ws ws s H).
Qed.

Lemma ws_no_braces ws :
  forallb is_json_ws ws = true ->
  no_open_brace ws = true /\ no_close_brace ws = true.
Proof.
  induction ws as [|c ws IH]; simpl; [auto|].
  intros H. apply andb_true_iff in H as [Hc Hws].
  destruct (IH Hws) as [-> ->]. rewrite !andb_true_r.
  unfold is_json_ws in Hc. simpl in Hc.
  repeat (apply orb_true_iff in Hc as [Hc|Hc];
          [apply N.eqb_eq in Hc; subst c; auto|]).
  discriminate.
Qed.

Lemma skip_ws_closing c0 x :
  skip_ws (c0 ++ [125%N]) = 123%N :: x -> exists mid, x = mid ++ [125%N].
Proof.
  intros H. destruct (skip_ws c0) as [|d y] eqn:E.
  - apply skip_ws_nil in E. rewrite (skip_ws_app_ws c0 _ E) in H. discriminate.
  - rewrite skip_ws_app, E in H by (rewrite E; discriminate).
    injection H as -> <-. now exists y.
Qed.

(** A parsed object sits in its text as white space, a span from an opening
    to a closing brace, and white space; the span alone parses to the same
    object. *)
Lemma object_span obj v :
  JSON_parse obj = Some v -> is_object v = true ->
  exists ws mid r,
    obj = ws ++ 123%N :: mid ++ 125%N :: r
    /\ forallb is_json_ws ws = true /\ forallb is_json_ws r = true
    /\ JSON_parse (123%N :: mid ++ [125%N]) = Some v.
Proof.
  unfold JSON_parse at 1. intros H Hobj.
  destruct (parse_value _ obj) as [[v' r]|] eqn:Ev; [|discriminate].
  destruct (skip_ws r) eqn:Er; [|discriminate].
  injection H as ->.
  destruct (proj1 (parse_local _) _ _ _ Ev) as [c [Hc [Hne [Hshape Hloc]]]].
  destruct (Hshape Hobj) as [[x Hx] [c0 Hc0]].
  destruct (skip_ws_split c) as [ws [Hsplit Hws]].
  rewrite Hx in Hsplit.
  assert (Hmid : exists mid, x = mid ++ [125%N]).
  { apply (skip_ws_closing c0). now rewrite <- Hc0. }
  destruct Hmid as [mid ->].
  exists ws, mid, r. split; [|split; [exact Hws|split; [now apply skip_ws_nil|]]].
  - rewrite Hc, Hsplit. repeat (rewrite <- ?app_assoc; cbn [app]). reflexivity.
  - unfold JSON_parse.
    specialize (Hloc (2 * List.length (123%N :: mid ++ [125%N]) + 2)%nat []).
    rewrite Hx in Hloc.
    rewrite Hsplit, <- app_assoc, parse_value_skip_ws, app_nil_r in Hloc by exact Hws.
    rewrite Hloc; [reflexivity|lia|left; destruct v; try discriminate; reflexivity].
Qed.

Lemma no_open_brace_app a b :
  no_open_brace (a ++ b) = no_open_brace a && no_open_brace b.
Proof. apply forallb_app. Qed.

Lemma no_close_brace_app a b :
  no_close_brace (a ++ b) = no_close_brace a && no_close_brace b.
Proof. apply forallb_app. Qed.

(** X8: a JSON object embedded in prose is recovered.  When the answer is
    some text without an opening brace, then a text that [JSON.parse] reads
    as an object, then some text without a closing brace, the brace regular
    expression matches; every regex-first provider block extracts exactly
    that object unless the answer also holds a json code fence; and the
    OpenRouter blocks of ai/search extract it too unless the whole answer
    parses by itself. *)
Theorem embedded_object_is_recovered pre obj post v :
  JSON_parse obj = Some v -> is_object v = true ->
  no_open_brace pre = true -> no_close_brace post = true ->
  match_brace (pre ++ obj ++ post) <> None
  /\ (match_fence (pre ++ obj ++ post) = None ->
      extract_regex_then_raw (pre ++ obj ++ post) = Some v)
  /\ extract_direct_then_brace (pre ++ obj ++ post)
     = match JSON_parse (pre ++ obj ++ post) with
       | Some direct => Some direct
       | None => Some v
       end.
Proof.
  intros Hparse Hobj Hpre Hpost.
  destruct (object_span obj v Hparse Hobj) as [ws [mid [r [-> [Hws [Hr Hspan]]]]]].
  assert (Hb : match_brace (pre ++ (ws ++ 123%N :: mid ++ 125%N :: r) ++ post)
               = Some (mkMatch (123%N :: mid ++ [125%N]) None)).
  { unfold match_brace.
    replace (pre ++ (ws ++ 123%N :: mid ++ 125%N :: r) ++ post)
      with ((pre ++ ws) ++ 123%N :: mid ++ 125%N :: (r ++ post))
      by (repeat (rewrite <- ?app_assoc; cbn [app]); reflexivity).
    rewrite from_first_brace_app, to_last_brace_app; [reflexivity| |].
    - rewrite no_close_brace_app, Hpost, (proj2 (ws_no_braces r Hr)). reflexivity.
    - rewrite no_open_brace_app, Hpre, (proj1 (ws_no_braces ws Hws)). reflexivity. }
  split; [rewrite Hb; discriminate|]. split.
  - intros Hf. unfold extract_regex_then_raw. rewrite Hf, Hb. exact Hspan.
  - unfold extract_direct_then_brace. rewrite Hb.
    destruct (JSON_parse (pre ++ _)); [reflexivity|exact Hspan].
Qed.

(** The theorem at an object between two sentences. *)
Lemma embedded_object_is_recovered_witness :
  extract_regex_then_raw (jsq "Here you go: {'query': 'soup', 'number': 5} Enjoy!")
  = Some (obj [("query", JText "soup"); ("number", JInt 5)]%string)
  /\ extract_direct_then_brace
       (jsq "Here you go: {'query': 'soup', 'number': 5} Enjoy!")
     = Some (obj [("query", JText "soup"); ("number", JInt 5)]%string).
Proof.
  destruct (embedded_object_is_recovered (js "Here you go: ")
              (jsq "{'query': 'soup', 'number': 5}") (js " Enjoy!")
              (obj [("query", JText "soup"); ("number", JInt 5)]%string)
              eq_refl eq_refl eq_refl eq_refl) as [_ [H1 H2]].
  split.
  - exact (H1 eq_refl).
  - exact H2.
Defined.

(* ================================================================== *)
(** ** The extraction code of each provider block *)
(* ================================================================== *)

Lemma match_brace_span pre mid post :
  no_open_brace pre = true -> no_close_brace post = true ->
  match_brace (pre ++ [123%N] ++ mid ++ [125%N] ++ post)
  = Some (mkMatch ([123%N] ++ mid ++ [125%N]) None).
Proof.
  intros Hpre Hpost. unfold match_brace. simpl.
  rewrite (from_first_brace_app pre _ Hpre).
  now rewrite (to_last_brace_app mid post Hpost).
Qed.

(** No JSON text starts with a backtick, and the empty text is no JSON. *)
Lemma backtick_not_json x : JSON_parse (96%N :: x) = None.
Proof. unfold JSON_parse. cbn [List.length]. rewrite Nat.add_comm. reflexivity. Qed.

Lemma empty_not_json : JSON_parse [] = None.
Proof. reflexivity. Qed.

(** What a regex-first block extracts from a fenced text. *)
Lemma regex_first_fenced pre t post :
  no_backtick pre = true -> no_backtick t = true ->
  extract_regex_then_raw (pre ++ fence_open ++ t ++ fence_close ++ post)
  = JSON_parse (trim t).
Proof.
  intros Hpre Ht. unfold extract_regex_then_raw.
  rewrite (match_fence_block pre t post Hpre Ht).
  cbn [or_match group1_or_whole group1 whole].
  destruct (trim t) eqn:E; [|reflexivity].
  cbn [str_truthy]. rewrite empty_not_json.
  exact (backtick_not_json (js "``json" ++ t ++ fence_close)).
Qed.

(** C6, amended.  The chain of each route runs one block per configured
    provider, and the block of provider [p] extracts with [extractor ep p].
    The OpenRouter blocks of ai/search (Claude and GPT) take the direct
    parse of the full text when it succeeds; otherwise they parse the span
    from the first opening brace to the last closing brace, and extract
    nothing without such a span; they have no fence strategy, so that a
    text that starts with a fence goes to the brace span.  Every other
    block parses one candidate and nothing else: the trimmed interior of the
    json fence when the fence expression matches (the whole fenced match
    when the interior is empty, which never parses); else the brace span;
    else the full text, which is thus parsed directly only when neither
    expression matches.  A candidate that does not parse is not followed by
    another strategy.  The blocks agree with the specified order when
    neither expression matches, and the ai/search OpenRouter blocks agree
    with it whenever the direct parse succeeds or the fence strategy
    fails. *)
Theorem extractors_as_written ep p text :
  (forall env w, chain ep env w = run_blocks ep w (provider_chain ep env) chain_start)
  /\ (ep = AiSearch -> p = Claude \/ p = GPT ->
      (forall v, JSON_parse text = Some v -> extractor ep p text = Some v)
      /\ (JSON_parse text = None ->
          (forall pre mid post,
             text = pre ++ [123%N] ++ mid ++ [125%N] ++ post ->
             no_open_brace pre = true -> no_close_brace post = true ->
             extractor ep p text = JSON_parse ([123%N] ++ mid ++ [125%N]))
          /\ (match_brace text = None -> extractor ep p text = None))
      /\ (forall t post,
            text = fence_open ++ t ++ fence_close ++ post ->
            extractor ep p text = strategy_brace text)
      /\ (strategy_direct text <> None \/ strategy_fence text = None ->
          extractor ep p text = spec_extract text))
  /\ (ep <> AiSearch \/ p = Gemini \/ p = Groq ->
      (forall m, match_fence text = Some m ->
         extractor ep p text = JSON_parse (group1_or_whole m))
      /\ (forall pre t post,
            text = pre ++ fence_open ++ t ++ fence_close ++ post ->
            no_backtick pre = true -> no_backtick t = true ->
            extractor ep p text = JSON_parse (trim t))
      /\ (match_fence text = None ->
          (forall pre mid post,
             text = pre ++ [123%N] ++ mid ++ [125%N] ++ post ->
             no_open_brace pre = true -> no_close_brace post = true ->
             extractor ep p text = JSON_parse ([123%N] ++ mid ++ [125%N]))
          /\ (match_brace text = None ->
              extractor ep p text = JSON_parse text
              /\ extractor ep p text = spec_extract text))).
Proof.
  split; [intros env w; apply chain_run_blocks|]. split.
  - intros -> Hp.
    assert (E : extractor AiSearch p = extract_direct_then_brace)
      by (destruct Hp as [-> | ->]; reflexivity).
    rewrite E. clear E Hp. unfold extract_direct_then_brace.
    split; [intros v ->; reflexivity|]. split; [|split].
    + intros Hd. rewrite Hd. split.
      * intros pre mid post -> Hpre Hpost.
        now rewrite (match_brace_span pre mid post Hpre Hpost).
      * now intros ->.
    + intros t post ->.
      change (fence_open ++ t ++ fence_close ++ post)
        with (96%N :: js "``json" ++ t ++ fence_close ++ post).
      now rewrite backtick_not_json.
    + intros H. unfold spec_extract, first_success, strategy_direct, strategy_fence,
        strategy_brace in *.
      destruct (JSON_parse text) as [v|]; [reflexivity|].
      destruct H as [H|H]; [congruence|]. rewrite H.
      destruct (match_brace text) as [m|]; [|reflexivity].
      destruct (JSON_parse (whole m)); reflexivity.
  - intros Hp.
    assert (E : extractor ep p = extract_regex_then_raw).
    { destruct Hp as [Hep|[-> | ->]].
      - destruct ep; [contradiction| | |]; reflexivity.
      - destruct ep; reflexivity.
      - destruct ep; reflexivity. }
    rewrite E. clear E Hp.
    split; [|split].
    + intros m Hm. unfold extract_regex_then_raw. now rewrite Hm.
    + intros pre t post -> Hpre Ht. now apply regex_first_fenced.
    + intros Hf. unfold extract_regex_then_raw. rewrite Hf. cbn [or_match]. split.
      * intros pre mid post -> Hpre Hpost.
        now rewrite (match_brace_span pre mid post Hpre Hpost).
      * intros Hb. rewrite Hb. split; [reflexivity|].
        unfold spec_extract, first_success, strategy_direct, strategy_fence,
          strategy_brace.
        rewrite Hf, Hb. destruct (JSON_parse text); reflexivity.
Qed.

(** The theorem at a fenced object inside prose that holds braces, for a
    regex-first block, and at a fenced object followed by a second object,
    for an OpenRouter block of ai/search. *)
Lemma extractors_as_written_witness :
  extractor AiRecommendations Claude
    (js "Sure: " ++ fence_open ++ jsq " {'a':1} " ++ fence_close
     ++ js " I hope {this} helps")
  = Some (obj [("a", JInt 1)]%string)
  /\ extractor AiSearch Claude text_fence_then_braces = None.
Proof.
  assert (Hblock : AiRecommendations <> AiSearch \/ Claude = Gemini \/ Claude = Groq)
    by (left; discriminate).
  assert (Etext : text_fence_then_braces
                  = fence_open ++ jsq " {'a':1} " ++ fence_close ++ jsq " or {'b':2}")
    by (vm_compute; reflexivity).
  destruct (extractors_as_written AiRecommendations Claude
              (js "Sure: " ++ fence_open ++ jsq " {'a':1} " ++ fence_close
               ++ js " I hope {this} helps")) as [_ [_ H]].
  destruct (H Hblock) as [_ [H1 _]].
  destruct (extractors_as_written AiSearch Claude text_fence_then_braces)
    as [_ [K _]].
  destruct (K eq_refl (or_introl eq_refl)) as [_ [_ [K1 _]]].
  split.
  - rewrite (H1 (js "Sure: ") (jsq " {'a':1} ") (js " I hope {this} helps")
               eq_refl eq_refl eq_refl).
    vm_compute. reflexivity.
  - rewrite (K1 (jsq " {'a':1} ") (jsq " or {'b':2}") Etext).
    vm_compute. reflexivity.
Defined.

(** A text that parses as an object starts, after white space, with an
    opening brace. *)
Lemma parsed_object_starts_with_brace text v :
  JSON_parse text = Some v -> is_object v = true ->
  exists x, skip_ws text = 123%N :: x.
Proof.
  unfold JSON_parse. intros H Hobj.
  destruct (parse_value _ text) as [[v' r]|] eqn:E; [|discriminate].
  destruct (skip_ws r); [|discriminate]. injection H as ->.
  destruct (parse_local (2 * List.length text + 2)) as [HV _].
  destruct (HV _ _ _ E) as [c [-> [Hne [Ho _]]]].
  destruct (Ho Hobj) as [[x Hx] _].
  exists (x ++ r). rewrite (skip_ws_app c r Hne), Hx. reflexivity.
Qed.

Lemma skip_ws_before_backtick pre rest x :
  no_open_brace pre = true -> skip_ws (pre ++ 96%N :: rest) <> 123%N :: x.
Proof.
  induction pre as [|c pre IH]; intros Hpre; cbn [app skip_ws].
  - change (is_json_ws 96) with false. cbv iota. discriminate.
  - cbn [no_open_brace forallb] in Hpre. apply andb_true_iff in Hpre as [Hc Hpre].
    destruct (is_json_ws c); [now apply IH|].
    intros [= ->]. discriminate Hc.
Qed.

(** X7: a json code fence whose interior holds no backtick, after text
    without backticks.  Every regex-first provider block extracts
    [JSON.parse] of the trimmed interior, whatever follows the fence (an
    empty interior, like one that does not parse, gives nothing).  A text
    that begins with the fence never parses directly.  The OpenRouter blocks
    of ai/search have no fence strategy: when the interior is one brace span
    and the surrounding text holds no brace, they extract the direct parse of
    the whole text if there is one, which is then no object, and otherwise
    the same value as the other blocks. *)
Theorem fenced_block_is_extracted pre t post :
  no_backtick pre = true ->
  no_backtick t = true ->
  let text := pre ++ fence_open ++ t ++ fence_close ++ post in
  (forall ep p, ep <> AiSearch \/ p = Gemini \/ p = Groq ->
     extractor ep p text = JSON_parse (trim t))
  /\ JSON_parse (fence_open ++ t ++ fence_close ++ post) = None
  /\ (forall p ws1 mid ws2,
        p = Claude \/ p = GPT ->
        t = ws1 ++ [123%N] ++ mid ++ [125%N] ++ ws2 ->
        trim t = [123%N] ++ mid ++ [125%N] ->
        no_open_brace pre = true -> no_open_brace ws1 = true ->
        no_close_brace ws2 = true -> no_close_brace post = true ->
        extractor AiSearch p text
        = match JSON_parse text with
          | Some v => Some v
          | None => JSON_parse (trim t)
          end
        /\ forall v, JSON_parse text = Some v -> is_object v = false).
Proof.
  intros Hpre Ht text. split; [|split].
  - intros ep p Hp.
    assert (E : extractor ep p = extract_regex_then_raw).
    { destruct Hp as [Hep|[-> | ->]].
      - destruct ep; [contradiction| | |]; reflexivity.
      - destruct ep; reflexivity.
      - destruct ep; reflexivity. }
    rewrite E. now apply regex_first_fenced.
  - exact (backtick_not_json (js "``json" ++ t ++ fence_close ++ post)).
  - intros p ws1 mid ws2 Hp Heq Htrimmed Hp0 Hw1 Hw2 Hpost. split.
    + assert (E : extractor AiSearch p = extract_direct_then_brace)
        by (destruct Hp as [-> | ->]; reflexivity).
      rewrite E. unfold extract_direct_then_brace.
      destruct (JSON_parse text); [reflexivity|].
      assert (Es : text = (pre ++ fence_open ++ ws1) ++ [123%N] ++ mid ++ [125%N]
                          ++ (ws2 ++ fence_close ++ post)).
      { unfold text. rewrite Heq.
        repeat (rewrite <- ?app_assoc; cbn [app]). reflexivity. }
      rewrite Es, match_brace_span.
      * cbn [whole]. now rewrite Htrimmed.
      * unfold no_open_brace in *. rewrite !forallb_app. now rewrite Hp0, Hw1.
      * unfold no_close_brace in *. rewrite !forallb_app. now rewrite Hw2, Hpost.
    + intros v Hv. destruct (is_object v) eqn:Ho; [|reflexivity].
      destruct (parsed_object_starts_with_brace text v Hv Ho) as [x Hx].
      exfalso. revert Hx. unfold text.
      change (fence_open ++ t ++ fence_close ++ post)
        with (96%N :: js "``json" ++ t ++ fence_close ++ post).
      now apply skip_ws_before_backtick.
Qed.

(** The theorem at a fenced object inside prose, for a regex-first block,
    and at a fenced object inside a JSON string, where an OpenRouter block of
    ai/search extracts the string. *)
Lemma fenced_block_is_extracted_witness :
  extractor AiRecommendations Gemini
    (js "Sure: " ++ fence_open ++ jsq " {'a':1} " ++ fence_close
     ++ js " I hope {this} helps")
  = Some (obj [("a", JInt 1)]%string)
  /\ extractor AiSearch Claude
       (jsq "'" ++ fence_open ++ js "{}" ++ fence_close ++ jsq "'")
     = Some (JStr (fence_open ++ js "{}" ++ fence_close))
  /\ extractor AiSearch Gemini
       (jsq "'" ++ fence_open ++ js "{}" ++ fence_close ++ jsq "'")
     = Some (JObj []).
Proof.
  destruct (fenced_block_is_extracted (js "Sure: ") (jsq " {'a':1} ")
              (js " I hope {this} helps") eq_refl eq_refl) as [H1 _].
  destruct (fenced_block_is_extracted (jsq "'") (js "{}") (jsq "'")
              eq_refl eq_refl) as [H2 [_ H3]].
  split; [|split].
  - rewrite (H1 AiRecommendations Gemini (or_intror (or_introl eq_refl))).
    vm_compute. reflexivity.
  - rewrite (proj1 (H3 Claude [] [] [] (or_introl eq_refl) eq_refl eq_refl
                      eq_refl eq_refl eq_refl eq_refl)).
    vm_compute. reflexivity.
  - rewrite (H2 AiSearch Gemini (or_intror (or_introl eq_refl))).
    vm_compute. reflexivity.
Defined.

(* ================================================================== *)
(** ** Integers as decimal text *)
(* ================================================================== *)

Lemma digit_val_range c d : digit_val c = Some d -> (48 <= c <= 57)%N /\ d = Z.of_N (c - 48).
Proof.
  unfold digit_val.
  destruct (N.leb_spec 48 c); destruct (N.leb_spec c 57); simpl;
    try discriminate.
  intros [= <-]. auto.
Qed.

Lemma digit_char d :
  (0 <= d <= 9)%Z -> digit_val (48 + Z.to_N d) = Some d.
Proof.
  intros H. unfold digit_val.
  destruct (N.leb_spec 48 (48 + Z.to_N d)); [|lia].
  destruct (N.leb_spec (48 + Z.to_N d) 57); [|lia].
  cbn [andb]. f_equal. lia.
Qed.

Lemma digit_is_plain c :
  digit_val c <> None ->
  is_js_whitespace c = false /\ (c =? 45)%N = false /\ (c =? 43)%N = false
  /\ (c =? 120)%N = false /\ (c =? 88)%N = false.
Proof.
  intros H. destruct (digit_val c) as [d|] eqn:E; [|contradiction].
  apply digit_val_range in E as [[H1 H2] _].
  unfold is_js_whitespace. simpl.
  repeat match goal with
         | |- context [N.eqb c ?k] => destruct (N.eqb_spec c k); [lia|]
         end.
  destruct (N.leb_spec 8192 c); [lia|]. simpl. auto.
Qed.


Lemma read_digits_all s : forall acc count,
  forallb (fun ch => match digit_val ch with Some _ => true | None => false end) s = true ->
  read_digits s acc count = (digits_value s acc, (count + List.length s)%nat, []).
Proof.
  induction s as [|c s IH]; intros acc count H; simpl.
  - now rewrite Nat.add_0_r.
  - simpl in H. apply andb_true_iff in H as [Hc Hs].
    destruct (digit_val c) as [d|] eqn:E; [|discriminate].
    apply digit_val_range in E as [_ ->].
    rewrite (IH _ _ Hs). unfold digits_value. simpl.
    now rewrite Nat.add_succ_r.
Qed.

Lemma digits_before_app fuel : forall n acc,
  digits_before fuel n acc = digits_before fuel n [] ++ acc.
Proof.
  induction fuel as [|fuel IH]; intros n acc; simpl; [reflexivity|].
  destruct (n <? 10)%Z; [reflexivity|].
  rewrite (IH _ (_ :: acc)), (IH _ [_]), <- app_assoc. reflexivity.
Qed.

Lemma digits_before_spec fuel : forall n,
  (0 <= n < 2 ^ Z.of_nat fuel)%Z ->
  forallb (fun ch => match digit_val ch with Some _ => true | None => false end)
    (digits_before fuel n []) = true
  /\ digits_value (digits_before fuel n []) 0 = n.
Proof.
  induction fuel as [|fuel IH]; intros n Hn.
  - simpl in *. split; [reflexivity|]. unfold digits_value. simpl. lia.
  - cbn [digits_before].
    assert (Hd : (0 <= n mod 10 <= 9)%Z) by (pose proof (Z.mod_pos_bound n 10); lia).
    destruct (Z.ltb_spec n 10).
    + cbn [forallb]. rewrite (digit_char _ Hd). split; [reflexivity|].
      unfold digits_value. cbn [fold_left]. rewrite Z.mod_small by lia. lia.
    + rewrite digits_before_app.
      assert (Hq : (0 <= n / 10 < 2 ^ Z.of_nat fuel)%Z).
      { split; [apply Z.div_pos; lia|].
        apply Z.div_lt_upper_bound; [lia|].
        rewrite Nat2Z.inj_succ, Z.pow_succ_r in Hn by lia. lia. }
      destruct (IH _ Hq) as [IH1 IH2]. split.
      * rewrite forallb_app, IH1. cbn [forallb andb].
        now rewrite (digit_char _ Hd).
      * unfold digits_value in *. rewrite fold_left_app, IH2. cbn [fold_left].
        pose proof (Z.div_mod n 10). lia.
Qed.

Lemma digits_before_head fuel n :
  exists c r, digits_before (S fuel) n [] = c :: r.
Proof.
  cbn [digits_before]. destruct (n <? 10)%Z; [eauto|].
  rewrite digits_before_app.
  destruct (digits_before fuel (n / 10) []); simpl; eauto.
Qed.

(** The text of a natural number: digits only, at least one, with the
    number as value. *)
Lemma natural_text n :
  (0 <= n)%Z ->
  exists c r,
    Number_toString n = c :: r
    /\ forallb (fun ch => match digit_val ch with Some _ => true | None => false end)
         (c :: r) = true
    /\ digits_value (c :: r) 0 = n.
Proof.
  intros Hn. unfold Number_toString.
  destruct (Z.ltb_spec n 0); [lia|].
  destruct (digits_before_head (Z.to_nat (Z.log2 n)) n) as [c [r E]].
  exists c, r. split; [exact E|]. rewrite <- E.
  apply digits_before_spec. split; [lia|].
  rewrite Nat2Z.inj_succ, Z2Nat.id by apply Z.log2_nonneg.
  destruct (Z.eq_dec n 0) as [->|]; [reflexivity|].
  apply Z.log2_spec. lia.
Qed.

Lemma parseInt10_digits c r :
  forallb (fun ch => match digit_val ch with Some _ => true | None => false end)
    (c :: r) = true ->
  parseInt10 (c :: r) = JInt (digits_value (c :: r) 0)
  /\ parseInt (c :: r) = JInt (digits_value (c :: r) 0).
Proof.
  intros H.
  assert (Hc : digit_val c <> None).
  { simpl in H. destruct (digit_val c); [discriminate|discriminate]. }
  destruct (digit_is_plain c Hc) as [W [M [P _]]].
  assert (E10 : parseInt10 (c :: r) = JInt (digits_value (c :: r) 0)).
  { unfold parseInt10. cbn [trimStart]. rewrite W, M, P.
    rewrite (read_digits_all _ 0%Z O H). reflexivity. }
  split; [exact E10|].
  unfold parseInt. cbn [trimStart]. rewrite W, M, P.
  destruct r as [|x r']; [exact E10|].
  assert (Hx : digit_val x <> None).
  { simpl in H. destruct (digit_val c); [|discriminate].
    destruct (digit_val x); [discriminate|discriminate]. }
  destruct (digit_is_plain x Hx) as [_ [_ [_ [X1 X2]]]].
  rewrite X1, X2, andb_false_r. exact E10.
Qed.

Lemma parseInt_toString n :
  parseInt (Number_toString n) = JInt n /\ parseInt10 (Number_toString n) = JInt n.
Proof.
  destruct (Z.ltb_spec n 0) as [Hneg|Hpos].
  - assert (E : Number_toString n = 45%N :: Number_toString (- n)).
    { unfold Number_toString. destruct (Z.ltb_spec n 0); [|lia].
      destruct (Z.ltb_spec (- n) 0); [lia|reflexivity]. }
    destruct (natural_text (- n)) as [c [r [E' [D V]]]]; [lia|].
    rewrite E, E'.
    assert (Hc : digit_val c <> None).
    { simpl in D. destruct (digit_val c); [discriminate|discriminate]. }
    destruct (digit_is_plain c Hc) as [_ [_ [_ [X1 X2]]]].
    assert (E10 : parseInt10 (45%N :: c :: r) = JInt n).
    { unfold parseInt10. cbn [trimStart].
      change (is_js_whitespace 45) with false. cbv iota.
      change (45 =? 45)%N with true. cbv iota.
      rewrite (read_digits_all _ 0%Z O D), V. cbn [Nat.add List.length].
      now rewrite Z.opp_involutive. }
    split; [|exact E10].
    unfold parseInt. cbn [trimStart].
    change (is_js_whitespace 45) with false. cbv iota.
    change (45 =? 45)%N with true. cbv iota.
    destruct r as [|x r']; [exact E10|].
    assert (Hx : digit_val x <> None).
    { simpl in D. destruct (digit_val c); [|discriminate].
      destruct (digit_val x); [discriminate|discriminate]. }
    destruct (digit_is_plain x Hx) as [_ [_ [_ [Y1 Y2]]]].
    rewrite Y1, Y2, andb_false_r. exact E10.
  - destruct (natural_text n Hpos) as [c [r [E [D V]]]].
    rewrite E. destruct (parseInt10_digits c r D) as [A B].
    now rewrite A, B, V.
Qed.

(** The text of a positive number does not start with a zero. *)
Lemma digits_before_nonzero fuel : forall n,
  (0 < n < 2 ^ Z.of_nat fuel)%Z ->
  exists c r, digits_before fuel n [] = c :: r /\ (c =? 48)%N = false.
Proof.
  induction fuel as [|fuel IH]; intros n Hn.
  - simpl in Hn. lia.
  - cbn [digits_before]. destruct (Z.ltb_spec n 10).
    + eexists _, _. split; [reflexivity|].
      apply N.eqb_neq. rewrite Z.mod_small by lia. lia.
    + rewrite digits_before_app.
      assert (Hq : (0 < n / 10 < 2 ^ Z.of_nat fuel)%Z).
      { split; [apply Z.div_str_pos; lia|].
        apply Z.div_lt_upper_bound; [lia|].
        rewrite Nat2Z.inj_succ, Z.pow_succ_r in Hn by lia. lia. }
      destruct (IH _ Hq) as [c [r [E Hc]]].
      rewrite E. exists c. eexists. split; [reflexivity|exact Hc].
Qed.

(** The number literal that is the text of a natural number. *)
Lemma parse_number_natural n (neg : bool) :
  (0 <= n)%Z ->
  parse_number ((if neg then [45%N] else @nil N) ++ Number_toString n)
  = Some (inject_Z (if neg then - n else n), []).
Proof.
  intros Hn.
  destruct (natural_text n Hn) as [c [r [E [D V]]]].
  assert (Hc : digit_val c <> None).
  { simpl in D. destruct (digit_val c); [discriminate|discriminate]. }
  destruct (digit_is_plain c Hc) as [_ [M _]].
  assert (Hint : match c :: r with
                 | c0 :: r0 =>
                     if (c0 =? 48)%N then Some (0%Z, r0)
                     else match digit_val c0 with
                          | Some _ =>
                              let '(m, _, r') := read_digits (c :: r) 0%Z O in
                              Some (m, r')
                          | None => None
                          end
                 | [] => None
                 end = Some (n, [])).
  { destruct (Z.eq_dec n 0) as [->|Hnz].
    - change (Number_toString 0) with [48%N] in E. injection E as <- <-. reflexivity.
    - assert (H48 : (c =? 48)%N = false).
      { unfold Number_toString in E. destruct (Z.ltb_spec n 0); [lia|].
        destruct (digits_before_nonzero (S (Z.to_nat (Z.log2 n))) n) as [c' [r' [E' H']]].
        - split; [lia|].
          rewrite Nat2Z.inj_succ, Z2Nat.id by apply Z.log2_nonneg.
          apply Z.log2_spec. lia.
        - rewrite E in E'. now injection E' as -> ->. }
      rewrite H48. destruct (digit_val c); [|contradiction].
      rewrite (read_digits_all _ 0%Z O D), V. reflexivity. }
  unfold parse_number. rewrite E.
  destruct neg; cbn [app].
  - change (45 =? 45)%N with true. cbv iota. rewrite Hint.
    cbn -[decimal]. unfold decimal. cbn [Z.leb Z.compare Z.sub Z.opp Z.add].
    change (0 <=? 0)%Z with true. cbv iota.
    now rewrite Z.pow_0_r, Z.mul_1_r.
  - rewrite M. rewrite Hint.
    cbn -[decimal]. unfold decimal.
    change (0 <=? 0 - 0)%Z with true. cbv iota.
    change (0 - 0)%Z with 0%Z.
    now rewrite Z.pow_0_r, Z.mul_1_r.
Qed.

(** [JSON.parse] reads the text of a safe integer as that integer. *)
Lemma JSON_parse_integer_text n :
  (Z.abs n <= MAX_SAFE_INTEGER)%Z ->
  JSON_parse (Number_toString n) = Some (JInt n).
Proof.
  intros Hn. unfold MAX_SAFE_INTEGER in Hn.
  assert (Hsafe : binary64 (inject_Z n) = JInt n)
    by (apply binary64_safe_integer; lia).
  assert (Hnum : parse_number (Number_toString n) = Some (inject_Z n, [])).
  { destruct (Z.ltb_spec n 0) as [Hneg|Hpos].
    - assert (E : Number_toString n = [45%N] ++ Number_toString (- n)).
      { unfold Number_toString. destruct (Z.ltb_spec n 0); [|lia].
        destruct (Z.ltb_spec (- n) 0); [lia|reflexivity]. }
      rewrite E.
      rewrite (parse_number_natural (- n) true) by lia.
      now rewrite Z.opp_involutive.
    - exact (parse_number_natural n false Hpos). }
  assert (Hhead : exists c r, Number_toString n = c :: r
                              /\ (c = 45%N \/ digit_val c <> None)).
  { destruct (Z.ltb_spec n 0) as [Hneg|Hpos].
    - exists 45%N. eexists. split; [|now left].
      unfold Number_toString. destruct (Z.ltb_spec n 0); [reflexivity|lia].
    - destruct (natural_text n Hpos) as [c [r [E [D _]]]].
      exists c, r. split; [exact E|]. right.
      simpl in D. destruct (digit_val c); [discriminate|discriminate]. }
  destruct Hhead as [c [r [E Hc]]].
  unfold JSON_parse. rewrite E in *. cbn [List.length Nat.mul Nat.add].
  rewrite Nat.add_comm. cbn [Nat.add parse_value].
  assert (Hws : is_json_ws c = false).
  { destruct Hc as [->|Hc]; [reflexivity|].
    destruct (digit_val c) as [d|] eqn:Ed; [|contradiction].
    apply digit_val_range in Ed as [[H1 H2] _].
    unfold is_json_ws. cbn [existsb].
    repeat match goal with
           | |- context [N.eqb c ?k] => destruct (N.eqb_spec c k); [lia|]
           end.
    reflexivity. }
  cbn [skip_ws]. rewrite Hws.
  assert (H123 : (c =? 123)%N = false /\ (c =? 91)%N = false /\ (c =? 34)%N = false).
  { destruct Hc as [->|Hc]; [repeat split; reflexivity|].
    destruct (digit_val c) as [d|] eqn:Ed; [|contradiction].
    apply digit_val_range in Ed as [[H1 H2] _].
    repeat split; apply N.eqb_neq; lia. }
  destruct H123 as [-> [-> ->]].
  destruct (keyword_not_number c r Hc) as [-> [-> ->]].
  rewrite Hnum, Hsafe. reflexivity.
Qed.

(** X16: a safe integer, of magnitude at most [2^53 - 1], is a Number value
    (rounding to binary64 leaves it as it is), and its decimal text reads
    back as itself: with [parseInt] without a radix as with radix 10, and
    with [JSON.parse].  The text of a negative number is a minus sign before
    the text of its magnitude, and the text of a natural number holds digits
    only. *)
Theorem integer_text_round_trip n :
  (Z.abs n <= MAX_SAFE_INTEGER)%Z ->
  binary64 (inject_Z n) = JInt n
  /\ parseInt (Number_toString n) = JInt n
  /\ parseInt10 (Number_toString n) = JInt n
  /\ JSON_parse (Number_toString n) = Some (JInt n)
  /\ ((n < 0)%Z -> Number_toString n = 45%N :: Number_toString (- n))
  /\ ((0 <= n)%Z -> Routes.is_digits (Number_toString n) = true).
Proof.
  intros Hn.
  split; [apply binary64_safe_integer; unfold MAX_SAFE_INTEGER in Hn; lia|].
  split; [apply parseInt_toString|]. split; [apply parseInt_toString|].
  split; [now apply JSON_parse_integer_text|]. split.
  - intros H. unfold Number_toString.
    destruct (Z.ltb_spec n 0); [|lia].
    destruct (Z.ltb_spec (- n) 0); [lia|reflexivity].
  - intros H. destruct (natural_text n H) as [c [r [-> [D _]]]].
    unfold Routes.is_digits. now rewrite D.
Qed.

Lemma integer_text_round_trip_witness :
  JSON_parse (Number_toString (-716429)) = Some (JInt (-716429))
  /\ Number_toString (-716429) = 45%N :: Number_toString 716429
  /\ Routes.is_digits (Number_toString 716429) = true.
Proof.
  assert (H1 : (Z.abs (-716429) <= MAX_SAFE_INTEGER)%Z) by (vm_compute; discriminate).
  assert (H2 : (Z.abs 716429 <= MAX_SAFE_INTEGER)%Z) by (vm_compute; discriminate).
  destruct (integer_text_round_trip (-716429) H1) as [_ [_ [_ [Hp [Hm _]]]]].
  destruct (integer_text_round_trip 716429 H2) as [_ [_ [_ [_ [_ Hd]]]]].
  split; [exact Hp|]. split; [apply Hm; reflexivity|apply Hd; discriminate].
Defined.

(* ================================================================== *)
(** ** The recipe and wine routes *)
(* ================================================================== *)


Lemma parseInt10_cases s : parseInt10 s = JNaN \/ exists n, parseInt10 s = JInt n.
Proof.
  unfold parseInt10.
  destruct (match trimStart s with
            | [] => (false, trimStart s)
            | c :: r => if (c =? 45)%N then (true, r)
                        else if (c =? 43)%N then (false, r) else (false, trimStart s)
            end) as [neg t1].
  destruct (read_digits t1 0%Z O) as [[m n] r].
  destruct n; [now left|right; eauto].
Qed.

Lemma lt_JInt n k : Routes.lt (JInt n) k = (n <? k)%Z.
Proof. unfold Routes.lt, JInt, Qgtb. simpl. now rewrite !Z.mul_1_r. Qed.

Lemma gt_JInt n k : Routes.gt (JInt n) k = (k <? n)%Z.
Proof. unfold Routes.gt, JInt, Qgtb. simpl. now rewrite !Z.mul_1_r. Qed.

Lemma le_JInt n k : Routes.le (JInt n) k = (n <=? k)%Z.
Proof.
  unfold Routes.le, JInt, Qgtb. simpl. rewrite !Z.mul_1_r.
  now rewrite Z.leb_antisym.
Qed.

Lemma trimStart_fixed s : trimStart (trimStart s) = trimStart s.
Proof.
  induction s as [|c s IH]; simpl; [reflexivity|].
  destruct (is_js_whitespace c) eqn:E; [exact IH|]. simpl. now rewrite E.
Qed.

Lemma trimStart_suffix s : exists ws, s = ws ++ trimStart s.
Proof.
  induction s as [|c s [ws IH]]; simpl; [now exists []|].
  destruct (is_js_whitespace c).
  - exists (c :: ws). simpl. now f_equal.
  - now exists [].
Qed.

Lemma trimStart_head s c r :
  trimStart s = c :: r -> is_js_whitespace c = false.
Proof.
  induction s as [|d s IH]; simpl; [discriminate|].
  destruct (is_js_whitespace d) eqn:E; [exact IH|].
  now intros [= <- <-].
Qed.

Lemma trimStart_stop c r :
  is_js_whitespace c = false -> trimStart (c :: r) = c :: r.
Proof. intros H. simpl. now rewrite H. Qed.

(** A prefix of a text that starts with no white space starts with none. *)
Lemma trimStart_prefix p q :
  trimStart (p ++ q) = p ++ q -> p <> [] -> trimStart p = p.
Proof.
  destruct p as [|c p]; [contradiction|]. intros H _.
  apply trimStart_stop. apply (trimStart_head _ _ _ H).
Qed.

Lemma trim_fixed s : trim (trim s) = trim s.
Proof.
  assert (Hend : trimStart (rev (trim s)) = rev (trim s)).
  { unfold trim, trimEnd. rewrite rev_involutive. apply trimStart_fixed. }
  assert (Hstart : trimStart (trim s) = trim s).
  { destruct (trim s) as [|c r] eqn:E; [reflexivity|]. rewrite <- E.
    unfold trim, trimEnd in *.
    destruct (trimStart_suffix (rev (trimStart s))) as [ws Hws].
    apply (f_equal (@rev N)) in Hws. rewrite rev_involutive, rev_app_distr in Hws.
    apply (trimStart_prefix _ (rev ws)).
    - rewrite <- Hws. apply trimStart_fixed.
    - rewrite E. discriminate. }
  unfold trim at 1. rewrite Hstart. unfold trimEnd. rewrite Hend.
  apply rev_involutive.
Qed.

Lemma catch_all_status path e :
  status (Routes.catch_all path e) = 402%Z \/ status (Routes.catch_all path e) = 500%Z.
Proof.
  unfold Routes.catch_all, Routes.statusCode. simpl.
  destruct (_ || _); auto.
Qed.

Lemma respond_status path r resp :
  match Routes.respond r with
  | Routes.Ok response => response
  | Routes.Throws error => Routes.catch_all path error
  end = resp ->
  status resp = 200%Z \/ status resp = 402%Z \/ status resp = 500%Z.
Proof.
  destruct r as [v|e]; simpl; intros <-; [now left|].
  right. apply catch_all_status.
Qed.

Lemma route_of_recipes x rest :
  Routes.route_of (js "recipes" :: x :: rest)
  = if str_eqb x (js "search") then Routes.RecipesSearch
    else if str_eqb x (js "autocomplete") then Routes.RecipesAutocomplete
    else if str_eqb x (js "favourite") then Routes.RecipesFavourite
    else if str_truthy x && Routes.is_digits x && Routes.seg_is rest 0 "information"
    then Routes.RecipeInformation
    else if str_truthy x && Routes.is_digits x && Routes.seg_is rest 0 "similar"
    then Routes.RecipeSimilar
    else if str_truthy x && Routes.is_digits x && Routes.seg_is rest 0 "summary"
    then Routes.RecipeSummary
    else if str_eqb x (js "images") then Routes.RecipesImages
    else if str_eqb x (js "notes") then Routes.RecipesNotes
    else Routes.NotFound.
Proof.
  unfold Routes.route_of, Routes.seg_is, Routes.seg_truthy, Routes.seg_digits.
  cbn [nth_error List.length Nat.eqb].
  change (str_eqb (js "recipes") (js "recipes")) with true.
  change (str_eqb (js "recipes") (js "ai")) with false.
  change (str_eqb (js "recipes") (js "collections")) with false.
  change (str_eqb (js "recipes") (js "food")) with false.
  change (str_eqb (js "recipes") (js "meal-plan")) with false.
  change (str_eqb (js "recipes") (js "shopping-list")) with false.
  cbn [andb].
  repeat match goal with
         | |- context [if ?b then _ else _] =>
             match b with
             | context [if _ then _ else _] => fail 1
             | _ => destruct b
             end
         end; reflexivity.
Qed.

(** X11: recipes/autocomplete calls [autocompleteRecipes] at most once, and
    only with the trimmed query, which has at least two code units and no
    white space left at either end, and with a whole number from 1 to 25 (10
    when the request names none); every other request is answered 400 with
    no call.  Segments after the second do not matter. *)
Theorem autocomplete_arguments rest req c resp calls :
  Routes.GET (js "recipes" :: js "autocomplete" :: rest) req c = Some (resp, calls) ->
  (calls = [] /\ status resp = 400%Z)
  \/ (exists raw number,
        param req "query" = Some raw
        /\ calls = [Routes.AutocompleteRecipes (trim raw) (JInt number)]
        /\ (2 <= str_length (trim raw))%Z
        /\ trim (trim raw) = trim raw
        /\ (1 <= number <= 25)%Z
        /\ (param req "number" = None -> number = 10%Z)
        /\ (status resp = 200%Z \/ status resp = 402%Z \/ status resp = 500%Z)).
Proof.
  unfold Routes.GET.
  change (Routes.route_of (js "recipes" :: js "autocomplete" :: rest))
    with Routes.RecipesAutocomplete.
  cbv beta iota. unfold Routes.recipes_autocomplete, Routes.bad_request.
  destruct (param req "query") as [raw|] eqn:Eq; cbn [opt_truthy str_or negb orb];
    [|intros [= <- <-]; now left].
  destruct (str_truthy raw) eqn:Et; cbn [negb orb];
    [|intros [= <- <-]; now left].
  destruct (Z.ltb_spec (str_length (trim raw)) 2);
    [intros [= <- <-]; now left|].
  destruct (parseInt10_cases (str_or (param req "number") (js "10")))
    as [En|[n En]]; rewrite En; cbn [Routes.isNaN orb];
    [intros [= <- <-]; now left|].
  rewrite lt_JInt, gt_JInt.
  destruct (Z.ltb_spec n 1); cbn [orb]; [intros [= <- <-]; now left|].
  destruct (Z.ltb_spec 25 n); [intros [= <- <-]; now left|].
  cbn [fst snd]. intros [= Hresp <-]. right. exists raw, n.
  split; [reflexivity|]. split; [reflexivity|]. split; [assumption|].
  split; [apply trim_fixed|]. split; [lia|]. split.
  - intros Hnone. rewrite Hnone in En.
    change (parseInt10 (str_or None (js "10"))) with (JInt 10) in En.
    unfold JInt, inject_Z in En. congruence.
  - exact (respond_status _ _ _ Hresp).
Qed.

Lemma autocomplete_arguments_witness :
  exists raw number,
    param (mkRequest [(js "query", js "  chick "); (js "number", js "7up")]) "query"
    = Some raw
    /\ [Routes.AutocompleteRecipes (js "chick") (JInt 7)]
       = [Routes.AutocompleteRecipes (trim raw) (JInt number)]
    /\ (1 <= number <= 25)%Z.
Proof.
  destruct (autocomplete_arguments []
              (mkRequest [(js "query", js "  chick "); (js "number", js "7up")])
              (sample_collaborators [] (Routes.Ok (JArr [])))
              (jsonResponse (JArr []) None)
              [Routes.AutocompleteRecipes (js "chick") (JInt 7)] eq_refl)
    as [[H _]|[raw [number [H1 [H2 [_ [_ [H3 _]]]]]]]].
  - discriminate H.
  - exists raw, number. split; [exact H1|]. split; [exact H2|exact H3].
Defined.

Lemma digits_value_zero s : forall acc,
  (0 <= acc)%Z ->
  forallb (fun ch => match digit_val ch with Some _ => true | None => false end) s = true ->
  (digits_value s acc <=? 0)%Z = (acc <=? 0)%Z && forallb (N.eqb 48) s.
Proof.
  induction s as [|c s IH]; intros acc Hacc H.
  - unfold digits_value. simpl. now rewrite andb_true_r.
  - cbn [forallb] in H |- *. apply andb_true_iff in H as [Hc Hs].
    destruct (digit_val c) as [d|] eqn:E; [|discriminate].
    apply digit_val_range in E as [[H1 H2] _].
    unfold digits_value in *. cbn [fold_left]. rewrite IH by (assumption || lia).
    rewrite andb_assoc. f_equal.
    destruct (N.eqb_spec 48 c) as [<-|Hne].
    + rewrite andb_true_r. change (Z.of_N (48 - 48)) with 0%Z.
      destruct (Z.leb_spec acc 0); destruct (Z.leb_spec (10 * acc + 0) 0);
        try reflexivity; lia.
    + rewrite andb_false_r.
      destruct (Z.leb_spec (10 * acc + Z.of_N (c - 48)) 0); [lia|reflexivity].
Qed.

(** On an id made of digits, the id check fails exactly for zeros. *)
Lemma invalid_recipe_id_zeros id :
  Routes.is_digits id = true ->
  Routes.invalid_recipe_id id = forallb (N.eqb 48) id.
Proof.
  unfold Routes.is_digits, Routes.invalid_recipe_id. intros H.
  apply andb_true_iff in H as [Hne Hd].
  destruct id as [|c r]; [discriminate|].
  rewrite (proj1 (parseInt10_digits c r Hd)).
  cbn [Routes.isNaN JInt orb]. fold (JInt (digits_value (c :: r) 0)).
  rewrite le_JInt. now rewrite digits_value_zero by (assumption || lia).
Qed.

Lemma digits_not_reserved id :
  Routes.is_digits id = true -> ~ In id (map js reserved_segments).
Proof.
  intros H Hin. simpl in Hin.
  repeat (destruct Hin as [<-|Hin]; [discriminate H|]).
  exact Hin.
Qed.

Lemma not_reserved id :
  ~ In id (map js reserved_segments) ->
  str_eqb id (js "search") = false /\ str_eqb id (js "autocomplete") = false
  /\ str_eqb id (js "favourite") = false /\ str_eqb id (js "images") = false
  /\ str_eqb id (js "notes") = false.
Proof.
  intros H.
  assert (K : forall name, In name reserved_segments -> str_eqb id (js name) = false).
  { intros name Hn. destruct (str_eqb id (js name)) eqn:E; [|reflexivity].
    apply str_eqb_eq in E. exfalso. apply H. rewrite E. now apply in_map. }
  repeat split; apply K; simpl; auto 10.
Qed.

Lemma is_digits_truthy id : Routes.is_digits id = true -> str_truthy id = true.
Proof. unfold Routes.is_digits. intros H. now apply andb_true_iff in H. Qed.

(** X12: the three routes under recipes/[id].  An id made of digits is
    answered 400 "Invalid recipe ID" without any call exactly when all its
    digits are zeros; otherwise the id goes to the recipe API as it was
    written, leading zeros included (the similar route may still refuse the
    number).  An id that is not made of digits, and is not the name of
    another route, is answered 404 "Not found", not 400. *)
Theorem recipe_id_routes id action rest req c :
  In action id_actions ->
  (Routes.is_digits id = true ->
   exists resp calls,
     Routes.GET (js "recipes" :: id :: js action :: rest) req c = Some (resp, calls)
     /\ if forallb (N.eqb 48) id
        then resp = jsonResponse (error_body "Invalid recipe ID") (Some 400%Z)
             /\ calls = []
        else (action = "similar"%string /\ calls = []
              /\ resp = jsonResponse (error_body "Number must be between 1 and 100")
                          (Some 400%Z))
             \/ (exists call, calls = [call] /\ call_recipeId call = Some id
                 /\ (status resp = 200%Z \/ status resp = 402%Z
                     \/ status resp = 500%Z)))
  /\ (Routes.is_digits id = false ->
      ~ In id (map js reserved_segments) ->
      Routes.GET (js "recipes" :: id :: js action :: rest) req c
      = Some (jsonResponse (error_body "Not found") (Some 404%Z), [])).
Proof.
  intros Hact. split.
  - intros Hd.
    destruct (not_reserved id (digits_not_reserved id Hd)) as [N1 [N2 [N3 _]]].
    pose proof (is_digits_truthy id Hd) as Ht.
    pose proof (invalid_recipe_id_zeros id Hd) as Hz.
    unfold Routes.GET. rewrite route_of_recipes, N1, N2, N3, Ht, Hd.
    cbn [andb]. simpl in Hact.
    destruct Hact as [<-|[<-|[<-|[]]]].
    + change (Routes.seg_is (js "information" :: rest) 0 "information") with true.
      cbv beta iota. cbn [nth].
      unfold Routes.recipe_information, Routes.bad_request. rewrite Hz.
      destruct (forallb (N.eqb 48) id); cbn [fst snd].
      * eexists _, _. split; [reflexivity|]. now split.
      * eexists _, _. split; [reflexivity|]. right. eexists. split; [reflexivity|].
        split; [reflexivity|]. exact (respond_status _ _ _ eq_refl).
    + change (Routes.seg_is (js "similar" :: rest) 0 "information") with false.
      change (Routes.seg_is (js "similar" :: rest) 0 "similar") with true.
      cbv beta iota. cbn [nth].
      unfold Routes.recipe_similar, Routes.bad_request. rewrite Hz.
      destruct (forallb (N.eqb 48) id); cbn [fst snd].
      * eexists _, _. split; [reflexivity|]. now split.
      * destruct (_ || _); cbn [fst snd].
        -- eexists _, _. split; [reflexivity|]. left. now repeat split.
        -- eexists _, _. split; [reflexivity|]. right. eexists.
           split; [reflexivity|]. split; [reflexivity|].
           exact (respond_status _ _ _ eq_refl).
    + change (Routes.seg_is (js "summary" :: rest) 0 "information") with false.
      change (Routes.seg_is (js "summary" :: rest) 0 "similar") with false.
      change (Routes.seg_is (js "summary" :: rest) 0 "summary") with true.
      cbv beta iota. cbn [nth].
      unfold Routes.recipe_summary, Routes.bad_request. rewrite Hz.
      destruct (forallb (N.eqb 48) id); cbn [fst snd].
      * eexists _, _. split; [reflexivity|]. now split.
      * eexists _, _. split; [reflexivity|]. right. eexists. split; [reflexivity|].
        split; [reflexivity|]. exact (respond_status _ _ _ eq_refl).
  - intros Hd Hres.
    destruct (not_reserved id Hres) as [N1 [N2 [N3 [N4 N5]]]].
    unfold Routes.GET. rewrite route_of_recipes, N1, N2, N3, N4, N5, Hd.
    rewrite !andb_false_r. reflexivity.
Qed.

Lemma recipe_id_routes_witness :
  (exists resp calls,
     Routes.GET (map js ["recipes"; "007"; "summary"]%string) (mkRequest [])
       (sample_collaborators [] (Routes.Ok (JText "A spy's dinner")))
     = Some (resp, calls)
     /\ exists call, calls = [call] /\ call_recipeId call = Some (js "007")
          /\ (status resp = 200%Z \/ status resp = 402%Z \/ status resp = 500%Z))
  /\ Routes.GET (map js ["recipes"; "12a"; "summary"]%string) (mkRequest [])
       (sample_collaborators [] (Routes.Ok JNull))
     = Some (jsonResponse (error_body "Not found") (Some 404%Z), []).
Proof.
  split.
  - destruct (proj1 (recipe_id_routes (js "007") "summary" [] (mkRequest [])
               (sample_collaborators [] (Routes.Ok (JText "A spy's dinner")))
               (or_intror (or_intror (or_introl eq_refl)))) eq_refl)
      as [resp [calls [H1 H2]]].
    exists resp, calls. split; [exact H1|].
    cbn in H2. destruct H2 as [[H _]|H]; [discriminate H|exact H].
  - refine (proj2 (recipe_id_routes (js "12a") "summary" [] (mkRequest []) _
                     (or_intror (or_intror (or_introl eq_refl)))) eq_refl _).
    cbn. intros H. repeat (destruct H as [H|H]; [discriminate H|]). exact H.
Defined.

Lemma str_length_zero s : (str_length s =? 0)%Z = negb (str_truthy s).
Proof. destruct s; reflexivity. Qed.

(** X13: food/wine/pairing calls [getWinePairing] only with the trimmed
    food name, of 1 to 100 code units (a name of exactly 100 is accepted),
    and with a price that is absent or neither [NaN] nor negative;
    food/wine/dishes passes the wine as it was written, untrimmed, once its
    trimmed text is not empty. *)
Theorem wine_arguments rest req c resp calls :
  (Routes.GET (js "food" :: js "wine" :: js "pairing" :: rest) req c
   = Some (resp, calls) ->
   (calls = [] /\ status resp = 400%Z)
   \/ (exists raw,
         param req "food" = Some raw
         /\ calls = [Routes.GetWinePairing (trim raw)
                       (match param req "maxPrice" with
                        | Some s => if str_truthy s
                                    then Some (Routes.parseFloat c s) else None
                        | None => None
                        end)]
         /\ (1 <= str_length (trim raw) <= 100)%Z
         /\ trim (trim raw) = trim raw
         /\ (forall s, param req "maxPrice" = Some s -> s <> [] ->
             Routes.isNaN (Routes.parseFloat c s) = false
             /\ Routes.lt (Routes.parseFloat c s) 0 = false)
         /\ (status resp = 200%Z \/ status resp = 402%Z \/ status resp = 500%Z)))
  /\ (Routes.GET (js "food" :: js "wine" :: js "dishes" :: rest) req c
      = Some (resp, calls) ->
      (calls = [] /\ status resp = 400%Z)
      \/ (exists wine,
            param req "wine" = Some wine
            /\ calls = [Routes.GetDishPairingForWine wine]
            /\ trim wine <> []
            /\ (status resp = 200%Z \/ status resp = 402%Z \/ status resp = 500%Z)))
  /\ (forall raw,
        param req "food" = Some raw -> str_length (trim raw) = 100%Z ->
        param req "maxPrice" = None ->
        snd (Routes.wine_pairing req c) = [Routes.GetWinePairing (trim raw) None]).
Proof.
  split; [|split].
  - unfold Routes.GET.
    change (Routes.route_of (js "food" :: js "wine" :: js "pairing" :: rest))
      with Routes.WinePairing.
    cbv beta iota. unfold Routes.wine_pairing, Routes.bad_request.
    destruct (param req "food") as [raw|] eqn:Ef; cbn [opt_truthy str_or negb orb];
      [|intros [= <- <-]; now left].
    destruct (str_truthy raw) eqn:Et; cbn [negb orb];
      [|intros [= <- <-]; now left].
    rewrite str_length_zero.
    destruct (trim raw) as [|t0 tr] eqn:Etrim; cbn [str_truthy negb];
      [intros [= <- <-]; now left|].
    rewrite <- Etrim.
    destruct (Z.gtb_spec (str_length (trim raw)) 100);
      [intros [= <- <-]; now left|].
    destruct (param req "maxPrice") as [s|] eqn:Em.
    + destruct (str_truthy s) eqn:Es.
      * destruct (Routes.isNaN (Routes.parseFloat c s)) eqn:En; cbn [orb];
          [intros [= <- <-]; now left|].
        destruct (Routes.lt (Routes.parseFloat c s) 0) eqn:El;
          [intros [= <- <-]; now left|].
        cbn [fst snd]. intros [= Hresp <-]. right. exists raw.
        split; [reflexivity|]. split; [reflexivity|]. split.
        { rewrite Etrim in *. unfold str_length in *. cbn [List.length] in *. lia. }
        split; [apply trim_fixed|]. split.
        { intros s' [= <-] _. now split. }
        exact (respond_status _ _ _ Hresp).
      * cbn [fst snd]. intros [= Hresp <-]. right. exists raw.
        split; [reflexivity|]. split; [reflexivity|]. split.
        { rewrite Etrim in *. unfold str_length in *. cbn [List.length] in *. lia. }
        split; [apply trim_fixed|]. split.
        { intros s' [= <-] Hs. destruct s; [contradiction|discriminate]. }
        exact (respond_status _ _ _ Hresp).
    + cbn [fst snd]. intros [= Hresp <-]. right. exists raw.
      split; [reflexivity|]. split; [reflexivity|]. split.
      { rewrite Etrim in *. unfold str_length in *. cbn [List.length] in *. lia. }
      split; [apply trim_fixed|]. split; [discriminate|].
      exact (respond_status _ _ _ Hresp).
  - unfold Routes.GET.
    change (Routes.route_of (js "food" :: js "wine" :: js "dishes" :: rest))
      with Routes.WineDishes.
    cbv beta iota. unfold Routes.wine_dishes, Routes.bad_request.
    destruct (param req "wine") as [wine|] eqn:Ew; cbn [opt_truthy str_or negb orb];
      [|intros [= <- <-]; now left].
    destruct (str_truthy wine) eqn:Et; cbn [negb orb];
      [|intros [= <- <-]; now left].
    rewrite str_length_zero.
    destruct (trim wine) as [|t0 tr] eqn:Etrim; cbn [str_truthy negb];
      [intros [= <- <-]; now left|].
    cbn [fst snd]. intros [= Hresp <-]. right. exists wine.
    split; [reflexivity|]. split; [reflexivity|].
    split; [rewrite Etrim; discriminate|].
    destruct (Routes.getDishPairingForWine c wine); subst resp;
      [now left|right; apply catch_all_status].
  - intros raw Hf Hlen Hm. unfold Routes.wine_pairing, Routes.bad_request.
    rewrite Hf, Hm. cbn [opt_truthy str_or].
    assert (Ht : str_truthy raw = true).
    { destruct raw; [|reflexivity]. rewrite trim_nil in Hlen. discriminate. }
    rewrite Ht, Hlen. reflexivity.
Qed.

Lemma wine_arguments_witness :
  ((exists raw,
      param (mkRequest [(js "food", js " roast duck ")]) "food" = Some raw
      /\ [Routes.GetWinePairing (js "roast duck") None]
         = [Routes.GetWinePairing (trim raw) None]
      /\ (1 <= str_length (trim raw) <= 100)%Z)
   /\ snd (Routes.wine_pairing (mkRequest [(js "food", repeat 97%N 100)])
             (sample_collaborators [] (Routes.Ok JNull)))
      = [Routes.GetWinePairing (trim (repeat 97%N 100)) None]).
Proof.
  split.
  - destruct (proj1 (wine_arguments [] (mkRequest [(js "food", js " roast duck ")])
                       (sample_collaborators [] (Routes.Ok JNull))
                       (jsonResponse JNull None)
                       [Routes.GetWinePairing (js "roast duck") None])
                eq_refl) as [[H _]|[raw [H1 [H2 [H3 _]]]]].
    + discriminate H.
    + exists raw. split; [exact H1|]. split; [exact H2|exact H3].
  - exact (proj2 (proj2 (wine_arguments [] (mkRequest [(js "food", repeat 97%N 100)])
                           (sample_collaborators [] (Routes.Ok JNull))
                           (mkResponse 0 JNull) []))
             (repeat 97%N 100) eq_refl eq_refl eq_refl).
Defined.


Lemma obj_set_keys fields k v :
  map fst (obj_set fields k v)
  = if existsb (str_eqb k) (map fst fields) then map fst fields
    else map fst fields ++ [k].
Proof.
  induction fields as [|[k0 v0] rest IH]; simpl; [reflexivity|].
  destruct (str_eqb k k0) eqn:E; simpl; [reflexivity|].
  rewrite IH. now destruct (existsb (str_eqb k) (map fst rest)).
Qed.

Lemma obj_set_NoDup fields k v :
  NoDup (map fst fields) -> NoDup (map fst (obj_set fields k v)).
Proof.
  intros H. rewrite obj_set_keys.
  destruct (existsb (str_eqb k) (map fst fields)) eqn:E; [exact H|].
  apply NoDup_app; [exact H|repeat constructor; intros []|].
  intros x Hx [Hk|[]]. subst x.
  assert (existsb (str_eqb k) (map fst fields) = true).
  { apply existsb_exists. exists k. split; [exact Hx|apply str_eqb_refl]. }
  congruence.
Qed.







Lemma catch_all_thrown_status path e :
  status (Routes.catch_all path e) = thrown_status e.
Proof. destruct e; reflexivity. Qed.

Ltac split_handler :=
  repeat match goal with
         | |- context [match ?x with _ => _ end] =>
             match x with
             | context [match _ with _ => _ end] => fail 1
             | _ => destruct x eqn:?
             end
         end.

Ltac use_results :=
  unfold Routes.thrown_by in *;
  repeat match goal with
         | E : ?r = _ |- context [match ?r with _ => _ end] => rewrite E
         | E : ?r = _, H : context [match ?r with _ => _ end] |- _ => rewrite E in H
         end.

(** X14: a request stops at the first call that throws.  Every call before
    the last returned; when the last call throws, the answer is the outer
    [catch] block's, with status 402 for an [Error] whose message includes
    "limit" or "402" and 500 otherwise (500 for every thrown value that is no
    [Error], whatever it carries), the one exception being an API-limit error
    of the favourites lookup, answered 200; and when no call throws, the
    status is 200, 400 or 404, or the answer is the one [requireAuth] gave. *)
Theorem GET_stops_at_first_throw path req c resp calls :
  Routes.GET path req c = Some (resp, calls) ->
  Forall (fun call => Routes.thrown_by c call = None) (removelast calls)
  /\ (forall call e,
        last_call calls = Some call -> Routes.thrown_by c call = Some e ->
        (resp = Routes.catch_all path e /\ status resp = thrown_status e)
        \/ (exists ids, call = Routes.GetFavouriteRecipesByIDs ids
                        /\ Routes.isApiLimitError e = true
                        /\ status resp = 200%Z))
  /\ ((forall call, In call calls -> Routes.thrown_by c call = None) ->
      Routes.requireAuth c = Routes.Ok (Routes.Denied resp)
      \/ In (status resp) [200; 400; 404]%Z).
Proof.
  unfold Routes.GET.
  destruct (Routes.route_of path); try discriminate; cbv beta iota;
    unfold Routes.recipes_search, Routes.recipes_autocomplete,
      Routes.recipes_favourite, Routes.recipe_information, Routes.recipe_similar,
      Routes.recipe_summary, Routes.wine_dishes, Routes.wine_pairing,
      Routes.bad_request, Routes.respond;
    repeat match goal with
           | |- context [match param req "maxPrice" with _ => _ end] =>
               destruct (param req "maxPrice") eqn:?
           | |- context [if ?b then _ else _] =>
               match b with
               | context [if _ then _ else _] => fail 1
               | _ => destruct b eqn:?
               end
           | |- context [match Routes.requireAuth c with _ => _ end] =>
               destruct (Routes.requireAuth c) as [[?|?]|?] eqn:?
           | |- context [match Routes.favouriteRecipes_findMany c ?u with _ => _ end] =>
               destruct (Routes.favouriteRecipes_findMany c u) as [[|? ?]|?] eqn:?;
               cbn [map]
           | |- context [match Routes.getFavouriteRecipesByIDs c ?u with _ => _ end] =>
               destruct (Routes.getFavouriteRecipesByIDs c u) eqn:?
           | |- context [match Routes.searchRecipes c ?u ?v ?w with _ => _ end] =>
               destruct (Routes.searchRecipes c u v w) eqn:?
           | |- context [match Routes.autocompleteRecipes c ?u ?v with _ => _ end] =>
               destruct (Routes.autocompleteRecipes c u v) eqn:?
           | |- context [match Routes.getRecipeInformation c ?u ?v with _ => _ end] =>
               destruct (Routes.getRecipeInformation c u v) eqn:?
           | |- context [match Routes.getSimilarRecipes c ?u ?v with _ => _ end] =>
               destruct (Routes.getSimilarRecipes c u v) eqn:?
           | |- context [match Routes.getRecipeSummary c ?u with _ => _ end] =>
               destruct (Routes.getRecipeSummary c u) eqn:?
           | |- context [match Routes.getDishPairingForWine c ?u with _ => _ end] =>
               destruct (Routes.getDishPairingForWine c u) eqn:?
           | |- context [match Routes.getWinePairing c ?u ?v with _ => _ end] =>
               destruct (Routes.getWinePairing c u v) eqn:?
           end;
    cbn [fst snd map]; intros [= <- <-].
  all: split; [try solve [cbn [removelast]; repeat (apply Forall_cons || apply Forall_nil);
               unfold Routes.thrown_by;
               repeat match goal with
                      | E : ?r = _ |- context [match ?r with _ => _ end] => rewrite E
                      end; reflexivity]|].
  all: split.
  all: try (intros ? ? [= <-] He; unfold Routes.thrown_by in He;
            repeat match goal with
                   | E : ?r = _, H : context [match ?r with _ => _ end] |- _ =>
                       rewrite E in H
                   end;
            first [ discriminate He
                  | injection He as <-;
                    first [ left; split; [reflexivity|apply catch_all_thrown_status]
                          | right; eexists; split; [reflexivity|];
                            split; [assumption|reflexivity] ] ]).
  all: try (intros call e He; discriminate He).
  all: try (intros _; right; cbn; tauto).
  all: try (intros _; left; reflexivity).
  all: try (intros Hall; exfalso;
            first [ pose proof (Hall _ (or_intror (or_intror (or_introl eq_refl)))) as K
                  | pose proof (Hall _ (or_intror (or_introl eq_refl))) as K
                  | pose proof (Hall _ (or_introl eq_refl)) as K ];
            unfold Routes.thrown_by in K;
            repeat match goal with
                   | E : ?r = _, H : context [match ?r with _ => _ end] |- _ =>
                       rewrite E in H
                   end;
            discriminate K).
Qed.

Lemma GET_stops_at_first_throw_witness :
  status (Routes.catch_all (map js ["recipes"; "42"; "summary"]%string)
            (Routes.AnError (js "daily points limit reached") None)) = 402%Z
  /\ status (Routes.catch_all (map js ["recipes"; "42"; "summary"]%string)
               (Routes.NotAnError (Some (js "daily points limit reached"))
                  (Some (JInt 402)))) = 500%Z.
Proof.
  split.
  - destruct (proj1 (proj2 (GET_stops_at_first_throw
                              (map js ["recipes"; "42"; "summary"]%string)
                              (mkRequest [])
                              (sample_collaborators []
                                 (Routes.Throws
                                    (Routes.AnError (js "daily points limit reached")
                                       None)))
                              _ _ eq_refl))
                _ _ eq_refl eq_refl) as [[_ H]|[ids [H _]]].
    + exact H.
    + discriminate H.
  - destruct (proj1 (proj2 (GET_stops_at_first_throw
                              (map js ["recipes"; "42"; "summary"]%string)
                              (mkRequest [])
                              (sample_collaborators []
                                 (Routes.Throws
                                    (Routes.NotAnError
                                       (Some (js "daily points limit reached"))
                                       (Some (JInt 402)))))
                              _ _ eq_refl))
                _ _ eq_refl eq_refl) as [[_ H]|[ids [H _]]].
    + exact H.
    + discriminate H.
Defined.

Lemma placeholder_id n :
  get_prop (Routes.placeholder (Number_toString n)) "id" = Some (JInt n)
  /\ get_prop (Routes.placeholder (Number_toString n)) "image" = Some JNull
  /\ get_prop (Routes.placeholder (Number_toString n)) "_apiUnavailable"
     = Some (JBool true).
Proof.
  split; [|split; reflexivity].
  unfold Routes.placeholder.
  change (get_prop (obj ?l) "id") with (Some (parseInt (Number_toString n))).
  now rewrite (proj1 (parseInt_toString n)).
Qed.

(** X15: when the favourites lookup fails with an API-limit error, the
    answer is 200 with one placeholder per saved favourite, in the saved
    order, whose [id] is the saved recipe id again (written as text for the
    lookup and read back by [parseInt]). *)
Theorem favourites_placeholders rest req c userId recipes e :
  Routes.requireAuth c = Routes.Ok (Routes.Granted userId) ->
  Routes.favouriteRecipes_findMany c userId = Routes.Ok recipes ->
  recipes <> [] ->
  Routes.getFavouriteRecipesByIDs c (map Number_toString recipes) = Routes.Throws e ->
  Routes.isApiLimitError e = true ->
  exists results message,
    Routes.GET (js "recipes" :: js "favourite" :: rest) req c
    = Some (jsonResponse (obj [("results", JArr results);
                               ("_message", message)]%string) None,
            [Routes.RequireAuth; Routes.FindManyFavourites userId;
             Routes.GetFavouriteRecipesByIDs (map Number_toString recipes)])
    /\ map (fun r => get_prop r "id") results = map (fun n => Some (JInt n)) recipes
    /\ Forall (fun r => get_prop r "image" = Some JNull
                        /\ get_prop r "_apiUnavailable" = Some (JBool true)) results.
Proof.
  intros Hauth Hfind Hne Hthrow Hlimit.
  unfold Routes.GET.
  change (Routes.route_of (js "recipes" :: js "favourite" :: rest))
    with Routes.RecipesFavourite.
  cbv beta iota. unfold Routes.recipes_favourite. rewrite Hauth, Hfind.
  exists (map Routes.placeholder (map Number_toString recipes)),
    (JText "Your favourites are saved, but recipe details are temporarily unavailable due to API daily limit.").
  split; [|split].
  - destruct recipes as [|z zs]; [contradiction|].
    cbn [map] in *. rewrite Hthrow, Hlimit. reflexivity.
  - rewrite !map_map. apply map_ext. intros n. apply placeholder_id.
  - rewrite map_map. apply Forall_forall. intros r Hr.
    apply in_map_iff in Hr as [n [<- _]].
    split; apply placeholder_id.
Qed.

Lemma favourites_placeholders_witness :
  exists results message,
    Routes.GET (map js ["recipes"; "favourite"]%string) (mkRequest [])
      (sample_collaborators [716429; 42]%Z
         (Routes.Throws (Routes.NotAnError None (Some (JInt 402)))))
    = Some (jsonResponse (obj [("results", JArr results);
                               ("_message", message)]%string) None,
            [Routes.RequireAuth; Routes.FindManyFavourites (js "user-1");
             Routes.GetFavouriteRecipesByIDs (map Number_toString [716429; 42]%Z)])
    /\ map (fun r => get_prop r "id") results
       = map (fun n => Some (JInt n)) [716429; 42]%Z.
Proof.
  destruct (favourites_placeholders [] (mkRequest [])
              (sample_collaborators [716429; 42]%Z
                 (Routes.Throws (Routes.NotAnError None (Some (JInt 402)))))
              (js "user-1") [716429; 42]%Z
              (Routes.NotAnError None (Some (JInt 402)))
              eq_refl eq_refl) as [results [message [H1 [H2 _]]]];
    [discriminate|reflexivity|reflexivity|].
  exists results, message. split; [exact H1|exact H2].
Defined.

(* ================================================================== *)
(** ** [JSON.parse] never yields a text longer than its input *)
(* ================================================================== *)

Lemma parse_string_chars_bound n : forall s acc str r,
  (List.length s <= n)%nat ->
  parse_string_chars s acc = Some (str, r) ->
  (List.length str + List.length r < List.length acc + List.length s)%nat.
Proof.
  induction n as [|n IH]; intros s acc str r Hn H.
  - destruct s; [discriminate|simpl in Hn; lia].
  - destruct s as [|c s]; [discriminate|]. cbn [parse_string_chars] in H.
    cbn [List.length] in Hn |- *.
    destruct (N.eqb c 34).
    { injection H as <- <-. rewrite length_rev. lia. }
    destruct (N.eqb c 92).
    + destruct s as [|e r1]; [discriminate|]. cbn [List.length] in Hn |- *.
      repeat match type of H with
             | (if ?b then _ else _) = _ =>
                 destruct b;
                 [ apply IH in H; [cbn [List.length] in H; lia|lia] | ]
             end.
      destruct (N.eqb e 117); [|discriminate].
      destruct r1 as [|h1 [|h2 [|h3 [|h4 r2]]]]; try discriminate.
      destruct (hex_val h1), (hex_val h2), (hex_val h3), (hex_val h4);
        try discriminate.
      apply IH in H; cbn [List.length] in *; lia.
    + destruct (N.ltb c 32); [discriminate|].
      apply IH in H; [cbn [List.length] in H; lia|lia].
Qed.

Lemma parse_bound f :
  (forall s v r, parse_value f s = Some (v, r) ->
     (List.length r <= List.length s)%nat
     /\ (forall str, v = JStr str -> (List.length str <= List.length s)%nat)
     /\ (forall fields k str, v = JObj fields -> In (k, JStr str) fields ->
         (List.length str <= List.length s)%nat))
  /\ (forall s acc v r, parse_elements f s acc = Some (v, r) ->
     (List.length r <= List.length s)%nat /\ exists l, v = JArr l)
  /\ (forall s acc v r, parse_members f s acc = Some (v, r) ->
     (List.length r <= List.length s)%nat
     /\ exists fields, v = JObj fields
        /\ forall k str, In (k, JStr str) fields ->
           In (k, JStr str) acc \/ (List.length str <= List.length s)%nat).
Proof.
  induction f as [|f [IHV [IHE IHM]]].
  { repeat split; intros; discriminate. }
  split; [|split].
  - intros s v r H. cbn [parse_value] in H.
    pose proof (skip_ws_length s) as Hs.
    destruct (skip_ws s) as [|ch r0] eqn:Es; [discriminate|].
    cbn [List.length] in Hs.
    destruct (N.eqb ch 123).
    { pose proof (skip_ws_length r0) as Hr0.
      destruct (skip_ws r0) as [|c' r0'] eqn:Er0; [discriminate|].
      cbn [List.length] in Hr0.
      destruct (N.eqb c' 125).
      - injection H as <- <-. split; [lia|]. split; [discriminate|].
        intros fields k str [= <-] [].
      - destruct (IHM _ _ _ _ H) as [Hlen [fields [-> Hf]]].
        split; [lia|]. split; [discriminate|].
        intros fields' k str [= <-] Hin.
        destruct (Hf _ _ Hin) as [[]|Hb]. lia. }
    destruct (N.eqb ch 91).
    { pose proof (skip_ws_length r0) as Hr0.
      destruct (skip_ws r0) as [|c' r0'] eqn:Er0; [discriminate|].
      cbn [List.length] in Hr0.
      destruct (N.eqb c' 93).
      - injection H as <- <-. split; [lia|]. split; discriminate.
      - destruct (IHE _ _ _ _ H) as [Hlen [l ->]].
        split; [lia|]. split; discriminate. }
    destruct (N.eqb ch 34).
    { destruct (parse_string_chars r0 []) as [[str rs]|] eqn:Estr; [|discriminate].
      injection H as <- <-.
      pose proof (parse_string_chars_bound _ _ _ _ _ (Nat.le_refl _) Estr) as Hb.
      cbn [List.length] in Hb.
      split; [lia|]. split; [|discriminate].
      intros str' [= <-]. lia. }
    assert (Hkw : forall kw, strip_prefix kw (ch :: r0) = Some r ->
                  (List.length r <= List.length s)%nat).
    { intros kw Hkw. apply strip_prefix_inv in Hkw.
      apply (f_equal (@List.length N)) in Hkw.
      rewrite length_app in Hkw. cbn [List.length] in Hkw. lia. }
    destruct (strip_prefix (js "true") (ch :: r0)) as [rt|] eqn:Et.
    { injection H as <- <-. split; [now apply (Hkw (js "true"))|split; discriminate]. }
    destruct (strip_prefix (js "false") (ch :: r0)) as [rf|] eqn:Ef.
    { injection H as <- <-. split; [now apply (Hkw (js "false"))|split; discriminate]. }
    destruct (strip_prefix (js "null") (ch :: r0)) as [rn|] eqn:En.
    { injection H as <- <-. split; [now apply (Hkw (js "null"))|split; discriminate]. }
    destruct (parse_number (ch :: r0)) as [[q rq]|] eqn:Eq; [|discriminate].
    injection H as <- <-.
    destruct (parse_number_local _ _ _ Eq) as [c [Hc _]].
    apply (f_equal (@List.length N)) in Hc.
    rewrite length_app in Hc. cbn [List.length] in Hc.
    destruct (binary64_cases q) as [[x ->]|[x ->]];
      (split; [lia|split; discriminate]).
  - intros s acc v r H. cbn [parse_elements] in H.
    destruct (parse_value f s) as [[v1 r1]|] eqn:Ev; [|discriminate].
    destruct (IHV _ _ _ Ev) as [Hl1 _].
    pose proof (skip_ws_length r1) as Hr1.
    destruct (skip_ws r1) as [|ch r2] eqn:Er1; [discriminate|].
    cbn [List.length] in Hr1.
    destruct (N.eqb ch 44).
    + destruct (IHE _ _ _ _ H) as [Hl2 Hv]. split; [lia|exact Hv].
    + destruct (N.eqb ch 93); [|discriminate].
      injection H as <- <-. split; [lia|eauto].
  - intros s acc v r H. cbn [parse_members] in H.
    pose proof (skip_ws_length s) as Hs.
    destruct (skip_ws s) as [|ch r0] eqn:Es; [discriminate|].
    cbn [List.length] in Hs.
    destruct (N.eqb ch 34); [|discriminate].
    destruct (parse_string_chars r0 []) as [[k r1]|] eqn:Ek; [|discriminate].
    pose proof (parse_string_chars_bound _ _ _ _ _ (Nat.le_refl _) Ek) as Hk.
    cbn [List.length] in Hk.
    pose proof (skip_ws_length r1) as Hr1.
    destruct (skip_ws r1) as [|c1 r2] eqn:Er1; [discriminate|].
    cbn [List.length] in Hr1.
    destruct (N.eqb c1 58); [|discriminate].
    destruct (parse_value f r2) as [[v1 r3]|] eqn:Ev; [|discriminate].
    destruct (IHV _ _ _ Ev) as [Hl3 [Hstr _]].
    pose proof (skip_ws_length r3) as Hr3.
    destruct (skip_ws r3) as [|c3 r4] eqn:Er3; [discriminate|].
    cbn [List.length] in Hr3.
    assert (Hset : forall k' str, In (k', JStr str) (obj_set acc k v1) ->
                   In (k', JStr str) acc \/ (List.length str <= List.length s)%nat).
    { intros k' str Hin. apply obj_set_In in Hin as [Hin|[_ Hv]]; [now left|].
      right. specialize (Hstr str (eq_sym Hv)). lia. }
    destruct (N.eqb c3 44).
    + destruct (IHM _ _ _ _ H) as [Hl4 [fields [-> Hf]]].
      split; [lia|]. exists fields. split; [reflexivity|].
      intros k' str Hin. destruct (Hf _ _ Hin) as [Hacc|Hb]; [now apply Hset|].
      right. lia.
    + destruct (N.eqb c3 125); [|discriminate].
      injection H as <- <-. split; [lia|]. eexists. split; [reflexivity|exact Hset].
Qed.

Lemma lookup_In k fields v : lookup k fields = Some v -> exists k', In (k', v) fields.
Proof.
  induction fields as [|[k0 v0] rest IH]; simpl; [discriminate|].
  destruct (str_eqb k k0).
  - intros [= <-]. eauto.
  - intros H. destruct (IH H) as [k' Hk]. eauto.
Qed.

Lemma JSON_parse_bound text v :
  JSON_parse text = Some v ->
  (forall str, v = JStr str -> (List.length str <= List.length text)%nat)
  /\ (forall fields k str, v = JObj fields -> In (k, JStr str) fields ->
      (List.length str <= List.length text)%nat).
Proof.
  unfold JSON_parse. intros H.
  destruct (parse_value _ text) as [[v' r]|] eqn:Ev; [|discriminate].
  destruct (skip_ws r); [|discriminate]. injection H as ->.
  exact (proj2 (proj1 (parse_bound _) _ _ _ Ev)).
Qed.

(** X17: [JSON.parse] never yields a text longer than its input: a parsed
    value that is a string, or a string property of a parsed object, has at
    most as many code units as the text that was parsed. *)
Theorem JSON_parse_text_bound text v :
  JSON_parse text = Some v ->
  (forall str, v = JStr str -> (str_length str <= str_length text)%Z)
  /\ (forall k str, get_prop v k = Some (JStr str) ->
      (str_length str <= str_length text)%Z).
Proof.
  intros H. destruct (JSON_parse_bound text v H) as [Hs Ho].
  unfold str_length. split.
  - intros str Hv. specialize (Hs str Hv). lia.
  - intros k str Hk. destruct v; try discriminate. simpl in Hk.
    destruct (lookup_In _ _ _ Hk) as [k' Hin].
    specialize (Ho _ _ _ eq_refl Hin). lia.
Qed.

Lemma JSON_parse_text_bound_witness :
  (str_length (js "soup") <= str_length (jsq "{'q': 'soup'}"))%Z.
Proof.
  exact (proj2 (JSON_parse_text_bound (jsq "{'q': 'soup'}")
                  (obj [("q", JText "soup")]%string) eq_refl)
           "q"%string (js "soup") eq_refl).
Defined.

(* ================================================================== *)
(** ** The upload route *)
(* ================================================================== *)

Lemma split_length sep s : forall x,
  In x (Upload.split sep s) -> (List.length x <= List.length s)%nat.
Proof.
  induction s as [|c s IH]; intros x Hx.
  - simpl in Hx. destruct Hx as [<-|[]]. reflexivity.
  - cbn [Upload.split] in Hx. cbn [List.length].
    destruct (N.eqb c sep).
    + destruct Hx as [<-|Hx]; [simpl; lia|]. specialize (IH _ Hx). lia.
    + destruct (Upload.split sep s) as [|y ys].
      * destruct Hx as [<-|[]]. simpl. lia.
      * destruct Hx as [<-|Hx].
        -- specialize (IH y (or_introl eq_refl)). simpl. lia.
        -- specialize (IH x (or_intror Hx)). lia.
Qed.

Lemma base64Data_length s :
  (str_length (Upload.base64Data s) <= str_length s)%Z.
Proof.
  unfold Upload.base64Data, str_length.
  destruct (Routes.includes s (js ",")); [|lia].
  destruct (nth_in_or_default 1 (Upload.split 44 s) []) as [Hin|Hd].
  - apply split_length in Hin. lia.
  - rewrite Hd. simpl. lia.
Qed.

(** The body the routes see comes from at most ten megabytes of text. *)
Lemma parsed_text_bound req body k str :
  Upload.parse_body req = Upload.Parsed body ->
  get_prop body k = Some (JStr str) ->
  (str_length str <= 10 * 1024 * 1024)%Z.
Proof.
  unfold Upload.parse_body.
  assert (Hempty : get_prop (JObj []) k = Some (JStr str) -> (str_length str <= 10 * 1024 * 1024)%Z)
    by discriminate.
  assert (Hfailed :
            (if opt_truthy (Upload.content_length req)
                && negb (str_eqb (str_or (Upload.content_length req) []) (js "0"))
             then Upload.Reply (jsonResponse (error_body "Invalid JSON in request body")
                                  (Some 400%Z))
             else Upload.Parsed (JObj [])) = Upload.Parsed body ->
            get_prop body k = Some (JStr str) ->
            (str_length str <= 10 * 1024 * 1024)%Z).
  { destruct (_ && _); [discriminate|]. intros [= <-]. exact Hempty. }
  destruct (Upload.text req) as [bodyText|e]; [|exact Hfailed].
  destruct (Z.gtb_spec (str_length bodyText) (10 * 1024 * 1024)); [discriminate|].
  destruct (str_truthy bodyText); [|intros [= <-]; exact Hempty].
  destruct (JSON_parse bodyText) as [v|] eqn:Ep; [|exact Hfailed].
  intros [= <-] Hk.
  destruct v; try discriminate. simpl in Hk.
  destruct (lookup_In _ _ _ Hk) as [k' Hin].
  pose proof (proj2 (JSON_parse_bound _ _ Ep) _ _ _ eq_refl Hin).
  unfold str_length in *. lia.
Qed.

Lemma Qgtb_spec a b c d :
  Qgtb (Qmake a b) (Qmake c d) = (c * Zpos b <? a * Zpos d)%Z.
Proof. reflexivity. Qed.

Lemma size_checks_pass s :
  (str_length s <= 10 * 1024 * 1024)%Z ->
  Qgtb (Upload.imageSizeBytes s) Upload.maxSizeBytes = false
  /\ forall m, (8 <= m)%Z -> Qgtb (Upload.fileSizeMB s) (inject_Z m) = false.
Proof.
  intros H. pose proof (base64Data_length s) as Hb.
  assert (H0 : (0 <= str_length (Upload.base64Data s))%Z) by (unfold str_length; lia).
  unfold Upload.imageSizeBytes, Upload.fileSizeMB, Upload.maxSizeBytes, inject_Z.
  split; [|intros m Hm]; rewrite Qgtb_spec; apply Z.ltb_ge; lia.
Qed.

Lemma toFixed2_head q :
  exists c r, toFixed2 q = c :: r /\ (c = 45%N \/ digit_val c <> None).
Proof.
  unfold toFixed2. destruct (Z.ltb_spec (Qnum q) 0).
  - eexists _, _. split; [reflexivity|now left].
  - assert (Hn : (0 <= (200 * Qnum q + QDen q) / (2 * QDen q) / 100)%Z).
    { apply Z.div_pos; [|lia]. apply Z.div_pos; lia. }
    destruct (natural_text _ Hn) as [c [r [E [D _]]]].
    rewrite E. eexists _, _. split; [reflexivity|]. right.
    simpl in D. destruct (digit_val c); [discriminate|discriminate].
Qed.

Lemma parse_body_reply req r :
  Upload.parse_body req = Upload.Reply r ->
  r = jsonResponse (error_body "Invalid JSON in request body") (Some 400%Z)
  \/ r = mkResponse 413 (error_body "Request body too large. Maximum size is 10MB").
Proof.
  unfold Upload.parse_body.
  assert (Hfailed :
            (if opt_truthy (Upload.content_length req)
                && negb (str_eqb (str_or (Upload.content_length req) []) (js "0"))
             then Upload.Reply (jsonResponse (error_body "Invalid JSON in request body")
                                  (Some 400%Z))
             else Upload.Parsed (JObj [])) = Upload.Reply r ->
            r = jsonResponse (error_body "Invalid JSON in request body") (Some 400%Z)
            \/ r = mkResponse 413
                     (error_body "Request body too large. Maximum size is 10MB")).
  { destruct (_ && _); [|discriminate]. intros [= <-]. now left. }
  destruct (Upload.text req) as [bodyText|e]; [|exact Hfailed].
  destruct (_ >? _)%Z; [intros [= <-]; now right|].
  destruct (str_truthy bodyText); [|discriminate].
  destruct (JSON_parse bodyText); [discriminate|exact Hfailed].
Qed.

Lemma obj_defined_keys fields k v :
  In (k, v) (match Upload.obj_defined fields with JObj l => l | _ => [] end) ->
  In k (map (fun kv => js (fst kv)) fields).
Proof.
  unfold Upload.obj_defined. intros H. apply in_flat_map in H as [[k0 o] [Hin Hk]].
  cbn [fst snd] in Hk. destruct o as [v0|]; [|contradiction].
  destruct Hk as [[= <- <-]|[]]. now apply (in_map (fun kv => js (fst kv))) in Hin.
Qed.

Ltac other_text :=
  let H := fresh in
  intros H; injection H as H; cbv in H; discriminate H.

Lemma success_body_not_error fields k v :
  ~ In k (map (fun kv => js (fst kv)) fields) ->
  Upload.obj_defined fields <> JObj [(k, v)].
Proof.
  intros Hk H. apply Hk. apply (obj_defined_keys fields k v).
  rewrite H. now left.
Qed.

Lemma preset_text_differs q rest x :
  (js "Image size " ++ toFixed2 q ++ rest)%list <> too_large_text x.
Proof.
  change (too_large_text x)
    with (js "Image size " ++ 101%N :: js "xceeds maximum of 10MB. Current size: " ++ x)%list.
  intros H. apply app_inv_head in H.
  destruct (toFixed2_head q) as [ch [r [E Hc]]]. rewrite E in H.
  injection H as -> _. destruct Hc as [Hc|Hc]; [discriminate|].
  apply Hc. reflexivity.
Qed.

(** With a non-empty image text that passes the size check, the route
    rejects with one of four texts or sends the image. *)
Lemma upload_as_shape userId body c s :
  get_prop body "imageData" = Some (JStr s) -> s <> [] ->
  Qgtb (Upload.imageSizeBytes s) Upload.maxSizeBytes = false ->
  (exists text,
     Upload.upload_as userId body c = Upload.reject text
     /\ (text = js "Folder name must be a string less than 200 characters"
         \/ text = js "Preset ID must be a string"
         \/ (exists p, text = (jsq "Upload preset '" ++ p ++ jsq "' not found")%list)
         \/ exists q rest, text = (js "Image size " ++ toFixed2 q ++ rest)%list))
  \/ exists options, Upload.upload_as userId body c = Upload.send c s options.
Proof.
  intros Hi Hs Hsize. unfold Upload.upload_as. rewrite Hi.
  destruct s as [|s0 s']; [contradiction|]. cbn [truthy str_truthy negb].
  rewrite Hsize.
  destruct (Upload.folder_invalid _);
    [left; eexists; split; [reflexivity|now left]|].
  destruct (Upload.presetId_invalid _);
    [left; eexists; split; [reflexivity|now right; left]|].
  destruct (get_prop body "presetId") as [[| | | | |p| |]|];
    try (right; eexists; reflexivity).
  destruct (str_truthy p); [|right; eexists; reflexivity].
  destruct (Presets.getPresetById p) as [preset|];
    [|left; eexists; split; [reflexivity|right; right; left; eexists; reflexivity]].
  destruct (Qgtb (Upload.fileSizeMB _) _); [|right; eexists; reflexivity].
  left; eexists; split; [reflexivity|]. right; right; right.
  eexists _, _. reflexivity.
Qed.

Lemma send_shape c s options resp calls :
  (match fst (Upload.send c s options) with
   | Routes.Ok response => response
   | Routes.Throws error => Upload.catch_all [js "upload"] error
   end, snd (Upload.send c s options)) = (resp, calls) ->
  (forall x, body resp <> JObj [(js "error", JStr (too_large_text x))])
  /\ calls = [Upload.RequireAuth;
              Upload.CloudinaryUpload
                (js "data:image/" ++ Upload.imageFormat s ++ js ";base64,"
                 ++ Upload.base64Data s)%list options].
Proof.
  unfold Upload.send. cbn [fst snd].
  destruct (Upload.cloudinary_uploader_upload c _ _); intros [= <- <-];
    (split; [|reflexivity]); intros x.
  - apply success_body_not_error. cbn. intros H.
    repeat (destruct H as [H|H]; [discriminate H|]). exact H.
  - discriminate.
Qed.

(** X18: the upload route's own size limit cannot be reached.  The body
    text is capped at ten megabytes before it is parsed and the image text is
    part of it, so the reckoned image size stays below the limit: unless the
    answer is the one [requireAuth] gave, it is never the "Image size exceeds
    maximum of 10MB" error, and every image sent to the upload call has a
    base64 part of at most 10 * 1024 * 1024 code units. *)
Theorem upload_size_limit req c resp calls :
  Upload.POST_upload req c = (resp, calls) ->
  Upload.requireAuth c = Routes.Ok (Routes.Denied resp)
  \/ ((forall x, body resp <> JObj [(js "error", JStr (too_large_text x))])
      /\ forall file options,
           In (Upload.CloudinaryUpload file options) calls ->
           exists fmt data,
             file = (js "data:image/" ++ fmt ++ js ";base64," ++ data)%list
             /\ (str_length data <= 10 * 1024 * 1024)%Z).
Proof.
  unfold Upload.POST_upload.
  destruct (Upload.parse_body req) as [r|body0] eqn:Ep.
  { intros [= <- <-]. right. split; [|intros f o []].
    intros x. destruct (parse_body_reply _ _ Ep) as [-> | ->]; other_text. }
  unfold Upload.upload.
  destruct (Upload.requireAuth c) as [[response|userId]|e] eqn:Ea; cbn [fst snd].
  - intros [= <- <-]. now left.
  - intros Hpost. right. revert Hpost.
    assert (Hnone : forall file options,
              In (Upload.CloudinaryUpload file options) [Upload.RequireAuth] ->
              exists fmt data,
                file = (js "data:image/" ++ fmt ++ js ";base64," ++ data)%list
                /\ (str_length data <= 10 * 1024 * 1024)%Z).
    { intros f o [K|[]]. discriminate K. }
    assert (Hmain :
              (match fst (Upload.upload_as userId body0 c) with
               | Routes.Ok response => response
               | Routes.Throws error => Upload.catch_all [js "upload"] error
               end, snd (Upload.upload_as userId body0 c)) = (resp, calls) ->
              (forall x, body resp <> JObj [(js "error", JStr (too_large_text x))])
              /\ forall file options,
                   In (Upload.CloudinaryUpload file options) calls ->
                   exists fmt data,
                     file = (js "data:image/" ++ fmt ++ js ";base64," ++ data)%list
                     /\ (str_length data <= 10 * 1024 * 1024)%Z).
    { destruct (get_prop body0 "imageData") as [imageData|] eqn:Ei.
      2: { unfold Upload.upload_as. rewrite Ei. cbn [fst snd Upload.reject].
           intros [= <- <-]. split; [intros x; other_text|exact Hnone]. }
      destruct (truthy imageData) eqn:Et.
      2: { unfold Upload.upload_as. rewrite Ei, Et. cbn [negb fst snd Upload.reject].
           intros [= <- <-]. split; [intros x; other_text|exact Hnone]. }
      destruct imageData as [| | | | |s| |];
        try (unfold Upload.upload_as; rewrite Ei, Et;
             cbn [negb fst snd Upload.reject];
             intros [= <- <-]; split; [intros x; other_text|exact Hnone]).
      pose proof (parsed_text_bound _ _ _ _ Ep Ei) as Hlen.
      destruct (size_checks_pass s Hlen) as [S1 _].
      pose proof (base64Data_length s) as Hb.
      assert (Hs : s <> []) by (destruct s; [discriminate Et|discriminate]).
      destruct (upload_as_shape userId body0 c s Ei Hs S1)
        as [[text [-> Htext]]|[options ->]].
      - cbn [fst snd Upload.reject]. intros [= <- <-]. split; [|exact Hnone].
        intros x Heq. injection Heq as Heq.
        destruct Htext as [-> |[-> |[[p ->]|[q [rest ->]]]]].
        + cbv in Heq. discriminate Heq.
        + cbv in Heq. discriminate Heq.
        + change (too_large_text x) with (73%N :: skipn 1 (too_large_text x)) in Heq.
          discriminate Heq.
        + exact (preset_text_differs _ _ _ Heq).
      - intros Heq. destruct (send_shape _ _ _ _ _ Heq) as [H1 ->].
        split; [exact H1|].
        intros file opts [H2|[H2|[]]]; [discriminate H2|].
        injection H2 as <- _. eexists _, _. split; [reflexivity|lia]. }
    destruct body0; try exact Hmain.
    intros [= <- <-]. split; [intros x; discriminate|exact Hnone].
  - intros [= <- <-]. right. split; [intros x; discriminate|].
    intros f o [K|[]]. discriminate K.
Qed.

Lemma upload_size_limit_witness :
  body (fst (Upload.POST_upload sample_upload sample_uploader))
  <> JObj [(js "error", JStr (too_large_text (js "0.00MB")))]
  /\ exists fmt data,
       (js "data:image/png;base64,AAAA"
        = js "data:image/" ++ fmt ++ js ";base64," ++ data)%list
       /\ (str_length data <= 10 * 1024 * 1024)%Z.
Proof.
  destruct (upload_size_limit sample_upload sample_uploader _ _ eq_refl)
    as [H|[H1 H2]].
  - discriminate H.
  - split; [exact (H1 (js "0.00MB"))|].
    exact (H2 _ _ (or_intror (or_introl eq_refl))).
Defined.

(* ================================================================== *)
(** ** Upload presets *)
(* ================================================================== *)

Lemma lookup_obj_set_same o k v : lookup k (obj_set o k v) = Some v.
Proof.
  induction o as [|[k0 v0] o IH]; simpl.
  - now rewrite str_eqb_refl.
  - destruct (str_eqb k k0) eqn:E; simpl; rewrite E; [reflexivity|exact IH].
Qed.

Lemma lookup_obj_set_other o k k' v :
  str_eqb k k' = false -> lookup k (obj_set o k' v) = lookup k o.
Proof.
  intros Hk. induction o as [|[k0 v0] o IH]; simpl.
  - now rewrite Hk.
  - destruct (str_eqb k' k0) eqn:E; simpl.
    + apply str_eqb_eq in E. subst k0. now rewrite Hk.
    + now rewrite IH.
Qed.

Lemma obj_set_shape folder options k v :
  options_shape folder options ->
  In k (map js cloudinary_option_names) ->
  str_eqb (js "folder") k = false ->
  (In k (map js transformation_names) -> truthy v = true) ->
  options_shape folder (obj_set options k v).
Proof.
  intros [H1 [H2 [H3 [H4 H5]]]] Hk Hf Hv.
  split; [now apply obj_set_NoDup|]. split; [|split; [|split]].
  - rewrite obj_set_keys. destruct (existsb _ _); [exact H2|].
    rewrite firstn_app. rewrite H2.
    assert (Hlen : (6 <= List.length (map fst options))%nat).
    { apply (f_equal (@List.length _)) in H2. rewrite length_firstn in H2.
      change (List.length (map js base_option_names)) with 6%nat in H2. lia. }
    replace (6 - List.length (map fst options))%nat with 0%nat by lia.
    now rewrite app_nil_r.
  - rewrite obj_set_keys. destruct (existsb _ _); [exact H3|].
    intros x Hx. apply in_app_iff in Hx as [Hx|[<-|[]]]; auto.
  - now rewrite lookup_obj_set_other.
  - intros k0 v0 Hin Hk0. apply obj_set_In in Hin as [Hin|[-> ->]]; eauto.
Qed.

Lemma set_if_truthy_shape folder options name v :
  options_shape folder options ->
  In name transformation_names ->
  options_shape folder (Presets.set_if_truthy name v options).
Proof.
  intros H Hn. unfold Presets.set_if_truthy.
  destruct v as [x|]; [|exact H]. destruct (truthy x) eqn:Ex; [|exact H].
  apply obj_set_shape; [exact H| | |auto].
  - apply in_map. unfold cloudinary_option_names. rewrite !in_app_iff. auto.
  - simpl in Hn.
    repeat (destruct Hn as [<-|Hn]; [reflexivity|]). destruct Hn.
Qed.

Lemma folder_shape folder folder' options :
  options_shape folder options ->
  options_shape folder' (obj_set options (js "folder") folder').
Proof.
  intros [H1 [H2 [H3 [H4 H5]]]].
  assert (E : existsb (str_eqb (js "folder")) (map fst options) = true).
  { destruct options as [|[k0 v0] rest]; [discriminate|].
    injection H2 as -> _. reflexivity. }
  split; [now apply obj_set_NoDup|]. split; [|split; [|split]].
  - now rewrite obj_set_keys, E.
  - now rewrite obj_set_keys, E.
  - apply lookup_obj_set_same.
  - intros k0 v0 Hin Hk0. apply obj_set_In in Hin as [Hin|[-> ->]]; [eauto|].
    exfalso. simpl in Hk0.
    repeat (destruct Hk0 as [Hk0|Hk0]; [discriminate Hk0|]). exact Hk0.
Qed.

Lemma base_options_shape f b1 b2 b3 b4 b5 :
  options_shape (JStr f)
    [(js "folder", JStr f); (js "overwrite", JBool b1);
     (js "use_filename", JBool b2); (js "unique_filename", JBool b3);
     (js "use_filename_as_display_name", JBool b4);
     (js "use_asset_folder_as_public_id_prefix", JBool b5)].
Proof.
  split; [|split; [|split; [|split]]].
  - cbn [map fst].
    repeat (constructor;
            [let H := fresh in
             intros H; simpl in H;
             repeat (destruct H as [H|H]; [discriminate H|]); exact H|]).
    constructor.
  - reflexivity.
  - intros x Hx. cbn [map fst] in Hx. unfold cloudinary_option_names.
    rewrite map_app. apply in_app_iff. left. exact Hx.
  - reflexivity.
  - intros k v Hin Hk. exfalso. simpl in Hin, Hk.
    repeat (destruct Hin as [Hin|Hin];
            [injection Hin as <- _;
             repeat (destruct Hk as [Hk|Hk]; [discriminate Hk|]); exact Hk|]).
    exact Hin.
Qed.

Ltac extend_shape :=
  repeat first
    [ apply base_options_shape
    | apply set_if_truthy_shape; [|simpl; auto 12]
    | apply obj_set_shape;
      [ | apply in_map; unfold cloudinary_option_names;
          rewrite !in_app_iff; simpl; auto 12
        | reflexivity
        | let K := fresh in
          intros K; exfalso; simpl in K;
          repeat (destruct K as [K|K]; [discriminate K|]); exact K ] ].

(** X20: for every preset and user id, the options of
    [presetToCloudinaryOptions] have distinct names, start with the six fixed
    names, hold only known names, hold no falsy value under a transformation
    name (a width of zero is dropped), and their folder is
    [generateUploadFolder] of the preset and the user unless the preset's
    folder is empty: then the options keep the empty folder while
    [generateUploadFolder] gives a slash and the user id. *)
Theorem preset_options_shape preset userId :
  options_shape
    (JStr (if str_truthy (Presets.folder preset)
           then Presets.generateUploadFolder preset userId None
           else Presets.folder preset))
    (Presets.presetToCloudinaryOptions preset userId)
  /\ (Presets.folder preset = [] -> opt_truthy userId = true ->
      Presets.generateUploadFolder preset userId None
      = (js "/" ++ str_or userId [])%list).
Proof.
  split.
  - unfold Presets.presetToCloudinaryOptions, Presets.generateUploadFolder.
    match goal with
    | |- options_shape _ (if _ then obj_set ?o _ _ else _) =>
        assert (H : options_shape (JStr (Presets.folder preset)) o)
    end.
    { destruct (Presets.context preset);
        destruct (Presets.tags preset) as [[|? ?]|];
        destruct (Presets.eager preset) as [[|? ?]|];
        destruct (Presets.transformations preset);
        extend_shape. }
    destruct (opt_truthy userId); destruct (str_truthy (Presets.folder preset));
      cbn [andb]; try exact H.
    exact (folder_shape _ _ _ H).
  - intros Hf Hu. unfold Presets.generateUploadFolder. now rewrite Hf, Hu.
Qed.

Lemma preset_options_shape_witness :
  Presets.generateUploadFolder bare_preset (Some (js "user-1")) None = js "/user-1"
  /\ lookup (js "folder")
       (Presets.presetToCloudinaryOptions bare_preset (Some (js "user-1")))
     = Some (JStr [])
  /\ lookup (js "width")
       (Presets.presetToCloudinaryOptions bare_preset (Some (js "user-1")))
     = None.
Proof.
  destruct (preset_options_shape bare_preset (Some (js "user-1")))
    as [[_ [_ [_ [H1 H2]]]] H3].
  split; [exact (H3 eq_refl eq_refl)|]. split; [exact H1|].
  destruct (lookup (js "width")
              (Presets.presetToCloudinaryOptions bare_preset (Some (js "user-1"))))
    eqn:E; [discriminate E|reflexivity].
Defined.

Lemma getPresetById_some id0 preset :
  Presets.getPresetById id0 = Some preset ->
  In preset Presets.UPLOAD_PRESETS /\ Presets.id preset = id0.
Proof.
  unfold Presets.getPresetById. intros H. apply find_some in H as [H1 H2].
  split; [exact H1|]. now apply str_eqb_eq.
Qed.

Lemma known_preset preset :
  In preset Presets.UPLOAD_PRESETS ->
  Presets.getPresetById (Presets.id preset) = Some preset
  /\ Presets.id preset <> [] /\ Presets.folder preset <> []
  /\ (2 <= Presets.maxFileSize preset <= 20)%Z
  /\ In preset (Presets.getPresetsByCategory (Presets.category preset)).
Proof.
  intros H. simpl in H.
  repeat (destruct H as [<-|H];
          [split; [reflexivity|]; split; [discriminate|]; split; [discriminate|];
           split; [cbn; lia|]; cbn; auto 10|]).
  destruct H.
Qed.

(** X21: the preset table.  Every preset is found again by its id and is
    listed under its own category; a preset that is found belongs to the
    table, has the id asked for, a non-empty folder and between 2 and 20
    megabytes, and its name is its display name; an unknown id is its own
    display name; the default preset and the recipe preset are recipe_main
    and the profile preset is profile_avatar, so the fallbacks to the first
    preset are never taken. *)
Theorem preset_lookup :
  (forall preset, In preset Presets.UPLOAD_PRESETS ->
     Presets.getPresetById (Presets.id preset) = Some preset
     /\ In preset (Presets.getPresetsByCategory (Presets.category preset)))
  /\ (forall id0 preset, Presets.getPresetById id0 = Some preset ->
        In preset Presets.UPLOAD_PRESETS /\ Presets.id preset = id0
        /\ id0 <> [] /\ Presets.folder preset <> []
        /\ (2 <= Presets.maxFileSize preset <= 20)%Z
        /\ Presets.getPresetDisplayName id0 = Presets.name preset)
  /\ (forall id0, Presets.getPresetById id0 = None ->
        Presets.getPresetDisplayName id0 = id0)
  /\ Presets.getDefaultPreset = Some Presets.recipe_main
  /\ Presets.getRecipePreset = Some Presets.recipe_main
  /\ Presets.getProfilePreset = Some Presets.profile_avatar.
Proof.
  split; [|split; [|split; [|repeat split]]].
  - intros preset H. destruct (known_preset preset H) as [H1 [_ [_ [_ H2]]]]. auto.
  - intros id0 preset H.
    destruct (getPresetById_some _ _ H) as [Hin Hid].
    destruct (known_preset preset Hin) as [_ [H2 [H3 [H4 _]]]].
    split; [exact Hin|]. split; [exact Hid|]. split; [now rewrite <- Hid|].
    split; [exact H3|]. split; [exact H4|].
    unfold Presets.getPresetDisplayName. rewrite H.
    simpl in Hin.
    repeat (destruct Hin as [<-|Hin]; [reflexivity|]). destruct Hin.
  - intros id0 H. unfold Presets.getPresetDisplayName. now rewrite H.
Qed.

Lemma preset_lookup_witness :
  Presets.getPresetById (js "recipe_step") = Some Presets.recipe_step
  /\ Presets.getPresetDisplayName (js "recipe_step") = js "Recipe Step Image"
  /\ Presets.getPresetDisplayName (js "banner") = js "banner".
Proof.
  destruct preset_lookup as [H1 [H2 [H3 _]]].
  split; [|split].
  - exact (proj1 (H1 Presets.recipe_step
                    (or_intror (or_intror (or_intror (or_introl eq_refl)))))).
  - exact (proj2 (proj2 (proj2 (proj2 (proj2
             (H2 (js "recipe_step") Presets.recipe_step eq_refl)))))).
  - exact (H3 (js "banner") eq_refl).
Defined.

(** The shape of the options, for the folder that the route reads back. *)
Lemma presetToCloudinaryOptions_shape preset userId :
  options_shape
    (JStr (if str_truthy (Presets.folder preset)
           then Presets.generateUploadFolder preset userId None
           else Presets.folder preset))
    (Presets.presetToCloudinaryOptions preset userId).
Proof.
  unfold Presets.presetToCloudinaryOptions, Presets.generateUploadFolder.
  match goal with
  | |- options_shape _ (if _ then obj_set ?o _ _ else _) =>
      assert (H : options_shape (JStr (Presets.folder preset)) o)
  end.
  { destruct (Presets.context preset);
      destruct (Presets.tags preset) as [[|? ?]|];
      destruct (Presets.eager preset) as [[|? ?]|];
      destruct (Presets.transformations preset);
      extend_shape. }
  destruct (opt_truthy userId); destruct (str_truthy (Presets.folder preset));
    cbn [andb]; try exact H.
  exact (folder_shape _ _ _ H).
Qed.

Lemma lookup_folder_preset_options c preset userId recipeId :
  Presets.folder preset <> [] -> userId <> [] ->
  lookup (js "folder") (Upload.preset_options c preset userId recipeId)
  = Some (JStr (match recipeId with
                | Some (JNum q) =>
                    if truthy (JNum q)
                    then (Presets.folder preset ++ js "/" ++ userId
                          ++ js "/" ++ Upload.numberText c q)%list
                    else (Presets.folder preset ++ js "/" ++ userId)%list
                | Some (JInf negative) =>
                    (Presets.folder preset ++ js "/" ++ userId ++ js "/"
                     ++ (if negative then js "-Infinity" else js "Infinity"))%list
                | _ => (Presets.folder preset ++ js "/" ++ userId)%list
                end)).
Proof.
  intros Hf Hu.
  destruct (presetToCloudinaryOptions_shape preset (Some userId))
    as [_ [_ [_ [H _]]]].
  assert (Ht : str_truthy (Presets.folder preset) = true)
    by (destruct (Presets.folder preset); [contradiction|reflexivity]).
  assert (Hut : str_truthy userId = true)
    by (destruct userId; [contradiction|reflexivity]).
  rewrite Ht in H. unfold Presets.generateUploadFolder in H.
  cbn [opt_truthy str_or] in H. rewrite Hut in H.
  unfold Upload.preset_options.
  destruct recipeId as [[| |q| |negative| | |]|]; try exact H.
  - destruct (truthy (JNum q)); [apply lookup_obj_set_same|exact H].
  - apply lookup_obj_set_same.
Qed.

(** X19: an upload that names a known preset, with a non-empty image text
    and an acceptable folder, is sent exactly when three quarters of the
    base64 length do not exceed the preset's megabytes; a preset of 8 MB or
    more therefore never rejects an image that got past the body cap.  The
    folder that is sent equals [generateUploadFolder] of the preset, the
    user and the recipe id, when the user id is not empty and the recipe id
    is a whole number other than zero (or absent). *)
Theorem preset_upload_accepts req c body userId s p preset :
  Upload.parse_body req = Upload.Parsed body ->
  Upload.requireAuth c = Routes.Ok (Routes.Granted userId) ->
  get_prop body "imageData" = Some (JStr s) -> s <> [] ->
  Upload.folder_invalid (get_prop body "folder") = false ->
  get_prop body "presetId" = Some (JStr p) ->
  Presets.getPresetById p = Some preset ->
  snd (Upload.POST_upload req c)
  = (if (4 * 1024 * 1024 * Presets.maxFileSize preset
         <? 3 * str_length (Upload.base64Data s))%Z
     then [Upload.RequireAuth]
     else [Upload.RequireAuth;
           Upload.CloudinaryUpload
             (js "data:image/" ++ Upload.imageFormat s ++ js ";base64,"
              ++ Upload.base64Data s)%list
             (Upload.preset_options c preset userId (get_prop body "recipeId"))])
  /\ ((8 <= Presets.maxFileSize preset)%Z ->
      (4 * 1024 * 1024 * Presets.maxFileSize preset
       <? 3 * str_length (Upload.base64Data s))%Z = false)
  /\ (userId <> [] ->
      forall n, get_prop body "recipeId" = Some (JInt n) -> n <> 0%Z ->
      Upload.numberText c (inject_Z n) = Number_toString n ->
      lookup (js "folder")
        (Upload.preset_options c preset userId (get_prop body "recipeId"))
      = Some (JStr (Presets.generateUploadFolder preset (Some userId) (Some n))))
  /\ (userId <> [] -> get_prop body "recipeId" = None ->
      lookup (js "folder")
        (Upload.preset_options c preset userId (get_prop body "recipeId"))
      = Some (JStr (Presets.generateUploadFolder preset (Some userId) None))).
Proof.
  intros Hp Ha Hi Hs Hfolder Hpid Hpreset.
  destruct (getPresetById_some _ _ Hpreset) as [Hin Hid].
  destruct (known_preset preset Hin) as [_ [Hne [Hf _]]].
  pose proof (parsed_text_bound _ _ _ _ Hp Hi) as Hlen.
  destruct (size_checks_pass s Hlen) as [S1 S2].
  pose proof (base64Data_length s) as Hb.
  assert (Hcond : Qgtb (Upload.fileSizeMB s) (inject_Z (Presets.maxFileSize preset))
                  = (4 * 1024 * 1024 * Presets.maxFileSize preset
                     <? 3 * str_length (Upload.base64Data s))%Z).
  { unfold Upload.fileSizeMB, inject_Z. rewrite Qgtb_spec. f_equal; lia. }
  split; [|split; [|split]].
  - unfold Upload.POST_upload, Upload.upload. rewrite Hp, Ha.
    assert (Hbody : match body with
                    | JNull =>
                        (Routes.Throws
                           (Routes.AnError (Upload.destructuring_null_message c) None),
                         [Upload.RequireAuth])
                    | _ => Upload.upload_as userId body c
                    end = Upload.upload_as userId body c)
      by (destruct body; try reflexivity; discriminate Hi).
    rewrite Hbody. cbn [snd].
    unfold Upload.upload_as. rewrite Hi, Hpid, Hfolder, S1.
    destruct s as [|s0 s']; [contradiction|].
    cbn [truthy str_truthy negb Upload.presetId_invalid].
    assert (Hpt : str_truthy p = true)
      by (rewrite <- Hid; destruct (Presets.id preset); [contradiction|reflexivity]).
    rewrite Hpt, Hpreset, Hcond.
    destruct (_ <? _)%Z; reflexivity.
  - intros Hm. rewrite <- Hcond. now apply S2.
  - intros Hu n Hr Hn Htext.
    rewrite (lookup_folder_preset_options c preset userId _ Hf Hu), Hr.
    unfold JInt at 1.
    assert (Ht : truthy (JNum (inject_Z n)) = true).
    { simpl. destruct (Z.eqb_spec n 0); [contradiction|reflexivity]. }
    rewrite Ht, Htext. unfold Presets.generateUploadFolder.
    cbn [opt_truthy str_or].
    assert (Hut : str_truthy userId = true)
      by (destruct userId; [contradiction|reflexivity]).
    rewrite Hut. destruct (Z.eqb_spec n 0); [contradiction|].
    cbn [negb]. now rewrite <- !app_assoc.
  - intros Hu Hr.
    rewrite (lookup_folder_preset_options c preset userId _ Hf Hu), Hr.
    unfold Presets.generateUploadFolder. cbn [opt_truthy str_or].
    assert (Hut : str_truthy userId = true)
      by (destruct userId; [contradiction|reflexivity]).
    now rewrite Hut.
Qed.

Lemma preset_upload_accepts_witness :
  snd (Upload.POST_upload sample_upload sample_uploader)
  = [Upload.RequireAuth;
     Upload.CloudinaryUpload (js "data:image/png;base64,AAAA")
       (Upload.preset_options sample_uploader Presets.recipe_gallery (js "user-1")
          (Some (JInt 5)))]
  /\ lookup (js "folder")
       (Upload.preset_options sample_uploader Presets.recipe_gallery (js "user-1")
          (Some (JInt 5)))
     = Some (JStr (js "recipe-app/recipes/gallery/user-1/5")).
Proof.
  destruct (preset_upload_accepts sample_upload sample_uploader
              (obj [("imageData", JText "data:image/png;base64,AAAA");
                    ("presetId", JText "recipe_gallery");
                    ("recipeId", JInt 5)]%string)
              (js "user-1") (js "data:image/png;base64,AAAA")
              (js "recipe_gallery") Presets.recipe_gallery
              eq_refl eq_refl eq_refl)
    as [H1 [_ [H3 _]]]; [discriminate|reflexivity|reflexivity|reflexivity|].
  split; [exact H1|].
  refine (H3 _ 5%Z eq_refl _ eq_refl); discriminate.
Defined.

(* ================================================================== *)
(** ** The edges of the upload route *)
(* ================================================================== *)

Lemma reject_status text :
  status match fst (Upload.reject text) with
         | Routes.Ok response => response
         | Routes.Throws error => Upload.catch_all [js "upload"] error
         end = 400%Z.
Proof. reflexivity. Qed.

Lemma send_status c s options :
  In (status match fst (Upload.send c s options) with
             | Routes.Ok response => response
             | Routes.Throws error => Upload.catch_all [js "upload"] error
             end) [200; 500]%Z.
Proof.
  unfold Upload.send. cbn [fst].
  destruct (Upload.cloudinary_uploader_upload c _ _); simpl; auto.
Qed.

Lemma upload_as_status userId body c :
  In (status match fst (Upload.upload_as userId body c) with
             | Routes.Ok response => response
             | Routes.Throws error => Upload.catch_all [js "upload"] error
             end) [200; 400; 500]%Z.
Proof.
  assert (R : forall text,
            In (status match fst (Upload.reject text) with
                       | Routes.Ok response => response
                       | Routes.Throws error => Upload.catch_all [js "upload"] error
                       end) [200; 400; 500]%Z)
    by (intros; rewrite reject_status; simpl; auto).
  assert (S : forall s options,
            In (status match fst (Upload.send c s options) with
                       | Routes.Ok response => response
                       | Routes.Throws error => Upload.catch_all [js "upload"] error
                       end) [200; 400; 500]%Z).
  { intros s options. destruct (send_status c s options) as [<-|[<-|[]]]; simpl; auto. }
  unfold Upload.upload_as.
  destruct (get_prop body "imageData") as [imageData|]; [|apply R].
  destruct (truthy imageData); cbn [negb]; [|apply R].
  destruct imageData as [| | | | |s| |]; try apply R.
  destruct (Qgtb _ _); [apply R|].
  destruct (Upload.folder_invalid _); [apply R|].
  destruct (Upload.presetId_invalid _); [apply R|].
  destruct (get_prop body "presetId") as [[| | | | |p| |]|]; try apply S.
  destruct (str_truthy p); [|apply S].
  destruct (Presets.getPresetById p); [|apply R].
  destruct (Qgtb _ _); [apply R|apply S].
Qed.

(** X22: the edges of the upload route.  The answer is the one that
    [requireAuth] gave, or has status 200, 400, 413 or 500.  A body text of
    more than 10 MB is answered with 413 before anything is called.  A body
    text that is not empty and does not parse is answered with 400 and
    Invalid JSON only when the content-length header is set and is not the
    text 0; otherwise the request is treated as one with an empty body.  For
    an authorised user, a body that is the JSON value null ends in the 500 of
    the catch block with the engine's message, and a body that is neither
    null nor an object is answered with 400 and Image data is required.
    When the upload call throws, the answer is the 500 of the catch block
    for what was thrown. *)
Theorem upload_body_edges req c :
  (Upload.requireAuth c = Routes.Ok (Routes.Denied (fst (Upload.POST_upload req c)))
   \/ In (status (fst (Upload.POST_upload req c))) [200; 400; 413; 500]%Z)
  /\ (forall bodyText,
        Upload.text req = Routes.Ok bodyText ->
        (10 * 1024 * 1024 < str_length bodyText)%Z ->
        Upload.POST_upload req c
        = (mkResponse 413
             (error_body "Request body too large. Maximum size is 10MB"), []))
  /\ (forall bodyText,
        Upload.text req = Routes.Ok bodyText ->
        (str_length bodyText <= 10 * 1024 * 1024)%Z ->
        bodyText <> [] -> JSON_parse bodyText = None ->
        Upload.POST_upload req c
        = if opt_truthy (Upload.content_length req)
             && negb (str_eqb (str_or (Upload.content_length req) []) (js "0"))
          then (jsonResponse (error_body "Invalid JSON in request body")
                  (Some 400%Z), [])
          else Upload.POST_upload
                 (Upload.mkPostRequest (Routes.Ok []) (Upload.content_length req)) c)
  /\ (forall userId,
        Upload.requireAuth c = Routes.Ok (Routes.Granted userId) ->
        (Upload.parse_body req = Upload.Parsed JNull ->
         Upload.POST_upload req c
         = (Upload.catch_all [js "upload"]
              (Routes.AnError (Upload.destructuring_null_message c) None),
            [Upload.RequireAuth]))
        /\ (forall body,
              Upload.parse_body req = Upload.Parsed body ->
              is_object body = false -> body <> JNull ->
              Upload.POST_upload req c
              = (jsonResponse (JObj [(js "error", JStr (js "Image data is required"))])
                   (Some 400%Z), [Upload.RequireAuth])))
  /\ (forall e file options,
        In (Upload.CloudinaryUpload file options) (snd (Upload.POST_upload req c)) ->
        Upload.cloudinary_uploader_upload c file options = Routes.Throws e ->
        fst (Upload.POST_upload req c) = Upload.catch_all [js "upload"] e
        /\ status (fst (Upload.POST_upload req c)) = 500%Z).
Proof.
  split; [|split; [|split; [|split]]].
  - unfold Upload.POST_upload.
    destruct (Upload.parse_body req) as [r|body] eqn:Ep; cbn [fst].
    + right. unfold Upload.parse_body in Ep.
      destruct (Upload.text req) as [bodyText|e].
      * destruct (_ >? _)%Z; [injection Ep as <-; simpl; auto|].
        destruct (str_truthy bodyText); [|discriminate].
        destruct (JSON_parse bodyText); [discriminate|].
        destruct (_ && _); [injection Ep as <-; simpl; auto|discriminate].
      * destruct (_ && _); [injection Ep as <-; simpl; auto|discriminate].
    + unfold Upload.upload.
      destruct (Upload.requireAuth c) as [[response|userId]|e]; cbn [fst].
      * now left.
      * right.
        assert (H := upload_as_status userId body c).
        destruct body; simpl in H |- *; tauto.
      * right. simpl. auto.
  - intros bodyText Ht Hlen. unfold Upload.POST_upload, Upload.parse_body.
    rewrite Ht. destruct (Z.gtb_spec (str_length bodyText) (10 * 1024 * 1024));
      [reflexivity|lia].
  - intros bodyText Ht Hlen Hne Hp. unfold Upload.POST_upload, Upload.parse_body.
    rewrite Ht. cbn [Upload.text Upload.content_length].
    destruct (Z.gtb_spec (str_length bodyText) (10 * 1024 * 1024)); [lia|].
    change (str_length [] >? 10 * 1024 * 1024)%Z with false.
    cbn [str_truthy]. rewrite Hp.
    destruct bodyText; [contradiction|]. cbn [str_truthy].
    destruct (_ && _); reflexivity.
  - intros userId Ha. split.
    + intros Hp. unfold Upload.POST_upload, Upload.upload. now rewrite Hp, Ha.
    + intros body Hp Hobj Hnull. unfold Upload.POST_upload, Upload.upload.
      rewrite Hp, Ha.
      destruct body; try discriminate Hobj; try contradiction; reflexivity.
  - intros e file options Hin Hthrow. unfold Upload.POST_upload in *.
    destruct (Upload.parse_body req) as [r|body]; [destruct Hin|].
    cbn [fst snd] in *. unfold Upload.upload in *.
    destruct (Upload.requireAuth c) as [[response|userId]|e0]; cbn [fst snd] in *;
      try (destruct Hin as [Hin|[]]; discriminate Hin).
    assert (Hsend : forall s o,
              In (Upload.CloudinaryUpload file options) (snd (Upload.send c s o)) ->
              match fst (Upload.send c s o) with
              | Routes.Ok response => response
              | Routes.Throws error => Upload.catch_all [js "upload"] error
              end = Upload.catch_all [js "upload"] e).
    { intros s o. unfold Upload.send. cbn [fst snd].
      generalize (js "data:image/" ++ Upload.imageFormat s ++ js ";base64,"
                  ++ Upload.base64Data s)%list.
      intros f [K|[K|[]]]; [discriminate K|]. injection K as -> ->.
      now rewrite Hthrow. }
    assert (Hrej : forall text,
              ~ In (Upload.CloudinaryUpload file options) (snd (Upload.reject text)))
      by (intros text [K|[]]; discriminate K).
    assert (Hmain : match fst (Upload.upload_as userId body c) with
                    | Routes.Ok response => response
                    | Routes.Throws error => Upload.catch_all [js "upload"] error
                    end = Upload.catch_all [js "upload"] e).
    { assert (Hin' : In (Upload.CloudinaryUpload file options)
                       (snd (Upload.upload_as userId body c))).
      { destruct body; exact Hin. }
      clear Hin. revert Hin'. unfold Upload.upload_as.
      destruct (get_prop body "imageData") as [imageData|];
        [|intros K; destruct (Hrej _ K)].
      destruct (truthy imageData); cbn [negb]; [|intros K; destruct (Hrej _ K)].
      destruct imageData as [| | | | |s| |]; try (intros K; destruct (Hrej _ K)).
      destruct (Qgtb _ _); [intros K; destruct (Hrej _ K)|].
      destruct (Upload.folder_invalid _); [intros K; destruct (Hrej _ K)|].
      destruct (Upload.presetId_invalid _); [intros K; destruct (Hrej _ K)|].
      destruct (get_prop body "presetId") as [[| | | | |p| |]|]; try apply Hsend.
      destruct (str_truthy p); [|apply Hsend].
      destruct (Presets.getPresetById p); [|intros K; destruct (Hrej _ K)].
      destruct (Qgtb _ _); [intros K; destruct (Hrej _ K)|apply Hsend]. }
    destruct body; try (rewrite Hmain; split; reflexivity).
    destruct Hin as [K|[]]. discriminate K.
Qed.

Lemma upload_body_edges_witness :
  Upload.POST_upload
    (Upload.mkPostRequest (Routes.Ok (js "{bad")) (Some (js "4"))) sample_uploader
  = (jsonResponse (error_body "Invalid JSON in request body") (Some 400%Z), []).
Proof.
  exact (proj1 (proj2 (proj2 (upload_body_edges
                                (Upload.mkPostRequest (Routes.Ok (js "{bad"))
                                   (Some (js "4")))
                                sample_uploader)))
           (js "{bad") eq_refl ltac:(vm_compute; discriminate)
           ltac:(discriminate) eq_refl).
Defined.

(* ================================================================== *)
(** ** Regular expressions: the matcher decides the language *)
(* ================================================================== *)

Lemma matches_nullable r : Share.matches r [] <-> Share.nullable r = true.
Proof.
  split.
  - intros H. remember [] as s eqn:Es.
    induction H; simpl; try discriminate; auto.
    + apply app_eq_nil in Es as [-> ->]. now rewrite IHmatches1, IHmatches2.
    + now rewrite IHmatches.
    + rewrite IHmatches by assumption. apply orb_true_r.
  - induction r; simpl; intros H; try discriminate.
    + constructor.
    + apply andb_true_iff in H as [H1 H2].
      apply (Share.MSeq _ _ [] []); auto.
    + apply orb_true_iff in H as [H|H]; [apply Share.MAltL|apply Share.MAltR]; auto.
    + constructor.
Qed.

Lemma matches_seq_inv a b u :
  Share.matches (Share.Seq a b) u ->
  exists s t, u = (s ++ t)%list /\ Share.matches a s /\ Share.matches b t.
Proof. intros H. inversion H; subst. eauto. Qed.

Lemma matches_alt_inv a b u :
  Share.matches (Share.Alt a b) u -> Share.matches a u \/ Share.matches b u.
Proof. intros H. inversion H; subst; auto. Qed.

Lemma matches_class_inv p u :
  Share.matches (Share.Class p) u -> exists c, u = [c] /\ p c = true.
Proof. intros H. inversion H; subst. eauto. Qed.

Lemma star_cons a c s :
  Share.matches (Share.Star a) (c :: s) ->
  exists s1 t, s = s1 ++ t /\ Share.matches a (c :: s1)
               /\ Share.matches (Share.Star a) t.
Proof.
  intros H. remember (Share.Star a) as r eqn:Er. remember (c :: s) as u eqn:Eu.
  induction H; try discriminate.
  injection Er as ->. destruct s0 as [|x s0].
  - simpl in Eu. now apply IHmatches2.
  - simpl in Eu. injection Eu as -> <-. eauto.
Qed.

Lemma deriv_matches r : forall c s,
  Share.matches (Share.deriv c r) s <-> Share.matches r (c :: s).
Proof.
  induction r as [| |p|a IHa b IHb|a IHa b IHb|a IHa]; intros c s; simpl.
  - split; intros H; inversion H.
  - split; intros H; inversion H.
  - destruct (p c) eqn:E; split; intros H.
    + inversion H; subst. now constructor.
    + apply matches_class_inv in H as [x [[= -> ->] _]]. constructor.
    + inversion H.
    + apply matches_class_inv in H as [x [[= -> ->] Hx]]. congruence.
  - assert (Hseq : Share.matches (Share.Seq (Share.deriv c a) b) s ->
                   Share.matches (Share.Seq a b) (c :: s)).
    { intros H. apply matches_seq_inv in H as [s1 [t [-> [H1 H2]]]].
      change (c :: s1 ++ t) with ((c :: s1) ++ t).
      constructor; [now apply IHa|assumption]. }
    assert (Hinv : Share.matches (Share.Seq a b) (c :: s) ->
                   Share.matches (Share.Seq (Share.deriv c a) b) s
                   \/ (Share.nullable a = true /\ Share.matches (Share.deriv c b) s)).
    { intros H. apply matches_seq_inv in H as [s1 [t [E [H1 H2]]]].
      destruct s1 as [|x s1].
      - simpl in E. subst t. right. split; [now apply matches_nullable|now apply IHb].
      - simpl in E. injection E as <- ->. left.
        constructor; [now apply IHa|assumption]. }
    destruct (Share.nullable a) eqn:En.
    + split.
      * intros H. apply matches_alt_inv in H as [H|H]; [now apply Hseq|].
        change (c :: s) with ([] ++ c :: s).
        constructor; [now apply matches_nullable|now apply IHb].
      * intros H. destruct (Hinv H) as [H1|[_ H2]];
          [now apply Share.MAltL|now apply Share.MAltR].
    + split; [exact Hseq|].
      intros H. destruct (Hinv H) as [H1|[H2 _]]; [exact H1|discriminate].
  - split; intros H; apply matches_alt_inv in H as [H|H];
      [apply Share.MAltL; now apply IHa|apply Share.MAltR; now apply IHb
      |apply Share.MAltL; now apply IHa|apply Share.MAltR; now apply IHb].
  - split.
    + intros H. apply matches_seq_inv in H as [s1 [t [-> [H1 H2]]]].
      change (c :: s1 ++ t) with ((c :: s1) ++ t).
      constructor; [now apply IHa|assumption].
    + intros H. destruct (star_cons _ _ _ H) as [s1 [t [-> [H1 H2]]]].
      constructor; [now apply IHa|assumption].
Qed.

Lemma test_matches s : forall r, Share.test r s = true <-> Share.matches r s.
Proof.
  unfold Share.test. induction s as [|c s IH]; intros r; simpl.
  - symmetry. apply matches_nullable.
  - rewrite IH. apply deriv_matches.
Qed.

Lemma matches_star_class p s :
  Share.matches (Share.Star (Share.Class p)) s <-> forallb p s = true.
Proof.
  split.
  - intros H. remember (Share.Star (Share.Class p)) as r eqn:Er.
    induction H; try discriminate; [reflexivity|].
    injection Er as ->. apply matches_class_inv in H as [c [-> Hc]]. simpl.
    now rewrite Hc, IHmatches2.
  - induction s as [|c s IH]; simpl; intros H; [constructor|].
    apply andb_true_iff in H as [Hc Hs].
    change (c :: s) with ([c] ++ s). constructor; [now constructor|auto].
Qed.

Lemma matches_plus_class p s :
  Share.matches (Share.Plus (Share.Class p)) s <-> s <> [] /\ forallb p s = true.
Proof.
  unfold Share.Plus. split.
  - intros H. apply matches_seq_inv in H as [s1 [t [-> [H1 H2]]]].
    apply matches_class_inv in H1 as [c [-> Hc]].
    apply matches_star_class in H2. simpl. rewrite Hc, H2.
    split; [discriminate|reflexivity].
  - intros [Hne H]. destruct s as [|c s]; [contradiction|].
    simpl in H. apply andb_true_iff in H as [Hc Hs].
    change (c :: s) with ([c] ++ s).
    constructor; [now constructor|now apply matches_star_class].
Qed.

Lemma matches_char k s :
  Share.matches (Share.Class (N.eqb k)) s <-> s = [k].
Proof.
  split.
  - intros H. apply matches_class_inv in H as [c [-> Hc]].
    apply N.eqb_eq in Hc. now subst.
  - intros ->. constructor. apply N.eqb_refl.
Qed.

Lemma part_forallb s :
  forallb Share.not_space_or_at s = true ->
  forallb (fun c => negb (is_js_whitespace c)) s = true
  /\ count_occ N.eq_dec s 64%N = 0%nat.
Proof.
  induction s as [|c s IH]; simpl; [auto|].
  intros H. apply andb_true_iff in H as [Hc Hs].
  destruct (IH Hs) as [H1 H2]. unfold Share.not_space_or_at in Hc.
  apply negb_true_iff, orb_false_iff in Hc as [Hw Ha].
  rewrite Hw, H1. split; [reflexivity|].
  destruct (N.eq_dec c 64) as [->|]; [discriminate|exact H2].
Qed.

(** X23: the email expression of the share route accepts exactly the
    texts that split into a name, an at sign, a host, a dot and an ending,
    all three non-empty and free of white space and of at signs.  An
    accepted text holds no white space, exactly one at sign, and at least
    five code units. *)
Theorem email_format s :
  (Share.test Share.emailRegex s = true <->
   exists name host tld,
     s = (name ++ [64%N] ++ host ++ [46%N] ++ tld)%list
     /\ name <> [] /\ host <> [] /\ tld <> []
     /\ forallb Share.not_space_or_at (name ++ host ++ tld) = true)
  /\ (Share.test Share.emailRegex s = true ->
      forallb (fun c => negb (is_js_whitespace c)) s = true
      /\ count_occ N.eq_dec s 64%N = 1%nat
      /\ (5 <= List.length s)%nat).
Proof.
  assert (Hchar : Share.test Share.emailRegex s = true <->
                  exists name host tld,
                    s = (name ++ [64%N] ++ host ++ [46%N] ++ tld)%list
                    /\ name <> [] /\ host <> [] /\ tld <> []
                    /\ forallb Share.not_space_or_at (name ++ host ++ tld) = true).
  { rewrite test_matches. unfold Share.emailRegex. split.
    - intros H.
      apply matches_seq_inv in H as [name [r1 [-> [Hn H1]]]].
      apply matches_seq_inv in H1 as [at_ [r2 [-> [Ha H2]]]].
      apply matches_seq_inv in H2 as [host [r3 [-> [Hh H3]]]].
      apply matches_seq_inv in H3 as [dot [tld [-> [Hd Ht]]]].
      apply matches_plus_class in Hn as [Hn1 Hn2], Hh as [Hh1 Hh2], Ht as [Ht1 Ht2].
      apply matches_char in Ha, Hd. subst.
      exists name, host, tld. repeat split; auto.
      now rewrite !forallb_app, Hn2, Hh2, Ht2.
    - intros [name [host [tld [-> [Hn [Hh [Ht Hall]]]]]]].
      rewrite !forallb_app in Hall.
      apply andb_true_iff in Hall as [Hn2 Hall].
      apply andb_true_iff in Hall as [Hh2 Ht2].
      repeat constructor; try apply N.eqb_refl;
        apply matches_plus_class; auto. }
  split; [exact Hchar|].
  intros H. apply Hchar in H as [name [host [tld [-> [Hn [Hh [Ht Hall]]]]]]].
  rewrite !forallb_app in Hall.
  apply andb_true_iff in Hall as [Hn2 Hall].
  apply andb_true_iff in Hall as [Hh2 Ht2].
  destruct (part_forallb _ Hn2) as [N1 N2], (part_forallb _ Hh2) as [H1 H2],
    (part_forallb _ Ht2) as [T1 T2].
  split; [|split].
  - rewrite !forallb_app, N1, H1, T1. reflexivity.
  - rewrite !count_occ_app, N2, H2, T2. reflexivity.
  - rewrite !length_app. simpl.
    destruct name, host, tld; try contradiction; simpl; lia.
Qed.

Lemma email_format_witness :
  Share.test Share.emailRegex (js "cook@example.org") = true
  /\ count_occ N.eq_dec (js "cook@example.org") 64%N = 1%nat.
Proof.
  assert (H : Share.test Share.emailRegex (js "cook@example.org") = true).
  { apply (proj1 (email_format (js "cook@example.org"))).
    exists (js "cook"), (js "example"), (js "org").
    split; [reflexivity|]. split; [discriminate|]. split; [discriminate|].
    split; [discriminate|reflexivity]. }
  split; [exact H|].
  exact (proj1 (proj2 (proj2 (email_format (js "cook@example.org")) H))).
Defined.

(* ================================================================== *)
(** ** [escapeHtml] *)
(* ================================================================== *)

Lemma replace_all_flat_map c r s :
  Share.replace_all c r s = flat_map (fun x => if (x =? c)%N then r else [x]) s.
Proof. induction s as [|x s IH]; simpl; [reflexivity|now rewrite IH]. Qed.

Lemma flat_map_flat_map (f g : N -> list N) s :
  flat_map f (flat_map g s) = flat_map (fun x => flat_map f (g x)) s.
Proof.
  induction s as [|x s IH]; simpl; [reflexivity|].
  now rewrite flat_map_app, IH.
Qed.

Lemma escapeHtml_units s : Share.escapeHtml s = flat_map escape_unit s.
Proof.
  unfold Share.escapeHtml. rewrite !replace_all_flat_map, !flat_map_flat_map.
  apply flat_map_ext. intros x. unfold escape_unit.
  destruct (N.eqb_spec x 38) as [->|H38]; [reflexivity|].
  destruct (N.eqb_spec x 60) as [->|H60]; [reflexivity|].
  destruct (N.eqb_spec x 62) as [->|H62]; [reflexivity|].
  destruct (N.eqb_spec x 34) as [->|H34]; [reflexivity|].
  destruct (N.eqb_spec x 39) as [->|H39]; [reflexivity|].
  simpl.
  repeat match goal with
         | |- context [N.eqb x ?k] => destruct (N.eqb_spec x k); [contradiction|]; simpl
         end.
  reflexivity.
Qed.

Lemma escape_unit_cases c :
  (is_markup c = false /\ c <> 38%N /\ escape_unit c = [c])
  \/ exists k rest, escape_unit c = 38%N :: k :: rest
                    /\ existsb (N.eqb k) [97; 108; 103; 113; 35]%N = true
                    /\ forallb (fun x => negb (is_markup x)) (38%N :: k :: rest) = true
                    /\ (c = 38%N \/ is_markup c = true)
                    /\ forall c', escape_unit c' = 38%N :: k :: rest -> c' = c.
Proof.
  unfold escape_unit at 1 2, is_markup.
  destruct (N.eqb_spec c 38) as [->|H38]; [right|].
  { eexists _, _. split; [reflexivity|]. repeat split; auto.
    intros c'. unfold escape_unit.
    repeat match goal with
           | |- context [N.eqb c' ?k] =>
               destruct (N.eqb_spec c' k) as [->|?];
               [let H := fresh in
                intros H; cbv in H; first [reflexivity|discriminate H]|]
           end.
    let H := fresh in intros H; cbv in H; discriminate H. }
  destruct (N.eqb_spec c 60) as [->|H60]; [right|].
  { eexists _, _. split; [reflexivity|]. repeat split; auto.
    intros c'. unfold escape_unit.
    repeat match goal with
           | |- context [N.eqb c' ?k] =>
               destruct (N.eqb_spec c' k) as [->|?];
               [let H := fresh in
                intros H; cbv in H; first [reflexivity|discriminate H]|]
           end.
    let H := fresh in intros H; cbv in H; discriminate H. }
  destruct (N.eqb_spec c 62) as [->|H62]; [right|].
  { eexists _, _. split; [reflexivity|]. repeat split; auto.
    intros c'. unfold escape_unit.
    repeat match goal with
           | |- context [N.eqb c' ?k] =>
               destruct (N.eqb_spec c' k) as [->|?];
               [let H := fresh in
                intros H; cbv in H; first [reflexivity|discriminate H]|]
           end.
    let H := fresh in intros H; cbv in H; discriminate H. }
  destruct (N.eqb_spec c 34) as [->|H34]; [right|].
  { eexists _, _. split; [reflexivity|]. repeat split; auto.
    intros c'. unfold escape_unit.
    repeat match goal with
           | |- context [N.eqb c' ?k] =>
               destruct (N.eqb_spec c' k) as [->|?];
               [let H := fresh in
                intros H; cbv in H; first [reflexivity|discriminate H]|]
           end.
    let H := fresh in intros H; cbv in H; discriminate H. }
  destruct (N.eqb_spec c 39) as [->|H39]; [right|].
  { eexists _, _. split; [reflexivity|]. repeat split; auto.
    intros c'. unfold escape_unit.
    repeat match goal with
           | |- context [N.eqb c' ?k] =>
               destruct (N.eqb_spec c' k) as [->|?];
               [let H := fresh in
                intros H; cbv in H; first [reflexivity|discriminate H]|]
           end.
    let H := fresh in intros H; cbv in H; discriminate H. }
  left. auto.
Qed.

Lemma escape_unit_step x y ta tb :
  (escape_unit x ++ ta = escape_unit y ++ tb)%list -> x = y /\ ta = tb.
Proof.
  unfold escape_unit.
  repeat match goal with
         | |- context [N.eqb x ?k] => destruct (N.eqb_spec x k) as [->|?]
         end;
    repeat match goal with
           | |- context [N.eqb y ?k] => destruct (N.eqb_spec y k) as [->|?]
           end;
    intros H; cbv in H;
    first [ discriminate H
          | injection H; intros; subst;
            first [contradiction | split; reflexivity | congruence] ].
Qed.

Lemma escape_unit_length c : (1 <= List.length (escape_unit c))%nat.
Proof.
  unfold escape_unit.
  repeat match goal with
         | |- context [if ?b then _ else _] => destruct b
         end; simpl; lia.
Qed.

Lemma escaped_length s : (List.length s <= List.length (flat_map escape_unit s))%nat.
Proof.
  induction s as [|c s IH]; simpl; [lia|].
  rewrite length_app. pose proof (escape_unit_length c). lia.
Qed.

(** X24: [escapeHtml] replaces each code unit on its own: the later
    replacements never touch what an earlier one wrote.  Its result holds no
    angle bracket, no double quote and no apostrophe; two texts with the
    same result are equal; the result of a concatenation is the
    concatenation of the results; and a text is left as it is exactly when
    it holds none of the five characters. *)
Theorem escapeHtml_safe :
  (forall s, Share.escapeHtml s = flat_map escape_unit s)
  /\ (forall s c, In c (Share.escapeHtml s) -> is_markup c = false)
  /\ (forall a b, Share.escapeHtml a = Share.escapeHtml b -> a = b)
  /\ (forall a b,
        Share.escapeHtml (a ++ b) = (Share.escapeHtml a ++ Share.escapeHtml b)%list)
  /\ (forall s,
        Share.escapeHtml s = s <->
        forallb (fun c => negb (is_markup c || (c =? 38)%N)) s = true).
Proof.
  split; [exact escapeHtml_units|]. split; [|split; [|split]].
  - intros s c. rewrite escapeHtml_units. intros H.
    apply in_flat_map in H as [x [_ Hx]].
    destruct (escape_unit_cases x) as [[Hm [_ E]]|[k [rest [E [_ [Hall _]]]]]];
      rewrite E in Hx.
    + destruct Hx as [<-|[]]. exact Hm.
    + rewrite forallb_forall in Hall. apply negb_true_iff. now apply Hall.
  - intros a b. rewrite !escapeHtml_units. revert b.
    induction a as [|x a IH]; intros [|y b] H; simpl in H.
    + reflexivity.
    + pose proof (escape_unit_length y) as Hl.
      apply (f_equal (@List.length N)) in H. rewrite length_app in H. simpl in H. lia.
    + pose proof (escape_unit_length x) as Hl.
      apply (f_equal (@List.length N)) in H. rewrite length_app in H. simpl in H. lia.
    + apply escape_unit_step in H as [-> H]. f_equal. now apply IH.
  - intros a b. rewrite !escapeHtml_units. apply flat_map_app.
  - intros s. rewrite escapeHtml_units. induction s as [|c s IH]; simpl.
    + split; reflexivity.
    + destruct (escape_unit_cases c) as [[Hm [Hn E]]|[k [rest [E [_ [_ [Hc _]]]]]]];
        rewrite E.
      * apply N.eqb_neq in Hn. rewrite Hm, Hn. simpl. rewrite <- IH.
        split; [intros [= H]; exact H|intros ->; reflexivity].
      * assert (Hfalse : negb (is_markup c || (c =? 38)%N) = false).
        { destruct Hc as [->|Hc]; [reflexivity|]. now rewrite Hc. }
        rewrite Hfalse. simpl. split; [|discriminate].
        intros H. exfalso. injection H as _ H.
        apply (f_equal (@List.length N)) in H.
        cbn [List.length] in H. rewrite length_app in H.
        pose proof (escaped_length s). lia.
Qed.

Lemma escapeHtml_safe_witness :
  is_markup 38%N = false
  /\ Share.escapeHtml (jsq "<b class='x'>Fish & Chips</b>")
     <> jsq "<b class='x'>Fish & Chips</b>".
Proof.
  destruct escapeHtml_safe as [_ [H1 [_ [_ H2]]]].
  split.
  - exact (H1 (jsq "<b class='x'>Fish & Chips</b>") 38%N
             (or_introl eq_refl)).
  - intros E. apply H2 in E. discriminate E.
Defined.

(* ================================================================== *)
(** ** The delivery of email/share *)
(* ================================================================== *)

Ltac by_cases_of_delivery env c :=
  unfold Share.deliver;
  destruct (configured (Share.RESEND_TOKEN env));
  destruct (configured (Share.BREVO_API_KEY env));
  destruct (Share.resend c) as [[? ?|? ?]|[|] [?|[? ?|? ?]]];
  try reflexivity;
  destruct (Share.brevo c) as [[? ?|? ?]|[|] [?|[? ?|? ?]]];
  reflexivity.

Lemma deliver_calls env c :
  snd (Share.deliver env c)
  = ((if configured (Share.RESEND_TOKEN env) then [Share.Resend] else [])
     ++ (if negb (configured (Share.RESEND_TOKEN env)
                  && answered_ok (Share.resend c))
             && configured (Share.BREVO_API_KEY env)
         then [Share.Brevo] else []))%list.
Proof. by_cases_of_delivery env c. Qed.

Lemma deliver_sent env c :
  Share.emailSent (fst (Share.deliver env c))
  = configured (Share.RESEND_TOKEN env) && answered_ok (Share.resend c)
    || negb (configured (Share.RESEND_TOKEN env) && answered_ok (Share.resend c))
       && configured (Share.BREVO_API_KEY env)
       && answered_ok (Share.brevo c).
Proof. by_cases_of_delivery env c. Qed.

Lemma deliver_no_message env c :
  configured (Share.BREVO_API_KEY env) = false ->
  (configured (Share.RESEND_TOKEN env) = false
   \/ exists code,
       Share.resend c = Share.FetchRejects (Routes.AnError [] code)) ->
  Share.emailSent (fst (Share.deliver env c)) = false
  /\ Share.errorMessage (fst (Share.deliver env c)) = [].
Proof.
  intros Eb H. unfold Share.deliver. rewrite Eb.
  destruct (configured (Share.RESEND_TOKEN env)).
  - destruct H as [H|[code H]]; [discriminate H|]. rewrite H. split; reflexivity.
  - split; reflexivity.
Qed.

(** X25: the delivery of the share route, for an authorised user and a
    body that is not null.  A body that fails the two checks is answered with
    400 after the call of [requireAuth] alone.  Otherwise Resend is called
    exactly when its token is set, and Brevo exactly when its key is set and
    Resend was not called or did not answer ok; the status is 200 exactly
    when a called service answered ok, and 500 otherwise.  The text No email
    service configured is answered when no service is configured, and also
    when only Resend is configured and its call failed with an error of
    empty message. *)
Theorem share_delivery body env c userId :
  Share.requireAuth c = Routes.Ok (Routes.Granted userId) ->
  body <> JNull ->
  (valid_share body = false ->
   exists r, Share.share body env c = Some (r, [Share.RequireAuth])
             /\ status r = 400%Z)
  /\ (valid_share body = true ->
      Share.renders body c = true ->
      let sent_by_resend :=
        configured (Share.RESEND_TOKEN env) && answered_ok (Share.resend c) in
      let brevo_called :=
        negb sent_by_resend && configured (Share.BREVO_API_KEY env) in
      exists r,
        Share.share body env c
        = Some (r,
                (Share.RequireAuth
                 :: (if configured (Share.RESEND_TOKEN env)
                     then [Share.Resend] else [])
                 ++ (if brevo_called then [Share.Brevo] else []))%list)
        /\ status r
           = (if sent_by_resend || brevo_called && answered_ok (Share.brevo c)
              then 200%Z else 500%Z)
        /\ (configured (Share.BREVO_API_KEY env) = false ->
            (configured (Share.RESEND_TOKEN env) = false
             \/ exists code,
                 Share.resend c = Share.FetchRejects (Routes.AnError [] code)) ->
            r = jsonResponse
                  (error_body "Failed to send email: No email service configured")
                  (Some 500%Z))).
Proof.
  intros Ha Hnull. unfold valid_share, Share.share. rewrite Ha.
  assert (Hn : match body with JNull => true | _ => false end = false)
    by (destruct body; try reflexivity; contradiction).
  rewrite Hn.
  destruct (Share.missing (get_prop body "recipeId")
            || Share.missing (get_prop body "recipeTitle")
            || Share.missing (get_prop body "recipientEmail")); cbn [negb andb].
  { split; [intros _; eexists; split; reflexivity|discriminate]. }
  assert (E : match get_prop body "recipientEmail" with
              | Some (JStr recipientEmail) =>
                  negb (Share.test Share.emailRegex recipientEmail)
              | _ => true
              end
              = negb match get_prop body "recipientEmail" with
                     | Some (JStr recipientEmail) =>
                         Share.test Share.emailRegex recipientEmail
                     | _ => false
                     end)
    by (destruct (get_prop body "recipientEmail") as [[| | | | |?| |]|]; reflexivity).
  rewrite E. clear E.
  destruct (match get_prop body "recipientEmail" with
            | Some (JStr recipientEmail) => Share.test Share.emailRegex recipientEmail
            | _ => false
            end); cbn [negb].
  2: { split; [intros _; eexists; split; reflexivity|discriminate]. }
  split; [discriminate|]. intros _ Hr. rewrite Hr. cbn [negb].
  pose proof (deliver_calls env c) as Hc.
  pose proof (deliver_sent env c) as Hs.
  pose proof (deliver_no_message env c) as Hm.
  destruct (Share.deliver env c) as [st calls]. cbn [fst snd] in Hc, Hs, Hm.
  eexists. split; [rewrite Hc; reflexivity|]. split.
  - rewrite Hs.
    destruct (configured (Share.RESEND_TOKEN env) && answered_ok (Share.resend c)
              || negb (configured (Share.RESEND_TOKEN env)
                       && answered_ok (Share.resend c))
                 && configured (Share.BREVO_API_KEY env)
                 && answered_ok (Share.brevo c)); reflexivity.
  - intros Eb H. destruct (Hm Eb H) as [-> ->]. reflexivity.
Qed.

Lemma share_delivery_witness :
  exists r,
    Share.share sample_share (Share.mkEnv (Some (js "re_1")) (Some (js "xkeysib")))
      (sample_mailer (Share.FetchAnswers false (Routes.Ok None))
         (Share.FetchAnswers true (Routes.Ok None)))
    = Some (r, [Share.RequireAuth; Share.Resend; Share.Brevo])
    /\ status r = 200%Z.
Proof.
  destruct (proj2 (share_delivery sample_share
                     (Share.mkEnv (Some (js "re_1")) (Some (js "xkeysib")))
                     (sample_mailer (Share.FetchAnswers false (Routes.Ok None))
                        (Share.FetchAnswers true (Routes.Ok None)))
                     (js "user-1") eq_refl ltac:(discriminate))
              ltac:(vm_compute; reflexivity) ltac:(vm_compute; reflexivity))
    as [r [H1 [H2 _]]].
  exists r. split; [exact H1|exact H2].
Defined.
